(* ===== verification/_CoqProject ===== *)
-Q . S2P
Prelude.v
ByteOrder.v
LengthPrefix.v
Envelope.v
Fragment.v
Fragmenter.v
Reassembler.v
ReassemblerSpec.v
FragmentPayload.v
FragmentAdapter.v
MessageSeries.v
MessageAssembly.v
AssemblyCorrectness.v
Budgets.v
Inbound.v
InboundCorrectness.v
Mpsc.v
Fairness.v
ConnectionActor.v
ActorCorrectness.v
ActorDelivery.v
Push.v
PushCorrectness.v
AsyncIo.v
Preamble.v
FrameCodec.v
ExampleCodecs.v
LengthDelimited.v
RespCodec.v
RespCorrectness.v
RespIncremental.v
RespStream.v
ClientError.v
Client.v
ClientCorrectness.v
PoolScheduler.v
PoolFairness.v
PoolTask.v
PoolWorld.v
PoolLease.v
PoolLeaseSafety.v
PoolLeaseLiveness.v
ConnectionSpawner.v
Server.v
ServerCorrectness.v
ConnectionModel.v
Session.v
Routing.v
AppData.v
Metrics.v
ClientBuilder.v
Serializer.v
ServerConfig.v
Hooks.v
AppConnection.v
TestKit.v
TestCodec.v
TestAssert.v
Benchmarks.v
CodecStreams.v
EndToEnd.v
TestingDrive.v
CodecFixtures.v
ExamplePrograms.v
Observability.v
PushBench.v
TestHelpers.v
