(* ===== verification/Prelude.v ===== *)
(** * Wireframe: a verification of its protocol core

    Wireframe ([src/Cargo.toml], crate [wireframe]) is a Rust library for
    servers and clients of framed binary protocols.  A connection reads frames
    whose length is given by a prefix, decodes an [Envelope] from each, rebuilds
    packets that were split into fragments, rebuilds messages that a protocol
    split into frames, checks the memory these hold against budgets, dispatches
    the result to a handler behind middleware, and sends the handler's response
    back the same way.  Beside it a connection actor merges what background
    tasks push to a connection with streamed responses.  Around the connection
    are a server, which accepts connections, reads their preamble and drains
    them on shutdown, and a client, which calls a server over one connection or
    over a pool of them that many sessions share.

    ** The parts, and where they are modelled

    (Paths are under [src/src/].)

    - [Prelude] (this file): results and the [?] operator, machine integers,
      slices, big- and little-endian byte strings, sums over maps and lists,
      runs of transition functions, the hint databases [wf] and [len].
    - [ByteOrder], [LengthPrefix]: [byte_order.rs], [frame/conversion.rs],
      [frame/format.rs].  The length prefix of a frame.
    - [Envelope]: [app/envelope.rs], the traits [Packet], [CorrelatableFrame]
      and [Fragmentable] as type classes with their laws.
    - [Fragment], [Fragmenter], [Reassembler], [FragmentPayload],
      [FragmentAdapter]: [fragment/].  Splitting packets and rebuilding them,
      the fragment's representation on the wire, and the adapter that composes
      them.  [ReassemblerSpec] is the abstract specification of the reassembler.
    - [MessageSeries], [MessageAssembly]: [message_assembler/].  Assembly of the
      messages a protocol splits into first and continuation frames;
      [AssemblyCorrectness] has the theorems.
    - [Budgets]: [app/memory_budgets.rs], [app/builder_defaults.rs],
      [app/frame_handling/backpressure.rs].  Memory caps and back-pressure.
    - [Inbound]: [app/frame_handling/], [app/codec_driver.rs],
      [app/outbound_encoding.rs], [app/inbound_handler/].  The read loop of a
      connection, from a decoded frame to the written response;
      [InboundCorrectness] has the theorems.
    - [Mpsc]: the interface of [tokio::sync::mpsc], on which the rest builds.
    - [Fairness], [ConnectionActor]: [fairness.rs], [connection/].  The actor's
      event loop; the theorems are in [ActorCorrectness] (when it ends) and
      [ActorDelivery] (what it emits).
    - [Push]: [push/queues/].  The push queues, their handle, the dead-letter
      queue; [PushCorrectness] has the theorems.
    - [AsyncIo], [Preamble]: [rewind_stream.rs], [preamble/].  Reading and
      writing a preamble, and giving back the bytes read too many.
    - [FrameCodec], [LengthDelimited], [ExampleCodecs]: [codec/], [error.rs],
      [app/combined_codec.rs].  The codec trait, its errors and recovery
      policies, the default codec with its end-of-stream diagnosis, and the two
      codecs of [codec/examples.rs].
    - [CodecStreams]: [client/codec_config.rs], the codec a client's
      configuration builds, and streams of frames over every codec of the
      repository.
    - [RespCodec]: [../examples/resp_codec_impl/].  The RESP codec; the theorems
      are in [RespCorrectness], [RespIncremental] and [RespStream].
    - [ClientError], [Client]: [client/].  Calls, correlated calls, streamed
      requests and responses, hooks, the preamble exchange;
      [ClientCorrectness] has the theorems.
    - [PoolScheduler]: [client/pool/scheduler/], [client/pool/core.rs].  The
      actor that hands out the pool's permits; [PoolFairness] (its queues),
      [PoolTask] (a turn of its loop) and [PoolWorld] (any run of it with its
      callers) have the theorems.
    - [PoolLease]: [client/pool/lease.rs], [slot.rs], [managed.rs],
      [manager.rs].  Leases that share a socket; the theorems are in
      [PoolLeaseSafety] and [PoolLeaseLiveness].
    - [ConnectionSpawner], [Server]: [server/].  A connection's task from its
      preamble to its application, the accept loops, the supervisor and the
      shutdown handle; [ServerCorrectness] has the theorems.
    - [Session]: [session.rs].  The registry of weak push handles.
    - [Routing]: [middleware.rs], [app/builder/], [app/prepared_app.rs].  The
      builder, and the chains of middleware it prepares for its routes; a
      middleware's [transform] may itself act on the application's world.
    - [AppData]: [app_data_store.rs], [extractor/], the request parts of
      [request/mod.rs].
    - [ConnectionModel]: [../crates/wireframe-verification/], the transition
      system the repository explores with its model checker.
    - [Metrics]: [metrics/], [panic.rs], [benchmark_counters.rs],
      [connection/counter.rs].  The metrics as samples with their keys and
      labels, the guards that emit them, the gauge of active connections.
    - [ClientBuilder]: [client/builder/], [client/config.rs],
      [client/preamble_builder.rs], [client/tracing_*.rs].  The client's
      configuration, its socket options, spans and timings.
    - [Serializer]: [message.rs], [serializer.rs],
      [app/outbound_response.rs].  Messages, the default serializer, and the
      helpers that send a response without going through a handler.
    - [ServerConfig]: [server/mod.rs], [server/config/].  Application
      factories, the server's settings, binding, the start of a run.
    - [Hooks]: [hooks.rs], [response.rs], the streams of [request/mod.rs].
      Protocol hooks, responses and the streams they become, body channels.
    - [AppConnection]: [app/prepared_app.rs], [app/inbound_handler/mod.rs].
      The entry points of a connection, with and without a prepared
      application.
    - [TestKit], [TestCodec], [TestAssert]: [testkit/].  The in-memory drivers
      that run an application under test, their variants that know the codec,
      and the assertions on fragments and messages.
    - [Benchmarks]: [../wireframe_testing/src/runtime_ownership_benchmarks/],
      [benchmark_alloc_support/].  Workloads, the latency distribution, the
      window that counts allocations.  [PushBench]: its
      [push_benchmark_support/], the scenarios that push into full and empty
      queues and what they measure.
    - [EndToEnd] has no source of its own: it composes [Client],
      [CodecStreams], [LengthDelimited], [Serializer] and [Inbound] into a
      remote call.
    - [TestingDrive], [CodecFixtures]: [../wireframe_testing/src/helpers/].
      The testing crate's own drivers, and the raw frames it feeds a codec.
    - [TestHelpers]: [test_helpers/], [../wireframe_testing/src/echo_server.rs].
      The test protocol's headers, its codec, the modes of the echo server.
    - [Observability]: [../wireframe_testing/src/observability/], [logging.rs].
      Snapshots of recorded metrics and logs, and the assertions on them.
    - [ExamplePrograms]: [../examples/].  The protocols of the example
      programs.

    ** How code becomes definitions

    A method that takes [&mut self] returns the new state with its result;
    [Result] is [result], and a panic is [None].  Integers are [Z] with the
    wrapping, checked and saturating operations the code uses written out.  A
    [HashMap] is a [gmap].  Clock readings are arguments, in the order the code
    takes them.  Logging is left out; the metrics of [Metrics],
    [AppConnection] and [Serializer] are lists of samples, elsewhere they are
    left out.

    What is not in the repository is a type class with its documented behaviour
    as a second class of laws, and an instance that shows that the laws can
    hold: [BytesCrate] ([reference_bytes]), [Bincode] ([varint_bincode]), [Mpsc]
    ([list_mpsc]), [Itoa] ([reference_itoa]), [TokioLengthDelimited] (tokio-util's
    length-delimited codec for any width, byte order and maximum;
    [reference_length_delimited]), [BincodePreamble] ([CountedBytes]) and
    [BincodeMessage] ([bytes_message], and [varint_envelope] for envelopes),
    both of which count what decoding a value costs against bincode's limit,
    which need not be the length of its encoding,
    [DebuggingRecorder] ([log_recorder]), [LoginContract] (an
    acknowledgement is read from the bytes of a login), [StreamReader] (tokio-util's reader over
    a stream of chunks), [EofCodec] (a decoder's answer at the end of the
    stream) and [AsyncRead] (a script of reads).  What an application supplies (serializer, codec, header
    parser, transport, hooks, handlers, streams) is a class too: [Externals] and
    [ConnectionActor]'s [Actor]; [RateLimiting] stands for the rate limiter, and
    [Handler] for the application a test drives, which may also return before it
    has read everything.  The operating system's
    listeners, the answers of sockets to options and the texts of [Debug] are
    arguments of the definitions that use them.

    Concurrency is explicit: [Push.route_step] and [Push.push_step] go from one
    atomic operation to the next and run in any interleaving
    ([PushCorrectness.routing_step], [pushing_step]); a run of the actor
    ([ActorCorrectness.reachable]) allows any change to its channels, stream and
    token between two polls.  The server ([Server.step]), a pool slot with its
    leases ([PoolLease.step]), the pool's scheduler with its callers
    ([PoolWorld.world_step]), a test drive ([TestKit.drive_step],
    [TestingDrive.client_step]), a push benchmark ([PushBench.bench_step]) and
    the session registry ([Session.step]) are
    transition systems whose events are what happens between two awaits, or the
    atomic methods of a concurrent map, in any order.

    ** Fuel and bounds

    [Fragmenter.build_loop] gets one unit more than the payload has bytes, and
    is shown to need no more.  [Push.recv_poll] needs three rounds.
    [ConnectionActor.run_loop] counts polls, and [shutdown_drains_queues] says
    how many are enough.  The preamble's read loop gets a unit for every byte
    it may read ([read_preamble_finishes]); [Client.send_streaming] counts its
    reads, and [send_streaming_cuts_body] says how many are enough;
    [Client.typed_poll_next] needs one round more than the response has items
    ([streaming_response_matches_spec]); the loops of the pool's scheduler get the number of its waiters, which every round lowers;
    the RESP parser recurses to the depth limit the code has;
    [PushBench.await_push] polls four times, which a push to a queue with
    room needs at most, and the loops that empty a queue or a buffer
    ([PushBench.drain_dlq], [TestingDrive.decode_frames_go]) get a unit for
    every element it can hold.  Every other
    recursion is structural.

    ** What is shown

    - Fragmentation: a packet that one adapter splits another rebuilds
      ([packet_round_trip]), the reassembler refines its specification
      ([push_at_refines]), delivers only what was sent
      ([delivered_messages_were_sent]), keeps its limits and isolates messages;
      the fragmenter's chunks are exactly the payload
      ([fragment_with_id_correct]); the wire format round-trips and fits the
      frame budget.
    - Message assembly: delivered messages were sent, well-sent messages are
      delivered, limits hold, refusals are contained.
    - The inbound pipeline: a response reaches the peer's dispatch
      ([response_reaches_peer]); malformed input closes the connection at the
      tenth failure; the budgets keep the hard cap out of reach; teardown runs.
    - The actor: its loop ends exactly when its last source is gone and never
      spins (unless its low queue was taken away), drains the queues on
      shutdown, gives low-priority frames their turn, stamps multi-packet frames
      and announces the end of a command once.
    - The push queues: where each pushed frame goes, no loss uncounted or
      counted twice under concurrency, receiving by priority, exact wait
      counters.
    - Length prefixes: round trip and exact errors.
    - Codecs: any stream of frames survives any cutting into reads, for the
      default codec, the client's codec in every length format, Hotline, MySQL
      and RESP ([frames_survive_any_chunking]);
      for RESP, measure and emission agree, encoding and decoding are inverse,
      the decoder's answers are final and what it accepts can be encoded again.
    - The preamble: what is written is read, and no later byte is lost.
    - The client: correlation of calls and of streamed responses, the cutting of
      a streamed body, one call of the error hook for each failure of an
      operation that calls it.
    - The pool: every caller is answered once, the limits of sockets and waiters
      hold, closing answers everyone, round robin starves nobody, and a reply
      never reaches a lease that did not ask for it.
    - The server: a clean [drained] means that every accept loop and connection
      has ended; a stop request always can be carried through; the ways a
      connection's task ends.
    - Sessions that are alive are found; middleware runs in the order of its
      registration; a request's data is well typed; the properties the
      repository's model checker explores to six steps hold at every depth.
    - A response sent directly reaches the peer as the message it was
      ([send_response_reaches_peer]); a streamed response arrives whole
      ([streamed_response_arrives]) and so does a streamed request body
      ([request_body_read_whole]); the hooks made from a protocol are that
      protocol ([hooks_are_the_protocol]); preparing an application changes
      nothing but when the middleware is built, and how often
      ([prepared_app_serves_alike]).
    - A configured server starts with sound settings, the last ones asked for
      ([configured_server_starts_sound]), a pre-built application once
      ([prebuilt_app_runs_once]); the calls of the client's builder commute
      but for the ones named ([builder_call_order]); every race for a permit
      is counted once ([races_are_accounted_for]).
    - The test kit: a drive always ends, with the handler's answer, or
      with a broken pipe if the handler returns before it has read everything
      ([drive_ends_with_answer]), whichever driver is used ([drivers_agree]);
      a codec-aware test sees the frames that were sent
      ([tests_see_sent_frames]); an assertion passes only when what it says
      happened; a benchmark reports the distribution it measured
      ([latency_distribution_exact]).
    - A remote call is a local call: the client's request, through codec,
      serializer, pipeline and back, gives the handler's own answer
      ([remote_calls_are_local_calls]).
    - The testing crate: a client that writes before it reads ends when the
      transport can hold the answers ([sequential_drive_ends]); the fixtures
      make the codec fail as they say ([hotline_fixtures_behave]); messages of
      the test protocol are assembled as they were built
      ([test_messages_assemble], [test_headers_round_trip]); the assertions on
      metrics and logs are exact ([observability_assertions_exact]); a push
      benchmark validates and measures what it says ([push_benchmark_valid],
      [push_measurement_totals]).
    - The examples: a ping is answered by its successor ([ping_pong_answers]),
      and a transcript is logged in its order
      ([multi_packet_logs_transcript]).
    - Some theorems record behaviour that differs from what the code's comments
      say or that a caller may not expect: [wrong_length_keeps_assembly],
      [marker_collision_swallows], [removed_low_queue_never_finishes],
      [overhead_is_not_a_ceiling], [accepted_width_may_be_unusable],
      [eof_after_header_is_misread], [line_break_splits_frame],
      [large_array_is_written_but_refused], [cancelled_operation_wedges_lease],
      [reaper_loses_the_reply], [fairness_flag_is_inert],
      [sequential_drive_deadlocks], [unread_frame_may_break_drive],
      [metadata_header_is_ignored]; and so do parts of [ping_pong_answers] and
      [errors_reach_the_hook_once].

    ** What is not modelled

    Logging itself; the servers and clients that tests start over real sockets
    ([../wireframe_testing/src/client_pair.rs], [integration_helpers.rs],
    [test_helpers/pool_client.rs] and the start of a connection in the
    benchmarks), which only wire modelled parts to the operating system; the
    timing and the reports of real benchmark runs, and the benchmarks of
    codecs, actor drains and startup, whose results are timings; the [main]
    functions of the examples; the files of the testing crate that are not
    modules of it ([helpers/slow_io.rs], [partial_frame.rs],
    [fragment_drive.rs]); the repository's tests and its loom harness.

    Of the parts modelled, log events and the sockets themselves are
    left out; a parked [send] in [Push] is polled against the queue's free
    slots, without tokio's waiting list. *)

From stdpp Require Export base option list numbers gmap strings.
From stdpp Require Import fin_maps.

(** ** Results and propagation of errors

    Rust's [Result<A, E>], and the [?] operator as a notation in a scope of
    its own. *)

Inductive result (A E : Type) : Type :=
  | Ok (a : A)
  | Err (e : E).
Arguments Ok {A E} a.
Arguments Err {A E} e.

Declare Scope rust_scope.
Delimit Scope rust_scope with rust.

Notation "'let?' x ':=' e 'in' k" :=
  (match e with Ok x => k | Err err_ => Err err_ end)
  (at level 10, x name, e at level 100, k at level 200) : rust_scope.
Notation "'let?' ' p ':=' e 'in' k" :=
  (match e with Ok p => k | Err err_ => Err err_ end)
  (at level 10, p strict pattern, e at level 100, k at level 200) : rust_scope.

Definition is_ok {A E} (r : result A E) : bool :=
  match r with Ok _ => true | Err _ => false end.

Definition ok_or {A E} (o : option A) (e : E) : result A E :=
  match o with Some a => Ok a | None => Err e end.

Definition map_err {A E E'} (f : E -> E') (r : result A E) : result A E' :=
  match r with Ok a => Ok a | Err e => Err (f e) end.

#[export] Instance result_eq_dec {A E} `{EqDecision A} `{EqDecision E} :
  EqDecision (result A E).
Proof. solve_decision. Defined.

(** ** [std::io] errors *)

Inductive ErrorKind : Type :=
  | InvalidInput
  | InvalidData
  | UnexpectedEof
  | TimedOut
  | BrokenPipe
  | ErrorKindOther.

Record io_error : Type := mk_io_error {
  kind : ErrorKind;
  message : string
}.

#[export] Instance ErrorKind_eq_dec : EqDecision ErrorKind.
Proof. solve_decision. Defined.
#[export] Instance io_error_eq_dec : EqDecision io_error.
Proof. solve_decision. Defined.

(** ** Machine integers

    Unsigned integers are [Z]; each operation of [std] the crate uses is
    written out at its width.  [usize] is 64 bits wide. *)

Open Scope Z_scope.

Definition u8_max : Z := 2 ^ 8 - 1.
Definition u16_max : Z := 2 ^ 16 - 1.
Definition u32_max : Z := 2 ^ 32 - 1.
Definition u64_max : Z := 2 ^ 64 - 1.
Definition u128_max : Z := 2 ^ 128 - 1.
Definition usize_max : Z := u64_max.

Definition checked_add (max a b : Z) : option Z :=
  if decide (a + b <= max) then Some (a + b) else None.
Definition saturating_add (max a b : Z) : Z := Z.min max (a + b).
Definition saturating_mul (max a b : Z) : Z := Z.min max (a * b).
Definition saturating_sub (a b : Z) : Z := Z.max 0 (a - b).
Definition wrapping_add (max a b : Z) : Z := (a + b) mod (max + 1).
Definition wrapping_sub (max a b : Z) : Z := (a - b) mod (max + 1).
Definition try_into (max v : Z) : option Z :=
  if decide (0 <= v <= max) then Some v else None.

(** [Instant::saturating_duration_since] on clock readings. *)
Definition saturating_duration_since (now earlier : Z) : Z :=
  saturating_sub now earlier.

(** ** Slices *)

Definition len {A} (l : list A) : Z := Z.of_nat (length l).

(** [slice.get(a..b)] *)
Definition slice_get {A} (l : list A) (a b : Z) : option (list A) :=
  if decide (0 <= a <= b /\ b <= len l)
  then Some (take (Z.to_nat (b - a)) (drop (Z.to_nat a) l))
  else None.

(** [slice.get(a..)] *)
Definition slice_from {A} (l : list A) (a : Z) : option (list A) :=
  slice_get l a (len l).

(** [slice.get(i)] *)
Definition index_get {A} (l : list A) (i : Z) : option A :=
  if decide (0 <= i) then l !! Z.to_nat i else None.

(** [slice.get_mut(a..b)] followed by [copy_from_slice(src)] with a source of
    the width of the range. *)
Definition slice_put {A} (l : list A) (a b : Z) (src : list A) : option (list A) :=
  if decide (0 <= a <= b /\ b <= len l)
  then Some (take (Z.to_nat a) l ++ src ++ drop (Z.to_nat b) l)
  else None.

Definition is_byte (b : Z) : Prop := 0 <= b < 256.

#[export] Instance is_byte_dec b : Decision (is_byte b).
Proof. unfold is_byte. apply _. Defined.

(** ** Byte strings of a fixed width *)

Fixpoint le_bytes (n : nat) (v : Z) : list Z :=
  match n with
  | O => []
  | S n => v mod 256 :: le_bytes n (v / 256)
  end.

Fixpoint le_value (bs : list Z) : Z :=
  match bs with
  | [] => 0
  | b :: bs => b + 256 * le_value bs
  end.

Definition be_bytes (n : nat) (v : Z) : list Z := reverse (le_bytes n v).
Definition be_value (bs : list Z) : Z := le_value (reverse bs).

(** ** Automation *)

Create HintDb wf discriminated.
Create Rewrite HintDb len.

#[export] Hint Rewrite @length_app @length_nil @length_cons @length_take
  @length_drop @length_reverse @length_replicate Nat2Z.inj_add : len.

(** [len_solve] turns the lengths of the goal into arithmetic for [lia]. *)
Ltac len_solve :=
  unfold len, usize_max, u64_max, u32_max, u16_max, u8_max in *;
  autorewrite with len in *; lia.

(** [case_hyp] and [case_goal] split the innermost [match] or [if decide] of a hypothesis
    or of the goal; [crush_hyp] does so until nothing is left. *)
Ltac case_hyp H :=
  match type of H with
  | context [if decide ?P then _ else _] => destruct (decide P)
  | context [match ?x with _ => _ end] => destruct x eqn:?
  end.
Ltac case_goal :=
  match goal with
  | |- context [if decide ?P then _ else _] => destruct (decide P)
  | |- context [match ?x with _ => _ end] => destruct x eqn:?
  end.
Ltac inv_clear H := inversion H; subst; clear H.
Ltac crush_hyp H := repeat (case_hyp H; simplify_eq/=; try done).

(** ** Facts about the machine-integer operations *)

Lemma checked_add_Some max a b c :
  checked_add max a b = Some c <-> c = a + b /\ a + b <= max.
Proof. unfold checked_add. case_decide; split; intros; simplify_eq; try lia; f_equal; lia. Qed.

Lemma checked_add_None max a b :
  checked_add max a b = None <-> max < a + b.
Proof. unfold checked_add. case_decide; split; intros; try done; lia. Qed.

Lemma try_into_Some max v w :
  try_into max v = Some w <-> w = v /\ 0 <= v <= max.
Proof. unfold try_into. case_decide; split; intros; simplify_eq; try lia; f_equal; lia. Qed.

Lemma saturating_add_exact max a b :
  a + b <= max -> saturating_add max a b = a + b.
Proof. unfold saturating_add. lia. Qed.

Lemma wrapping_sub_exact max a b :
  0 <= b <= a -> a <= max -> wrapping_sub max a b = a - b.
Proof. intros ??. unfold wrapping_sub. apply Z.mod_small. lia. Qed.

(** ** Facts about slices *)

Lemma len_nonneg {A} (l : list A) : 0 <= len l.
Proof. unfold len. lia. Qed.
#[export] Hint Resolve len_nonneg : wf.

Lemma len_app {A} (l k : list A) : len (l ++ k) = len l + len k.
Proof. len_solve. Qed.

Lemma len_zero {A} (l : list A) : len l = 0 <-> l = [].
Proof. destruct l; unfold len; simpl; split; intros; try done; lia. Qed.

Lemma slice_get_all {A} (l : list A) : slice_get l 0 (len l) = Some l.
Proof.
  unfold slice_get. rewrite decide_True by (pose proof (len_nonneg l); lia).
  rewrite drop_0, take_ge; [done|]. len_solve.
Qed.

Lemma slice_get_prefix {A} (l k : list A) : slice_get (l ++ k) 0 (len l) = Some l.
Proof.
  unfold slice_get. rewrite decide_True by len_solve.
  rewrite drop_0, take_app_length'; [done|]. len_solve.
Qed.

Lemma slice_get_middle {A} (l m k : list A) :
  slice_get (l ++ m ++ k) (len l) (len l + len m) = Some m.
Proof.
  unfold slice_get. rewrite decide_True by len_solve.
  rewrite drop_app_length' by len_solve.
  rewrite take_app_length'; [done|]. len_solve.
Qed.

Lemma slice_get_Some_length {A} (l k : list A) a b :
  slice_get l a b = Some k -> len k = b - a /\ 0 <= a <= b /\ b <= len l.
Proof.
  unfold slice_get. case_decide as Hd; [|done]. intros [= <-].
  split; [|tauto]. len_solve.
Qed.

Lemma slice_from_drop {A} (l : list A) a :
  0 <= a <= len l -> slice_from l a = Some (drop (Z.to_nat a) l).
Proof.
  intros Ha. unfold slice_from, slice_get. rewrite decide_True by lia.
  rewrite take_ge; [done|]. len_solve.
Qed.

Lemma slice_put_full {A} (l src : list A) a :
  0 <= a -> a + len src <= len l ->
  slice_put l a (a + len src) src
  = Some (take (Z.to_nat a) l ++ src ++ drop (Z.to_nat (a + len src)) l).
Proof.
  intros ??. unfold slice_put. rewrite decide_True; [done|].
  pose proof (len_nonneg src). lia.
Qed.

Lemma slice_get_bytes (l k : list Z) a b :
  Forall is_byte l -> slice_get l a b = Some k -> Forall is_byte k.
Proof.
  unfold slice_get. case_decide; [|done]. intros Hl [= <-].
  by apply Forall_take, Forall_drop.
Qed.

(** ** Fixed-width codecs *)

Lemma length_le_bytes n v : length (le_bytes n v) = n.
Proof. revert v. induction n; intros v; simpl; [done|]. by rewrite IHn. Qed.

Lemma length_be_bytes n v : length (be_bytes n v) = n.
Proof. unfold be_bytes. by rewrite length_reverse, length_le_bytes. Qed.

#[export] Hint Rewrite length_le_bytes length_be_bytes : len.

Lemma le_bytes_are_bytes n v : Forall is_byte (le_bytes n v).
Proof.
  revert v. induction n; intros v; simpl; constructor; [|done].
  unfold is_byte. apply Z.mod_pos_bound. lia.
Qed.

Lemma be_bytes_are_bytes n v : Forall is_byte (be_bytes n v).
Proof. apply Forall_reverse, le_bytes_are_bytes. Qed.

Lemma pow256_succ (n : nat) : 256 ^ Z.of_nat (S n) = 256 * 256 ^ Z.of_nat n.
Proof. rewrite Nat2Z.inj_succ, Z.pow_succ_r by lia. done. Qed.

Lemma le_value_bytes n v :
  0 <= v < 256 ^ Z.of_nat n -> le_value (le_bytes n v) = v.
Proof.
  revert v. induction n as [|n IH]; intros v Hv; simpl.
  - simpl in Hv. lia.
  - rewrite pow256_succ in Hv. rewrite IH.
    + pose proof (Z.div_mod v 256). lia.
    + split; [apply Z.div_pos; lia|]. apply Z.div_lt_upper_bound; lia.
Qed.

Lemma be_value_bytes n v :
  0 <= v < 256 ^ Z.of_nat n -> be_value (be_bytes n v) = v.
Proof. unfold be_value, be_bytes. rewrite reverse_involutive. apply le_value_bytes. Qed.

Lemma le_value_bound bs :
  Forall is_byte bs -> 0 <= le_value bs < 256 ^ len bs.
Proof.
  induction 1 as [|b bs Hb _ IH]; simpl; [unfold len; simpl; lia|].
  unfold is_byte, len in *. rewrite length_cons, pow256_succ. lia.
Qed.

Lemma be_value_bound bs :
  Forall is_byte bs -> 0 <= be_value bs < 256 ^ len bs.
Proof.
  intros H%Forall_reverse%le_value_bound. unfold be_value.
  unfold len in *. by rewrite length_reverse in H.
Qed.

Lemma le_bytes_value bs :
  Forall is_byte bs -> le_bytes (length bs) (le_value bs) = bs.
Proof.
  induction 1 as [|b bs Hb _ IH]; simpl; [done|]. unfold is_byte in Hb. f_equal.
  - rewrite Z.mul_comm, Z.mod_add by lia. by apply Z.mod_small.
  - rewrite Z.mul_comm, Z.div_add by lia. rewrite Z.div_small by lia. done.
Qed.

Lemma be_bytes_value bs :
  Forall is_byte bs -> be_bytes (length bs) (be_value bs) = bs.
Proof.
  intros H%Forall_reverse%le_bytes_value. unfold be_bytes, be_value.
  rewrite length_reverse in H. by rewrite H, reverse_involutive.
Qed.

(** Padding a little-endian string on the right, or a big-endian one on the
    left, with zero bytes keeps its value. *)
Lemma le_value_app_zeros bs n : le_value (bs ++ replicate n 0) = le_value bs.
Proof.
  induction bs as [|b bs IH]; simpl; [|by rewrite IH].
  induction n as [|n IHn]; simpl; [done|]. by rewrite IHn.
Qed.

Lemma be_value_zeros_app bs n : be_value (replicate n 0 ++ bs) = be_value bs.
Proof.
  unfold be_value. rewrite reverse_app, reverse_replicate. apply le_value_app_zeros.
Qed.

(** The low bytes of a wide encoding are the narrow encoding. *)
Lemma le_bytes_take n m v : (n <= m)%nat -> take n (le_bytes m v) = le_bytes n v.
Proof.
  revert m v. induction n as [|n IH]; intros [|m] v H; simpl; try done; [lia|].
  by rewrite IH by lia.
Qed.

Lemma be_bytes_drop n m v : (n <= m)%nat -> drop (m - n) (be_bytes m v) = be_bytes n v.
Proof.
  intros H. unfold be_bytes. rewrite <- (le_bytes_take n m v H), reverse_take.
  by rewrite length_le_bytes.
Qed.

(** ** Sums over the entries of a map, and [HashMap::retain] *)

Section map_sum.
Context {K A : Type} `{Countable K}.
Implicit Types (f : A -> Z) (m : gmap K A).

Definition map_sum f m : Z := map_fold (fun _ v acc => f v + acc) 0 m.

Lemma map_sum_empty f : map_sum f (∅ : gmap K A) = 0.
Proof. apply map_fold_empty. Qed.

Lemma map_sum_insert f m i x :
  m !! i = None -> map_sum f (<[i:=x]> m) = f x + map_sum f m.
Proof. intros Hi. unfold map_sum. by rewrite map_fold_insert_L by (intros; lia || done). Qed.

Lemma map_sum_delete f m i x :
  m !! i = Some x -> map_sum f (delete i m) = map_sum f m - f x.
Proof.
  intros Hi. rewrite <- (insert_delete_id m i x Hi) at 2.
  rewrite map_sum_insert by apply lookup_delete_eq. lia.
Qed.

Lemma map_sum_update f m i x y :
  m !! i = Some x -> map_sum f (<[i:=y]> m) = map_sum f m - f x + f y.
Proof.
  intros Hi. rewrite <- (insert_delete_eq m i y).
  rewrite map_sum_insert by apply lookup_delete_eq.
  rewrite (map_sum_delete f m i x Hi). lia.
Qed.

Lemma map_sum_nonneg f m : (forall x, 0 <= f x) -> 0 <= map_sum f m.
Proof.
  intros Hf. induction m as [|i x m Hi IH] using map_ind.
  - by rewrite map_sum_empty.
  - rewrite map_sum_insert by done. specialize (Hf x). lia.
Qed.

Lemma map_sum_lookup_le f m i x :
  (forall y, 0 <= f y) -> m !! i = Some x -> f x <= map_sum f m.
Proof.
  intros Hf Hi. pose proof (map_sum_delete f m i x Hi).
  pose proof (map_sum_nonneg f (delete i m) Hf). lia.
Qed.

Lemma map_sum_retain (P : K * A -> Prop) `{!forall x, Decision (P x)} f m :
  map_sum f m
  = map_sum f (filter P m) + map_sum f (filter (fun kv => ~ P kv) m).
Proof.
  induction m as [|i x m Hi IH] using map_ind.
  - by rewrite !map_filter_empty, map_sum_empty.
  - rewrite map_sum_insert by done. destruct (decide (P (i, x))) as [HP|HP].
    + rewrite map_filter_insert_True by done.
      rewrite map_filter_insert_False by tauto.
      rewrite map_sum_insert by (apply map_lookup_filter_None; auto).
      rewrite delete_id by done. lia.
    + rewrite map_filter_insert_False by done.
      rewrite map_filter_insert_True by done.
      rewrite map_sum_insert by (apply map_lookup_filter_None; auto).
      rewrite delete_id by done. lia.
Qed.

(** The keys of the entries that satisfy [P], in the iteration order of the
    map (an order no theorem depends on). *)
Definition keys_where (P : K * A -> Prop) `{!forall x, Decision (P x)} m : list K :=
  (map_to_list (filter P m)).*1.

Lemma elem_of_keys_where (P : K * A -> Prop) `{!forall x, Decision (P x)} m k :
  k ∈ keys_where P m <-> exists x, m !! k = Some x /\ P (k, x).
Proof.
  unfold keys_where. rewrite list_elem_of_fmap. split.
  - intros [[k' x] [-> Hin]]. apply elem_of_map_to_list in Hin.
    apply map_lookup_filter_Some in Hin. eauto.
  - intros [x [Hk HP]]. exists (k, x). split; [done|].
    apply elem_of_map_to_list, map_lookup_filter_Some. done.
Qed.

Lemma NoDup_keys_where (P : K * A -> Prop) `{!forall x, Decision (P x)} m :
  NoDup (keys_where P m).
Proof. apply NoDup_fst_map_to_list. Qed.
End map_sum.

(** ** Sequences of transitions *)

(** The results of [n] steps of which the last delivers [a]. *)
Definition completion {A Er : Type} (n : nat) (a : A) : list (result (option A) Er) :=
  replicate (n - 1) (Ok None) ++ [Ok (Some a)].

Section runs.
Context {S I O : Type} (step : S -> I -> S * O).

(** Run the inputs in order, collecting the outputs. *)
Fixpoint run (s : S) (ins : list I) : S * list O :=
  match ins with
  | [] => (s, [])
  | i :: ins => let '(s1, o) := step s i in let '(s2, os) := run s1 ins in (s2, o :: os)
  end.

Lemma run_app s ins jns :
  run s (ins ++ jns)
  = let '(s1, os) := run s ins in let '(s2, os') := run s1 jns in (s2, os ++ os').
Proof.
  revert s. induction ins as [|i ins IH]; intros s; simpl.
  - by destruct (run s jns).
  - destruct (step s i) as [s1 o]. rewrite IH.
    destruct (run s1 ins) as [s2 os]. by destruct (run s2 jns).
Qed.

Lemma run_length s ins : length (run s ins).2 = length ins.
Proof.
  revert s. induction ins as [|i ins IH]; intros s; simpl; [done|].
  destruct (step s i) as [s1 o]. specialize (IH s1).
  destruct (run s1 ins) as [s2 os]. simpl in *. by rewrite IH.
Qed.

Lemma run_invariant (P : S -> Prop) :
  (forall s i, P s -> P (step s i).1) ->
  forall ins s, P s -> P (run s ins).1.
Proof.
  intros Hstep ins. induction ins as [|i ins IH]; intros s Hs; simpl; [done|].
  pose proof (Hstep s i Hs) as H1. destruct (step s i) as [s1 o]. simpl in H1.
  specialize (IH s1 H1). by destruct (run s1 ins).
Qed.
End runs.

(** ** Sums and selections over lists *)

Definition zsum {A} (g : A -> Z) (l : list A) : Z := foldr (fun x n => g x + n) 0 l.

Lemma zsum_app {A} (g : A -> Z) l k : zsum g (l ++ k) = zsum g l + zsum g k.
Proof. unfold zsum. induction l as [|x l IH]; cbn in *; lia. Qed.

Lemma zsum_insert {A} (g : A -> Z) l i x y :
  l !! i = Some x -> zsum g (<[i := y]> l) = zsum g l - g x + g y.
Proof.
  revert i. induction l as [|z l IH]; intros [|i]; simpl; intros H; try done.
  - injection H as ->. lia.
  - rewrite (IH _ H). lia.
Qed.

Lemma zsum_bound {A} (g : A -> Z) l :
  (forall x, 0 <= g x <= 1) -> 0 <= zsum g l <= len l.
Proof.
  intros Hg. induction l as [|x l IH]; simpl; [done|]. specialize (Hg x).
  unfold len in *. simpl. lia.
Qed.

Lemma zsum_nonneg {A} (g : A -> Z) l : Forall (fun x => 0 <= g x) l -> 0 <= zsum g l.
Proof. induction 1; simpl; lia. Qed.

Lemma zsum_lookup {A} (g : A -> Z) l i x :
  Forall (fun x => 0 <= g x) l -> l !! i = Some x -> g x <= zsum g l.
Proof.
  intros Hf. revert i. induction Hf as [|y l Hy Hl IH]; intros [|i]; simpl; intros H; try done.
  - injection H as ->. pose proof (zsum_nonneg _ _ Hl). lia.
  - specialize (IH _ H). lia.
Qed.

Lemma omap_cons_eq {A B} (g : A -> option B) x (l : list A) :
  omap g (x :: l) = match g x with Some b => b :: omap g l | None => omap g l end.
Proof. done. Qed.

Lemma omap_insert_perm {A B} (g : A -> option B) (l : list A) (i : nat) x y b :
  l !! i = Some x -> g x = None -> g y = Some b -> omap g (<[i := y]> l) ≡ₚ omap g l ++ [b].
Proof.
  intros Hi Hx Hy. revert i Hi. induction l as [|z l IH]; intros [|i] Hi; [done|done| |].
  - injection Hi as ->. change (<[0%nat := y]> (x :: l)) with (y :: l).
    rewrite !omap_cons_eq, Hx, Hy. by rewrite Permutation_cons_append.
  - change (<[S i := y]> (z :: l)) with (z :: <[i := y]> l). rewrite !omap_cons_eq.
    destruct (g z); simpl; by rewrite (IH _ Hi).
Qed.

Lemma omap_insert_same {A B} (g : A -> option B) (l : list A) (i : nat) x y :
  l !! i = Some x -> g y = g x -> omap g (<[i := y]> l) = omap g l.
Proof.
  intros Hi Hg. revert i Hi. induction l as [|z l IH]; intros [|i] Hi; [done|done| |].
  - injection Hi as ->. change (<[0%nat := y]> (x :: l)) with (y :: l).
    by rewrite !omap_cons_eq, Hg.
  - change (<[S i := y]> (z :: l)) with (z :: <[i := y]> l). rewrite !omap_cons_eq.
    by rewrite (IH _ Hi).
Qed.

(** ** Interleavings *)

(** [zs] takes its elements from [xs] and [ys], keeping the order of each. *)
Inductive interleave {A : Type} : list A -> list A -> list A -> Prop :=
  | il_nil : interleave [] [] []
  | il_left x xs ys zs : interleave xs ys zs -> interleave (x :: xs) ys (x :: zs)
  | il_right y xs ys zs : interleave xs ys zs -> interleave xs (y :: ys) (y :: zs).

Lemma interleave_perm {A} (xs ys zs : list A) : interleave xs ys zs -> zs ≡ₚ xs ++ ys.
Proof.
  induction 1 as [|x xs ys zs _ IH|y xs ys zs _ IH]; [done| |].
  - simpl. by rewrite IH.
  - by rewrite IH, Permutation_middle.
Qed.
