(* ===== verification/ByteOrder.v ===== *)
(** * Network byte order

    [src/src/byte_order.rs]: the six fixed-width conversions between integers
    and their big-endian wire representation.

    The code writes through [bytes::BufMut] and reads through [bytes::Buf],
    which are not part of the repository: their operations are the fields of
    the class [BytesCrate], and [BytesCrateLaws] states their documentation
    ("Writes an unsigned 16 bit integer to [self] in the big-endian byte
    order", and so on).  [reference_bytes] is an implementation that satisfies
    the laws. *)

From S2P Require Import Prelude.

(** ** The operations of the [bytes] crate the code calls *)

Class BytesCrate : Type := {
  put_u16 : Z -> list Z;
  put_u32 : Z -> list Z;
  put_u64 : Z -> list Z;
  get_u16 : list Z -> Z;
  get_u32 : list Z -> Z;
  get_u64 : list Z -> Z;
  get_u64_le : list Z -> Z
}.

Class BytesCrateLaws (B : BytesCrate) : Prop := {
  put_u16_be v : 0 <= v <= u16_max -> put_u16 v = be_bytes 2 v;
  put_u32_be v : 0 <= v <= u32_max -> put_u32 v = be_bytes 4 v;
  put_u64_be v : 0 <= v <= u64_max -> put_u64 v = be_bytes 8 v;
  get_u16_be bs : len bs = 2 -> get_u16 bs = be_value bs;
  get_u32_be bs : len bs = 4 -> get_u32 bs = be_value bs;
  get_u64_be bs : len bs = 8 -> get_u64 bs = be_value bs;
  get_u64_le_le bs : len bs = 8 -> get_u64_le bs = le_value bs
}.

Definition reference_bytes : BytesCrate := {|
  put_u16 := be_bytes 2;
  put_u32 := be_bytes 4;
  put_u64 := be_bytes 8;
  get_u16 := be_value;
  get_u32 := be_value;
  get_u64 := be_value;
  get_u64_le := le_value
|}.

Lemma reference_bytes_laws : BytesCrateLaws reference_bytes.
Proof. by split. Qed.

(** ** [byte_order.rs] *)

Section byte_order.
Context {B : BytesCrate}.

Definition write_network_u16 (value : Z) : list Z := put_u16 value.
Definition read_network_u16 (bytes : list Z) : Z := get_u16 bytes.
Definition write_network_u32 (value : Z) : list Z := put_u32 value.
Definition read_network_u32 (bytes : list Z) : Z := get_u32 bytes.
Definition write_network_u64 (value : Z) : list Z := put_u64 value.
Definition read_network_u64 (bytes : list Z) : Z := get_u64 bytes.

Context {BL : BytesCrateLaws B}.

Lemma write_network_u16_bytes v :
  0 <= v <= u16_max -> write_network_u16 v = be_bytes 2 v.
Proof. apply put_u16_be. Qed.

Lemma write_network_u64_bytes v :
  0 <= v <= u64_max -> write_network_u64 v = be_bytes 8 v.
Proof. apply put_u64_be. Qed.

Lemma read_network_u16_value bs : len bs = 2 -> read_network_u16 bs = be_value bs.
Proof. apply get_u16_be. Qed.

Lemma read_network_u64_value bs : len bs = 8 -> read_network_u64 bs = be_value bs.
Proof. apply get_u64_be. Qed.

(** Writing and reading an integer is the identity, at each width. *)
Lemma network_u16_round_trip v :
  0 <= v <= u16_max -> read_network_u16 (write_network_u16 v) = v.
Proof.
  intros Hv. rewrite write_network_u16_bytes by done.
  rewrite read_network_u16_value by len_solve.
  apply be_value_bytes. unfold u16_max in Hv. lia.
Qed.

Lemma network_u32_round_trip v :
  0 <= v <= u32_max -> read_network_u32 (write_network_u32 v) = v.
Proof.
  intros Hv. unfold read_network_u32, write_network_u32.
  rewrite put_u32_be by done. rewrite get_u32_be by len_solve.
  apply be_value_bytes. unfold u32_max in Hv. lia.
Qed.

Lemma network_u64_round_trip v :
  0 <= v <= u64_max -> read_network_u64 (write_network_u64 v) = v.
Proof.
  intros Hv. rewrite write_network_u64_bytes by done.
  rewrite read_network_u64_value by len_solve.
  apply be_value_bytes. unfold u64_max in Hv. lia.
Qed.
End byte_order.
