(* ===== verification/LengthPrefix.v ===== *)
(** * Length prefixes of frames

    [src/src/frame/conversion.rs] and [src/src/frame/format.rs]: encoding and
    decoding of the length prefix that precedes each frame, for prefix widths
    of 1, 2, 4 or 8 bytes in either byte order. *)

From S2P Require Import Prelude.
From S2P Require Import ByteOrder.
Open Scope rust_scope.

Inductive Endianness : Type := Big | Little.

#[export] Instance Endianness_eq_dec : EqDecision Endianness.
Proof. solve_decision. Defined.

Definition ERR_UNSUPPORTED_PREFIX : string := "unsupported length prefix size".
Definition ERR_FRAME_TOO_LARGE : string := "frame too large".
Definition ERR_INCOMPLETE_PREFIX : string := "incomplete length prefix".

Definition unsupported_prefix : io_error := mk_io_error InvalidInput ERR_UNSUPPORTED_PREFIX.
Definition frame_too_large : io_error := mk_io_error InvalidInput ERR_FRAME_TOO_LARGE.
Definition incomplete_prefix : io_error := mk_io_error UnexpectedEof ERR_INCOMPLETE_PREFIX.

(** [matches!(size, 1 | 2 | 4 | 8)] *)
Definition supported_size (size : Z) : bool :=
  bool_decide (size = 1 \/ size = 2 \/ size = 4 \/ size = 8).

Section conversion.
Context {B : BytesCrate}.

Definition u64_from_le_bytes (bytes : list Z) : Z := get_u64_le bytes.

(** [checked_prefix_cast::<T>], with [T]'s maximum as an argument. *)
Definition checked_prefix_cast (t_max len : Z) : result Z io_error :=
  ok_or (try_into t_max len) frame_too_large.

Definition fill_buf_with_prefix (buf prefix : list Z) (endianness : Endianness) :
    result (list Z) io_error :=
  let size := len prefix in
  if supported_size size then
    match endianness with
    | Big =>
        let? start := ok_or (try_into usize_max (8 - size)) unsupported_prefix in
        let? end_ := ok_or (checked_add usize_max start size) unsupported_prefix in
        ok_or (slice_put buf start end_ prefix) unsupported_prefix
    | Little => ok_or (slice_put buf 0 size prefix) unsupported_prefix
    end
  else Err unsupported_prefix.

Definition bytes_to_u64 (bytes : list Z) (size : Z) (endianness : Endianness) :
    result Z io_error :=
  if negb (supported_size size) then Err unsupported_prefix
  else if decide (len bytes < size) then Err incomplete_prefix
  else
    let? prefix := ok_or (slice_get bytes 0 size) incomplete_prefix in
    let? buf := fill_buf_with_prefix (replicate 8 0) prefix endianness in
    Ok (match endianness with
        | Big => read_network_u64 buf
        | Little => u64_from_le_bytes buf
        end).

Definition convert_len_to_value (len size : Z) : result Z io_error :=
  if decide (size = 1) then checked_prefix_cast u8_max len
  else if decide (size = 2) then checked_prefix_cast u16_max len
  else if decide (size = 4) then checked_prefix_cast u32_max len
  else if decide (size = 8) then checked_prefix_cast u64_max len
  else Err unsupported_prefix.

Definition value_fits_prefix (value size : Z) : bool :=
  if decide (size = 1) then bool_decide (is_Some (try_into u8_max value))
  else if decide (size = 2) then bool_decide (is_Some (try_into u16_max value))
  else if decide (size = 4) then bool_decide (is_Some (try_into u32_max value))
  else bool_decide (size = 8).

Definition ensure_fits_prefix (value size : Z) : result unit io_error :=
  if negb (supported_size size) then Err unsupported_prefix
  else if value_fits_prefix value size then Ok tt
  else Err frame_too_large.

(** The new contents of a prefix of [size] bytes: [copy_from_slice] replaces
    all of them ([write_big_endian_prefix_length] shows that the widths
    agree, so it does not panic). *)
Definition write_big_endian_prefix (value size : Z) : result (list Z) io_error :=
  let? _ := ensure_fits_prefix value size in
  let encoded := write_network_u64 value in
  let? start := ok_or (try_into usize_max (8 - size)) unsupported_prefix in
  ok_or (slice_from encoded start) unsupported_prefix.

(** [*byte = ((value >> shift) & 0xff) as u8] for each position. *)
Definition write_little_endian_prefix (value : Z) (prefix : list Z) : list Z :=
  imap (fun i _ => Z.land (Z.shiftr value (8 * Z.of_nat i)) 255) prefix.

Definition write_bytes_with_endianness (value : Z) (endianness : Endianness)
    (prefix : list Z) : result (list Z) io_error :=
  let size := len prefix in
  match endianness with
  | Big => write_big_endian_prefix value size
  | Little => Ok (write_little_endian_prefix value prefix)
  end.

(** The number of bytes written and the new contents of [out]. *)
Definition u64_to_bytes (len size : Z) (endianness : Endianness) (out : list Z) :
    result (Z * list Z) io_error :=
  if negb (supported_size size) then Err unsupported_prefix
  else
    let? value := convert_len_to_value len size in
    let? prefix := ok_or (slice_get out 0 size) unsupported_prefix in
    let? prefix := write_bytes_with_endianness value endianness prefix in
    let tail := default [] (slice_from out size) in
    Ok (size, prefix ++ ((fun _ => 0) <$> tail)).

(** ** [format.rs] *)

Record LengthFormat : Type := mk_LengthFormat {
  bytes : Z;
  endianness : Endianness
}.

(** [None] stands for the panic of the [assert!]. *)
Definition LengthFormat_new (bytes : Z) (endianness : Endianness) : option LengthFormat :=
  if decide (1 <= bytes <= 8) then Some (mk_LengthFormat bytes endianness) else None.

Definition LengthFormat_try_new (bytes : Z) (endianness : Endianness) :
    result LengthFormat io_error :=
  if decide (1 <= bytes <= 8) then Ok (mk_LengthFormat bytes endianness)
  else Err (mk_io_error InvalidInput "invalid length-prefix width").

Definition u16_be : option LengthFormat := LengthFormat_new 2 Big.
Definition u16_le : option LengthFormat := LengthFormat_new 2 Little.
Definition u32_be : option LengthFormat := LengthFormat_new 4 Big.
Definition u32_le : option LengthFormat := LengthFormat_new 4 Little.
Definition LengthFormat_default : option LengthFormat := u32_be.

Definition read_len (self : LengthFormat) (bytes_ : list Z) : result Z io_error :=
  let? len := bytes_to_u64 bytes_ (bytes self) (endianness self) in
  ok_or (try_into usize_max len) frame_too_large.

(** The new contents of [dst]. *)
Definition write_len (self : LengthFormat) (len : Z) (dst : list Z) :
    result (list Z) io_error :=
  let? '(written, buf) := u64_to_bytes len (bytes self) (endianness self) (replicate 8 0) in
  let? prefix := ok_or (slice_get buf 0 written)
                   (mk_io_error InvalidInput "internal: prefix slice exceeds buffer") in
  Ok (dst ++ prefix).
End conversion.

(** ** Lemmas *)

Lemma supported_size_spec size :
  supported_size size = true <-> size = 1 \/ size = 2 \/ size = 4 \/ size = 8.
Proof. unfold supported_size. by rewrite bool_decide_eq_true. Qed.

Lemma supported_size_range size : supported_size size = true -> 1 <= size <= 8.
Proof. rewrite supported_size_spec. lia. Qed.

(** The largest value a prefix of [size] bytes represents. *)
Definition prefix_max (size : Z) : Z := 256 ^ size - 1.

Ltac by_size H :=
  apply supported_size_spec in H as [-> | [-> | [-> | ->]]].

Section lemmas.
Context {B : BytesCrate} {BL : BytesCrateLaws B}.
Implicit Types (e : Endianness) (size v : Z) (prefix : list Z).

(** [convert_len_to_value] accepts exactly the lengths of the prefix. *)
Lemma convert_len_to_value_spec v size :
  supported_size size = true -> 0 <= v ->
  convert_len_to_value v size
  = if decide (v <= prefix_max size) then Ok v else Err frame_too_large.
Proof.
  intros Hs Hv. unfold convert_len_to_value, checked_prefix_cast, try_into, ok_or.
  by_size Hs; simpl; repeat case_decide; try done;
    unfold prefix_max, u8_max, u16_max, u32_max, u64_max in *; lia.
Qed.

Lemma value_fits_prefix_spec v size :
  supported_size size = true -> 0 <= v <= prefix_max size ->
  value_fits_prefix v size = true.
Proof.
  intros Hs Hv. unfold value_fits_prefix.
  by_size Hs; simpl; repeat case_decide; try done; apply bool_decide_eq_true;
    try done; eexists; apply try_into_Some;
    unfold prefix_max, u8_max, u16_max, u32_max, u64_max in *; (split; [done|lia]).
Qed.

Lemma write_big_endian_prefix_spec v size :
  supported_size size = true -> 0 <= v <= prefix_max size ->
  write_big_endian_prefix v size = Ok (be_bytes (Z.to_nat size) v).
Proof.
  intros Hs Hv. unfold write_big_endian_prefix, ensure_fits_prefix.
  rewrite Hs, value_fits_prefix_spec by done. simpl.
  assert (0 <= v <= u64_max) as Hv64.
  { unfold prefix_max, u64_max in *. by_size Hs; lia. }
  assert (1 <= size <= 8) as Hr by (by_size Hs; lia).
  rewrite write_network_u64_bytes by done.
  rewrite (proj2 (try_into_Some usize_max (8 - size) (8 - size))) by len_solve.
  simpl. rewrite slice_from_drop by len_solve. simpl. f_equal.
  replace (Z.to_nat (8 - size)) with (8 - Z.to_nat size)%nat by lia.
  apply be_bytes_drop. lia.
Qed.

Lemma write_big_endian_prefix_length v size bs :
  write_big_endian_prefix v size = Ok bs -> 0 <= v <= u64_max -> len bs = size.
Proof.
  unfold write_big_endian_prefix, ensure_fits_prefix. intros H Hv.
  destruct (supported_size size) eqn:Hs; simpl in H; [|done].
  destruct (value_fits_prefix v size); [|done].
  assert (1 <= size <= 8) as Hr by (by_size Hs; lia).
  rewrite write_network_u64_bytes in H by done.
  rewrite (proj2 (try_into_Some usize_max (8 - size) (8 - size))) in H by len_solve.
  simpl in H. rewrite slice_from_drop in H by len_solve.
  injection H as <-. len_solve.
Qed.

Lemma write_little_endian_prefix_from i v prefix :
  imap (fun j _ => Z.land (Z.shiftr v (8 * Z.of_nat (i + j))) 255) prefix
  = le_bytes (length prefix) (v / 256 ^ Z.of_nat i).
Proof.
  revert i. induction prefix as [|b prefix IH]; intros i; simpl; [done|]. f_equal.
  - rewrite Nat.add_0_r, Z.shiftr_div_pow2 by lia.
    change 255 with (Z.ones 8). rewrite Z.land_ones by lia.
    rewrite Z.pow_mul_r by lia. done.
  - etransitivity; [|etransitivity; [apply (IH (S i))|]].
    + apply imap_ext. intros j x _. simpl. do 4 f_equal. lia.
    + f_equal. rewrite pow256_succ, Z.mul_comm, Z.div_div; lia.
Qed.

Lemma write_little_endian_prefix_spec v prefix :
  write_little_endian_prefix v prefix = le_bytes (length prefix) v.
Proof.
  rewrite <- (Z.div_1_r v) at 2. apply (write_little_endian_prefix_from 0).
Qed.

(** The bytes of a prefix of [size] bytes for the length [v]. *)
Definition prefix_bytes (v size : Z) e : list Z :=
  match e with
  | Big => be_bytes (Z.to_nat size) v
  | Little => le_bytes (Z.to_nat size) v
  end.

Lemma length_prefix_bytes v size e : length (prefix_bytes v size e) = Z.to_nat size.
Proof. destruct e; simpl; [apply length_be_bytes|apply length_le_bytes]. Qed.

Lemma write_bytes_with_endianness_spec v e prefix :
  supported_size (len prefix) = true -> 0 <= v <= prefix_max (len prefix) ->
  write_bytes_with_endianness v e prefix = Ok (prefix_bytes v (len prefix) e).
Proof.
  intros Hs Hv. destruct e; simpl.
  - by apply write_big_endian_prefix_spec.
  - rewrite write_little_endian_prefix_spec. unfold len. by rewrite Nat2Z.id.
Qed.

(** [u64_to_bytes], on every branch. *)
Lemma u64_to_bytes_spec v size e out :
  0 <= v -> len out = 8 ->
  u64_to_bytes v size e out
  = if supported_size size then
      if decide (v <= prefix_max size)
      then Ok (size, prefix_bytes v size e ++ replicate (8 - Z.to_nat size) 0)
      else Err frame_too_large
    else Err unsupported_prefix.
Proof.
  intros Hv Hout. unfold u64_to_bytes.
  destruct (supported_size size) eqn:Hs; simpl; [|done].
  rewrite convert_len_to_value_spec by done. case_decide; [|done].
  assert (1 <= size <= 8) as Hr by (by_size Hs; lia).
  unfold slice_get at 1. rewrite decide_True by lia. simpl.
  set (p := take _ _). assert (len p = size) as Hp.
  { unfold p, len in *. rewrite length_take, length_drop. lia. }
  rewrite <- Hp in Hs, H |- *.
  rewrite write_bytes_with_endianness_spec by done. f_equal. f_equal. f_equal.
  rewrite slice_from_drop by lia. simpl. rewrite Hp.
  apply list_eq_same_length with (n := (8 - Z.to_nat size)%nat).
  - by rewrite length_replicate.
  - rewrite length_fmap, length_drop. unfold len in Hout. lia.
  - intros i x y Hi. rewrite list_lookup_fmap, lookup_replicate.
    intros Hx [-> _]. destruct (_ !! i); by simplify_eq/=.
Qed.

(** [fill_buf_with_prefix] places the prefix so that the 8-byte value of the
    buffer is the value of the prefix. *)
Lemma fill_buf_big prefix :
  supported_size (len prefix) = true ->
  fill_buf_with_prefix (replicate 8 0) prefix Big
  = Ok (replicate (8 - length prefix) 0 ++ prefix).
Proof.
  intros Hs. unfold fill_buf_with_prefix. rewrite Hs.
  assert (1 <= len prefix <= 8) as Hr by (by_size Hs; unfold len in *; lia).
  rewrite (proj2 (try_into_Some usize_max (8 - len prefix) (8 - len prefix)))
    by len_solve.
  simpl ok_or. cbv iota beta.
  rewrite (proj2 (checked_add_Some usize_max (8 - len prefix) (len prefix)
    (8 - len prefix + len prefix))) by len_solve.
  simpl ok_or. cbv iota beta.
  rewrite slice_put_full by len_solve. simpl. f_equal.
  rewrite drop_ge by len_solve. rewrite app_nil_r.
  change [0;0;0;0;0;0;0;0] with (replicate 8 0).
  rewrite take_replicate. do 2 f_equal. len_solve.
Qed.

Lemma fill_buf_little prefix :
  supported_size (len prefix) = true ->
  fill_buf_with_prefix (replicate 8 0) prefix Little
  = Ok (prefix ++ replicate (8 - length prefix) 0).
Proof.
  intros Hs. unfold fill_buf_with_prefix. rewrite Hs.
  assert (1 <= len prefix <= 8) as Hr by (by_size Hs; unfold len in *; lia).
  pose proof (slice_put_full (replicate 8 0) prefix 0) as Hput.
  rewrite Z.add_0_l in Hput. rewrite Hput by len_solve.
  rewrite drop_replicate. change (Z.to_nat 0) with 0%nat. rewrite take_0.
  cbn [app ok_or]. do 3 f_equal. len_solve.
Qed.

(** [bytes_to_u64], on every branch. *)
Lemma bytes_to_u64_spec bs size e :
  bytes_to_u64 bs size e
  = if supported_size size then
      if decide (len bs < size) then Err incomplete_prefix
      else Ok (match e with
               | Big => be_value (take (Z.to_nat size) bs)
               | Little => le_value (take (Z.to_nat size) bs)
               end)
    else Err unsupported_prefix.
Proof.
  unfold bytes_to_u64. destruct (supported_size size) eqn:Hs; simpl; [|done].
  case_decide as Hlt; [done|].
  assert (1 <= size <= 8) as Hr by (by_size Hs; lia).
  unfold slice_get. rewrite decide_True by lia. rewrite drop_0, Z.sub_0_r. simpl.
  set (p := take _ _). assert (len p = size) as Hp.
  { unfold p, len in *. rewrite length_take. lia. }
  rewrite <- Hp in Hs. destruct e.
  - rewrite fill_buf_big by done.
    rewrite read_network_u64_value by len_solve. by rewrite be_value_zeros_app.
  - rewrite fill_buf_little by done. unfold u64_from_le_bytes.
    rewrite get_u64_le_le by len_solve. by rewrite le_value_app_zeros.
Qed.
End lemmas.

(** ** Properties *)

(** Writing a length that the prefix can represent appends exactly the
    configured number of bytes to the destination, and reading them back, with
    whatever follows on the wire, gives the length; a length the prefix cannot
    represent is refused and nothing is written. *)
Theorem length_prefix_round_trip {B : BytesCrate} {BL : BytesCrateLaws B}
    (self : LengthFormat) (n : Z) (dst rest : list Z) :
  supported_size (bytes self) = true -> 0 <= n <= usize_max ->
  (n <= prefix_max (bytes self) ->
   exists prefix,
     write_len self n dst = Ok (dst ++ prefix)
     /\ len prefix = bytes self
     /\ Forall is_byte prefix
     /\ read_len self (prefix ++ rest) = Ok n)
  /\ (prefix_max (bytes self) < n -> write_len self n dst = Err frame_too_large).
Proof.
  intros Hs Hn. pose proof (supported_size_range _ Hs) as Hr.
  unfold write_len. rewrite u64_to_bytes_spec by len_solve. rewrite Hs.
  split; intros Hmax.
  - rewrite decide_True by done.
    set (p := prefix_bytes n (bytes self) (endianness self)).
    assert (len p = bytes self) as Hp.
    { unfold p, len. rewrite length_prefix_bytes. lia. }
    exists p. repeat split; [| done | |].
    + rewrite <- Hp at 2. by rewrite slice_get_prefix.
    + unfold p, prefix_bytes. destruct (endianness self);
        [apply be_bytes_are_bytes | apply le_bytes_are_bytes].
    + unfold read_len. rewrite bytes_to_u64_spec, Hs.
      rewrite decide_False by (rewrite len_app; pose proof (len_nonneg rest); lia).
      rewrite take_app_length' by (unfold len in Hp; lia).
      assert (0 <= n < 256 ^ Z.of_nat (Z.to_nat (bytes self))).
      { unfold prefix_max in Hmax. rewrite Z2Nat.id by lia. lia. }
      unfold p, prefix_bytes. destruct (endianness self);
        rewrite ?be_value_bytes, ?le_value_bytes by done;
        by rewrite (proj2 (try_into_Some usize_max n n)).
  - by rewrite decide_False by lia.
Qed.

Lemma length_prefix_round_trip_witness :
  exists prefix,
    write_len (B := reference_bytes) (mk_LengthFormat 4 Big) 70000 [9] = Ok ([9] ++ prefix)
    /\ len prefix = 4 /\ Forall is_byte prefix
    /\ read_len (B := reference_bytes) (mk_LengthFormat 4 Big) (prefix ++ [7; 7]) = Ok 70000.
Proof.
  exact (proj1 (@length_prefix_round_trip reference_bytes reference_bytes_laws
    (mk_LengthFormat 4 Big) 70000 [9] [7; 7] eq_refl ltac:(vm_compute; split; congruence))
    ltac:(vm_compute; congruence)).
Defined.

(** Reading fails exactly when the width is unsupported or the input is
    shorter than the prefix; otherwise it returns a length in the range of the
    prefix and does not look beyond it. *)
Theorem read_len_total {B : BytesCrate} {BL : BytesCrateLaws B}
    (self : LengthFormat) (bs rest : list Z) :
  Forall is_byte bs ->
  match read_len self bs with
  | Ok n => supported_size (bytes self) = true /\ bytes self <= len bs
            /\ 0 <= n <= prefix_max (bytes self) /\ read_len self (bs ++ rest) = Ok n
  | Err e => (supported_size (bytes self) = false /\ e = unsupported_prefix)
             \/ (supported_size (bytes self) = true /\ len bs < bytes self
                 /\ e = incomplete_prefix)
  end.
Proof.
  intros Hb. unfold read_len. rewrite !bytes_to_u64_spec.
  destruct (supported_size (bytes self)) eqn:Hs; [|by left].
  pose proof (supported_size_range _ Hs) as Hr.
  case_decide as Hlt; [right; done|].
  rewrite decide_False by (rewrite len_app; pose proof (len_nonneg rest); lia).
  rewrite take_app_le by (unfold len in Hlt; lia).
  set (p := take _ _). assert (len p = bytes self) as Hp.
  { unfold p, len in *. rewrite length_take. lia. }
  assert (Forall is_byte p) as Hpb by by apply Forall_take.
  set (n := match endianness self with Big => _ | Little => _ end).
  assert (0 <= n <= prefix_max (bytes self)) as Hn.
  { unfold n, prefix_max. rewrite <- Hp.
    pose proof (be_value_bound p Hpb). pose proof (le_value_bound p Hpb).
    destruct (endianness self); lia. }
  assert (prefix_max (bytes self) <= usize_max) as Hm.
  { unfold prefix_max. apply supported_size_spec in Hs as [->|[->|[->| ->]]]; done. }
  rewrite (proj2 (try_into_Some usize_max n n)) by lia. simpl. repeat split; lia.
Qed.

Lemma read_len_total_witness :
  match read_len (B := reference_bytes) (mk_LengthFormat 2 Little) [1; 2; 3] with
  | Ok n => supported_size 2 = true /\ 2 <= 3 /\ 0 <= n <= prefix_max 2
            /\ read_len (B := reference_bytes) (mk_LengthFormat 2 Little) [1; 2; 3; 4] = Ok n
  | Err _ => False
  end.
Proof.
  pose proof (@read_len_total reference_bytes reference_bytes_laws
    (mk_LengthFormat 2 Little) [1; 2; 3] [4]
    ltac:(repeat constructor; vm_compute; congruence)) as H.
  exact H.
Defined.

(** The constructors accept every width from 1 to 8, but a format of 3, 5,
    6 or 7 bytes can neither read nor write any length: the conversions
    support the widths 1, 2, 4 and 8 only. *)
Theorem accepted_width_may_be_unusable {B : BytesCrate} (w : Z) (e : Endianness) :
  w = 3 \/ 5 <= w <= 7 ->
  LengthFormat_try_new w e = Ok (mk_LengthFormat w e)
  /\ LengthFormat_new w e = Some (mk_LengthFormat w e)
  /\ (forall n dst, write_len (mk_LengthFormat w e) n dst = Err unsupported_prefix)
  /\ (forall bs, read_len (mk_LengthFormat w e) bs = Err unsupported_prefix).
Proof.
  intros Hw. unfold LengthFormat_try_new, LengthFormat_new.
  rewrite !decide_True by lia.
  assert (supported_size w = false) as Hs.
  { apply not_true_is_false. rewrite supported_size_spec. lia. }
  unfold write_len, read_len, u64_to_bytes, bytes_to_u64. simpl. by rewrite Hs.
Qed.

Lemma accepted_width_may_be_unusable_witness :
  read_len (B := reference_bytes) (mk_LengthFormat 3 Big) [0; 0; 1] = Err unsupported_prefix.
Proof.
  exact (proj2 (proj2 (proj2
    (@accepted_width_may_be_unusable reference_bytes 3 Big (or_introl eq_refl)))) [0; 0; 1]).
Defined.
