(* ===== verification/Envelope.v ===== *)
(** * Packets and envelopes

    [src/src/app/envelope.rs] and [src/src/fragment/packet.rs] (the trait):
    the [Packet] trait through which the application layer takes packets apart
    and rebuilds them, the [Envelope] that implements it, the inheritance of
    correlation identifiers, and the blanket implementation of the fragment
    layer's [Fragmentable] trait for every [Packet].

    The traits are type classes.  [PacketLaws] and [FragmentableLaws] state the
    contract their documentation gives: taking apart a rebuilt packet returns
    its parts.  A packet may carry more than its parts (the documented example
    has a timestamp), so the converse is not a law. *)

From S2P Require Import Prelude.
Open Scope rust_scope.

Record PacketParts : Type := mk_PacketParts {
  parts_id : Z;
  parts_correlation_id : option Z;
  parts_payload : list Z
}.

Record FragmentParts : Type := mk_FragmentParts {
  fp_id : Z;
  fp_correlation_id : option Z;
  fp_payload : list Z
}.

Class CorrelatableFrame (E : Type) : Type := {
  correlation_id : E -> option Z;
  set_correlation_id : E -> option Z -> E
}.

Class CorrelatableFrameLaws (E : Type) {C : CorrelatableFrame E} : Prop := {
  correlation_id_set e c : correlation_id (set_correlation_id e c) = c;
  set_correlation_id_set e c c' :
    set_correlation_id (set_correlation_id e c) c' = set_correlation_id e c'
}.

Class Packet (E : Type) : Type := {
  Packet_correlatable :: CorrelatableFrame E;
  packet_id : E -> Z;
  into_parts : E -> PacketParts;
  from_parts : PacketParts -> E;
  is_stream_terminator : E -> bool
}.

Class PacketLaws (E : Type) {P : Packet E} : Prop := {
  into_from_parts p : into_parts (from_parts p) = p;
  into_parts_correlation e : parts_correlation_id (into_parts e) = correlation_id e
}.

Class Fragmentable (E : Type) : Type := {
  into_fragment_parts : E -> FragmentParts;
  from_fragment_parts : FragmentParts -> E
}.

Class FragmentableLaws (E : Type) {F : Fragmentable E} : Prop := {
  into_from_fragment_parts p : into_fragment_parts (from_fragment_parts p) = p
}.

(** ** [Envelope] *)

Record Envelope : Type := mk_Envelope {
  envelope_id : Z;
  envelope_correlation_id : option Z;
  envelope_payload : list Z
}.

Definition Envelope_new (id : Z) (correlation_id : option Z) (payload : list Z) : Envelope :=
  mk_Envelope id correlation_id payload.

Definition PacketParts_from_envelope (e : Envelope) : PacketParts :=
  mk_PacketParts (envelope_id e) (envelope_correlation_id e) (envelope_payload e).

Definition Envelope_from_parts (p : PacketParts) : Envelope :=
  Envelope_new (parts_id p) (parts_correlation_id p) (parts_payload p).

#[export] Instance Envelope_correlatable : CorrelatableFrame Envelope := {
  correlation_id := envelope_correlation_id;
  set_correlation_id e c := mk_Envelope (envelope_id e) c (envelope_payload e)
}.

#[export] Instance Envelope_packet : Packet Envelope := {
  packet_id := envelope_id;
  into_parts := PacketParts_from_envelope;
  from_parts := Envelope_from_parts;
  is_stream_terminator _ := false
}.

(** ** The blanket implementation *)

#[export] Instance Packet_fragmentable {E} {P : Packet E} : Fragmentable E := {
  into_fragment_parts e :=
    let parts := into_parts e in
    mk_FragmentParts (parts_id parts) (parts_correlation_id parts) (parts_payload parts);
  from_fragment_parts p :=
    from_parts (mk_PacketParts (fp_id p) (fp_correlation_id p) (fp_payload p))
}.

#[export] Instance Packet_fragmentable_laws {E} {P : Packet E} {L : PacketLaws E} :
  FragmentableLaws E.
Proof. split. intros []. cbn. by rewrite into_from_parts. Qed.

#[export] Instance Envelope_packet_laws : PacketLaws Envelope.
Proof. split; by intros []. Qed.

#[export] Instance Envelope_correlatable_laws : CorrelatableFrameLaws Envelope.
Proof. by split. Qed.

(** ** Correlation *)

(** The flag says that a conflicting identifier was replaced (and logged). *)
Definition select_correlation (current source : option Z) : option Z * bool :=
  match current, source with
  | None, cid => (cid, false)
  | Some cid, Some src => if decide (cid <> src) then (Some src, true) else (current, false)
  | curr, _ => (curr, false)
  end.

Definition inherit_correlation (self : PacketParts) (source : option Z) : PacketParts :=
  let '(next, _) := select_correlation (parts_correlation_id self) source in
  mk_PacketParts (parts_id self) next (parts_payload self).

Lemma select_correlation_spec current source :
  (select_correlation current source).1
  = match source with Some src => Some src | None => current end.
Proof. destruct current, source; simpl; try case_decide; naive_solver. Qed.

Lemma inherit_correlation_spec p source :
  inherit_correlation p source
  = mk_PacketParts (parts_id p)
      (match source with Some src => Some src | None => parts_correlation_id p end)
      (parts_payload p).
Proof.
  unfold inherit_correlation. rewrite <- select_correlation_spec.
  by destruct (select_correlation _ _).
Qed.
