(* ===== verification/Fragment.v ===== *)
(** * Fragment metadata and ordering

    [src/src/fragment/id.rs], [index.rs], [header.rs], [error.rs] and
    [series.rs]: the identifiers that tag fragments, the errors of the
    fragmentation layer and [FragmentSeries], which tracks the expected order
    of the fragments of one message.

    [MessageId] is its [u64] and [FragmentIndex] its [u32], both as [Z].  A
    method that takes [&mut self] returns the new state with its result. *)

From S2P Require Import Prelude.
Open Scope rust_scope.

(** ** Indexes, headers and errors *)

Definition FragmentIndex_zero : Z := 0.

Definition FragmentIndex_checked_increment (self : Z) : option Z :=
  checked_add u32_max self 1.

(** [TryFrom<usize> for FragmentIndex] *)
Definition FragmentIndex_try_from (value : Z) : option Z := try_into u32_max value.

Record FragmentHeader : Type := mk_FragmentHeader {
  message_id : Z;
  fragment_index : Z;
  is_last_fragment : bool
}.

Inductive FragmentStatus : Type :=
  | Incomplete
  | Duplicate
  | Complete.

Inductive FragmentError : Type :=
  | MessageMismatch (expected found : Z)
  | IndexMismatch (expected found : Z)
  | SeriesComplete
  | IndexOverflow (last : Z).

(** Errors of the serializer, which is not part of the repository: the one the
    repository raises itself, and the ones it passes on. *)
Inductive EncodeError : Type :=
  | EncodeError_Other (msg : string)
  | EncodeError_Foreign (code : Z).

Inductive DecodeError : Type :=
  | UnexpectedEnd (additional : Z)
  | OtherString (msg : string)
  | DecodeError_Foreign (code : Z).

Inductive FragmentationError : Type :=
  | Encode (e : EncodeError)
  | FragmentationIndexOverflow (last : Z)
  | SliceBounds (offset end_ total : Z).

Inductive ReassemblyError : Type :=
  | Fragment (e : FragmentError)
  | MessageTooLarge (message_id attempted limit : Z)
  | TooManyConcurrentPartials (attempted limit : Z)
  | AggregateBufferCapExceeded (attempted limit : Z).

(** Headers a [u64] identifier and a [u32] index can form. *)
Definition header_wf (h : FragmentHeader) : Prop :=
  0 <= message_id h <= u64_max /\ 0 <= fragment_index h <= u32_max.

(** ** [FragmentSeries] *)

Record FragmentSeries : Type := mk_FragmentSeries {
  series_message_id : Z;
  next_index : Z;
  complete : bool
}.

Definition FragmentSeries_new (message_id : Z) : FragmentSeries :=
  mk_FragmentSeries message_id FragmentIndex_zero false.

Definition advance_accepted (self : FragmentSeries) (fragment : FragmentHeader) :
    FragmentSeries * result bool FragmentError :=
  let next := FragmentIndex_checked_increment (fragment_index fragment) in
  if is_last_fragment fragment then
    (mk_FragmentSeries (series_message_id self) (default (next_index self) next) true, Ok true)
  else
    match next with
    | None => (self, Err (IndexOverflow (fragment_index fragment)))
    | Some incremented =>
        (mk_FragmentSeries (series_message_id self) incremented (complete self), Ok false)
    end.

Definition start_with_first (fragment : FragmentHeader) :
    result (FragmentSeries * bool) FragmentError :=
  let series := FragmentSeries_new (message_id fragment) in
  if decide (fragment_index fragment <> FragmentIndex_zero) then
    Err (IndexMismatch FragmentIndex_zero (fragment_index fragment))
  else
    let '(series, r) := advance_accepted series fragment in
    let? is_complete := r in Ok (series, is_complete).

Definition accept (self : FragmentSeries) (fragment : FragmentHeader) :
    FragmentSeries * result FragmentStatus FragmentError :=
  if decide (message_id fragment <> series_message_id self) then
    (self, Err (MessageMismatch (series_message_id self) (message_id fragment)))
  else if decide (fragment_index fragment < next_index self) then (self, Ok Duplicate)
  else if complete self then (self, Err SeriesComplete)
  else if decide (next_index self < fragment_index fragment) then
    (self, Err (IndexMismatch (next_index self) (fragment_index fragment)))
  else
    let '(self, r) := advance_accepted self fragment in
    (self, let? completed := r in Ok (if completed : bool then Complete else Incomplete)).

(** ** Lemmas *)

Lemma accept_next self h :
  message_id h = series_message_id self -> complete self = false ->
  fragment_index h = next_index self -> is_last_fragment h = false ->
  next_index self < u32_max ->
  accept self h
  = (mk_FragmentSeries (series_message_id self) (next_index self + 1) false, Ok Incomplete).
Proof.
  intros Hid Hc Hi Hl Hm. unfold accept, advance_accepted, FragmentIndex_checked_increment.
  rewrite Hc, Hl, Hi. rewrite decide_False by congruence.
  rewrite !decide_False by lia.
  by rewrite (proj2 (checked_add_Some u32_max _ _ (next_index self + 1))) by lia.
Qed.

Lemma accept_last self h :
  message_id h = series_message_id self -> complete self = false ->
  fragment_index h = next_index self -> is_last_fragment h = true ->
  exists self', accept self h = (self', Ok Complete) /\ complete self' = true
    /\ series_message_id self' = series_message_id self.
Proof.
  intros Hid Hc Hi Hl. unfold accept, advance_accepted. rewrite Hc, Hl, Hi.
  rewrite decide_False by congruence. rewrite !decide_False by lia. eauto.
Qed.

(** Every outcome of [accept] on a series that is still open. *)
Lemma accept_inv self h self' r :
  complete self = false -> accept self h = (self', r) ->
  match r with
  | Ok Incomplete =>
      message_id h = series_message_id self /\ fragment_index h = next_index self
      /\ is_last_fragment h = false /\ next_index self < u32_max
      /\ self' = mk_FragmentSeries (series_message_id self) (next_index self + 1) false
  | Ok Complete =>
      message_id h = series_message_id self /\ fragment_index h = next_index self
      /\ is_last_fragment h = true
  | Ok Duplicate =>
      message_id h = series_message_id self /\ fragment_index h < next_index self
      /\ self' = self
  | Err _ => self' = self /\ (message_id h <> series_message_id self
                \/ next_index self < fragment_index h
                \/ (fragment_index h = next_index self /\ u32_max <= next_index self))
  end.
Proof.
  intros Hc. unfold accept, advance_accepted, FragmentIndex_checked_increment. rewrite Hc.
  case_decide as Hid; [intros; simplify_eq; tauto|].
  case_decide as Hlt; [intros; simplify_eq; tauto|].
  case_decide as Hgt; [intros; simplify_eq; tauto|].
  assert (fragment_index h = next_index self) as Hi by lia.
  destruct (is_last_fragment h) eqn:Hl; [intros; by simplify_eq/=|].
  destruct (checked_add _ _ _) as [n|] eqn:Ha; intros; simplify_eq/=.
  - apply checked_add_Some in Ha as [-> ?]. rewrite Hi in *. repeat split; try done; lia.
  - apply checked_add_None in Ha. rewrite Hi in *. split; [done|lia].
Qed.

Lemma start_with_first_inv h :
  match start_with_first h with
  | Ok (s, is_complete) =>
      fragment_index h = 0 /\ is_complete = is_last_fragment h
      /\ s = mk_FragmentSeries (message_id h) 1 (is_last_fragment h)
  | Err e => fragment_index h <> 0 /\ e = IndexMismatch 0 (fragment_index h)
  end.
Proof.
  unfold start_with_first, FragmentIndex_zero. case_decide as Hi; [done|].
  unfold advance_accepted, FragmentIndex_checked_increment.
  rewrite Hi. simpl. by destruct (is_last_fragment h).
Qed.

(** ** Properties *)

(** A series never moves backwards, keeps its message, and once complete
    accepts nothing more: a repeated fragment is reported as a duplicate and
    every other one refused, without any change of state; so feeding the same
    fragment twice has the effect of feeding it once. *)
Theorem series_accept_monotone (self : FragmentSeries) (h : FragmentHeader) :
  0 <= next_index self <= u32_max ->
  let '(self', r) := accept self h in
  series_message_id self' = series_message_id self
  /\ next_index self <= next_index self' <= u32_max
  /\ (complete self = true -> self' = self /\ (r = Ok Duplicate \/ is_ok r = false))
  /\ (r <> Ok Incomplete -> r <> Ok Complete -> self' = self)
  /\ (r = Ok Incomplete -> accept self' h = (self', Ok Duplicate))
  /\ (r = Ok Complete -> complete self' = true
      /\ (accept self' h = (self', Ok Duplicate)
          \/ (fragment_index h = u32_max /\ accept self' h = (self', Err SeriesComplete)))).
Proof.
  intros Hn. destruct (accept self h) as [self' r] eqn:Ha. destruct (complete self) eqn:Hc.
  - unfold accept in Ha. rewrite Hc in Ha.
    crush_hyp Ha; split_and!; try done; try lia; auto.
  - pose proof (accept_inv _ _ _ _ Hc Ha) as Hinv. destruct r as [[]|e].
    + destruct Hinv as (Hid & Hi & Hl & Hm & ->). simpl.
      split_and!; try done; try lia. intros _. unfold accept.
      cbn [series_message_id next_index complete].
      rewrite decide_False by congruence. by rewrite decide_True by lia.
    + destruct Hinv as (Hid & Hi & ->). split_and!; try done; lia.
    + destruct Hinv as (Hid & Hi & Hl).
      unfold accept in Ha. rewrite Hc in Ha.
      rewrite decide_False in Ha by congruence. rewrite !decide_False in Ha by lia.
      unfold advance_accepted, FragmentIndex_checked_increment in Ha. rewrite Hl, Hi in Ha.
      simplify_eq/=. unfold checked_add, accept.
      cbn [series_message_id next_index complete].
      rewrite !(decide_False (P := message_id h <> series_message_id self)) by congruence.
      rewrite Hi. destruct (decide (next_index self + 1 <= u32_max)) as [Hm|Hm];
        cbn [default from_option id];
        (split_and!; [done|lia|lia|done|done|congruence|intros _; split; [done|]]).
      * left. rewrite decide_True by lia. done.
      * right. rewrite decide_False by lia. split; [lia|done].
    + destruct Hinv as [-> _]. split_and!; try done; lia.
Qed.

Lemma series_accept_monotone_witness :
  let '(self', r) := accept (FragmentSeries_new 9) (mk_FragmentHeader 9 0 false) in
  r = Ok Incomplete -> accept self' (mk_FragmentHeader 9 0 false) = (self', Ok Duplicate).
Proof.
  pose proof (series_accept_monotone (FragmentSeries_new 9) (mk_FragmentHeader 9 0 false)
    ltac:(vm_compute; split; congruence)) as H.
  exact (proj1 (proj2 (proj2 (proj2 (proj2 H))))).
Defined.
