(* ===== verification/Fragmenter.v ===== *)
(** * Outbound fragmentation

    [src/src/fragment/fragmenter.rs]: [Fragmenter] splits a payload into
    chunks of at most [max_fragment_size] bytes, tagging each with a header.

    The [while] loop of [build_fragments_from] is [build_loop], which takes
    fuel; [build_fragments_from] gives it one more unit than the payload has
    bytes, and [build_loop_spec] shows that this is enough whenever the
    fragment size is not zero (it is a [NonZeroUsize] in the code).  [None] is
    the loop running out of fuel, so the theorems below, which show a [Some],
    include termination. *)

From S2P Require Import Prelude.
From S2P Require Import Fragment.
Open Scope rust_scope.

(** The largest length of a Rust slice. *)
Definition isize_max : Z := 2 ^ 63 - 1.

Record Fragmenter : Type := mk_Fragmenter {
  max_fragment_size : Z;
  next_message_id_counter : Z
}.

Record FragmentCursor : Type := mk_FragmentCursor {
  cursor_offset : Z;
  cursor_index : Z
}.

Record FragmentFrame : Type := mk_FragmentFrame {
  frame_header : FragmentHeader;
  frame_payload : list Z
}.

Record FragmentBatch : Type := mk_FragmentBatch {
  batch_message_id : Z;
  batch_fragments : list FragmentFrame
}.

Definition Fragmenter_with_starting_id (max_fragment_size start_at : Z) : Fragmenter :=
  mk_Fragmenter max_fragment_size start_at.

Definition Fragmenter_new (max_fragment_size : Z) : Fragmenter :=
  Fragmenter_with_starting_id max_fragment_size 0.

(** [None] is the panic of an exhausted counter. *)
Definition next_message_id (self : Fragmenter) : option (Z * Fragmenter) :=
  match checked_add u64_max (next_message_id_counter self) 1 with
  | Some next =>
      Some (next_message_id_counter self, mk_Fragmenter (max_fragment_size self) next)
  | None => None
  end.

Fixpoint build_loop (fuel : nat) (max message_id : Z) (payload : list Z)
    (cursor : FragmentCursor) (fragments : list FragmentFrame) :
    option (result (list FragmentFrame) FragmentationError) :=
  match fuel with
  | O => None
  | S fuel =>
      let total := len payload in
      if decide (cursor_offset cursor < total) then
        let end_ := Z.min (wrapping_add usize_max (cursor_offset cursor) max) total in
        let is_last := bool_decide (end_ = total) in
        match slice_get payload (cursor_offset cursor) end_ with
        | None => Some (Err (SliceBounds (cursor_offset cursor) end_ total))
        | Some chunk =>
            let fragments := fragments ++
              [mk_FragmentFrame
                 (mk_FragmentHeader message_id (cursor_index cursor) is_last) chunk] in
            if is_last then Some (Ok fragments)
            else
              match FragmentIndex_checked_increment (cursor_index cursor) with
              | None => Some (Err (FragmentationIndexOverflow (cursor_index cursor)))
              | Some index =>
                  build_loop fuel max message_id payload (mk_FragmentCursor end_ index) fragments
              end
        end
      else Some (Ok fragments)
  end.

Definition build_fragments_from (self : Fragmenter) (message_id : Z) (payload : list Z)
    (cursor : FragmentCursor) : option (result (list FragmentFrame) FragmentationError) :=
  let max := max_fragment_size self in
  if decide (payload = []) then
    Some (Ok [mk_FragmentFrame (mk_FragmentHeader message_id FragmentIndex_zero true) []])
  else
    let total := len payload in
    if decide (total < cursor_offset cursor) then
      Some (Err (SliceBounds (cursor_offset cursor) (cursor_offset cursor) total))
    else build_loop (S (length payload)) max message_id payload cursor [].

Definition build_fragments (self : Fragmenter) (message_id : Z) (payload : list Z) :
    option (result (list FragmentFrame) FragmentationError) :=
  build_fragments_from self message_id payload (mk_FragmentCursor 0 FragmentIndex_zero).

Definition fragment_with_id (self : Fragmenter) (message_id : Z) (payload : list Z) :
    option (result FragmentBatch FragmentationError) :=
  r ← build_fragments self message_id payload;
  Some (let? fragments := r in Ok (mk_FragmentBatch message_id fragments)).

(** The result and the fragmenter with its counter advanced. *)
Definition fragment_bytes (self : Fragmenter) (payload : list Z) :
    option (result FragmentBatch FragmentationError * Fragmenter) :=
  '(message_id, self) ← next_message_id self;
  r ← fragment_with_id self message_id payload;
  Some (r, self).

(** [message.to_bytes()] is the serialization of the message, a parameter. *)
Definition fragment_message {M : Type} (to_bytes : M -> result (list Z) EncodeError)
    (self : Fragmenter) (message : M) :
    option (result FragmentBatch FragmentationError * Fragmenter) :=
  match to_bytes message with
  | Ok bytes => fragment_bytes self bytes
  | Err e => Some (Err (Encode e), self)
  end.

Definition batch_len (self : FragmentBatch) : Z := len (batch_fragments self).
Definition is_fragmented (self : FragmentBatch) : bool := bool_decide (1 < batch_len self).

(** [numerator.div_ceil(denominator)] *)
Definition div_ceil (numerator denominator : Z) : Z :=
  (numerator + denominator - 1) / denominator.

(** ** Specification

    [batch_of id max i payload fs]: [fs] carries [payload] in fragments
    numbered from [i], all but the last of [max] bytes, the last one not empty
    and the only one flagged. *)
Inductive batch_of (mid max : Z) : Z -> list Z -> list FragmentFrame -> Prop :=
  | batch_of_last i p :
      0 < len p <= max ->
      batch_of mid max i p [mk_FragmentFrame (mk_FragmentHeader mid i true) p]
  | batch_of_cons i c p fs :
      len c = max -> p <> [] ->
      batch_of mid max (i + 1) p fs ->
      batch_of mid max i (c ++ p) (mk_FragmentFrame (mk_FragmentHeader mid i false) c :: fs).

#[export] Hint Constructors batch_of : wf.

Lemma batch_of_concat mid max i p fs :
  batch_of mid max i p fs -> concat (frame_payload <$> fs) = p.
Proof. induction 1; simpl; [by rewrite app_nil_r|by f_equal]. Qed.

Lemma batch_of_nonempty mid max i p fs : batch_of mid max i p fs -> 1 <= len fs.
Proof. destruct 1; len_solve. Qed.

Lemma batch_of_headers mid max i p fs :
  batch_of mid max i p fs ->
  frame_header <$> fs
  = imap (fun k _ => mk_FragmentHeader mid (i + Z.of_nat k)
                       (bool_decide (Z.of_nat k = len fs - 1))) fs.
Proof.
  induction 1 as [i p Hp|i c p fs Hc Hp Hb IH]; csimpl.
  - by rewrite Z.add_0_r.
  - f_equal.
    + rewrite Z.add_0_r. f_equal. rewrite bool_decide_false; [done|].
      destruct Hb; len_solve.
    + rewrite IH. apply imap_ext. intros k x _. simpl. f_equal; [lia|].
      apply bool_decide_ext. len_solve.
Qed.

Lemma batch_of_count mid max i p fs :
  0 < max -> batch_of mid max i p fs -> len fs = div_ceil (len p) max.
Proof.
  intros Hmax. unfold div_ceil.
  induction 1 as [i p Hp|i c p fs Hc Hp Hb IH].
  - change (len [_]) with 1.
    apply Z.div_unique with (r := len p - 1); lia.
  - rewrite len_app, Hc. replace (max + len p + max - 1) with (len p + max - 1 + 1 * max) by lia.
    rewrite Z.div_add by lia. rewrite <- IH. unfold len. rewrite length_cons. lia.
Qed.

Lemma batch_of_sizes mid max i p fs :
  0 < max -> batch_of mid max i p fs -> Forall (fun f => 0 < len (frame_payload f) <= max) fs.
Proof. induction 2; constructor; simpl; try done; lia. Qed.

Lemma batch_of_full mid max i p fs :
  batch_of mid max i p fs ->
  forall k f, fs !! k = Some f -> Z.of_nat k < len fs - 1 -> len (frame_payload f) = max.
Proof.
  induction 1 as [i p Hp|i c p fs Hc Hp Hb IH]; intros k f Hk Hlast; unfold len in Hlast; cbn in Hlast; [lia|].
  destruct k as [|k]; [by injection Hk as <-|]. apply (IH k f Hk). unfold len. lia.
Qed.

(** ** The loop *)

Section build_loop.
Context (mid max : Z) (Hmax : 1 <= max <= usize_max).
Implicit Types (payload : list Z).

(** One iteration at an offset before the end does not wrap. *)
Lemma build_loop_end payload offset :
  0 <= offset < len payload -> len payload <= isize_max -> (offset = 0 \/ max < len payload) ->
  Z.min (wrapping_add usize_max offset max) (len payload)
  = Z.min (offset + max) (len payload).
Proof.
  intros Ho Hp Hs. unfold wrapping_add. rewrite Z.mod_small; [done|].
  unfold usize_max, u64_max, isize_max in *. lia.
Qed.

(** One iteration: the chunk taken and what remains. *)
Lemma build_loop_step n payload offset index acc :
  0 <= offset < len payload -> len payload <= isize_max ->
  (offset = 0 \/ max < len payload) ->
  let rest := drop (Z.to_nat offset) payload in
  build_loop (S n) max mid payload (mk_FragmentCursor offset index) acc
  = if decide (len rest <= max)
    then Some (Ok (acc ++ [mk_FragmentFrame (mk_FragmentHeader mid index true) rest]))
    else
      let acc := acc ++ [mk_FragmentFrame (mk_FragmentHeader mid index false)
                           (take (Z.to_nat max) rest)] in
      match FragmentIndex_checked_increment index with
      | None => Some (Err (FragmentationIndexOverflow index))
      | Some index =>
          build_loop n max mid payload (mk_FragmentCursor (offset + max) index) acc
      end.
Proof.
  intros Ho Hp Hs rest. cbn [build_loop cursor_offset cursor_index].
  rewrite decide_True by lia. rewrite build_loop_end by done.
  assert (len rest = len payload - offset) as Hrest.
  { unfold rest, len in *. rewrite length_drop. lia. }
  unfold slice_get. rewrite decide_True by lia. fold rest.
  destruct (decide (len rest <= max)) as [Hle|Hgt].
  - rewrite bool_decide_true by lia. rewrite take_ge; [done|]. unfold len in *. lia.
  - rewrite bool_decide_false by lia. rewrite Z.min_l by lia.
    by replace (offset + max - offset) with max by lia.
Qed.

Lemma build_loop_ok n payload offset index acc :
  (Z.to_nat (len payload - offset) <= n)%nat ->
  0 <= offset < len payload -> len payload <= isize_max ->
  (offset = 0 \/ max < len payload) -> 0 <= index ->
  div_ceil (len payload - offset) max <= u32_max + 1 - index ->
  exists fs,
    build_loop n max mid payload (mk_FragmentCursor offset index) acc = Some (Ok (acc ++ fs))
    /\ batch_of mid max index (drop (Z.to_nat offset) payload) fs.
Proof.
  revert offset index acc. induction n as [|n IH]; intros offset index acc Hn Ho Hp Hs Hi Hc.
  { lia. }
  rewrite build_loop_step by done. cbv zeta. set (rest := drop _ payload).
  assert (len rest = len payload - offset) as Hrest.
  { unfold rest, len in *. rewrite length_drop. lia. }
  case_decide as Hle; [eexists; split; [done|apply batch_of_last; lia]|].
  assert (div_ceil (len payload - offset) max
          = 1 + div_ceil (len payload - (offset + max)) max) as Hdiv.
  { unfold div_ceil.
    replace (len payload - offset + max - 1)
      with (len payload - (offset + max) + max - 1 + 1 * max) by lia.
    rewrite Z.div_add by lia. lia. }
  assert (1 <= div_ceil (len payload - (offset + max)) max) as Hge.
  { unfold div_ceil. apply Z.div_le_lower_bound; lia. }
  unfold FragmentIndex_checked_increment.
  rewrite (proj2 (checked_add_Some u32_max index 1 (index + 1))) by lia.
  destruct (IH (offset + max) (index + 1)
    (acc ++ [mk_FragmentFrame (mk_FragmentHeader mid index false) (take (Z.to_nat max) rest)]))
    as (fs & -> & Hb); [lia..|].
  eexists. split; [by rewrite <- app_assoc|].
  rewrite <- (take_drop (Z.to_nat max) rest) at 1. apply batch_of_cons.
  - unfold len in *. rewrite length_take. lia.
  - intros Hnil. apply (f_equal length) in Hnil. rewrite length_drop in Hnil.
    unfold len in *. simpl in Hnil. lia.
  - unfold rest. rewrite drop_drop. by replace (Z.to_nat offset + Z.to_nat max)%nat
      with (Z.to_nat (offset + max)) by lia.
Qed.

Lemma build_loop_overflow n payload offset index acc :
  (Z.to_nat (len payload - offset) <= n)%nat ->
  0 <= offset < len payload -> len payload <= isize_max ->
  (offset = 0 \/ max < len payload) -> 0 <= index <= u32_max ->
  u32_max + 1 - index < div_ceil (len payload - offset) max ->
  build_loop n max mid payload (mk_FragmentCursor offset index) acc
  = Some (Err (FragmentationIndexOverflow u32_max)).
Proof.
  revert offset index acc. induction n as [|n IH]; intros offset index acc Hn Ho Hp Hs Hi Hc.
  { lia. }
  rewrite build_loop_step by done. cbv zeta. set (rest := drop _ payload).
  assert (len rest = len payload - offset) as Hrest.
  { unfold rest, len in *. rewrite length_drop. lia. }
  assert (max < len rest) as Hgt.
  { apply Z.nle_gt. intros Hle. unfold div_ceil in Hc.
    assert ((len payload - offset + max - 1) / max < 2)
      by (apply Z.div_lt_upper_bound; lia). lia. }
  rewrite decide_False by lia. unfold FragmentIndex_checked_increment.
  destruct (checked_add u32_max index 1) as [index'|] eqn:Ha.
  - apply checked_add_Some in Ha as [-> Ha]. apply IH; try lia.
    unfold div_ceil in *.
    replace (len payload - offset + max - 1)
      with (len payload - (offset + max) + max - 1 + 1 * max) in Hc by lia.
    rewrite Z.div_add in Hc by lia. lia.
  - apply checked_add_None in Ha. do 3 f_equal. lia.
Qed.
End build_loop.

Lemma fragment_with_id_ok self mid payload :
  1 <= max_fragment_size self <= usize_max -> payload <> [] -> len payload <= isize_max ->
  div_ceil (len payload) (max_fragment_size self) <= u32_max + 1 ->
  exists fs, fragment_with_id self mid payload = Some (Ok (mk_FragmentBatch mid fs))
    /\ batch_of mid (max_fragment_size self) 0 payload fs.
Proof.
  intros Hmax Hne Hlen Hc. assert (0 < len payload) as Hpos.
  { destruct payload; [done|]. len_solve. }
  unfold fragment_with_id, build_fragments, build_fragments_from.
  rewrite decide_False by done. cbn [cursor_offset]. rewrite decide_False by lia.
  destruct (build_loop_ok mid (max_fragment_size self) Hmax (S (length payload)) payload 0 0 [])
    as (fs & Hb & Hfs); rewrite ?Z.sub_0_r; try lia; [unfold len; lia|].
  unfold FragmentIndex_zero. rewrite Hb. simpl. eauto.
Qed.

(** ** Properties *)

(** C23: Fragmenting a payload terminates and never fails on a slice.  An empty
    payload becomes one empty fragment, flagged as the last.  Any other one is
    fragmented exactly when at most 2{^32} fragments are needed; then the chunks
    concatenate to the payload, all but the last have the maximum size, none is
    empty or larger, the headers are numbered 0, 1, 2, ... with only the last
    flagged, and there are ceil(len / max) of them.  Otherwise the index
    overflow is reported.  (The maximum is a non-zero [usize], and a payload is
    no longer than a buffer can be, [isize::MAX].) *)
Theorem fragment_with_id_correct (self : Fragmenter) (mid : Z) (payload : list Z) :
  1 <= max_fragment_size self <= usize_max -> len payload <= isize_max ->
  if decide (payload = []) then
    fragment_with_id self mid payload
    = Some (Ok (mk_FragmentBatch mid [mk_FragmentFrame (mk_FragmentHeader mid 0 true) []]))
  else if decide (div_ceil (len payload) (max_fragment_size self) <= u32_max + 1) then
    exists fs,
      fragment_with_id self mid payload = Some (Ok (mk_FragmentBatch mid fs))
      /\ concat (frame_payload <$> fs) = payload
      /\ len fs = div_ceil (len payload) (max_fragment_size self)
      /\ Forall (fun f => 0 < len (frame_payload f) <= max_fragment_size self) fs
      /\ (forall k f, fs !! k = Some f -> Z.of_nat k < len fs - 1 ->
            len (frame_payload f) = max_fragment_size self)
      /\ frame_header <$> fs
         = imap (fun k _ => mk_FragmentHeader mid (Z.of_nat k)
                              (bool_decide (Z.of_nat k = len fs - 1))) fs
  else fragment_with_id self mid payload = Some (Err (FragmentationIndexOverflow u32_max)).
Proof.
  intros Hmax Hlen. case_decide as Hne; [by subst payload|]. case_decide as Hc.
  - destruct (fragment_with_id_ok self mid payload) as (fs & Hfs & Hb); [done..|].
    exists fs. split_and!; [done| | | | |].
    + by eapply batch_of_concat.
    + eapply batch_of_count; [|done]. lia.
    + eapply batch_of_sizes; [|done]. lia.
    + by eapply batch_of_full.
    + by apply batch_of_headers in Hb.
  - assert (0 < len payload) as Hpos by (destruct payload; [done|len_solve]).
    unfold fragment_with_id, build_fragments, build_fragments_from.
    rewrite decide_False by done. cbn [cursor_offset]. rewrite decide_False by lia.
    unfold FragmentIndex_zero. rewrite build_loop_overflow; [done|lia|unfold len; lia|..];
      rewrite ?Z.sub_0_r; unfold u32_max in *; lia.
Qed.

Lemma fragment_with_id_correct_witness :
  exists fs,
    fragment_with_id (Fragmenter_new 2) 7 [1; 2; 3] = Some (Ok (mk_FragmentBatch 7 fs))
    /\ concat (frame_payload <$> fs) = [1; 2; 3].
Proof.
  pose proof (fragment_with_id_correct (Fragmenter_new 2) 7 [1; 2; 3]
    ltac:(vm_compute; split; congruence) ltac:(vm_compute; congruence)) as H.
  rewrite decide_False, decide_True in H by (vm_compute; congruence).
  destruct H as (fs & H1 & H2 & _). eauto.
Defined.

(** Identifiers are handed out in increasing order without repetition:
    the [k]-th call returns the starting identifier plus [k], and a call that
    would advance the counter past [u64::MAX] panics instead of wrapping. *)
Theorem message_ids_unique (max start : Z) (k : nat) :
  0 <= start -> start + Z.of_nat k <= u64_max ->
  Nat.iter k (fun o => '(ids, f) ← o; '(id, f) ← next_message_id f; Some (ids ++ [id], f))
    (Some ([], Fragmenter_with_starting_id max start))
  = Some ((fun i => start + Z.of_nat i) <$> seq 0 k,
          Fragmenter_with_starting_id max (start + Z.of_nat k))
  /\ (start + Z.of_nat k = u64_max ->
      next_message_id (Fragmenter_with_starting_id max (start + Z.of_nat k)) = None).
Proof.
  intros Hs Hk. split.
  - induction k as [|k IH]; [simpl; by rewrite Z.add_0_r|].
    rewrite Nat.iter_succ, IH by lia. clear IH. rewrite seq_S, fmap_app.
    unfold next_message_id. cbn [mbind option_bind next_message_id_counter
      Fragmenter_with_starting_id max_fragment_size].
    rewrite (proj2 (checked_add_Some u64_max _ _ (start + Z.of_nat k + 1))) by lia.
    by replace (start + Z.of_nat (S k)) with (start + Z.of_nat k + 1) by lia.
  - intros Hmax. unfold next_message_id. simpl.
    rewrite (proj2 (checked_add_None u64_max _ _)); [done|]. lia.
Qed.

Lemma message_ids_unique_witness :
  next_message_id (Fragmenter_with_starting_id 16 u64_max) = None.
Proof.
  exact (proj2 (message_ids_unique 16 u64_max 0 ltac:(vm_compute; congruence)
    ltac:(vm_compute; congruence)) eq_refl).
Defined.
