(* ===== verification/Reassembler.v ===== *)
(** * Inbound reassembly

    [src/src/fragment/reassembler/]: [Reassembler] collects the payloads of
    fragments by message, under three limits ([ReassemblyBudget]) and a
    timeout.

    Clock readings are [Z]; the [HashMap] of buffers is a [gmap].  An
    [OccupiedEntry] or [VacantEntry] is the pair of the map and the key.
    [release_bytes] subtracts as a release build does, modulo 2{^64}; that the
    [debug_assert!] before it holds, so that nothing wraps, is part of the
    invariant proved below. *)

From S2P Require Import Prelude.
From S2P Require Import Fragment.
Open Scope rust_scope.

(** ** [budget.rs] *)

Record ReassemblyBudget : Type := mk_ReassemblyBudget {
  max_message_size : Z;
  max_concurrent_partials : option Z;
  max_buffered_bytes : option Z;
  buffered_bytes : Z
}.

Definition with_buffered (b : ReassemblyBudget) (n : Z) : ReassemblyBudget :=
  mk_ReassemblyBudget (max_message_size b) (max_concurrent_partials b) (max_buffered_bytes b) n.

Definition ReassemblyBudget_new (max_message_size : Z)
    (max_concurrent_partials max_buffered_bytes : option Z) : ReassemblyBudget :=
  mk_ReassemblyBudget max_message_size max_concurrent_partials max_buffered_bytes 0.

Definition assert_within_message_limit (self : ReassemblyBudget) (message_id attempted : Z) :
    result unit ReassemblyError :=
  if decide (max_message_size self < attempted)
  then Err (MessageTooLarge message_id attempted (max_message_size self))
  else Ok tt.

Definition assert_within_partial_limit (self : ReassemblyBudget) (buffered_partials : Z) :
    result unit ReassemblyError :=
  match max_concurrent_partials self with
  | Some limit =>
      let attempted := saturating_add usize_max buffered_partials 1 in
      if decide (limit < attempted) then Err (TooManyConcurrentPartials attempted limit)
      else Ok tt
  | None => Ok tt
  end.

Definition add_bytes (self : ReassemblyBudget) (additional : Z) :
    ReassemblyBudget * result unit ReassemblyError :=
  match checked_add usize_max (buffered_bytes self) additional with
  | None =>
      (self, Err (AggregateBufferCapExceeded usize_max
                    (default usize_max (max_buffered_bytes self))))
  | Some attempted =>
      match max_buffered_bytes self with
      | Some limit =>
          if decide (limit < attempted)
          then (self, Err (AggregateBufferCapExceeded attempted limit))
          else (with_buffered self attempted, Ok tt)
      | None => (with_buffered self attempted, Ok tt)
      end
  end.

Definition release_bytes (self : ReassemblyBudget) (bytes : Z) : ReassemblyBudget :=
  with_buffered self (wrapping_sub usize_max (buffered_bytes self) bytes).

(** ** [mod.rs]: data *)

Record PartialMessage : Type := mk_PartialMessage {
  series : FragmentSeries;
  buffer : list Z;
  started_at : Z
}.

Definition PartialMessage_push (self : PartialMessage) (payload : list Z) : PartialMessage :=
  mk_PartialMessage (series self) (buffer self ++ payload) (started_at self).

Definition PartialMessage_len (self : PartialMessage) : Z := len (buffer self).

Record ReassembledMessage : Type := mk_ReassembledMessage {
  reassembled_message_id : Z;
  reassembled_payload : list Z
}.

Record Reassembler : Type := mk_Reassembler {
  budget : ReassemblyBudget;
  timeout : Z;
  buffers : gmap Z PartialMessage
}.

Definition Reassembler_new (max_message_size timeout : Z)
    (max_concurrent_partials max_buffered_bytes : option Z) : Reassembler :=
  mk_Reassembler
    (ReassemblyBudget_new max_message_size max_concurrent_partials max_buffered_bytes)
    timeout ∅.

(** The part of the state an operation on one entry works with. *)
Definition store : Type := ReassemblyBudget * gmap Z PartialMessage.

(** ** [first_fragment.rs] *)

Definition push_first_fragment (s : store) (buffered_partials : Z)
    (header : FragmentHeader) (payload : list Z) (now : Z) :
    store * result (option ReassembledMessage) ReassemblyError :=
  let '(budget, buffers) := s in
  let mid := message_id header in
  match start_with_first header with
  | Err e => (s, Err (Fragment e))
  | Ok (series, is_complete) =>
      match assert_within_message_limit budget mid (len payload) with
      | Err e => (s, Err e)
      | Ok _ =>
          if is_complete : bool then (s, Ok (Some (mk_ReassembledMessage mid payload)))
          else
            match assert_within_partial_limit budget buffered_partials with
            | Err e => (s, Err e)
            | Ok _ =>
                let '(budget, r) := add_bytes budget (len payload) in
                match r with
                | Err e => ((budget, buffers), Err e)
                | Ok _ =>
                    ((budget, <[mid := mk_PartialMessage series payload now]> buffers), Ok None)
                end
            end
      end
  end.

(** ** [mod.rs]: operations on an existing entry *)

(** [budget.remove_partial(occupied)], with the entry's value. *)
Definition remove_partial (s : store) (mid : Z) (partial : PartialMessage) : store :=
  (release_bytes s.1 (PartialMessage_len partial), delete mid s.2).

Definition append_and_maybe_complete (s : store) (mid : Z) (partial : PartialMessage)
    (payload : list Z) (completes : bool) :
    store * result (option ReassembledMessage) ReassemblyError :=
  let '(budget, buffers) := s in
  match checked_add usize_max (PartialMessage_len partial) (len payload) with
  | None =>
      (remove_partial s mid partial,
       Err (MessageTooLarge mid usize_max (max_message_size budget)))
  | Some attempted =>
      match assert_within_message_limit budget mid attempted with
      | Err e => (remove_partial s mid partial, Err e)
      | Ok _ =>
          let '(budget, r) := add_bytes budget (len payload) in
          match r with
          | Err e => (remove_partial (budget, buffers) mid partial, Err e)
          | Ok _ =>
              let partial := PartialMessage_push partial payload in
              let s := (budget, <[mid := partial]> buffers) in
              if completes then
                (remove_partial s mid partial,
                 Ok (Some (mk_ReassembledMessage mid (buffer partial))))
              else (s, Ok None)
          end
      end
  end.

Definition push_existing_fragment (s : store) (mid : Z) (partial : PartialMessage)
    (header : FragmentHeader) (payload : list Z) :
    store * result (option ReassembledMessage) ReassemblyError :=
  let '(series, status) := accept (series partial) header in
  (* [accept] updated the series in place *)
  let partial := mk_PartialMessage series (buffer partial) (started_at partial) in
  let s := (s.1, <[mid := partial]> s.2) in
  match status with
  | Ok Incomplete => append_and_maybe_complete s mid partial payload false
  | Ok Duplicate => (s, Ok None)
  | Ok Complete => append_and_maybe_complete s mid partial payload true
  | Err e => (remove_partial s mid partial, Err (Fragment e))
  end.

(** ** [mod.rs]: the public operations *)

Definition is_expired (now timeout : Z) (kv : Z * PartialMessage) : Prop :=
  timeout <= saturating_duration_since now (started_at kv.2).
#[export] Instance is_expired_dec now timeout kv : Decision (is_expired now timeout kv).
Proof. unfold is_expired. apply _. Defined.

Definition purge_expired_at (self : Reassembler) (now : Z) : Reassembler * list Z :=
  let expired := is_expired now (timeout self) in
  let evicted := filter expired (buffers self) in
  (mk_Reassembler
     (map_fold (fun _ partial b => release_bytes b (PartialMessage_len partial))
        (budget self) evicted)
     (timeout self)
     (filter (fun kv => ~ expired kv) (buffers self)),
   keys_where expired (buffers self)).

Definition push_at (self : Reassembler) (header : FragmentHeader) (payload : list Z) (now : Z) :
    Reassembler * result (option ReassembledMessage) ReassemblyError :=
  let self := (purge_expired_at self now).1 in
  let buffered_partials := Z.of_nat (size (buffers self)) in
  let s := (budget self, buffers self) in
  let '(s, r) :=
    match buffers self !! message_id header with
    | Some partial => push_existing_fragment s (message_id header) partial header payload
    | None => push_first_fragment s buffered_partials header payload now
    end in
  (mk_Reassembler s.1 (timeout self) s.2, r).

Arguments purge_expired_at : simpl never.
Arguments push_at : simpl never.

Definition buffered_len (self : Reassembler) : Z := Z.of_nat (size (buffers self)).
Definition Reassembler_buffered_bytes (self : Reassembler) : Z := buffered_bytes (budget self).

(** ** Invariant *)

Record partial_wf (b : ReassemblyBudget) (mid : Z) (p : PartialMessage) : Prop := {
  pw_id : series_message_id (series p) = mid;
  pw_open : complete (series p) = false;
  pw_index : 1 <= next_index (series p) <= u32_max;
  pw_len : PartialMessage_len p <= max_message_size b
}.

(** The counter is the exact number of retained bytes, every limit holds, and
    every entry is an open series under its own identifier. *)
Record store_wf (s : store) : Prop := {
  sw_bytes : buffered_bytes s.1 = map_sum PartialMessage_len s.2;
  sw_range : buffered_bytes s.1 <= usize_max;
  sw_cap l : max_buffered_bytes s.1 = Some l -> buffered_bytes s.1 <= l;
  sw_count l : max_concurrent_partials s.1 = Some l -> Z.of_nat (size s.2) <= l;
  sw_partials : map_Forall (partial_wf s.1) s.2
}.

Definition reassembler_wf (r : Reassembler) : Prop := store_wf (budget r, buffers r).

Definition same_limits (b b' : ReassemblyBudget) : Prop :=
  max_message_size b' = max_message_size b
  /\ max_concurrent_partials b' = max_concurrent_partials b
  /\ max_buffered_bytes b' = max_buffered_bytes b.

Lemma plen_nonneg p : 0 <= PartialMessage_len p.
Proof. apply len_nonneg. Qed.
#[export] Hint Resolve plen_nonneg : wf.

Lemma with_buffered_id b : with_buffered b (buffered_bytes b) = b.
Proof. by destruct b. Qed.

Lemma with_buffered_idemp b m n : with_buffered (with_buffered b m) n = with_buffered b n.
Proof. done. Qed.

(** ** Exact effect of the operations *)

Definition bytes_error (b : ReassemblyBudget) (n : Z) : option ReassemblyError :=
  if decide (usize_max < buffered_bytes b + n)
  then Some (AggregateBufferCapExceeded usize_max (default usize_max (max_buffered_bytes b)))
  else
    l ← max_buffered_bytes b;
    if decide (l < buffered_bytes b + n)
    then Some (AggregateBufferCapExceeded (buffered_bytes b + n) l) else None.

Lemma add_bytes_spec b n :
  add_bytes b n
  = match bytes_error b n with
    | Some e => (b, Err e)
    | None => (with_buffered b (buffered_bytes b + n), Ok tt)
    end.
Proof.
  unfold add_bytes, bytes_error, checked_add.
  destruct (max_buffered_bytes b) as [l|]; simpl; repeat case_decide; try done; lia.
Qed.

Lemma bytes_error_None b n :
  bytes_error b n = None <->
  buffered_bytes b + n <= usize_max
  /\ forall l, max_buffered_bytes b = Some l -> buffered_bytes b + n <= l.
Proof.
  unfold bytes_error. destruct (max_buffered_bytes b) as [l|]; simpl; repeat case_decide;
    split; try done; try lia; try (intros [? Hl]; specialize (Hl l eq_refl); lia).
  all: intros _; split; [lia|]; intros ? [= <-]; lia.
Qed.

Definition append_error (b : ReassemblyBudget) (mid plen n : Z) : option ReassemblyError :=
  if decide (usize_max < plen + n)
  then Some (MessageTooLarge mid usize_max (max_message_size b))
  else if decide (max_message_size b < plen + n)
  then Some (MessageTooLarge mid (plen + n) (max_message_size b))
  else bytes_error b n.

(** The store without one of its entries. *)
Definition drop_entry (s : store) (mid : Z) (p : PartialMessage) : store :=
  (with_buffered s.1 (buffered_bytes s.1 - PartialMessage_len p), delete mid s.2).

Section exact.
Context (b : ReassemblyBudget) (m : gmap Z PartialMessage) (Hwf : store_wf (b, m)).
Context (mid : Z) (p : PartialMessage) (Hp : m !! mid = Some p).

Lemma entry_len_le : 0 <= PartialMessage_len p <= buffered_bytes b.
Proof.
  split; [apply plen_nonneg|]. pose proof (sw_bytes _ Hwf) as E. simpl in E. rewrite E.
  eapply map_sum_lookup_le; eauto with wf.
Qed.

(** The [debug_assert!] of [release_bytes] holds. *)
Lemma remove_partial_exact p' n :
  0 <= n -> buffered_bytes b + n <= usize_max ->
  PartialMessage_len p' = PartialMessage_len p + n ->
  remove_partial (with_buffered b (buffered_bytes b + n), <[mid := p']> m) mid p'
  = drop_entry (b, m) mid p.
Proof.
  intros Hn Hmax Hlen. unfold remove_partial, release_bytes, drop_entry.
  pose proof entry_len_le.
  cbn [fst snd buffered_bytes with_buffered]. rewrite Hlen.
  rewrite wrapping_sub_exact by lia. rewrite delete_insert_eq. do 2 f_equal. lia.
Qed.

Lemma remove_partial_exact0 p' :
  PartialMessage_len p' = PartialMessage_len p ->
  remove_partial (b, <[mid := p']> m) mid p' = drop_entry (b, m) mid p.
Proof.
  intros Hlen. pose proof (sw_range _ Hwf) as Hr. simpl in Hr.
  rewrite <- (remove_partial_exact p' 0) by lia.
  by rewrite Z.add_0_r, with_buffered_id.
Qed.

Lemma append_exact series' payload completes :
  let p' := mk_PartialMessage series' (buffer p) (started_at p) in
  append_and_maybe_complete (b, <[mid := p']> m) mid p' payload completes
  = match append_error b mid (PartialMessage_len p) (len payload) with
    | Some e => (drop_entry (b, m) mid p, Err e)
    | None =>
        if completes then
          (drop_entry (b, m) mid p,
           Ok (Some (mk_ReassembledMessage mid (buffer p ++ payload))))
        else ((with_buffered b (buffered_bytes b + len payload),
               <[mid := PartialMessage_push p' payload]> m), Ok None)
    end.
Proof.
  intros p'. unfold append_and_maybe_complete, append_error.
  assert (PartialMessage_len p' = PartialMessage_len p) as Hlen by done. rewrite Hlen.
  unfold checked_add. destruct (decide (usize_max < _)).
  { rewrite decide_False by lia. by rewrite remove_partial_exact0. }
  rewrite decide_True by lia. unfold assert_within_message_limit.
  case_decide; [by rewrite remove_partial_exact0|].
  rewrite add_bytes_spec. destruct (bytes_error b (len payload)) eqn:He.
  { by rewrite remove_partial_exact0. }
  apply bytes_error_None in He as [Hu _].
  rewrite insert_insert_eq. destruct completes; [|done].
  rewrite remove_partial_exact; [done|apply len_nonneg|lia|].
  unfold PartialMessage_len, PartialMessage_push. simpl. apply len_app.
Qed.

Lemma push_existing_exact header payload :
  message_id header = mid ->
  push_existing_fragment (b, m) mid p header payload
  = match accept (series p) header with
    | (_, Err e) => (drop_entry (b, m) mid p, Err (Fragment e))
    | (_, Ok Duplicate) => ((b, m), Ok None)
    | (s', Ok st) =>
        match append_error b mid (PartialMessage_len p) (len payload) with
        | Some e => (drop_entry (b, m) mid p, Err e)
        | None =>
            if st is Complete then
              (drop_entry (b, m) mid p,
               Ok (Some (mk_ReassembledMessage mid (buffer p ++ payload))))
            else ((with_buffered b (buffered_bytes b + len payload),
                   <[mid := mk_PartialMessage s' (buffer p ++ payload) (started_at p)]> m),
                  Ok None)
        end
    end.
Proof.
  intros Hmid. unfold push_existing_fragment.
  pose proof (sw_partials _ Hwf mid p Hp) as [_ Hopen _ _].
  destruct (accept (series p) header) as [s' r] eqn:Ha.
  pose proof (accept_inv _ _ _ _ Hopen Ha) as Hinv.
  cbn [fst snd]. destruct r as [[]|e].
  - by rewrite append_exact.
  - destruct Hinv as (_ & _ & ->).
    replace (mk_PartialMessage (series p) (buffer p) (started_at p)) with p by by destruct p.
    by rewrite insert_id.
  - by rewrite append_exact.
  - by rewrite remove_partial_exact0.
Qed.

Lemma drop_entry_wf : store_wf (drop_entry (b, m) mid p).
Proof.
  pose proof entry_len_le as Hlen. destruct Hwf as [Hb Hr Hc Hn Hps]. simpl in *.
  split; simpl.
  - rewrite (map_sum_delete _ _ _ _ Hp). lia.
  - lia.
  - intros l Hl. specialize (Hc l Hl). lia.
  - intros l Hl. specialize (Hn l Hl). rewrite map_size_delete, Hp. lia.
  - intros i q Hq. apply lookup_delete_Some in Hq as [_ Hq].
    by destruct (Hps i q Hq).
Qed.
End exact.

(** Replacing or adding an entry within the limits. *)
Lemma insert_entry_wf b m mid q n :
  store_wf (b, m) -> 0 <= n -> bytes_error b n = None ->
  PartialMessage_len q = n + from_option PartialMessage_len 0 (m !! mid) ->
  (m !! mid = None -> forall l, max_concurrent_partials b = Some l -> Z.of_nat (size m) + 1 <= l) ->
  partial_wf b mid q ->
  store_wf (with_buffered b (buffered_bytes b + n), <[mid := q]> m).
Proof.
  intros [Hb Hr Hc Hn Hps] Hpos He Hlen Hcount Hq. apply bytes_error_None in He as [Hu Hl].
  simpl in *. split; simpl.
  - destruct (m !! mid) as [p|] eqn:Hm; simpl in Hlen.
    + rewrite (map_sum_update _ _ _ _ _ Hm). lia.
    + rewrite map_sum_insert by done. lia.
  - done.
  - done.
  - intros l Hlim. destruct (m !! mid) as [p|] eqn:Hm.
    + rewrite map_size_insert_Some by eauto. by apply Hn.
    + rewrite map_size_insert_None by done. specialize (Hcount eq_refl l Hlim). lia.
  - intros i x Hx. apply lookup_insert_Some in Hx as [[<- <-]|[_ Hx]].
    + by destruct Hq.
    + by destruct (Hps i x Hx).
Qed.

(** ** Purging *)

Lemma release_bytes_comm b x y :
  release_bytes (release_bytes b x) y = release_bytes (release_bytes b y) x.
Proof.
  unfold release_bytes, wrapping_sub, with_buffered. simpl. f_equal.
  rewrite !Zminus_mod_idemp_l. f_equal. lia.
Qed.

Lemma release_all b (m : gmap Z PartialMessage) :
  map_sum PartialMessage_len m <= buffered_bytes b <= usize_max ->
  map_fold (fun _ p b => release_bytes b (PartialMessage_len p)) b m
  = with_buffered b (buffered_bytes b - map_sum PartialMessage_len m).
Proof.
  induction m as [|i p m Hi IH] using map_ind; intros Hb.
  - by rewrite map_fold_empty, map_sum_empty, Z.sub_0_r, with_buffered_id.
  - rewrite map_sum_insert in Hb by done. rewrite map_sum_insert by done.
    pose proof (plen_nonneg p). pose proof (map_sum_nonneg PartialMessage_len m plen_nonneg).
    rewrite map_fold_insert_L by (done || intros; apply release_bytes_comm).
    rewrite IH by lia. unfold release_bytes. cbn [buffered_bytes with_buffered].
    rewrite wrapping_sub_exact by lia. unfold with_buffered. simpl. f_equal. lia.
Qed.

Section purge.
Context (r : Reassembler) (Hwf : reassembler_wf r) (now : Z).
Let expired := is_expired now (timeout r).
Let live := filter (fun kv => ~ expired kv) (buffers r).

Lemma purge_exact :
  purge_expired_at r now
  = (mk_Reassembler (with_buffered (budget r) (map_sum PartialMessage_len live))
       (timeout r) live,
     keys_where expired (buffers r)).
Proof.
  destruct Hwf as [Hb Hr _ _ _]. simpl in *. unfold purge_expired_at. do 2 f_equal.
  pose proof (map_sum_retain expired PartialMessage_len (buffers r)) as Hsplit.
  fold live in Hsplit. pose proof (map_sum_nonneg PartialMessage_len live plen_nonneg).
  fold expired. rewrite release_all by lia. f_equal. lia.
Qed.

Lemma purge_wf : reassembler_wf (purge_expired_at r now).1.
Proof.
  rewrite purge_exact. destruct Hwf as [Hb Hr Hc Hn Hps].
  pose proof (map_sum_retain expired PartialMessage_len (buffers r)) as Hsplit.
  fold live in Hsplit.
  pose proof (map_sum_nonneg PartialMessage_len (filter expired (buffers r)) plen_nonneg).
  simpl in *. split; simpl; [done|lia| | |].
  - intros l Hl. specialize (Hc l Hl). lia.
  - intros l Hl. specialize (Hn l Hl).
    assert (size live <= size (buffers r))%nat; [|lia].
    apply map_subseteq_size, map_filter_subseteq.
  - intros i p Hi. apply map_lookup_filter_Some in Hi as [Hi _]. by destruct (Hps i p Hi).
Qed.
End purge.

(** ** The effect of a push *)

(** [push_at] after the purge, on a well-formed store. *)
Lemma push_at_inv r header payload now :
  reassembler_wf r ->
  let r1 := (purge_expired_at r now).1 in
  let mid := message_id header in
  let '(r', res) := push_at r header payload now in
  timeout r' = timeout r /\ same_limits (budget r) (budget r')
  /\ match buffers r1 !! mid with
     | Some p =>
         match res with
         | Err _ => (budget r', buffers r') = drop_entry (budget r1, buffers r1) mid p
         | Ok (Some msg) =>
             (budget r', buffers r') = drop_entry (budget r1, buffers r1) mid p
             /\ msg = mk_ReassembledMessage mid (buffer p ++ payload)
             /\ fragment_index header = next_index (series p)
             /\ is_last_fragment header = true
             /\ append_error (budget r1) mid (PartialMessage_len p) (len payload) = None
         | Ok None =>
             (r' = r1 /\ fragment_index header < next_index (series p))
             \/ (fragment_index header = next_index (series p)
                 /\ is_last_fragment header = false /\ next_index (series p) < u32_max
                 /\ append_error (budget r1) mid (PartialMessage_len p) (len payload) = None
                 /\ budget r' = with_buffered (budget r1) (buffered_bytes (budget r1) + len payload)
                 /\ buffers r'
                    = <[mid := mk_PartialMessage
                                 (mk_FragmentSeries mid (next_index (series p) + 1) false)
                                 (buffer p ++ payload) (started_at p)]> (buffers r1))
         end
     | None =>
         match res with
         | Err _ => r' = r1
         | Ok (Some msg) =>
             r' = r1 /\ msg = mk_ReassembledMessage mid payload
             /\ fragment_index header = 0 /\ is_last_fragment header = true
             /\ len payload <= max_message_size (budget r1)
         | Ok None =>
             fragment_index header = 0 /\ is_last_fragment header = false
             /\ len payload <= max_message_size (budget r1)
             /\ bytes_error (budget r1) (len payload) = None
             /\ (forall l, max_concurrent_partials (budget r1) = Some l ->
                  saturating_add usize_max (Z.of_nat (size (buffers r1))) 1 <= l)
             /\ budget r' = with_buffered (budget r1) (buffered_bytes (budget r1) + len payload)
             /\ buffers r'
                = <[mid := mk_PartialMessage (mk_FragmentSeries mid 1 false) payload now]>
                    (buffers r1)
         end
     end.
Proof.
  intros Hwf r1 mid. unfold push_at. fold r1. fold mid.
  assert (timeout r1 = timeout r /\ same_limits (budget r) (budget r1)) as [Ht Hlim]
    by (subst r1; rewrite purge_exact by done; done).
  pose proof (purge_wf r Hwf now) as Hwf1. fold r1 in Hwf1.
  clearbody r1. destruct r1 as [b1 t1 m1]. simpl in *.
  destruct (m1 !! mid) as [p|] eqn:Hp.
  - rewrite (push_existing_exact b1 m1) by done.
    pose proof (sw_partials _ Hwf1 mid p Hp) as [Hid Hopen _ _].
    destruct (accept (series p) header) as [s' [[]|e]] eqn:Ha;
      pose proof (accept_inv _ _ _ _ Hopen Ha) as Hinv; simpl in Hinv.
    + destruct Hinv as (_ & Hi & Hl & Hm & ->).
      destruct (append_error _ _ _ _) eqn:He; simpl; [by split_and!|].
      split_and!; try done. right. rewrite Hid. by split_and!.
    + destruct Hinv as (_ & Hi & ->). simpl. split_and!; try done. by left.
    + destruct Hinv as (_ & Hi & Hl).
      destruct (append_error _ _ _ _) eqn:He; simpl; by split_and!.
    + simpl. by split_and!.
  - unfold push_first_fragment. pose proof (start_with_first_inv header) as Hs.
    destruct (start_with_first header) as [[s c]|e]; [|by simpl; split_and!].
    destruct Hs as (Hi & -> & ->). unfold assert_within_message_limit.
    case_decide; [by simpl; split_and!|].
    destruct (is_last_fragment header) eqn:Hl; [simpl; split_and!; try done; lia|].
    unfold assert_within_partial_limit.
    destruct (max_concurrent_partials b1) as [l|] eqn:Hc; [case_decide; [by simpl; split_and!|]|].
    all: rewrite add_bytes_spec; destruct (bytes_error b1 (len payload)) eqn:He;
      simpl; split_and!; try done; try lia; intros ? [= <-]; lia.
Qed.

Lemma push_at_wf r header payload now :
  reassembler_wf r -> header_wf header ->
  (forall l, max_concurrent_partials (budget r) = Some l -> l < usize_max) ->
  reassembler_wf (push_at r header payload now).1.
Proof.
  intros Hwf [_ Hidx] Hl. pose proof (push_at_inv r header payload now Hwf) as H.
  pose proof (purge_wf r Hwf now) as Hwf1.
  set (r1 := (purge_expired_at r now).1) in *.
  assert (max_concurrent_partials (budget r1) = max_concurrent_partials (budget r)) as Hmc
    by (subst r1; by rewrite purge_exact).
  clearbody r1. destruct (push_at r header payload now) as [r' res]. cbv zeta in H. simpl.
  destruct H as (_ & Hlim & H). unfold reassembler_wf in *.
  destruct (buffers r1 !! message_id header) as [p|] eqn:Hp.
  - pose proof (sw_partials _ Hwf1 _ p Hp) as [Hid Hopen Hn Hlen].
    pose proof (drop_entry_wf (budget r1) (buffers r1) Hwf1 _ p Hp) as Hdrop.
    destruct res as [[msg|]|e].
    + destruct H as (-> & _). done.
    + destruct H as [[-> _]|(Hi & Hf & Hm & He & -> & ->)]; [done|].
      unfold append_error in He. repeat case_decide; try done.
      apply insert_entry_wf; [done|apply len_nonneg|done| | |].
      * rewrite Hp. simpl. unfold PartialMessage_len. simpl. rewrite len_app. lia.
      * by rewrite Hp.
      * split; simpl; try done; [lia|]. unfold PartialMessage_len in *. simpl.
        rewrite len_app. lia.
    + by rewrite H.
  - destruct res as [[msg|]|e]; [by destruct H as [-> _]| |by rewrite H].
    destruct H as (Hi & Hf & Hlen & He & Hcount & -> & ->).
    apply insert_entry_wf; [done|apply len_nonneg|done| | |].
    + rewrite Hp. simpl. unfold PartialMessage_len. simpl. lia.
    + intros _ l Hl'. specialize (Hcount l Hl').
      rewrite Hmc in Hl'. specialize (Hl l Hl'). unfold saturating_add in Hcount. lia.
    + split; simpl; try done.
Qed.

(** ** Sequences of operations *)

Inductive reassembler_op : Type :=
  | OpPush (header : FragmentHeader) (payload : list Z) (now : Z)
  | OpPurge (now : Z).

Definition op_wf (op : reassembler_op) : Prop :=
  match op with OpPush h _ _ => header_wf h | OpPurge _ => True end.

Definition apply_op (r : Reassembler) (op : reassembler_op) :
    Reassembler * result (option ReassembledMessage) ReassemblyError :=
  match op with
  | OpPush h p now => push_at r h p now
  | OpPurge now => ((purge_expired_at r now).1, Ok None)
  end.

Definition limits_wf (max_size : Z) (max_partials max_bytes : option Z) : Prop :=
  0 < max_size
  /\ (forall l, max_partials = Some l -> 0 < l < usize_max)
  /\ (forall l, max_bytes = Some l -> 0 < l).

Lemma Reassembler_new_wf max_size timeout max_partials max_bytes :
  limits_wf max_size max_partials max_bytes ->
  reassembler_wf (Reassembler_new max_size timeout max_partials max_bytes).
Proof.
  intros (H1 & H2 & H3). split; simpl.
  - by rewrite map_sum_empty.
  - done.
  - intros l Hl. specialize (H3 l Hl). lia.
  - intros l Hl. specialize (H2 l Hl). rewrite map_size_empty. lia.
  - apply map_Forall_empty.
Qed.

Lemma apply_op_limits r op :
  reassembler_wf r -> same_limits (budget r) (budget (apply_op r op).1).
Proof.
  intros Hwf. destruct op as [h p now|now]; cbn [apply_op].
  - pose proof (push_at_inv r h p now Hwf) as H.
    destruct (push_at r h p now). by destruct H as (_ & H & _).
  - by rewrite purge_exact by done.
Qed.

(** ** Properties *)

(** C27: Whatever sequence of fragments arrives and whenever buffers are purged,
    the reassembler's byte counter is exactly the number of retained payload
    bytes, and the three limits hold: no partial message is longer than the
    message limit, there are never more partial messages than allowed, and the
    retained bytes never exceed the aggregate cap (nor wrap). *)
Theorem reassembler_limits_hold (max_size timeout : Z) (max_partials max_bytes : option Z)
    (ops : list reassembler_op) :
  limits_wf max_size max_partials max_bytes -> Forall op_wf ops ->
  let r := (run apply_op (Reassembler_new max_size timeout max_partials max_bytes) ops).1 in
  Reassembler_buffered_bytes r = map_sum PartialMessage_len (buffers r)
  /\ 0 <= Reassembler_buffered_bytes r <= usize_max
  /\ (forall l, max_bytes = Some l -> Reassembler_buffered_bytes r <= l)
  /\ (forall l, max_partials = Some l -> buffered_len r <= l)
  /\ (forall mid p, buffers r !! mid = Some p -> PartialMessage_len p <= max_size).
Proof.
  intros Hlim Hops. set (r0 := Reassembler_new _ _ _ _). cbv zeta.
  assert (forall r, reassembler_wf r -> same_limits (budget r0) (budget r) -> forall ops,
    Forall op_wf ops -> reassembler_wf (run apply_op r ops).1
    /\ same_limits (budget r0) (budget (run apply_op r ops).1)) as Hrun.
  { intros r Hr Hs ops'. revert r Hr Hs. induction ops' as [|op ops' IH]; intros r Hr Hs Hf;
      simpl; [done|].
    inversion_clear Hf as [|?? Hop Hf'].
    pose proof (apply_op_limits r op Hr) as Hl.
    assert (reassembler_wf (apply_op r op).1) as Hw.
    { destruct op; simpl in *; [|by apply purge_wf]. apply push_at_wf; try done.
      destruct Hs as (_ & -> & _). intros l E. destruct Hlim as (_ & H & _). by apply H. }
    destruct (apply_op r op) as [r1 o]. simpl in *.
    specialize (IH r1 Hw). destruct (run apply_op r1 ops') as [r2 os]. simpl in *.
    apply IH; [|done]. unfold same_limits in *. intuition congruence. }
  destruct (Hrun r0 (Reassembler_new_wf _ _ _ _ Hlim) ltac:(done) ops Hops)
    as [[Hb Hr Hc Hn Hps] (E1 & E2 & E3)].
  simpl in *. unfold Reassembler_buffered_bytes, buffered_len. split_and!.
  - done.
  - rewrite Hb. apply map_sum_nonneg, plen_nonneg.
  - done.
  - intros l Hl. apply Hc. congruence.
  - intros l Hl. apply Hn. congruence.
  - intros mid p Hp. destruct (Hps mid p Hp). simpl in *. congruence.
Qed.

Lemma reassembler_limits_hold_witness :
  let ops := [OpPush (mk_FragmentHeader 1 0 false) [1; 2] 5; OpPurge 6;
              OpPush (mk_FragmentHeader 1 2 false) [3] 7] in
  let r := (run apply_op (Reassembler_new 8 100 (Some 1) (Some 4)) ops).1 in
  Reassembler_buffered_bytes r = map_sum PartialMessage_len (buffers r).
Proof.
  refine (proj1 (reassembler_limits_hold 8 100 (Some 1) (Some 4) _ _ _)).
  - split_and!; [done| |]; intros l [= <-]; done.
  - repeat constructor; done.
Defined.

(** Purging removes exactly the entries older than the timeout, reports
    exactly their identifiers, once each, and leaves the others as they are. *)
Theorem purge_exactly_expired (r : Reassembler) (now : Z) :
  reassembler_wf r ->
  let '(r', evicted) := purge_expired_at r now in
  (forall mid, buffers r' !! mid
     = p ← buffers r !! mid;
       if decide (timeout r <= saturating_duration_since now (started_at p))
       then None else Some p)
  /\ NoDup evicted
  /\ (forall mid, mid ∈ evicted <-> is_Some (buffers r !! mid) /\ buffers r' !! mid = None)
  /\ Reassembler_buffered_bytes r' = map_sum PartialMessage_len (buffers r').
Proof.
  intros Hwf. rewrite purge_exact by done. cbn [buffers fst snd].
  assert (forall mid, filter (fun kv => ~ is_expired now (timeout r) kv) (buffers r) !! mid
     = p ← buffers r !! mid;
       if decide (timeout r <= saturating_duration_since now (started_at p))
       then None else Some p) as Hl.
  { intros mid. rewrite map_lookup_filter. destruct (buffers r !! mid) as [p|]; simpl; [|done].
    case_guard as Hg; case_decide as Hd; unfold is_expired in Hg; simpl in *; tauto. }
  split_and!; [done|apply NoDup_keys_where| |done].
  intros mid. rewrite elem_of_keys_where, Hl. unfold is_expired. simpl. split.
  - intros (p & -> & He). simpl. rewrite decide_True by done. eauto.
  - intros [[p Hp] Hn]. rewrite Hp in *. simpl in Hn. case_decide; naive_solver.
Qed.

Lemma purge_exactly_expired_witness :
  let r := (push_at (Reassembler_new 8 10 None None) (mk_FragmentHeader 1 0 false) [1; 2] 5).1 in
  let '(r', evicted) := purge_expired_at r 15 in
  forall mid, mid ∈ evicted <-> is_Some (buffers r !! mid) /\ buffers r' !! mid = None.
Proof.
  set (r := (push_at _ _ _ _).1).
  assert (reassembler_wf r) as Hwf.
  { apply push_at_wf; [apply Reassembler_new_wf; split_and!; done|split; vm_compute; split; congruence|done]. }
  pose proof (purge_exactly_expired r 15 Hwf) as H. cbv zeta.
  destruct (purge_expired_at r 15). exact (proj1 (proj2 (proj2 H))).
Defined.

(** Messages do not interfere: pushing a fragment of one message changes no
    other message's buffer, beyond evicting those that have expired; and when
    a fragment of a buffered message is refused, that message's buffer is
    released. *)
Theorem push_isolated (r : Reassembler) (h : FragmentHeader) (payload : list Z) (now : Z) :
  reassembler_wf r ->
  let r1 := (purge_expired_at r now).1 in
  let '(r', res) := push_at r h payload now in
  (forall mid, mid <> message_id h -> buffers r' !! mid = buffers r1 !! mid)
  /\ (is_ok res = false -> buffers r' !! message_id h = None)
  /\ (forall msg, res = Ok (Some msg) -> buffers r' !! message_id h = None).
Proof.
  intros Hwf. pose proof (push_at_inv r h payload now Hwf) as H. cbv zeta in *.
  destruct (push_at r h payload now) as [r' res].
  set (r1 := (purge_expired_at r now).1) in *. clearbody r1. destruct H as (_ & _ & H).
  destruct (buffers r1 !! message_id h) as [p|] eqn:Hp.
  - destruct res as [[msg|]|e]; simpl in *.
    + destruct H as ([= _ ->] & _). split_and!; try done.
      * intros. by rewrite lookup_delete_ne.
      * intros. apply lookup_delete_eq.
    + destruct H as [[-> _]|(_ & _ & _ & _ & _ & ->)]; split_and!; try done.
      intros. by rewrite lookup_insert_ne.
    + injection H as _ ->. split_and!; try done.
      * intros. by rewrite lookup_delete_ne.
      * intros. apply lookup_delete_eq.
  - destruct res as [[msg|]|e]; simpl in *.
    + by destruct H as [-> _].
    + destruct H as (_ & _ & _ & _ & _ & _ & ->). split_and!; try done.
      intros. by rewrite lookup_insert_ne.
    + by subst r'.
Qed.

Lemma push_isolated_witness :
  let r := Reassembler_new 8 10 None None in
  let r1 := (purge_expired_at r 3).1 in
  let '(r', res) := push_at r (mk_FragmentHeader 4 0 false) [1] 3 in
  forall mid, mid <> 4 -> buffers r' !! mid = buffers r1 !! mid.
Proof.
  pose proof (push_isolated (Reassembler_new 8 10 None None) (mk_FragmentHeader 4 0 false) [1] 3)
    as H. cbv zeta in *.
  destruct (push_at _ _ _ _). apply H. apply Reassembler_new_wf. by split_and!.
Defined.

(** ** What was pushed *)

Definition pushes (ops : list reassembler_op) : list (FragmentHeader * list Z) :=
  omap (fun op => match op with OpPush h p _ => Some (h, p) | OpPurge _ => None end) ops.

(** [frs] are the fragments of message [mid] numbered from 0, none of them the
    last. *)
Definition leading_fragments (mid : Z) (frs : list (FragmentHeader * list Z)) : Prop :=
  frs.*1 = imap (fun k _ => mk_FragmentHeader mid (Z.of_nat k) false) frs.

Definition explained (hist : list (FragmentHeader * list Z)) (mid : Z) (p : PartialMessage) : Prop :=
  exists frs, frs `sublist_of` hist /\ leading_fragments mid frs
    /\ len frs = next_index (series p) /\ concat frs.*2 = buffer p.

Lemma leading_fragments_snoc mid frs h payload :
  leading_fragments mid frs ->
  h = mk_FragmentHeader mid (len frs) false ->
  leading_fragments mid (frs ++ [(h, payload)]).
Proof.
  unfold leading_fragments. intros H ->.
  rewrite fmap_app, imap_app, H. do 2 f_equal. simpl. by rewrite Nat.add_0_r.
Qed.

Lemma explained_weaken hist x mid p : explained hist mid p -> explained (hist ++ [x]) mid p.
Proof.
  intros (frs & Hs & H). exists frs. split; [|done]. etransitivity; [done|].
  apply sublist_inserts_r. done.
Qed.

Lemma explained_step r hist op :
  reassembler_wf r -> op_wf op ->
  map_Forall (explained hist) (buffers r) ->
  map_Forall (explained (hist ++ pushes [op])) (buffers (apply_op r op).1).
Proof.
  intros Hwf Hop He.
  assert (forall now, map_Forall (explained hist) (buffers (purge_expired_at r now).1)) as Hpurge.
  { intros now. rewrite purge_exact by done. cbn [fst buffers].
    intros mid p Hm. apply map_lookup_filter_Some in Hm as [Hm _]. by apply He. }
  destruct op as [h payload now|now]; cbn [apply_op pushes omap list_omap].
  2: { rewrite app_nil_r. apply Hpurge. }
  pose proof (push_at_inv r h payload now Hwf) as H. specialize (Hpurge now). cbv zeta in *.
  pose proof (purge_wf r Hwf now) as Hwf1.
  destruct (push_at r h payload now) as [r' res].
  set (r1 := (purge_expired_at r now).1) in *. clearbody r1. destruct H as (_ & _ & H). simpl.
  assert (map_Forall (explained (hist ++ [(h, payload)])) (buffers r1)) as Hold.
  { intros mid p Hm. by apply explained_weaken, Hpurge. }
  destruct (buffers r1 !! message_id h) as [p|] eqn:Hp.
  - assert (map_Forall (explained (hist ++ [(h, payload)])) (delete (message_id h) (buffers r1)))
      as Hdel by by apply map_Forall_delete.
    destruct res as [[msg|]|e].
    + by destruct H as ([= _ ->] & _).
    + destruct H as [[-> _]|(Hi & Hl & Hm & _ & _ & ->)]; [done|].
      apply map_Forall_insert_2; [|done].
      destruct (Hpurge _ _ Hp) as (frs & Hs & Hlead & Hlen & Hcat).
      exists (frs ++ [(h, payload)]). split_and!.
      * by apply sublist_app.
      * apply leading_fragments_snoc; [done|]. destruct h. simpl in *. congruence.
      * rewrite len_app. simpl. rewrite Hlen. done.
      * rewrite fmap_app, concat_app, Hcat. simpl. by rewrite app_nil_r.
    + by injection H as _ ->.
  - destruct res as [[msg|]|e]; [by destruct H as [-> _]| |by subst r'].
    destruct H as (Hi & Hl & _ & _ & _ & _ & ->). apply map_Forall_insert_2; [|done].
    exists [(h, payload)]. split_and!; try done.
    + by apply sublist_inserts_l.
    + unfold leading_fragments. destruct h. simpl in *. by subst.
    + simpl. by rewrite app_nil_r.
Qed.

Lemma run_explained max_size timeout max_partials max_bytes ops :
  limits_wf max_size max_partials max_bytes -> Forall op_wf ops ->
  let r := (run apply_op (Reassembler_new max_size timeout max_partials max_bytes) ops).1 in
  reassembler_wf r /\ same_limits (ReassemblyBudget_new max_size max_partials max_bytes) (budget r)
  /\ map_Forall (explained (pushes ops)) (buffers r).
Proof.
  intros Hlim. induction ops as [|op ops IH] using rev_ind; intros Hops; cbv zeta in *.
  - split_and!; [by apply Reassembler_new_wf|done|apply map_Forall_empty].
  - apply Forall_app in Hops as [Hops Hop]. inversion_clear Hop.
    destruct (IH Hops) as (Hwf & Hsame & He). rewrite run_app.
    destruct (run apply_op _ ops) as [r os]. simpl in Hwf, Hsame, He. cbn [run].
    pose proof (explained_step r _ op Hwf ltac:(done) He) as He'.
    pose proof (apply_op_limits r op Hwf) as Hl.
    assert (reassembler_wf (apply_op r op).1) as Hw.
    { destruct op; cbn [apply_op fst]; [|by apply purge_wf]. apply push_at_wf; try done.
      destruct Hsame as (_ & -> & _). intros l E. destruct Hlim as (_ & H' & _). by apply H'. }
    destruct (apply_op r op) as [r1 o]. simpl in *.
    split_and!; [done| |by unfold pushes in *; rewrite omap_app].
    unfold same_limits in *. simpl in *. intuition congruence.
Qed.

(** Nothing is fabricated: a message is delivered only when its final
    fragment arrives, all its fragments 0, 1, ..., n have been received in
    this order, and then it is exactly their concatenation and within the
    message limit. *)
Theorem delivered_messages_were_sent (max_size timeout : Z) (max_partials max_bytes : option Z)
    (ops : list reassembler_op) (h : FragmentHeader) (payload : list Z) (now : Z)
    (msg : ReassembledMessage) :
  limits_wf max_size max_partials max_bytes -> Forall op_wf ops ->
  let r := (run apply_op (Reassembler_new max_size timeout max_partials max_bytes) ops).1 in
  (push_at r h payload now).2 = Ok (Some msg) ->
  exists frs,
    frs `sublist_of` pushes ops
    /\ leading_fragments (message_id h) frs
    /\ h = mk_FragmentHeader (message_id h) (len frs) true
    /\ reassembled_message_id msg = message_id h
    /\ reassembled_payload msg = concat frs.*2 ++ payload
    /\ len (reassembled_payload msg) <= max_size.
Proof.
  intros Hlim Hops. cbv zeta. intros Hpush.
  destruct (run_explained max_size timeout max_partials max_bytes ops Hlim Hops)
    as (Hwf & (Hms & _) & He). set (r := (run _ _ _).1) in *. clearbody r.
  pose proof (push_at_inv r h payload now Hwf) as H.
  destruct (push_at r h payload now) as [r' res]. simpl in Hpush. subst res. cbv zeta in H.
  rewrite purge_exact in H by done. cbn [fst buffers budget] in H.
  set (m := filter _ (buffers r)) in H. destruct H as (_ & _ & H).
  destruct (m !! message_id h) as [p|] eqn:Hp.
  - destruct H as (_ & -> & Hi & Hl & Herr).
    apply map_lookup_filter_Some in Hp as [Hp _].
    destruct (He _ _ Hp) as (frs & Hs & Hlead & Hlen & Hcat).
    exists frs. split_and!; try done; simpl.
    + destruct h. simpl in *. congruence.
    + by rewrite Hcat.
    + unfold append_error in Herr. repeat case_decide; try done. rewrite len_app.
      simpl in *. unfold PartialMessage_len in *. lia.
  - destruct H as (_ & -> & Hi & Hl & Hlen). exists []. split_and!; try done; simpl in *.
    + apply sublist_nil_l.
    + destruct h. simpl in *. by subst.
    + lia.
Qed.

Lemma delivered_messages_were_sent_witness :
  let ops := [OpPush (mk_FragmentHeader 1 0 false) [1; 2] 5;
              OpPush (mk_FragmentHeader 2 0 false) [9] 5] in
  exists frs, frs `sublist_of` pushes ops
    /\ [1; 2; 3] = concat frs.*2 ++ [3].
Proof.
  destruct (delivered_messages_were_sent 8 100 (Some 4) (Some 8)
    [OpPush (mk_FragmentHeader 1 0 false) [1; 2] 5; OpPush (mk_FragmentHeader 2 0 false) [9] 5]
    (mk_FragmentHeader 1 1 true) [3] 6 (mk_ReassembledMessage 1 [1; 2; 3]))
    as (frs & H1 & _ & _ & _ & H2 & _).
  - split_and!; [done| |]; intros l [= <-]; done.
  - repeat constructor; done.
  - vm_compute. reflexivity.
  - exists frs. split; [exact H1|exact H2].
Defined.
