(* ===== verification/ReassemblerSpec.v ===== *)
(** * What reassembly promises

    An abstract specification of [Reassembler] and the refinement theorem.

    The specification keeps, for each message, the list of the payloads
    received so far (no byte counters, no ordering state, no concatenated
    buffer) and treats first and later fragments by one rule; the code's two
    paths, its stored counter and its incremental buffer implement it. *)

From S2P Require Import Prelude.
From S2P Require Import Fragment.
From S2P Require Import Reassembler.

(** ** The specification *)

Record message_log : Type := mk_message_log {
  log_id : Z;
  log_chunks : list (list Z);
  log_started : Z
}.

Inductive outcome : Type :=
  | Pending
  | Delivered (payload : list Z)
  | Refused.

Record limits : Type := mk_limits {
  lim_message : Z;
  lim_partials : option Z;
  lim_bytes : option Z;
  lim_timeout : Z
}.

Definition log_bytes (g : message_log) : Z := len (concat (log_chunks g)).
Definition bytes_held (m : gmap Z message_log) : Z := map_sum log_bytes m.

Definition within (l : option Z) (n : Z) : Prop := from_option (fun l => n <= l) True l.
#[export] Instance within_dec l n : Decision (within l n).
Proof. destruct l; simpl; apply _. Defined.

(** May [extra] more bytes be retained, in one more message if [fresh]? *)
Definition room (lim : limits) (m : gmap Z message_log) (fresh : bool) (extra : Z) : Prop :=
  bytes_held m + extra <= usize_max
  /\ within (lim_bytes lim) (bytes_held m + extra)
  /\ (fresh = true -> within (lim_partials lim) (Z.of_nat (size m) + 1)).
#[export] Instance room_dec lim m fresh extra : Decision (room lim m fresh extra).
Proof. unfold room. destruct fresh; apply _. Defined.

(** Time since the first fragment; a clock that went backwards counts as 0. *)
Definition age (now : Z) (g : message_log) : Z := Z.max 0 (now - log_started g).

(** One rule for every fragment, among messages that have not expired. *)
Definition spec_accept (lim : limits) (m : gmap Z message_log) (h : FragmentHeader)
    (payload : list Z) (now : Z) : gmap Z message_log * outcome :=
  let mid := message_id h in
  let log := default (mk_message_log mid [] now) (m !! mid) in
  let n := len (log_chunks log) in
  let log' := mk_message_log mid (log_chunks log ++ [payload]) (log_started log) in
  let refuse := (delete mid m, Refused) in
  if decide (fragment_index h < n) then (m, Pending)
  else if decide (n < fragment_index h) then refuse
  else if decide (lim_message lim < log_bytes log') then refuse
  else if is_last_fragment h then
    if decide (n = 0 \/ room lim m false (len payload))
    then (delete mid m, Delivered (concat (log_chunks log'))) else refuse
  else if decide (n < u32_max /\ room lim m (bool_decide (n = 0)) (len payload))
  then (<[mid := log']> m, Pending) else refuse.

Definition spec_push (lim : limits) (m : gmap Z message_log) (h : FragmentHeader)
    (payload : list Z) (now : Z) : gmap Z message_log * outcome :=
  spec_accept lim (filter (fun kv => age now kv.2 < lim_timeout lim) m) h payload now.

(** ** The refinement relation *)

Definition conc (g : message_log) : PartialMessage :=
  mk_PartialMessage (mk_FragmentSeries (log_id g) (len (log_chunks g)) false)
    (concat (log_chunks g)) (log_started g).

Definition limits_of (r : Reassembler) : limits :=
  mk_limits (max_message_size (budget r)) (max_concurrent_partials (budget r))
    (max_buffered_bytes (budget r)) (timeout r).

Definition refines (lim : limits) (r : Reassembler) (m : gmap Z message_log) : Prop :=
  reassembler_wf r /\ limits_of r = lim /\ buffers r = conc <$> m.

Definition outcome_of (res : result (option ReassembledMessage) ReassemblyError) : outcome :=
  match res with
  | Ok None => Pending
  | Ok (Some msg) => Delivered (reassembled_payload msg)
  | Err _ => Refused
  end.

Lemma map_sum_conc m : map_sum PartialMessage_len (conc <$> m) = bytes_held m.
Proof.
  unfold bytes_held. induction m as [|i g m Hi IH] using map_ind.
  - by rewrite fmap_empty, !map_sum_empty.
  - rewrite fmap_insert, !map_sum_insert by (done || by rewrite lookup_fmap, Hi).
    by rewrite IH.
Qed.

(** The purge and the specification's filter keep the same messages. *)
Lemma purge_refines lim r m now :
  refines lim r m ->
  let m1 := filter (fun kv => age now kv.2 < lim_timeout lim) m in
  refines lim (purge_expired_at r now).1 m1.
Proof.
  intros (Hwf & <- & Hm) m1. split_and!.
  - by apply purge_wf.
  - by rewrite purge_exact.
  - rewrite purge_exact by done. cbn [fst buffers]. rewrite Hm, map_filter_fmap.
    f_equal. apply map_filter_ext. intros i g _. unfold is_expired, conc, age.
    cbn [fst snd started_at lim_timeout limits_of].
    unfold saturating_duration_since, saturating_sub. lia.
Qed.

(** ** Steps after the purge *)

Section step.
Context (lim : limits) (Hl : forall l, lim_partials lim = Some l -> l < usize_max).

Lemma bytes_error_room r m n :
  refines lim r m -> 0 <= n ->
  bytes_error (budget r) n = None <-> room lim m false n.
Proof.
  intros (Hwf & <- & Hm) Hn. rewrite bytes_error_None. unfold room, within. simpl.
  pose proof (sw_bytes _ Hwf) as Hb. simpl in Hb. rewrite Hm, map_sum_conc in Hb.
  rewrite Hb. destruct (max_buffered_bytes (budget r)) as [l|]; simpl; split.
  - intros [H1 H2]. split_and!; [done|by apply H2|done].
  - intros (H1 & H2 & _). split; [done|]. by intros ? [= <-].
  - intros [H1 _]. done.
  - intros (H1 & _ & _). done.
Qed.

Lemma partial_limit_room r m :
  refines lim r m ->
  is_ok (assert_within_partial_limit (budget r) (Z.of_nat (size (buffers r)))) = true
  <-> within (lim_partials lim) (Z.of_nat (size m) + 1).
Proof.
  intros (Hwf & <- & Hm). rewrite Hm, map_size_fmap.
  unfold assert_within_partial_limit, within. simpl in *.
  destruct (max_concurrent_partials (budget r)) as [l|]; simpl; [|done].
  specialize (Hl l eq_refl). unfold saturating_add.
  case_decide; simpl; split; intros; try done; lia.
Qed.

(** [drop_entry] is the specification's [delete]. *)
Lemma drop_refines r m mid g :
  refines lim r m -> m !! mid = Some g ->
  let s := drop_entry (budget r, buffers r) mid (conc g) in
  refines lim (mk_Reassembler s.1 (timeout r) s.2) (delete mid m).
Proof.
  intros (Hwf & Hlim & Hm) Hg. split_and!.
  - apply (drop_entry_wf (budget r) (buffers r) Hwf mid (conc g)).
    by rewrite Hm, lookup_fmap, Hg.
  - by rewrite <- Hlim.
  - simpl. by rewrite Hm, fmap_delete.
Qed.

Lemma accept_conc g h :
  message_id h = log_id g ->
  let n := len (log_chunks g) in
  accept (series (conc g)) h
  = if decide (fragment_index h < n) then (series (conc g), Ok Duplicate)
    else if decide (n < fragment_index h)
    then (series (conc g), Err (IndexMismatch n (fragment_index h)))
    else if is_last_fragment h
    then (mk_FragmentSeries (log_id g) (default n (checked_add u32_max n 1)) true, Ok Complete)
    else if decide (n < u32_max)
    then (mk_FragmentSeries (log_id g) (n + 1) false, Ok Incomplete)
    else (series (conc g), Err (IndexOverflow n)).
Proof.
  intros Hid n. unfold accept, advance_accepted, FragmentIndex_checked_increment, conc.
  cbn [series series_message_id next_index complete]. fold n.
  rewrite (decide_False (P := message_id h <> log_id g)) by congruence.
  repeat (case_decide; [done|]). replace (fragment_index h) with n by lia.
  destruct (is_last_fragment h); [done|]. unfold checked_add.
  case_decide; case_decide; try done; lia.
Qed.

Lemma append_error_room r m mid g (payload : list Z) :
  refines lim r m -> m !! mid = Some g ->
  append_error (budget r) mid (PartialMessage_len (conc g)) (len payload) = None
  <-> log_bytes g + len payload <= lim_message lim /\ room lim m false (len payload).
Proof.
  intros Href Hg. pose proof (len_nonneg payload) as Hpos.
  rewrite <- (bytes_error_room r m) by done.
  unfold append_error. change (PartialMessage_len (conc g)) with (log_bytes g).
  destruct Href as (Hwf & <- & Hm). simpl.
  assert (log_bytes g <= buffered_bytes (budget r)) as Hle.
  { apply (entry_len_le (budget r) (buffers r) Hwf mid (conc g)).
    by rewrite Hm, lookup_fmap, Hg. }
  repeat case_decide; split; try done; try lia.
  - intros [_ [Hu _]%bytes_error_None]. lia.
  - intros Hn. split; [lia|done].
  - by intros [_ ?].
Qed.

Lemma insert_refines r m mid g n :
  refines lim r m ->
  reassembler_wf (mk_Reassembler (with_buffered (budget r) n) (timeout r)
                    (<[mid := conc g]> (buffers r))) ->
  refines lim (mk_Reassembler (with_buffered (budget r) n) (timeout r)
                 (<[mid := conc g]> (buffers r))) (<[mid := g]> m).
Proof.
  intros (_ & <- & Hm) Hwf. split_and!; [done|done|]. simpl. by rewrite Hm, fmap_insert.
Qed.

Lemma existing_refines r m h payload now g :
  refines lim r m -> m !! message_id h = Some g ->
  let '(s, res) := push_existing_fragment (budget r, buffers r) (message_id h) (conc g) h payload in
  let '(m', o) := spec_accept lim m h payload now in
  (reassembler_wf (mk_Reassembler s.1 (timeout r) s.2) ->
   refines lim (mk_Reassembler s.1 (timeout r) s.2) m') /\ outcome_of res = o.
Proof.
  intros Href Hg. pose proof Href as (Hwf & Hlim & Hm).
  assert (buffers r !! message_id h = Some (conc g)) as Hp
    by by rewrite Hm, lookup_fmap, Hg.
  pose proof (sw_partials _ Hwf _ _ Hp) as [Hid _ Hn _]. simpl in Hid, Hn.
  rewrite (push_existing_exact _ _ Hwf _ _ Hp) by done.
  rewrite accept_conc by done. unfold spec_accept. rewrite Hg. cbn [default from_option id].
  set (n := len (log_chunks g)) in *.
  set (log' := mk_message_log (message_id h) (log_chunks g ++ [payload]) (log_started g)).
  assert (concat (log_chunks log') = concat (log_chunks g) ++ payload) as Hcat.
  { simpl. rewrite concat_app. simpl. by rewrite app_nil_r. }
  assert (log_bytes log' = log_bytes g + len payload) as Hbytes.
  { unfold log_bytes at 1. by rewrite Hcat, len_app. }
  pose proof (append_error_room r m _ g payload Href Hg) as Happ.
  pose proof (drop_refines r m _ g Href Hg) as Hdrop. cbv zeta in Hdrop.
  case_decide; [split; [|done]; intros _; by destruct r|].
  case_decide; [done|]. rewrite Hbytes.
  assert (bool_decide (n = 0) = false) as -> by (apply bool_decide_false; lia).
  destruct (is_last_fragment h).
  - destruct (append_error _ _ _ _) eqn:He.
    + case_decide; [done|]. rewrite decide_False; [done|].
      intros [?|Hroom]; [lia|]. enough (Some r0 = None) by done. apply Happ. split; [lia|done].
    + destruct (proj1 Happ eq_refl). rewrite decide_False by lia.
      rewrite decide_True by auto. split; [done|]. simpl. by rewrite <- Hcat.
  - case_decide as Hmax.
    + destruct (append_error _ _ _ _) eqn:He.
      * case_decide; [done|]. rewrite decide_False; [done|].
        intros [_ Hroom]. enough (Some r0 = None) by done. apply Happ. split; [lia|done].
      * destruct (proj1 Happ eq_refl). rewrite decide_False by lia.
        rewrite decide_True by auto. split; [|done]. simpl. rewrite Hid.
        assert (mk_PartialMessage (mk_FragmentSeries (message_id h) (n + 1) false)
                  (concat (log_chunks g) ++ payload) (log_started g) = conc log') as ->.
        { unfold conc. rewrite Hcat. simpl. unfold n. by rewrite len_app. }
        by apply insert_refines.
    + case_decide; [done|]. by rewrite decide_False by (intros [? _]; lia).
Qed.

Lemma first_refines r m h payload now :
  refines lim r m -> m !! message_id h = None -> 0 <= fragment_index h ->
  let '(s, res) := push_first_fragment (budget r, buffers r) (Z.of_nat (size (buffers r)))
                     h payload now in
  let '(m', o) := spec_accept lim m h payload now in
  (reassembler_wf (mk_Reassembler s.1 (timeout r) s.2) ->
   refines lim (mk_Reassembler s.1 (timeout r) s.2) m') /\ outcome_of res = o.
Proof.
  intros Href Hg Hidx. pose proof (partial_limit_room r m Href) as Hpart.
  pose proof (bytes_error_room r m (len payload) Href (len_nonneg payload)) as Hroom.
  assert (delete (message_id h) m = m) as Hdel by by apply delete_id.
  pose proof Href as (Hwf & Hlim & Hm).
  assert (refines lim (mk_Reassembler (budget r) (timeout r) (buffers r)) m) as Hsame
    by by destruct r.
  assert (max_message_size (budget r) = lim_message lim) as Hms by by rewrite <- Hlim.
  unfold spec_accept. rewrite Hg. cbn [default from_option log_chunks log_started].
  change (len []) with 0. rewrite decide_False by lia. rewrite Hdel.
  unfold push_first_fragment. pose proof (start_with_first_inv h) as Hs.
  destruct (start_with_first h) as [[s c]|e].
  2: { destruct Hs as [Hi _]. rewrite decide_True by lia. done. }
  destruct Hs as (Hi & -> & ->). rewrite decide_False by lia.
  assert (log_bytes (mk_message_log (message_id h) ([] ++ [payload]) now) = len payload) as ->.
  { unfold log_bytes. simpl. by rewrite app_nil_r. }
  unfold assert_within_message_limit. rewrite Hms. case_decide; [done|].
  destruct (is_last_fragment h).
  { rewrite decide_True by auto. split; [done|]. simpl. by rewrite app_nil_r. }
  rewrite bool_decide_true by done.
  destruct (assert_within_partial_limit _ _) as [|e]; simpl in Hpart.
  2: { rewrite decide_False; [done|]. intros (_ & _ & _ & Hw). by apply Hpart in Hw. }
  rewrite add_bytes_spec. destruct (bytes_error _ _) eqn:He.
  { rewrite decide_False; [done|]. intros (_ & H1 & H2 & _).
    enough (Some r0 = None) by done. apply Hroom. done. }
  destruct (proj1 Hroom eq_refl) as (H1 & H2 & _).
  rewrite decide_True; [|split; [done|]; split_and!; [done|done|intros _; by apply Hpart]].
  split; [|done]. simpl.
  assert (mk_PartialMessage (mk_FragmentSeries (message_id h) 1 false) payload now
          = conc (mk_message_log (message_id h) [payload] now)) as ->.
  { unfold conc. simpl. by rewrite app_nil_r. }
  by apply insert_refines.
Qed.
End step.

(** ** Property *)

(** C1: [push_at] implements the specification: related states stay related
    and the outcomes agree, for every fragment and on every path. *)
Theorem push_at_refines (lim : limits) (r : Reassembler) (m : gmap Z message_log)
    (h : FragmentHeader) (payload : list Z) (now : Z) :
  (forall l, lim_partials lim = Some l -> l < usize_max) -> header_wf h ->
  refines lim r m ->
  let '(r', res) := push_at r h payload now in
  let '(m', o) := spec_push lim m h payload now in
  refines lim r' m' /\ outcome_of res = o.
Proof.
  intros Hl Hh Href. pose proof Href as (Hwf & Hlim & _).
  pose proof (push_at_wf r h payload now Hwf Hh ltac:(by rewrite <- Hlim in Hl)) as Hwf'.
  pose proof (purge_refines lim r m now Href) as Href1. cbv zeta in Href1.
  unfold spec_push. unfold push_at in *. set (r1 := (purge_expired_at r now).1) in *.
  set (m1 := filter _ m) in *. clearbody r1 m1.
  pose proof Href1 as (_ & _ & Hm1).
  destruct (m1 !! message_id h) as [g|] eqn:Hg.
  - assert (buffers r1 !! message_id h = Some (conc g)) as Hp
      by by rewrite Hm1, lookup_fmap, Hg.
    rewrite Hp in *. pose proof (existing_refines lim Hl r1 m1 h payload now g Href1 Hg) as H.
    destruct (push_existing_fragment _ _ _ _ _) as [s res].
    destruct (spec_accept _ _ _ _ _) as [m' o]. destruct H as [H1 H2]. auto.
  - assert (buffers r1 !! message_id h = None) as Hp
      by by rewrite Hm1, lookup_fmap, Hg.
    rewrite Hp in *.
    pose proof (first_refines lim Hl r1 m1 h payload now Href1 Hg ltac:(apply Hh)) as H.
    destruct (push_first_fragment _ _ _ _ _) as [s res].
    destruct (spec_accept _ _ _ _ _) as [m' o]. destruct H as [H1 H2]. auto.
Qed.

Lemma push_at_refines_witness :
  let lim := mk_limits 8 (Some 2) (Some 8) 10 in
  let r := Reassembler_new 8 10 (Some 2) (Some 8) in
  let h := mk_FragmentHeader 1 0 false in
  let '(r', res) := push_at r h [1; 2] 0 in
  let '(m', o) := spec_push lim ∅ h [1; 2] 0 in
  refines lim r' m' /\ outcome_of res = o.
Proof.
  apply (push_at_refines (mk_limits 8 (Some 2) (Some 8) 10)).
  - intros l [= <-]. done.
  - split; vm_compute; split; congruence.
  - split_and!; [|done|by rewrite fmap_empty]. apply Reassembler_new_wf.
    split_and!; [done| |]; intros l [= <-]; done.
Defined.
