(* ===== verification/FragmentPayload.v ===== *)
(** * Fragment payloads on the wire

    [src/src/fragment/payload.rs] and [config.rs]: a fragment travels inside an
    ordinary frame payload as [FRAG], a big-endian [u16] header length, the
    serialized header and the chunk.

    The header is serialized by [bincode] with its standard configuration,
    which is not part of the repository: [Bincode] holds the two functions the
    code calls and [BincodeLaws] what their documentation promises (decoding
    what was encoded gives it back, whatever follows; a [u64], a [u32] and a
    [bool] take at most 9, 5 and 1 bytes in the variable-length encoding, and
    one byte each when they are small).  [varint_bincode] satisfies the laws. *)

From S2P Require Import Prelude.
From S2P Require Import ByteOrder.
From S2P Require Import Fragment.
Open Scope rust_scope.

Class Bincode : Type := {
  encode_to_vec : FragmentHeader -> result (list Z) EncodeError;
  borrow_decode_from_slice : list Z -> result (FragmentHeader * Z) DecodeError
}.

Class BincodeLaws (C : Bincode) : Prop := {
  encode_header_total h :
    header_wf h -> exists bs, encode_to_vec h = Ok bs /\ Forall is_byte bs /\ 3 <= len bs <= 15;
  encode_header_small h bs :
    0 <= message_id h <= 250 -> 0 <= fragment_index h <= 250 ->
    encode_to_vec h = Ok bs -> len bs = 3;
  decode_encode_header h bs rest :
    header_wf h -> encode_to_vec h = Ok bs ->
    borrow_decode_from_slice (bs ++ rest) = Ok (h, len bs)
}.

(** ** [payload.rs] *)

(** [b"FRAG"] *)
Definition FRAGMENT_MAGIC : list Z := [70; 82; 65; 71].

Section payload.
Context {B : BytesCrate} {C : Bincode}.

(** [None] is the panic of a failed encoding. *)
Definition fragment_overhead : option Z :=
  let header := mk_FragmentHeader 0 FragmentIndex_zero false in
  match encode_to_vec header with
  | Err _ => None
  | Ok header_bytes =>
      let overhead := len FRAGMENT_MAGIC + 2 + len header_bytes in
      if decide (overhead = 0) then None else Some overhead
  end.

Definition encode_fragment_payload (header : FragmentHeader) (payload : list Z) :
    result (list Z) EncodeError :=
  let? header_bytes := encode_to_vec header in
  let? header_len := ok_or (try_into u16_max (len header_bytes))
    (EncodeError_Other "fragment header length must fit within u16::MAX") in
  Ok (FRAGMENT_MAGIC ++ write_network_u16 header_len ++ header_bytes ++ payload).

Definition decode_fragment_payload (payload : list Z) :
    result (option (FragmentHeader * list Z)) DecodeError :=
  let minimum_len := len FRAGMENT_MAGIC + 2 in
  if decide (len payload < minimum_len) then Ok None
  else if decide (slice_get payload 0 (len FRAGMENT_MAGIC) <> Some FRAGMENT_MAGIC) then Ok None
  else
    let header_len_offset := len FRAGMENT_MAGIC in
    let? len_hi := ok_or (index_get payload header_len_offset) (UnexpectedEnd 0) in
    let? len_lo := ok_or (index_get payload (header_len_offset + 1)) (UnexpectedEnd 0) in
    let header_len := read_network_u16 [len_hi; len_lo] in
    let header_start := header_len_offset + 2 in
    let header_end := header_start + header_len in
    match slice_get payload header_start header_end with
    | None => Err (UnexpectedEnd (saturating_sub header_end (len payload)))
    | Some header_bytes =>
        let? '(header, consumed) := borrow_decode_from_slice header_bytes in
        if decide (consumed <> header_len)
        then Err (OtherString "fragment header length mismatch")
        else
          let remainder := default [] (slice_from payload header_end) in
          Ok (Some (header, remainder))
    end.

(** ** [config.rs] *)

Definition DEFAULT_MAX_CONCURRENT_PARTIALS : Z := 64.
Definition DEFAULT_FRAGMENT_BUFFERED_BYTES_MULTIPLIER : Z := 64.
Definition ENVELOPE_GUARD_BYTES : Z := 32.

Record FragmentationConfig : Type := mk_FragmentationConfig {
  fragment_payload_cap : Z;
  config_max_message_size : Z;
  config_max_concurrent_partials : option Z;
  config_max_buffered_bytes : option Z;
  reassembly_timeout : Z
}.

Definition NonZeroUsize_new (n : Z) : option Z := if decide (n = 0) then None else Some n.

(** The outer [None] is the panic of [fragment_overhead]. *)
Definition for_frame_budget (frame_budget max_message_size reassembly_timeout : Z) :
    option (option FragmentationConfig) :=
  overhead ← fragment_overhead;
  Some (
    if decide (frame_budget <= overhead) then None
    else
      let available := saturating_sub frame_budget (overhead + ENVELOPE_GUARD_BYTES) in
      if decide (available = 0) then None
      else
        cap ← NonZeroUsize_new available;
        Some (mk_FragmentationConfig cap max_message_size
          (NonZeroUsize_new (Z.min frame_budget DEFAULT_MAX_CONCURRENT_PARTIALS))
          (NonZeroUsize_new
             (Z.max (saturating_mul usize_max frame_budget
                       DEFAULT_FRAGMENT_BUFFERED_BYTES_MULTIPLIER)
                    max_message_size))
          reassembly_timeout)).

(** [None] is the panic of [fragment_overhead] or of an overflowing sum. *)
Definition encoded_fragment_ceiling (self : FragmentationConfig) : option Z :=
  overhead ← fragment_overhead; checked_add usize_max (fragment_payload_cap self) overhead.

(** ** Lemmas *)

Context {BL : BytesCrateLaws B} {CL : BincodeLaws C}.

Lemma fragment_overhead_eq : fragment_overhead = Some 9.
Proof.
  unfold fragment_overhead.
  destruct (encode_header_total (mk_FragmentHeader 0 FragmentIndex_zero false))
    as (bs & Hbs & _); [split; vm_compute; split; congruence|].
  rewrite Hbs. apply encode_header_small in Hbs; [|vm_compute; split; congruence..].
  rewrite Hbs. done.
Qed.

Lemma encode_fragment_payload_ok h payload :
  header_wf h ->
  exists bs, encode_to_vec h = Ok bs /\ 3 <= len bs <= 15
    /\ encode_fragment_payload h payload
       = Ok (FRAGMENT_MAGIC ++ be_bytes 2 (len bs) ++ bs ++ payload).
Proof.
  intros Hh. destruct (encode_header_total h Hh) as (bs & Hbs & _ & Hlen).
  exists bs. split_and!; [done|lia|lia|]. unfold encode_fragment_payload. rewrite Hbs.
  rewrite (proj2 (try_into_Some u16_max (len bs) (len bs))) by (unfold u16_max; lia).
  simpl ok_or. cbv iota beta. by rewrite write_network_u16_bytes by (unfold u16_max; lia).
Qed.

(** What follows the marker and a two-byte length. *)
Lemma decode_after_marker hi lo rest :
  let n := be_value [hi; lo] in
  decode_fragment_payload (FRAGMENT_MAGIC ++ [hi; lo] ++ rest)
  = match slice_get rest 0 n with
    | None => Err (UnexpectedEnd (saturating_sub (6 + n) (6 + len rest)))
    | Some header_bytes =>
        let? '(header, consumed) := borrow_decode_from_slice header_bytes in
        if decide (consumed <> n) then Err (OtherString "fragment header length mismatch")
        else Ok (Some (header, drop (Z.to_nat n) rest))
    end.
Proof.
  intros n. unfold decode_fragment_payload. set (p := FRAGMENT_MAGIC ++ [hi; lo] ++ rest).
  assert (len p = 6 + len rest) as Hp by (unfold p; rewrite !len_app; unfold len; simpl; lia).
  change (len FRAGMENT_MAGIC) with 4. pose proof (len_nonneg rest) as Hr.
  rewrite decide_False by lia.
  rewrite decide_False by (unfold p; change 4 with (len FRAGMENT_MAGIC);
    rewrite slice_get_prefix; congruence).
  change (index_get p 4) with (Some hi). change (index_get p (4 + 1)) with (Some lo).
  cbn [ok_or]. rewrite read_network_u16_value by done. fold n.
  assert (slice_get p (4 + 2) (4 + 2 + n) = slice_get rest 0 n) as ->.
  { unfold slice_get. destruct (decide (0 <= 0 <= n /\ n <= len rest)) as [H|H].
    - rewrite decide_True by lia. by replace (4 + 2 + n - (4 + 2)) with (n - 0) by lia.
    - rewrite decide_False by lia. done. }
  destruct (slice_get rest 0 n) as [hb|] eqn:Hs; [|by rewrite Hp].
  apply slice_get_Some_length in Hs as (_ & Hs0 & Hs).
  destruct (borrow_decode_from_slice hb) as [[h c]|e]; [|done].
  case_decide; [done|]. rewrite slice_from_drop.
  - simpl default. do 3 f_equal. unfold p.
    replace (Z.to_nat (4 + 2 + n)) with (6 + Z.to_nat n)%nat by lia. done.
  - lia.
Qed.

Lemma decode_no_marker payload :
  slice_get payload 0 4 <> Some FRAGMENT_MAGIC -> decode_fragment_payload payload = Ok None.
Proof.
  intros H. unfold decode_fragment_payload. case_decide; [done|].
  by rewrite decide_True by done.
Qed.

Lemma decode_encode_fragment h payload enc :
  header_wf h -> encode_fragment_payload h payload = Ok enc ->
  decode_fragment_payload enc = Ok (Some (h, payload)).
Proof.
  intros Hh He. destruct (encode_fragment_payload_ok h payload Hh) as (bs & Hbs & Hlen & Hok).
  assert (enc = FRAGMENT_MAGIC ++ be_bytes 2 (len bs) ++ bs ++ payload) as -> by congruence.
  pose proof (be_value_bytes 2 (len bs) ltac:(simpl; lia)) as Hv.
  assert (be_bytes 2 (len bs) = [len bs / 256 mod 256; len bs mod 256]) as E by done.
  rewrite E in *. rewrite decode_after_marker, Hv.
  rewrite slice_get_prefix. pose proof (decode_encode_header h bs [] Hh Hbs) as Hd.
  rewrite app_nil_r in Hd. rewrite Hd. rewrite decide_False by congruence.
  do 3 f_equal. rewrite drop_app_length'; [done|]. unfold len. lia.
Qed.
End payload.

(** ** A serializer that satisfies the laws

    The variable-length encoding of [bincode]'s standard configuration: one
    byte up to 250, then a marker byte and 2, 4 or 8 little-endian bytes. *)

Definition varint (v : Z) : list Z :=
  if decide (v <= 250) then [v]
  else if decide (v <= u16_max) then 251 :: le_bytes 2 v
  else if decide (v <= u32_max) then 252 :: le_bytes 4 v
  else 253 :: le_bytes 8 v.

Definition read_fixed (n : nat) (bs : list Z) : option (Z * list Z) :=
  if decide (n <= length bs)%nat then Some (le_value (take n bs), drop n bs) else None.

Definition read_varint (bs : list Z) : option (Z * list Z) :=
  match bs with
  | [] => None
  | b :: bs =>
      if decide (b <= 250) then Some (b, bs)
      else if decide (b = 251) then read_fixed 2 bs
      else if decide (b = 252) then read_fixed 4 bs
      else if decide (b = 253) then read_fixed 8 bs
      else None
  end.

Definition varint_encode (h : FragmentHeader) : list Z :=
  varint (message_id h) ++ varint (fragment_index h) ++ [if is_last_fragment h then 1 else 0].

Definition varint_decode (bs : list Z) : option (FragmentHeader * Z) :=
  '(mid, r1) ← read_varint bs;
  '(idx, r2) ← read_varint r1;
  match r2 with
  | b :: r3 => Some (mk_FragmentHeader mid idx (bool_decide (b = 1)), len bs - len r3)
  | [] => None
  end.

Definition varint_bincode : Bincode := {|
  encode_to_vec h := Ok (varint_encode h);
  borrow_decode_from_slice bs := ok_or (varint_decode bs) (DecodeError_Foreign 0)
|}.

Lemma read_fixed_app n v rest :
  0 <= v < 256 ^ Z.of_nat n -> read_fixed n (le_bytes n v ++ rest) = Some (v, rest).
Proof.
  intros Hv. unfold read_fixed.
  rewrite decide_True by (rewrite length_app, length_le_bytes; lia).
  rewrite take_app_length', drop_app_length' by (by rewrite length_le_bytes).
  by rewrite le_value_bytes.
Qed.

Lemma read_varint_app v rest :
  0 <= v <= u64_max -> read_varint (varint v ++ rest) = Some (v, rest).
Proof.
  intros Hv. unfold varint. repeat case_decide; cbn [app read_varint];
    unfold u16_max, u32_max, u64_max in *.
  { by rewrite decide_True by lia. }
  all: repeat (rewrite decide_False by lia); rewrite ?decide_True by done.
  all: apply read_fixed_app; simpl; lia.
Qed.

Lemma varint_length v :
  0 <= v <= u64_max -> (v <= 250 -> len (varint v) = 1)
  /\ 1 <= len (varint v) <= 9 /\ (v <= u32_max -> len (varint v) <= 5).
Proof.
  intros Hv. unfold varint. repeat case_decide; cbn; split_and!; intros; try done; lia.
Qed.

Lemma varint_bytes v : 0 <= v <= u64_max -> Forall is_byte (varint v).
Proof.
  intros Hv. unfold varint. repeat case_decide; constructor; try done;
    try apply le_bytes_are_bytes; unfold is_byte; lia.
Qed.

Lemma varint_bincode_laws : BincodeLaws varint_bincode.
Proof.
  split.
  - intros h [Hm Hi]. eexists. split; [done|]. unfold varint_encode. split.
    + rewrite !Forall_app. split_and!; [by apply varint_bytes| |].
      * apply varint_bytes. unfold u32_max, u64_max in *. lia.
      * repeat constructor; destruct (is_last_fragment h); done.
    + rewrite !len_app.
      destruct (varint_length (message_id h) Hm) as (_ & H1 & _).
      destruct (varint_length (fragment_index h)) as (_ & H2 & H3);
        [unfold u32_max, u64_max in *; lia|].
      specialize (H3 ltac:(lia)). unfold len in *. simpl. lia.
  - intros h bs Hm Hi [= <-]. unfold varint_encode. rewrite !len_app.
    destruct (varint_length (message_id h)) as (H1 & _); [unfold u64_max; lia|].
    destruct (varint_length (fragment_index h)) as (H2 & _); [unfold u64_max; lia|].
    rewrite H1, H2 by lia. done.
  - intros h bs rest [Hm Hi] [= <-]. simpl. unfold varint_decode, varint_encode.
    rewrite <- !app_assoc, read_varint_app by done. simpl.
    rewrite read_varint_app by (unfold u32_max, u64_max in *; lia). simpl.
    do 2 f_equal.
    + destruct h as [? ? []]; done.
    + rewrite !len_app. unfold len. simpl. lia.
Qed.

(** ** Properties *)

(** Decoding an encoded fragment gives back its header and chunk, for
    every header a sender can produce; the encoding adds between 9 and 21
    bytes. *)
Theorem fragment_payload_round_trip {B : BytesCrate} {BL : BytesCrateLaws B}
    {C : Bincode} {CL : BincodeLaws C} (h : FragmentHeader) (payload : list Z) :
  header_wf h ->
  exists enc, encode_fragment_payload h payload = Ok enc
    /\ decode_fragment_payload enc = Ok (Some (h, payload))
    /\ 9 + len payload <= len enc <= 21 + len payload.
Proof.
  intros Hh. destruct (encode_fragment_payload_ok h payload Hh) as (bs & Hbs & Hlen & Hok).
  eexists. split; [exact Hok|]. split; [by eapply decode_encode_fragment|].
  rewrite !len_app. unfold len in *. rewrite length_be_bytes. simpl. lia.
Qed.

Lemma fragment_payload_round_trip_witness :
  exists enc,
    encode_fragment_payload (B := reference_bytes) (C := varint_bincode)
      (mk_FragmentHeader 70000 3 true) [1; 2] = Ok enc
    /\ decode_fragment_payload (B := reference_bytes) (C := varint_bincode) enc
       = Ok (Some (mk_FragmentHeader 70000 3 true, [1; 2])).
Proof.
  destruct (@fragment_payload_round_trip reference_bytes reference_bytes_laws varint_bincode
    varint_bincode_laws (mk_FragmentHeader 70000 3 true) [1; 2]
    ltac:(split; vm_compute; split; congruence)) as (enc & H1 & H2 & _).
  exists enc. exact (conj H1 H2).
Defined.

(** A payload is taken for a fragment only if it starts with the marker
    and is long enough for a length; and a fragment whose header is truncated
    is an error, never a shorter fragment. *)
Theorem decode_fragment_cases {B : BytesCrate} {BL : BytesCrateLaws B} {C : Bincode}
    (payload : list Z) :
  Forall is_byte payload ->
  match decode_fragment_payload payload with
  | Ok None => len payload < 6 \/ slice_get payload 0 4 <> Some FRAGMENT_MAGIC
  | Ok (Some (h, rest)) =>
      exists hb, payload = FRAGMENT_MAGIC ++ be_bytes 2 (len hb) ++ hb ++ rest
        /\ borrow_decode_from_slice hb = Ok (h, len hb)
  | Err _ => 6 <= len payload /\ slice_get payload 0 4 = Some FRAGMENT_MAGIC
  end.
Proof.
  intros Hb. destruct (decide (len payload < 6)) as [Hlt|Hge].
  { unfold decode_fragment_payload. rewrite decide_True by done. by left. }
  destruct (decide (slice_get payload 0 4 = Some FRAGMENT_MAGIC)) as [Hm|Hm].
  2: { rewrite decode_no_marker by done. by right. }
  destruct payload as [|b0 [|b1 [|b2 [|b3 [|hi [|lo rest]]]]]]; try (exfalso; apply Hge; done).
  assert ([b0; b1; b2; b3] = FRAGMENT_MAGIC) as Hmagic.
  { unfold slice_get in Hm. rewrite decide_True in Hm by (unfold len; simpl; lia).
    change (Some [b0; b1; b2; b3] = Some FRAGMENT_MAGIC) in Hm. congruence. }
  change (b0 :: b1 :: b2 :: b3 :: hi :: lo :: rest)
    with ([b0; b1; b2; b3] ++ [hi; lo] ++ rest) in *.
  rewrite Hmagic in *. rewrite decode_after_marker.
  assert (Forall is_byte [hi; lo]) as Hlenb.
  { apply Forall_app in Hb as [_ Hb]. by apply Forall_app in Hb as [Hb _]. }
  destruct (slice_get rest 0 _) as [hb|] eqn:Hs; [|split; [lia|done]].
  pose proof (slice_get_Some_length _ _ _ _ Hs) as (Hhb & Hr1 & Hr2).
  destruct (borrow_decode_from_slice hb) as [[h c]|e] eqn:Hd; [|split; [lia|done]].
  case_decide as Hc; [split; [lia|done]|]. rewrite Z.sub_0_r in Hhb.
  exists hb. split; [|congruence]. rewrite Hhb.
  change 2%nat with (length [hi; lo]). rewrite be_bytes_value by done.
  do 2 f_equal. unfold slice_get in Hs. rewrite decide_True in Hs by done.
  injection Hs as <-. rewrite drop_0, Z.sub_0_r. by rewrite take_drop.
Qed.

Lemma decode_fragment_cases_witness :
  match decode_fragment_payload (B := reference_bytes) (C := varint_bincode)
          [70; 82; 65; 71; 0; 9; 1] with
  | Err _ => 6 <= len [70; 82; 65; 71; 0; 9; 1]
             /\ slice_get [70; 82; 65; 71; 0; 9; 1] 0 4 = Some FRAGMENT_MAGIC
  | _ => False
  end.
Proof.
  exact (@decode_fragment_cases reference_bytes reference_bytes_laws varint_bincode
    [70; 82; 65; 71; 0; 9; 1] ltac:(repeat constructor; vm_compute; congruence)).
Defined.

(** A configuration derived from a frame budget exists exactly when the
    budget exceeds the reserved 41 bytes, and then every fragment a sender can
    produce under it, with its marker, length and header, leaves at least 20
    bytes of the frame budget for the envelope. *)
Theorem frame_budget_respected {B : BytesCrate} {BL : BytesCrateLaws B}
    {C : Bincode} {CL : BincodeLaws C} (frame_budget max_size timeout : Z) :
  0 <= frame_budget <= usize_max ->
  match for_frame_budget frame_budget max_size timeout with
  | Some (Some cfg) =>
      41 < frame_budget
      /\ 0 < fragment_payload_cap cfg
      /\ config_max_buffered_bytes cfg
         = Some (Z.max (Z.min usize_max (64 * frame_budget)) max_size)
      /\ config_max_concurrent_partials cfg = Some (Z.min frame_budget 64)
      /\ forall h chunk, header_wf h -> len chunk <= fragment_payload_cap cfg ->
         exists enc, encode_fragment_payload h chunk = Ok enc /\ len enc + 20 <= frame_budget
  | Some None => frame_budget <= 41
  | None => False
  end.
Proof.
  intros Hf. unfold for_frame_budget. rewrite fragment_overhead_eq. cbn [mbind option_bind].
  unfold ENVELOPE_GUARD_BYTES, saturating_sub, NonZeroUsize_new,
    DEFAULT_MAX_CONCURRENT_PARTIALS, saturating_mul,
    DEFAULT_FRAGMENT_BUFFERED_BYTES_MULTIPLIER, usize_max, u64_max in *.
  repeat case_decide; simpl; try lia.
  split_and!; [lia|lia|do 2 f_equal; lia|done|].
  intros h chunk Hh Hc.
  destruct (encode_fragment_payload_ok h chunk Hh) as (bs & _ & Hlen & ->).
  eexists. split; [done|]. rewrite !len_app. unfold len in *. rewrite length_be_bytes.
  simpl in *. lia.
Qed.

Lemma frame_budget_respected_witness :
  match for_frame_budget (C := varint_bincode) 1024 4096 30 with
  | Some (Some cfg) => 41 < 1024 /\ 0 < fragment_payload_cap cfg
  | _ => False
  end.
Proof.
  pose proof (@frame_budget_respected reference_bytes reference_bytes_laws varint_bincode
    varint_bincode_laws 1024 4096 30 ltac:(vm_compute; split; congruence)) as H.
  destruct (for_frame_budget 1024 4096 30) as [[cfg|]|]; [|exact (H eq_refl)|exact H].
  exact (conj (proj1 H) (proj1 (proj2 H))).
Defined.

(** [fragment_overhead] is the overhead of a fragment whose identifier and
    index are at most 250, not a bound on the overhead of every fragment: the
    serialized header grows with both, and [encoded_fragment_ceiling] can be
    smaller than an encoded fragment of the configured size. *)
Theorem overhead_is_not_a_ceiling {B : BytesCrate} {BL : BytesCrateLaws B} :
  let h := mk_FragmentHeader 70000 3 false in
  let cfg := mk_FragmentationConfig 2 16 None None 30 in
  header_wf h
  /\ encoded_fragment_ceiling (C := varint_bincode) cfg = Some 11
  /\ exists enc, encode_fragment_payload (C := varint_bincode) h [1; 2] = Ok enc
       /\ len enc = 15.
Proof.
  cbv zeta. split; [split; vm_compute; split; congruence|]. split.
  - unfold encoded_fragment_ceiling.
    rewrite (@fragment_overhead_eq varint_bincode varint_bincode_laws). done.
  - unfold encode_fragment_payload. cbn [encode_to_vec varint_bincode].
    rewrite (proj2 (try_into_Some u16_max _ 7)) by (vm_compute; intuition congruence).
    cbn [ok_or]. rewrite write_network_u16_bytes by (vm_compute; split; congruence).
    eexists. split; [done|]. vm_compute. reflexivity.
Qed.

Lemma overhead_is_not_a_ceiling_witness :
  exists enc,
    encode_fragment_payload (B := reference_bytes) (C := varint_bincode)
      (mk_FragmentHeader 70000 3 false) [1; 2] = Ok enc
    /\ len enc = 15.
Proof.
  exact (proj2 (proj2 (@overhead_is_not_a_ceiling reference_bytes reference_bytes_laws))).
Defined.
