(* ===== verification/FragmentAdapter.v ===== *)
(** * The fragment adapter

    [src/src/fragment/packet.rs] ([fragment_packet]) and [adapter.rs]: splitting
    an outbound packet into packets whose payloads are encoded fragments, and
    rebuilding the packet on the other side.

    [Reassembler::push] reads the clock; here the reading is an argument. *)

From S2P Require Import Prelude.
From S2P Require Import ByteOrder.
From S2P Require Import Envelope.
From S2P Require Import Fragment.
From S2P Require Import Fragmenter.
From S2P Require Import Reassembler.
From S2P Require Import FragmentPayload.
Open Scope rust_scope.

Inductive FragmentAdapterError : Type :=
  | AdapterDecode (e : DecodeError)
  | AdapterReassembly (e : ReassemblyError).

Record DefaultFragmentAdapter : Type := mk_DefaultFragmentAdapter {
  fragmenter : Fragmenter;
  reassembler : Reassembler
}.

Definition DefaultFragmentAdapter_new (config : FragmentationConfig) : DefaultFragmentAdapter :=
  mk_DefaultFragmentAdapter
    (Fragmenter_new (fragment_payload_cap config))
    (Reassembler_new (config_max_message_size config) (reassembly_timeout config)
       (config_max_concurrent_partials config) (config_max_buffered_bytes config)).

Section adapter.
Context {B : BytesCrate} {C : Bincode} {E : Type} {F : Fragmentable E}.

(** The [for] loop over the batch. *)
Fixpoint encode_fragments (id : Z) (correlation : option Z) (batch : list FragmentFrame) :
    result (list E) FragmentationError :=
  match batch with
  | [] => Ok []
  | fragment :: batch =>
      let? encoded := map_err Encode
        (encode_fragment_payload (frame_header fragment) (frame_payload fragment)) in
      let? frames := encode_fragments id correlation batch in
      Ok (from_fragment_parts (mk_FragmentParts id correlation encoded) :: frames)
  end.

(** [None] is the panic of an exhausted message counter; the fragmenter
    comes back with its counter advanced. *)
Definition fragment_packet (fragmenter : Fragmenter) (packet : E) :
    option (result (list E) FragmentationError * Fragmenter) :=
  let parts := into_fragment_parts packet in
  let id := fp_id parts in
  let correlation := fp_correlation_id parts in
  let payload := fp_payload parts in
  '(r, fragmenter) ← fragment_bytes fragmenter payload;
  Some (
    let? batch := r in
    if negb (is_fragmented batch)
    then Ok [from_fragment_parts (mk_FragmentParts id correlation payload)]
    else encode_fragments id correlation (batch_fragments batch),
    fragmenter).

Definition fragment (self : DefaultFragmentAdapter) (packet : E) :
    option (result (list E) FragmentationError * DefaultFragmentAdapter) :=
  '(r, fragmenter) ← fragment_packet (fragmenter self) packet;
  Some (r, mk_DefaultFragmentAdapter fragmenter (reassembler self)).

Definition reassemble (self : DefaultFragmentAdapter) (packet : E) (now : Z) :
    DefaultFragmentAdapter * result (option E) FragmentAdapterError :=
  let parts := into_fragment_parts packet in
  let id := fp_id parts in
  let correlation_id := fp_correlation_id parts in
  let payload := fp_payload parts in
  match decode_fragment_payload payload with
  | Err e => (self, Err (AdapterDecode e))
  | Ok (Some (header, fragment_payload)) =>
      let '(reassembler, r) := push_at (reassembler self) header fragment_payload now in
      (mk_DefaultFragmentAdapter (fragmenter self) reassembler,
       let? message := map_err AdapterReassembly r in
       match message with
       | None => Ok None
       | Some message =>
           let rebuilt := mk_FragmentParts id correlation_id (reassembled_payload message) in
           Ok (Some (from_fragment_parts rebuilt))
       end)
  | Ok None =>
      let passthrough := mk_FragmentParts id correlation_id payload in
      (self, Ok (Some (from_fragment_parts passthrough)))
  end.
End adapter.

Definition adapter_buffered_bytes (self : DefaultFragmentAdapter) : Z :=
  Reassembler_buffered_bytes (reassembler self).

Definition adapter_purge_expired (self : DefaultFragmentAdapter) (now : Z) :
    DefaultFragmentAdapter * list Z :=
  let '(r, evicted) := purge_expired_at (reassembler self) now in
  (mk_DefaultFragmentAdapter (fragmenter self) r, evicted).

(** ** Feeding a batch to a reassembler *)

(** [r] has room for [n] more bytes of one message: under the aggregate cap and
    the word size. *)
Definition bytes_room (r : Reassembler) (n : Z) : Prop :=
  buffered_bytes (budget r) + n <= usize_max
  /\ forall l, max_buffered_bytes (budget r) = Some l -> buffered_bytes (budget r) + n <= l.

(** [r] holds message [mid], received up to [prefix] and fragment [i], with
    room for the [n] bytes that are missing. *)
Record receiving (r : Reassembler) (mid i t0 n : Z) (prefix : list Z) : Prop := {
  rc_wf : reassembler_wf r;
  rc_entry : buffers r !! mid = Some (mk_PartialMessage (mk_FragmentSeries mid i false) prefix t0);
  rc_room : bytes_room r n;
  rc_size : len prefix + n <= max_message_size (budget r);
  rc_word : len prefix + n <= usize_max
}.

Lemma purged_bytes_le r now :
  reassembler_wf r ->
  buffered_bytes (budget (purge_expired_at r now).1) <= buffered_bytes (budget r).
Proof.
  intros Hwf. rewrite purge_exact by done. cbn [fst budget with_buffered buffered_bytes].
  pose proof (sw_bytes _ Hwf) as E. simpl in E. rewrite E.
  rewrite (map_sum_retain (is_expired now (timeout r)) PartialMessage_len (buffers r)).
  pose proof (map_sum_nonneg PartialMessage_len
    (filter (is_expired now (timeout r)) (buffers r)) plen_nonneg). lia.
Qed.

Lemma purge_limits r now :
  reassembler_wf r ->
  same_limits (budget r) (budget (purge_expired_at r now).1)
  /\ timeout (purge_expired_at r now).1 = timeout r.
Proof. intros Hwf. by rewrite purge_exact. Qed.

Lemma bytes_room_purge r now n :
  reassembler_wf r -> bytes_room r n -> bytes_room (purge_expired_at r now).1 n.
Proof.
  intros Hwf [H1 H2]. pose proof (purged_bytes_le r now Hwf).
  destruct (purge_limits r now Hwf) as [(_ & _ & E) _].
  split; [lia|]. intros l Hl. rewrite E in Hl. specialize (H2 l Hl). lia.
Qed.

Lemma receiving_purge r mid i t0 n prefix now :
  receiving r mid i t0 n prefix -> now - t0 < timeout r -> 0 < timeout r ->
  receiving (purge_expired_at r now).1 mid i t0 n prefix.
Proof.
  intros [Hwf He Hr Hs Hw] Ht Ht0. split.
  - by apply purge_wf.
  - rewrite purge_exact by done. cbn [fst buffers]. apply map_lookup_filter_Some.
    split; [done|]. unfold is_expired, saturating_duration_since, saturating_sub. simpl. lia.
  - by apply bytes_room_purge.
  - destruct (purge_limits r now Hwf) as [(-> & _) _]. done.
  - done.
Qed.

Lemma receiving_next r mid i t0 n prefix chunk now :
  receiving r mid i t0 n prefix -> now - t0 < timeout r -> 0 < timeout r ->
  0 <= mid <= u64_max -> 1 <= i < u32_max -> len chunk <= n ->
  (forall l, max_concurrent_partials (budget r) = Some l -> l < usize_max) ->
  let '(r', res) := push_at r (mk_FragmentHeader mid i false) chunk now in
  res = Ok None /\ receiving r' mid (i + 1) t0 (n - len chunk) (prefix ++ chunk)
  /\ timeout r' = timeout r /\ same_limits (budget r) (budget r').
Proof.
  intros Hrc Ht Ht0 Hmid Hi Hn Hl.
  pose proof (push_at_wf r (mk_FragmentHeader mid i false) chunk now (rc_wf _ _ _ _ _ _ Hrc)
    ltac:(split; simpl; unfold u32_max in *; lia) Hl) as Hwf'.
  destruct (purge_limits r now (rc_wf _ _ _ _ _ _ Hrc)) as [Hlim Htm].
  pose proof (receiving_purge _ _ _ _ _ _ _ Hrc Ht Ht0) as [Hwf1 He [Hr1 Hr2] Hs Hw].
  revert Hwf'. unfold push_at. set (r1 := (purge_expired_at r now).1) in *. clearbody r1.
  cbn [message_id]. rewrite He, (push_existing_exact _ _ Hwf1 mid _ He) by done.
  cbn [series]. rewrite accept_next by (simpl; lia). cbn [PartialMessage_len buffer].
  unfold append_error. rewrite !decide_False by (unfold PartialMessage_len; simpl in *; lia).
  pose proof (len_nonneg chunk).
  rewrite (proj2 (bytes_error_None (budget r1) (len chunk))).
  2: { split; [lia|]. intros l E. specialize (Hr2 l E). lia. }
  cbn [fst snd]. intros Hwf'. split_and!; try done. split; try done.
  - apply lookup_insert_eq.
  - split; simpl; [lia|]. intros l E. specialize (Hr2 l E). lia.
  - rewrite len_app. simpl. lia.
  - rewrite len_app. lia.
Qed.

Lemma receiving_last r mid i t0 n prefix chunk now :
  receiving r mid i t0 n prefix -> now - t0 < timeout r -> 0 < timeout r ->
  len chunk <= n ->
  let '(r', res) := push_at r (mk_FragmentHeader mid i true) chunk now in
  res = Ok (Some (mk_ReassembledMessage mid (prefix ++ chunk)))
  /\ buffers r' !! mid = None.
Proof.
  intros Hrc Ht Ht0 Hn.
  pose proof (receiving_purge _ _ _ _ _ _ _ Hrc Ht Ht0) as [Hwf1 He [Hr1 Hr2] Hs Hw].
  unfold push_at. set (r1 := (purge_expired_at r now).1) in *. clearbody r1.
  cbn [message_id]. rewrite He, (push_existing_exact _ _ Hwf1 mid _ He) by done.
  cbn [series].
  destruct (accept_last (mk_FragmentSeries mid i false) (mk_FragmentHeader mid i true))
    as (s' & -> & _); try done.
  unfold append_error. rewrite !decide_False by (unfold PartialMessage_len; simpl in *; lia).
  pose proof (len_nonneg chunk).
  rewrite (proj2 (bytes_error_None (budget r1) (len chunk))).
  2: { split; [lia|]. intros l E. specialize (Hr2 l E). lia. }
  cbn [fst snd buffers drop_entry]. split; [done|]. apply lookup_delete_eq.
Qed.

(** What a sequence of fragments is to a reassembler. *)
Definition feed (r : Reassembler) (ft : FragmentFrame * Z) :
    Reassembler * result (option ReassembledMessage) ReassemblyError :=
  push_at r (frame_header ft.1) (frame_payload ft.1) ft.2.

Lemma feed_rest mid max i p fs :
  batch_of mid max i p fs -> forall r t0 prefix ts,
  receiving r mid i t0 (len p) prefix -> length ts = length fs ->
  Forall (fun t => t - t0 < timeout r) ts -> 0 < timeout r ->
  0 <= mid <= u64_max -> 1 <= i -> i + len fs <= u32_max + 1 ->
  (forall l, max_concurrent_partials (budget r) = Some l -> l < usize_max) ->
  let '(r', outs) := run feed r (zip fs ts) in
  outs = completion (length fs) (mk_ReassembledMessage mid (prefix ++ p))
  /\ buffers r' !! mid = None.
Proof.
  induction 1 as [i p Hp|i c p fs Hc Hp Hb IH]; intros r t0 prefix ts Hrc Hlen Hts Htm Hmid Hi Hfs Hl.
  - destruct ts as [|t [|]]; try done. inversion_clear Hts as [|?? Ht _].
    pose proof (receiving_last r mid i t0 (len p) prefix p t Hrc Ht Htm ltac:(lia)) as H.
    simpl. unfold feed. simpl. destruct (push_at _ _ _ _) as [r' res]. by destruct H as [-> H].
  - destruct ts as [|t ts]; [done|]. inversion_clear Hts as [|?? Ht Hts'].
    pose proof (batch_of_nonempty _ _ _ _ _ Hb) as Hone.
    assert (len (mk_FragmentFrame (mk_FragmentHeader mid i false) c :: fs) = 1 + len fs) as E
      by len_solve. rewrite E in Hfs. rewrite len_app in Hrc.
    pose proof (receiving_next r mid i t0 _ prefix c t Hrc Ht Htm Hmid ltac:(lia)
      ltac:(pose proof (len_nonneg p); lia) Hl) as H.
    cbn [zip zip_with run]. unfold feed at 1. cbn [fst snd frame_header frame_payload].
    destruct (push_at _ _ _ _) as [r1 res]. destruct H as (-> & Hrc1 & Etm & _ & El & _).
    replace (len c + len p - len c) with (len p) in Hrc1 by lia.
    specialize (IH r1 t0 (prefix ++ c) ts Hrc1).
    rewrite Etm, El in IH. specialize (IH ltac:(simpl in *; lia) Hts' Htm Hmid ltac:(lia) ltac:(lia) Hl).
    destruct (run feed r1 (zip fs ts)) as [r2 outs]. destruct IH as [-> IH]. split; [|done].
    unfold completion. rewrite <- app_assoc. destruct fs as [|f fs]; [done|]. simpl.
    by rewrite Nat.sub_0_r.
Qed.

(** [r] can take a new message [mid] of [n] bytes. *)
Record ready (r : Reassembler) (mid n : Z) : Prop := {
  rd_wf : reassembler_wf r;
  rd_fresh : buffers r !! mid = None;
  rd_room : bytes_room r n;
  rd_size : n <= max_message_size (budget r);
  rd_word : n <= usize_max;
  rd_slot l : max_concurrent_partials (budget r) = Some l -> buffered_len r < l < usize_max;
  rd_timeout : 0 < timeout r
}.

Lemma new_ready max_size timeout max_partials max_bytes mid n :
  limits_wf max_size max_partials max_bytes ->
  0 < timeout -> n <= max_size -> n <= usize_max ->
  (forall l, max_bytes = Some l -> n <= l) ->
  (forall l, max_partials = Some l -> 0 < l < usize_max) ->
  ready (Reassembler_new max_size timeout max_partials max_bytes) mid n.
Proof. intros. split; try done; [by apply Reassembler_new_wf]. Qed.

Lemma ready_purge r mid n now : ready r mid n -> ready (purge_expired_at r now).1 mid n.
Proof.
  intros [Hwf Hf Hr Hs Hw Hl Ht]. destruct (purge_limits r now Hwf) as [(E1 & E2 & E3) E4].
  split; rewrite ?E1, ?E2, ?E4; try done.
  - by apply purge_wf.
  - rewrite purge_exact by done. cbn [fst buffers]. apply map_lookup_filter_None. by left.
  - by apply bytes_room_purge.
  - intros l El. specialize (Hl l El). unfold buffered_len in *.
    rewrite purge_exact by done. cbn [fst buffers].
    pose proof (map_size_filter (fun kv => ~ is_expired now (timeout r) kv) (buffers r)). lia.
Qed.

Lemma ready_first r mid n chunk now :
  ready r mid n -> 0 <= mid <= u64_max -> len chunk <= n ->
  let '(r', res) := push_at r (mk_FragmentHeader mid 0 false) chunk now in
  res = Ok None /\ receiving r' mid 1 now (n - len chunk) chunk
  /\ timeout r' = timeout r /\ same_limits (budget r) (budget r').
Proof.
  intros Hrd Hmid Hn.
  pose proof (push_at_wf r (mk_FragmentHeader mid 0 false) chunk now (rd_wf _ _ _ Hrd)
    ltac:(split; simpl; unfold u32_max; lia)
    ltac:(intros l E; by apply (rd_slot _ _ _ Hrd l E))) as Hwf'.
  destruct (purge_limits r now (rd_wf _ _ _ Hrd)) as [Hlim Htm].
  pose proof (ready_purge r mid n now Hrd) as [Hwf1 Hf [Hr1 Hr2] Hs Hw Hl Ht].
  revert Hwf'. unfold push_at. set (r1 := (purge_expired_at r now).1) in *. clearbody r1.
  cbn [message_id]. rewrite Hf. unfold push_first_fragment.
  change (start_with_first (mk_FragmentHeader mid 0 false))
    with (@Ok (FragmentSeries * bool) FragmentError (mk_FragmentSeries mid 1 false, false)).
  cbn [message_id]. unfold assert_within_message_limit. rewrite decide_False by lia.
  assert (assert_within_partial_limit (budget r1) (Z.of_nat (size (buffers r1))) = Ok tt) as ->.
  { unfold assert_within_partial_limit. destruct (max_concurrent_partials _) as [l|]; [|done].
    specialize (Hl l eq_refl). unfold buffered_len in Hl.
    rewrite saturating_add_exact by lia. by rewrite decide_False by lia. }
  pose proof (len_nonneg chunk). rewrite add_bytes_spec.
  rewrite (proj2 (bytes_error_None (budget r1) (len chunk))).
  2: { split; [lia|]. intros l E. specialize (Hr2 l E). lia. }
  cbn [fst snd]. intros Hwf'. split_and!; try done. split; try done; simpl in *; try lia.
  - apply lookup_insert_eq.
  - split; simpl; [lia|]. intros l E. specialize (Hr2 l E). lia.
Qed.

Lemma ready_only r mid n chunk now :
  ready r mid n -> len chunk <= n ->
  let '(r', res) := push_at r (mk_FragmentHeader mid 0 true) chunk now in
  res = Ok (Some (mk_ReassembledMessage mid chunk)) /\ buffers r' !! mid = None.
Proof.
  intros Hrd Hn. pose proof (ready_purge r mid n now Hrd) as [Hwf1 Hf _ Hs _ _ _].
  unfold push_at. set (r1 := (purge_expired_at r now).1) in *. clearbody r1.
  cbn [message_id]. rewrite Hf. unfold push_first_fragment.
  change (start_with_first (mk_FragmentHeader mid 0 true))
    with (@Ok (FragmentSeries * bool) FragmentError (mk_FragmentSeries mid 1 true, true)).
  cbn [message_id]. unfold assert_within_message_limit. by rewrite decide_False by lia.
Qed.

Lemma feed_batch mid max p fs r ts :
  batch_of mid max 0 p fs -> ready r mid (len p) -> length ts = length fs ->
  (forall t0, head ts = Some t0 -> Forall (fun t => t - t0 < timeout r) ts) ->
  0 <= mid <= u64_max -> len fs <= u32_max + 1 ->
  let '(r', outs) := run feed r (zip fs ts) in
  outs = completion (length fs) (mk_ReassembledMessage mid p) /\ buffers r' !! mid = None.
Proof.
  intros Hb Hrd Hlen Hts Hmid Hfs. destruct ts as [|t ts]; [by destruct Hb|].
  specialize (Hts t eq_refl). inversion_clear Hts as [|?? _ Hts'].
  remember 0 as i eqn:Hi. destruct Hb as [i p Hp|i c p fs Hc Hp Hb]; subst i.
  - destruct ts; [|done]. pose proof (ready_only r mid _ p t Hrd ltac:(lia)) as H.
    simpl. unfold feed. simpl. destruct (push_at _ _ _ _) as [r' res]. by destruct H as [-> H].
  - rewrite len_app in Hrd.
    pose proof (ready_first r mid _ c t Hrd Hmid ltac:(pose proof (len_nonneg p); lia)) as H.
    cbn [zip zip_with run]. unfold feed at 1. cbn [fst snd frame_header frame_payload].
    destruct (push_at _ _ _ _) as [r1 res]. destruct H as (-> & Hrc1 & Etm & _ & El & _).
    replace (len c + len p - len c) with (len p) in Hrc1 by lia.
    pose proof (feed_rest mid max (0 + 1) p fs Hb r1 t c ts Hrc1) as IH.
    rewrite Etm, El in IH. specialize (IH ltac:(simpl in *; lia) Hts' (rd_timeout _ _ _ Hrd) Hmid
      ltac:(lia) ltac:(len_solve) ltac:(intros l E; by apply (rd_slot _ _ _ Hrd l E))).
    destruct (run feed r1 (zip fs ts)) as [r2 outs]. destruct IH as [-> IH]. split; [|done].
    unfold completion. destruct Hb; simpl; by rewrite ?Nat.sub_0_r.
Qed.

(** ** From fragments to packets *)

Section packets.
Context {B : BytesCrate} {BL : BytesCrateLaws B} {C : Bincode} {CL : BincodeLaws C}.
Context {E : Type} {F : Fragmentable E} {FL : FragmentableLaws E}.

Definition encoded (id : Z) (correlation : option Z) (f : FragmentFrame) (e : E) : Prop :=
  exists enc, encode_fragment_payload (frame_header f) (frame_payload f) = Ok enc
    /\ e = from_fragment_parts (mk_FragmentParts id correlation enc).

Lemma encode_fragments_ok id correlation fs :
  Forall (fun f => header_wf (frame_header f)) fs ->
  exists es, encode_fragments id correlation fs = Ok es
    /\ Forall2 (encoded id correlation) fs es.
Proof.
  induction 1 as [|f fs Hf _ IH]; simpl; [eauto|].
  destruct (encode_fragment_payload_ok (frame_header f) (frame_payload f) Hf)
    as (bs & _ & _ & Henc).
  destruct IH as (es & -> & Hes). rewrite Henc. simpl. eexists. split; [done|].
  constructor; [|done]. eexists. eauto.
Qed.

Definition rebuild (id : Z) (correlation : option Z)
    (res : result (option ReassembledMessage) ReassemblyError) :
    result (option E) FragmentAdapterError :=
  let? message := map_err AdapterReassembly res in
  Ok ((fun m => from_fragment_parts
                  (mk_FragmentParts id correlation (reassembled_payload m))) <$> message).

Lemma reassemble_encoded self id correlation f e now :
  header_wf (frame_header f) -> encoded id correlation f e ->
  reassemble self e now
  = let '(r, res) := feed (reassembler self) (f, now) in
    (mk_DefaultFragmentAdapter (fragmenter self) r, rebuild id correlation res).
Proof.
  intros Hf (enc & Henc & ->). unfold reassemble. rewrite into_from_fragment_parts.
  cbn [fp_payload fp_id fp_correlation_id].
  rewrite (decode_encode_fragment (frame_header f) (frame_payload f) enc Hf Henc).
  unfold feed. cbn [fst snd]. destruct (push_at _ _ _ _) as [r [[m|]|er]]; done.
Qed.

Definition deliver (self : DefaultFragmentAdapter) (et : E * Z) :
    DefaultFragmentAdapter * result (option E) FragmentAdapterError :=
  reassemble self et.1 et.2.

Lemma deliver_encoded id correlation fs es :
  Forall2 (encoded id correlation) fs es -> Forall (fun f => header_wf (frame_header f)) fs ->
  forall self ts,
  (run deliver self (zip es ts)).2
  = rebuild id correlation <$> (run feed (reassembler self) (zip fs ts)).2.
Proof.
  induction 1 as [|f e fs es Hfe _ IH]; intros Hwf self ts; [done|].
  inversion_clear Hwf as [|?? Hf Hfs]. destruct ts as [|t ts]; [done|].
  cbn [zip zip_with run]. unfold deliver at 1. cbn [fst snd].
  rewrite (reassemble_encoded self id correlation f e t Hf Hfe).
  destruct (feed (reassembler self) (f, t)) as [r res].
  specialize (IH Hfs (mk_DefaultFragmentAdapter (fragmenter self) r) ts). cbn [reassembler] in IH.
  destruct (run deliver _ (zip es ts)) as [a os]. destruct (run feed r (zip fs ts)) as [r2 os2].
  simpl in *. by rewrite IH.
Qed.

Lemma batch_of_header_wf mid max i p fs :
  batch_of mid max i p fs -> 0 <= mid <= u64_max -> 0 <= i -> i + len fs <= u32_max + 1 ->
  Forall (fun f => header_wf (frame_header f)) fs.
Proof.
  induction 1 as [i p Hp|i c p fs Hc Hp Hb IH]; intros Hmid Hi Hn; constructor.
  - split; simpl in *; [lia|]. len_solve.
  - done.
  - split; simpl in *; [lia|]. destruct Hb; len_solve.
  - apply IH; try lia. len_solve.
Qed.

(** A payload longer than the cap leaves as encoded fragments. *)
Lemma fragment_packet_split fr packet :
  let payload := fp_payload (into_fragment_parts packet) in
  let mid := next_message_id_counter fr in
  1 <= max_fragment_size fr < len payload -> len payload <= isize_max ->
  div_ceil (len payload) (max_fragment_size fr) <= u32_max + 1 -> 0 <= mid < u64_max ->
  exists fs es,
    fragment_packet fr packet
    = Some (Ok es, Fragmenter_with_starting_id (max_fragment_size fr) (mid + 1))
    /\ batch_of mid (max_fragment_size fr) 0 payload fs
    /\ Forall2 (encoded (fp_id (into_fragment_parts packet))
                       (fp_correlation_id (into_fragment_parts packet))) fs es
    /\ Forall (fun f => header_wf (frame_header f)) fs /\ len fs <= u32_max + 1.
Proof.
  intros payload mid Hmax Hlen Hdiv Hmid.
  unfold fragment_packet, fragment_bytes, next_message_id. fold payload mid.
  rewrite (proj2 (checked_add_Some u64_max mid 1 (mid + 1))) by lia.
  cbn [mbind option_bind].
  destruct (fragment_with_id_ok (mk_Fragmenter (max_fragment_size fr) (mid + 1)) mid payload)
    as (fs & -> & Hb); cbn [max_fragment_size] in *; try done.
  { unfold isize_max, usize_max, u64_max in *. lia. }
  { intros ->. change (len []) with 0 in Hmax. lia. }
  assert (len fs = div_ceil (len payload) (max_fragment_size fr)) as Hcount
    by (eapply batch_of_count; [|done]; lia).
  assert (Forall (fun f => header_wf (frame_header f)) fs) as Hwf
    by (eapply batch_of_header_wf; [done|lia..]).
  destruct (encode_fragments_ok (fp_id (into_fragment_parts packet))
    (fp_correlation_id (into_fragment_parts packet)) fs Hwf) as (es & Hes & Hall).
  exists fs, es. split_and!; try done; [|lia]. cbn [mbind option_bind].
  unfold is_fragmented, batch_len. cbn [batch_fragments].
  rewrite bool_decide_true; [by rewrite Hes|].
  destruct Hb as [i p Hp|i c p fs Hc Hp Hb]; [lia|]. destruct Hb; len_solve.
Qed.

(** A payload within the cap leaves as it is. *)
Lemma fragment_packet_small fr packet :
  let payload := fp_payload (into_fragment_parts packet) in
  let mid := next_message_id_counter fr in
  len payload <= max_fragment_size fr -> 1 <= max_fragment_size fr <= usize_max ->
  len payload <= isize_max -> 0 <= mid < u64_max ->
  fragment_packet fr packet
  = Some (Ok [from_fragment_parts (into_fragment_parts packet)],
          Fragmenter_with_starting_id (max_fragment_size fr) (mid + 1)).
Proof.
  intros payload mid Hle Hmax Hlen Hmid.
  unfold fragment_packet, fragment_bytes, next_message_id. fold payload mid.
  rewrite (proj2 (checked_add_Some u64_max mid 1 (mid + 1))) by lia.
  cbn [mbind option_bind].
  assert (exists f, fragment_with_id (mk_Fragmenter (max_fragment_size fr) (mid + 1)) mid payload
    = Some (Ok (mk_FragmentBatch mid [f]))) as (f & ->).
  { destruct (decide (payload = [])) as [Hn|Hn].
    - unfold fragment_with_id, build_fragments, build_fragments_from.
      rewrite decide_True by done. simpl. eauto.
    - assert (0 < len payload) by (destruct payload; [done|len_solve]).
      assert (div_ceil (len payload) (max_fragment_size fr) = 1) as Hdiv.
      { unfold div_ceil. symmetry. apply Z.div_unique with (r := len payload - 1); lia. }
      destruct (fragment_with_id_ok (mk_Fragmenter (max_fragment_size fr) (mid + 1)) mid payload)
        as (fs & -> & Hb); cbn [max_fragment_size] in *;
        [lia|done|done|rewrite Hdiv; unfold u32_max; lia|].
      apply batch_of_count in Hb; [|lia]. rewrite Hdiv in Hb.
      destruct fs as [|f [|? ?]]; try (unfold len in Hb; simpl in Hb; lia). eauto. }
  cbn [mbind option_bind]. unfold payload. by destruct (into_fragment_parts packet).
Qed.

Lemma reassemble_passthrough self packet now :
  decode_fragment_payload (fp_payload (into_fragment_parts packet)) = Ok None ->
  reassemble self packet now
  = (self, Ok (Some (from_fragment_parts (into_fragment_parts packet)))).
Proof. intros H. unfold reassemble. rewrite H. by destruct (into_fragment_parts packet). Qed.
End packets.

(** Every packet of a batch carries the packet's identifiers. *)
Lemma encode_fragments_parts {B : BytesCrate} {C : Bincode} {E : Type} {F : Fragmentable E}
    {FL : FragmentableLaws E} id correlation fs (es : list E) :
  encode_fragments id correlation fs = Ok es ->
  Forall (fun e => fp_id (into_fragment_parts e) = id
                   /\ fp_correlation_id (into_fragment_parts e) = correlation) es.
Proof.
  revert es. induction fs as [|f fs IH]; intros es H; simpl in H; simplify_eq; [by constructor|].
  destruct (encode_fragment_payload _ _) as [enc|]; simpl in H; [|done].
  destruct (encode_fragments id correlation fs) as [es'|]; [|done]. simplify_eq.
  constructor; [by rewrite into_from_fragment_parts|]. by apply IH.
Qed.

Lemma fragment_packet_parts {B : BytesCrate} {C : Bincode} {E : Type} {F : Fragmentable E}
    {FL : FragmentableLaws E} fr (packet : E) es fr' :
  fragment_packet fr packet = Some (Ok es, fr') ->
  Forall (fun e => fp_id (into_fragment_parts e) = fp_id (into_fragment_parts packet)
     /\ fp_correlation_id (into_fragment_parts e)
        = fp_correlation_id (into_fragment_parts packet)) es.
Proof.
  unfold fragment_packet. destruct (fragment_bytes fr _) as [[[batch|] f]|]; simpl; try done.
  destruct (is_fragmented batch); simpl; intros [= H _]; simplify_eq.
  - by eapply encode_fragments_parts.
  - repeat constructor; by rewrite into_from_fragment_parts.
Qed.

(** A packet sent by one adapter is rebuilt by another. *)
Lemma adapters_deliver {B : BytesCrate} {BL : BytesCrateLaws B}
    {C : Bincode} {CL : BincodeLaws C} {E : Type} {F : Fragmentable E} {FL : FragmentableLaws E}
    (sender receiver : DefaultFragmentAdapter) (packet : E) (ts : list Z) :
  let parts := into_fragment_parts packet in
  let payload := fp_payload parts in
  let fr := fragmenter sender in
  1 <= max_fragment_size fr <= usize_max -> 0 <= next_message_id_counter fr < u64_max ->
  len payload <= isize_max ->
  div_ceil (len payload) (max_fragment_size fr) <= u32_max + 1 ->
  (len payload <= max_fragment_size fr -> slice_get payload 0 4 <> Some FRAGMENT_MAGIC) ->
  ready (reassembler receiver) (next_message_id_counter fr) (len payload) ->
  len ts = Z.max 1 (div_ceil (len payload) (max_fragment_size fr)) ->
  (forall t0, head ts = Some t0 -> Forall (fun t => t - t0 < timeout (reassembler receiver)) ts) ->
  exists es sender',
    fragment sender packet = Some (Ok es, sender')
    /\ length es = length ts
    /\ (run deliver receiver (zip es ts)).2
       = completion (length es) (from_fragment_parts parts).
Proof.
  cbv zeta. set (parts := into_fragment_parts packet). set (payload := fp_payload parts).
  intros Hmax Hmid Hlen Hdiv Hmagic Hrd Hts Htimes. unfold fragment.
  destruct (decide (len payload <= max_fragment_size (fragmenter sender))) as [Hle|Hgt].
  - rewrite fragment_packet_small by done. eexists _, _. split; [done|].
    assert (div_ceil (len payload) (max_fragment_size (fragmenter sender)) < 2) as Hd.
    { unfold div_ceil. apply Z.div_lt_upper_bound; lia. }
    assert (len ts = 1) as Hone by lia. unfold len in Hone.
    destruct ts as [|t [|? ?]]; simpl in Hone; try lia.
    split; [done|]. simpl. unfold deliver. simpl.
    rewrite reassemble_passthrough.
    + simpl. by rewrite into_from_fragment_parts.
    + rewrite into_from_fragment_parts. by apply decode_no_marker, Hmagic.
  - destruct (fragment_packet_split (fragmenter sender) packet)
      as (fs & es & -> & Hb & Hall & Hwf & Hn); [fold parts payload; lia|done..|].
    eexists _, _. split; [done|]. pose proof (Forall2_length _ _ _ Hall) as Hfe.
    assert (length ts = length fs) as Htl.
    { apply batch_of_count in Hb as Hc; [|lia]. fold parts payload in Hc.
      pose proof (batch_of_nonempty _ _ _ _ _ Hb).
      assert (len ts = len fs) as Heq by lia. unfold len in Heq. lia. }
    split; [lia|]. erewrite deliver_encoded by done.
    pose proof (feed_batch _ _ _ _ (reassembler receiver) ts Hb Hrd Htl Htimes
      ltac:(lia) Hn) as Hfeed.
    destruct (run feed _ _) as [r' outs]. destruct Hfeed as [-> _]. simpl.
    unfold completion. rewrite fmap_app, fmap_replicate, <- Hfe. simpl.
    fold parts. clear. by destruct parts.
Qed.

(** ** Properties *)

(** C9: End to end: the packets an adapter produces for a packet, delivered in
    order to an adapter that has room for the message and before its timeout,
    give nothing until the last one and then the packet with the identifier,
    the correlation identifier and the payload it was sent with, whatever
    other messages the receiver is holding or evicting meanwhile.  Payloads
    that fit one fragment must not start with the fragment marker. *)
Theorem packet_round_trip {B : BytesCrate} {BL : BytesCrateLaws B}
    {C : Bincode} {CL : BincodeLaws C} {E : Type} {F : Fragmentable E} {FL : FragmentableLaws E}
    (sender receiver : DefaultFragmentAdapter) (packet : E) (ts : list Z) :
  let parts := into_fragment_parts packet in
  let payload := fp_payload parts in
  let fr := fragmenter sender in
  1 <= max_fragment_size fr <= usize_max -> 0 <= next_message_id_counter fr < u64_max ->
  len payload <= isize_max ->
  div_ceil (len payload) (max_fragment_size fr) <= u32_max + 1 ->
  (len payload <= max_fragment_size fr -> slice_get payload 0 4 <> Some FRAGMENT_MAGIC) ->
  ready (reassembler receiver) (next_message_id_counter fr) (len payload) ->
  len ts = Z.max 1 (div_ceil (len payload) (max_fragment_size fr)) ->
  (forall t0, head ts = Some t0 -> Forall (fun t => t - t0 < timeout (reassembler receiver)) ts) ->
  exists es sender',
    fragment sender packet = Some (Ok es, sender')
    /\ length es = length ts
    /\ (run deliver receiver (zip es ts)).2
       = completion (length es) (from_fragment_parts parts).
Proof. apply adapters_deliver. Qed.

Lemma packet_round_trip_witness :
  exists es sender',
    fragment (B := reference_bytes) (C := varint_bincode)
      (DefaultFragmentAdapter_new (mk_FragmentationConfig 2 16 (Some 4) (Some 64) 30))
      (mk_Envelope 5 (Some 9) [1; 2; 3]) = Some (Ok es, sender')
    /\ (run (deliver (B := reference_bytes) (C := varint_bincode))
          (DefaultFragmentAdapter_new (mk_FragmentationConfig 2 16 (Some 4) (Some 64) 30))
          (zip es [100; 110])).2
       = completion (length es) (mk_Envelope 5 (Some 9) [1; 2; 3]).
Proof.
  destruct (@packet_round_trip reference_bytes reference_bytes_laws varint_bincode
    varint_bincode_laws Envelope _ _
    (DefaultFragmentAdapter_new (mk_FragmentationConfig 2 16 (Some 4) (Some 64) 30))
    (DefaultFragmentAdapter_new (mk_FragmentationConfig 2 16 (Some 4) (Some 64) 30))
    (mk_Envelope 5 (Some 9) [1; 2; 3]) [100; 110]) as (es & s' & H1 & _ & H2).
  - vm_compute; split; congruence.
  - vm_compute; split; congruence.
  - vm_compute; congruence.
  - vm_compute; congruence.
  - intros H. exfalso. apply H. reflexivity.
  - apply (new_ready 16 30 (Some 4) (Some 64)).
    + split_and!; [done| |]; intros l [= <-]; done.
    + reflexivity.
    + vm_compute; congruence.
    + vm_compute; congruence.
    + intros l [= <-]. vm_compute. congruence.
    + intros l [= <-]. done.
  - reflexivity.
  - intros t0 [= <-]. repeat constructor; vm_compute; reflexivity.
  - exists es, s'. exact (conj H1 H2).
Defined.

(** C39: The marker is in band: a packet whose own payload is the encoding of a
    first fragment is sent unchanged when it is short enough, but the receiver
    takes it for a fragment and delivers nothing. *)
Theorem marker_collision_swallows {B : BytesCrate} {BL : BytesCrateLaws B}
    {C : Bincode} {CL : BincodeLaws C} {E : Type} {F : Fragmentable E} {FL : FragmentableLaws E}
    (sender receiver : DefaultFragmentAdapter) (packet : E) (mid now : Z) (chunk : list Z) :
  let payload := fp_payload (into_fragment_parts packet) in
  let fr := fragmenter sender in
  encode_fragment_payload (mk_FragmentHeader mid 0 false) chunk = Ok payload ->
  len payload <= max_fragment_size fr <= usize_max -> len payload <= isize_max ->
  0 <= next_message_id_counter fr < u64_max -> 0 <= mid <= u64_max ->
  ready (reassembler receiver) mid (len chunk) ->
  exists e sender',
    fragment sender packet = Some (Ok [e], sender')
    /\ into_fragment_parts e = into_fragment_parts packet
    /\ (reassemble receiver e now).2 = Ok None.
Proof.
  cbv zeta. intros Henc Hle Hlen Hc Hmid Hrd.
  assert (header_wf (mk_FragmentHeader mid 0 false)) as Hwf by (split; simpl; [lia|done]).
  destruct (encode_fragment_payload_ok _ chunk Hwf) as (bs & _ & Hbs & Henc').
  assert (1 <= len (fp_payload (into_fragment_parts packet))) as Hpos.
  { rewrite Henc in Henc'. injection Henc' as ->. unfold len. simpl. lia. }
  unfold fragment. rewrite fragment_packet_small by lia. eexists _, _. split; [done|].
  split; [apply into_from_fragment_parts|].
  unfold reassemble. rewrite into_from_fragment_parts.
  rewrite (decode_encode_fragment _ _ _ Hwf Henc).
  pose proof (ready_first (reassembler receiver) mid _ chunk now Hrd Hmid ltac:(lia)) as H.
  destruct (push_at _ _ _ _) as [r' res]. by destruct H as [-> _].
Qed.

Lemma marker_collision_swallows_witness :
  exists e sender',
    fragment (B := reference_bytes) (C := varint_bincode)
      (DefaultFragmentAdapter_new (mk_FragmentationConfig 64 64 None None 30))
      (mk_Envelope 5 None [70; 82; 65; 71; 0; 3; 7; 0; 0; 1]) = Some (Ok [e], sender')
    /\ into_fragment_parts e
       = into_fragment_parts (mk_Envelope 5 None [70; 82; 65; 71; 0; 3; 7; 0; 0; 1])
    /\ (reassemble (B := reference_bytes) (C := varint_bincode)
           (DefaultFragmentAdapter_new (mk_FragmentationConfig 64 64 None None 30)) e 12).2
       = Ok None.
Proof.
  apply (@marker_collision_swallows reference_bytes reference_bytes_laws varint_bincode
    varint_bincode_laws Envelope _ _ _ _ _ 7 12 [1]).
  1: reflexivity.
  1, 2, 3, 4: vm_compute; try split; congruence.
  apply (new_ready 64 30 None None); done.
Defined.
