(* ===== verification/MessageSeries.v ===== *)
(** * Ordering of protocol-level message frames

    [src/src/message_assembler/header.rs], [error.rs] and [series/mod.rs]: the
    headers a protocol parses from its frames, and [MessageSeries], which
    checks that the continuation frames of one message arrive in order.

    [MessageKey] (a [u64]) and [FrameSequence] (a [u32]) are [Z]; methods that
    take [&mut self] return the new series with their result. *)

From S2P Require Import Prelude.
Open Scope rust_scope.

(** ** [header.rs] *)

Definition FrameSequence_checked_increment (self : Z) : option Z := checked_add u32_max self 1.

Record FirstFrameHeader : Type := mk_FirstFrameHeader {
  ff_message_key : Z;
  metadata_len : Z;
  ff_body_len : Z;
  total_body_len : option Z;
  ff_is_last : bool
}.

Record ContinuationFrameHeader : Type := mk_ContinuationFrameHeader {
  cf_message_key : Z;
  cf_sequence : option Z;
  cf_body_len : Z;
  cf_is_last : bool
}.

Inductive FrameHeader : Type :=
  | First (h : FirstFrameHeader)
  | Continuation (h : ContinuationFrameHeader).

Record ParsedFrameHeader : Type := mk_ParsedFrameHeader {
  parsed_header : FrameHeader;
  header_len : Z
}.

(** ** [error.rs] *)

Inductive MessageSeriesStatus : Type := SeriesIncomplete | SeriesCompleted.

Inductive MessageSeriesError : Type :=
  | KeyMismatch (expected found : Z)
  | SequenceMismatch (expected found : Z)
  | SeriesComplete
  | SequenceOverflow (last : Z)
  | MissingFirstFrame (key : Z)
  | DuplicateFrame (key sequence : Z)
  | MissingSequence (key : Z)
  | ContinuationBodyLengthMismatch (key header_len actual_len : Z).

Inductive MessageAssemblyError : Type :=
  | Series (e : MessageSeriesError)
  | DuplicateFirstFrame (key : Z)
  | MessageTooLarge (key attempted limit : Z)
  | ConnectionBudgetExceeded (key attempted limit : Z)
  | InFlightBudgetExceeded (key attempted limit : Z)
  | DeclaredTotalTooSmall (key declared body_len : Z)
  | DeclaredTotalExceeded (key declared attempted : Z)
  | DeclaredTotalMismatch (key declared actual : Z).

(** ** [series/mod.rs] *)

Inductive SequenceTracking : Type := Untracked | Tracked.

Record MessageSeries : Type := mk_MessageSeries {
  series_key : Z;
  next_sequence : option Z;
  sequence_tracking : SequenceTracking;
  series_complete : bool;
  expected_total : option Z
}.

#[export] Instance SequenceTracking_eq_dec : EqDecision SequenceTracking.
Proof. solve_decision. Defined.
#[export] Instance MessageSeriesError_eq_dec : EqDecision MessageSeriesError.
Proof. solve_decision. Defined.
#[export] Instance MessageAssemblyError_eq_dec : EqDecision MessageAssemblyError.
Proof. solve_decision. Defined.

Definition MessageSeries_from_first_frame (header : FirstFrameHeader) : MessageSeries :=
  mk_MessageSeries (ff_message_key header) None Untracked (ff_is_last header)
    (total_body_len header).

Definition advance_sequence_or_overflow (self : MessageSeries) (incoming : Z) (is_last : bool) :
    MessageSeries * result unit MessageSeriesError :=
  let new_next := FrameSequence_checked_increment incoming in
  if decide (new_next = None /\ is_last = false)
  then (self, Err (SequenceOverflow incoming))
  else (mk_MessageSeries (series_key self) new_next (sequence_tracking self)
          (series_complete self) (expected_total self), Ok tt).

Definition start_sequence_tracking (self : MessageSeries) (incoming : Z) (is_last : bool) :
    MessageSeries * result unit MessageSeriesError :=
  let '(self, r) := advance_sequence_or_overflow self incoming is_last in
  match r with
  | Err e => (self, Err e)
  | Ok _ =>
      (mk_MessageSeries (series_key self) (next_sequence self) Tracked
         (series_complete self) (expected_total self), Ok tt)
  end.

Definition advance_tracked_sequence (self : MessageSeries) (incoming : Z) (is_last : bool) :
    MessageSeries * result unit MessageSeriesError :=
  match next_sequence self with
  | None => (self, Err (SequenceOverflow incoming))
  | Some expected =>
      if decide (incoming < expected)
      then (self, Err (DuplicateFrame (series_key self) incoming))
      else if decide (incoming <> expected)
      then (self, Err (SequenceMismatch expected incoming))
      else advance_sequence_or_overflow self incoming is_last
  end.

Definition validate_and_advance_sequence (self : MessageSeries) (incoming : Z) (is_last : bool) :
    MessageSeries * result unit MessageSeriesError :=
  match sequence_tracking self with
  | Untracked => start_sequence_tracking self incoming is_last
  | Tracked => advance_tracked_sequence self incoming is_last
  end.

Definition accept_continuation (self : MessageSeries) (header : ContinuationFrameHeader) :
    MessageSeries * result MessageSeriesStatus MessageSeriesError :=
  if decide (cf_message_key header <> series_key self)
  then (self, Err (KeyMismatch (series_key self) (cf_message_key header)))
  else if series_complete self then (self, Err SeriesComplete)
  else
    let '(self, r) :=
      match cf_sequence header with
      | Some incoming_seq => validate_and_advance_sequence self incoming_seq (cf_is_last header)
      | None =>
          if decide (sequence_tracking self = Tracked)
          then (self, Err (MissingSequence (series_key self)))
          else (self, Ok tt)
      end in
    match r with
    | Err e => (self, Err e)
    | Ok _ =>
        if cf_is_last header then
          (mk_MessageSeries (series_key self) (next_sequence self) (sequence_tracking self)
             true (expected_total self), Ok SeriesCompleted)
        else (self, Ok SeriesIncomplete)
    end.

(** ** Lemmas *)

(** What a series demands of the next frame: nothing while no sequence number
    has been seen, then the number itself ([Exhausted] after [u32::MAX]). *)
Inductive demand : Type := Anything | Exactly (n : Z) | Exhausted.

Definition demands (s : MessageSeries) : demand :=
  match sequence_tracking s, next_sequence s with
  | Untracked, _ => Anything
  | Tracked, Some n => Exactly n
  | Tracked, None => Exhausted
  end.

Definition overflow_error (n : Z) (is_last : bool) : option MessageSeriesError :=
  if decide (u32_max <= n /\ is_last = false) then Some (SequenceOverflow n) else None.

(** Why a frame is refused, if it is. *)
Definition continuation_error (s : MessageSeries) (h : ContinuationFrameHeader) :
    option MessageSeriesError :=
  if decide (cf_message_key h <> series_key s)
  then Some (KeyMismatch (series_key s) (cf_message_key h))
  else if series_complete s then Some SeriesComplete
  else
    match demands s, cf_sequence h with
    | Anything, None => None
    | _, None => Some (MissingSequence (series_key s))
    | Exhausted, Some n => Some (SequenceOverflow n)
    | Exactly m, Some n =>
        if decide (n < m) then Some (DuplicateFrame (series_key s) n)
        else if decide (n <> m) then Some (SequenceMismatch m n)
        else overflow_error n (cf_is_last h)
    | Anything, Some n => overflow_error n (cf_is_last h)
    end.

(** The series after an accepted frame. *)
Definition advanced (s : MessageSeries) (h : ContinuationFrameHeader) : MessageSeries :=
  mk_MessageSeries (series_key s)
    (match cf_sequence h with
     | Some n => if decide (n < u32_max) then Some (n + 1) else None
     | None => next_sequence s
     end)
    (match cf_sequence h with Some _ => Tracked | None => sequence_tracking s end)
    (cf_is_last h) (expected_total s).

Definition status_of (h : ContinuationFrameHeader) : MessageSeriesStatus :=
  if cf_is_last h then SeriesCompleted else SeriesIncomplete.

Lemma checked_increment_spec n :
  FrameSequence_checked_increment n = if decide (n < u32_max) then Some (n + 1) else None.
Proof.
  unfold FrameSequence_checked_increment, checked_add. repeat case_decide; try done; lia.
Qed.

Lemma advance_or_overflow_spec self n is_last :
  advance_sequence_or_overflow self n is_last
  = match overflow_error n is_last with
    | Some e => (self, Err e)
    | None =>
        (mk_MessageSeries (series_key self) (if decide (n < u32_max) then Some (n + 1) else None)
           (sequence_tracking self) (series_complete self) (expected_total self), Ok tt)
    end.
Proof.
  unfold advance_sequence_or_overflow, overflow_error. rewrite checked_increment_spec.
  destruct (decide (n < u32_max)), is_last; repeat case_decide;
    destruct_and?; simplify_eq; try done; exfalso; (lia || naive_solver).
Qed.

(** The exact effect of a frame: refused frames leave no trace. *)
Lemma accept_continuation_exact s h :
  accept_continuation s h
  = match continuation_error s h with
    | Some e => (s, Err e)
    | None => (advanced s h, Ok (status_of h))
    end.
Proof.
  unfold accept_continuation, continuation_error, status_of, advanced.
  case_decide; [done|]. destruct (series_complete s) eqn:Hc; [done|].
  unfold demands, validate_and_advance_sequence, start_sequence_tracking, advance_tracked_sequence.
  destruct s as [k nx tr co tot]; cbn [sequence_tracking next_sequence series_complete series_key expected_total] in *.
  subst co. destruct (cf_sequence h) as [n|]; destruct tr; rewrite ?advance_or_overflow_spec.
  - destruct (overflow_error n (cf_is_last h)); [done|]. by destruct (cf_is_last h).
  - destruct nx as [m|]; [|done]. case_decide; [done|]. case_decide as Hn; [done|].
    destruct (overflow_error n (cf_is_last h)); [done|]. by destruct (cf_is_last h).
  - rewrite decide_False by done. by destruct (cf_is_last h).
  - rewrite decide_True by done. by destruct nx.
Qed.

(** ** Properties *)

(** The headers that were accepted, in the order of their arrival. *)
Definition accepted (hs : list ContinuationFrameHeader)
    (rs : list (result MessageSeriesStatus MessageSeriesError)) : list ContinuationFrameHeader :=
  omap (fun hr => if is_ok hr.2 then Some hr.1 else None) (zip hs rs).

(** [k] frames without a number, then the numbers [n], [n + 1], ... of [m]
    frames. *)
Definition numbered (k : nat) (n : Z) (m : nat) : list (option Z) :=
  replicate k None ++ ((fun i => Some (n + Z.of_nat i)) <$> seq 0 m).

Lemma numbered_snoc_none k n : numbered k n 0 ++ [None] = numbered (S k) n 0.
Proof. unfold numbered. simpl. by rewrite !app_nil_r, <- replicate_cons_app. Qed.

Lemma numbered_snoc_some k n m :
  numbered k n m ++ [Some (n + Z.of_nat m)] = numbered k n (S m).
Proof. unfold numbered. by rewrite seq_S, fmap_app, app_assoc. Qed.

(** What is known of a series after the frames [acc] were accepted. *)
Record series_after (first : FirstFrameHeader) (acc : list ContinuationFrameHeader)
    (s : MessageSeries) : Prop := {
  sa_key : series_key s = ff_message_key first;
  sa_total : expected_total s = total_body_len first;
  sa_keys : Forall (fun h => cf_message_key h = ff_message_key first) acc;
  sa_open : series_complete s = false ->
            ff_is_last first = false /\ Forall (fun h => cf_is_last h = false) acc;
  sa_final : forall acc' h, acc = acc' ++ [h] ->
            ff_is_last first = false /\ Forall (fun h => cf_is_last h = false) acc';
  sa_order : exists k n m, cf_sequence <$> acc = numbered k n m
            /\ demands s = match m with
                           | O => Anything
                           | S m => if decide (n + Z.of_nat m < u32_max)
                                    then Exactly (n + Z.of_nat m + 1) else Exhausted
                           end
}.

Lemma demands_advanced s h :
  demands (advanced s h)
  = match cf_sequence h with
    | Some i => if decide (i < u32_max) then Exactly (i + 1) else Exhausted
    | None => demands s
    end.
Proof.
  unfold demands, advanced. simpl. destruct (cf_sequence h); [|done]. by case_decide.
Qed.

Lemma series_after_step first acc s h :
  series_after first acc s -> continuation_error s h = None ->
  series_after first (acc ++ [h]) (advanced s h).
Proof.
  intros [Hk Ht Hks Ho Hf (k & n & m & Hs & Hd)] He. unfold continuation_error in He.
  case_decide as Hkey; [done|]. destruct (series_complete s) eqn:Hc; [done|].
  destruct (Ho eq_refl) as [Hfirst Hacc]. split; try done; simpl.
  - apply Forall_app. split; [done|]. repeat constructor. congruence.
  - intros Hl. split; [done|]. apply Forall_app. auto.
  - intros acc' h' E. apply app_inj_2 in E as [<- [= <-]]; done.
  - rewrite fmap_app, Hs. simpl. rewrite Hd in He.
    rewrite demands_advanced, Hd. clear Hd.
    destruct (cf_sequence h) as [i|], m as [|m]; simpl in *.
    + exists k, i, 1%nat. split; [|by rewrite Z.add_0_r].
      unfold numbered. simpl. by rewrite app_nil_r, Z.add_0_r.
    + destruct (decide (n + Z.of_nat m < u32_max)) as [Hlt|]; [|done].
      case_decide; [done|]. case_decide as Hi; [done|]. subst i.
      exists k, n, (S (S m)). rewrite <- (numbered_snoc_some k n (S m)).
      by replace (n + Z.of_nat (S m)) with (n + Z.of_nat m + 1) by lia.
    + exists (S k), n, 0%nat. split; [|done]. by rewrite numbered_snoc_none.
    + by case_decide.
Qed.

(** Whatever continuation frames arrive, the ones a series accepts belong
    to its message, carry no numbers until the first number and then
    consecutive ones, and only the last of them is final: nothing is accepted
    twice, out of order, or after the end. *)
Theorem accepted_frames_in_order (first : FirstFrameHeader) (hs : list ContinuationFrameHeader) :
  let '(s, rs) := run accept_continuation (MessageSeries_from_first_frame first) hs in
  let acc := accepted hs rs in
  Forall (fun h => cf_message_key h = ff_message_key first) acc
  /\ (exists k n m, cf_sequence <$> acc = numbered k n m)
  /\ (forall acc' h, acc = acc' ++ [h] ->
       ff_is_last first = false /\ Forall (fun h => cf_is_last h = false) acc')
  /\ expected_total s = total_body_len first.
Proof.
  assert (let '(s, rs) := run accept_continuation (MessageSeries_from_first_frame first) hs in
          series_after first (accepted hs rs) s) as H.
  { induction hs as [|h hs IH] using rev_ind.
    - simpl. split; try done.
      + intros [|? acc'] h E; done.
      + exists 0%nat, 0, 0%nat. done.
    - rewrite run_app. pose proof (run_length accept_continuation
        (MessageSeries_from_first_frame first) hs) as Hlen.
      destruct (run _ _ hs) as [s rs]. simpl in Hlen. cbn [run].
      rewrite accept_continuation_exact.
      assert (forall r, accepted (hs ++ [h]) (rs ++ [r])
        = accepted hs rs ++ (if is_ok r then [h] else [])) as Hacc.
      { intros r. unfold accepted. rewrite zip_with_app by done. rewrite omap_app. simpl.
        by destruct (is_ok r). }
      destruct (continuation_error s h) as [e|] eqn:He; rewrite Hacc; simpl.
      + by rewrite app_nil_r.
      + by apply series_after_step. }
  destruct (run _ _ hs) as [s rs]. destruct H as [Hk Ht Hks Ho Hf (k & n & m & Hs & Hd)].
  split_and!; eauto.
Qed.
