(* ===== verification/MessageAssembly.v ===== *)
(** * Assembly of protocol-level messages

    [src/src/message_assembler/types.rs], [validation.rs], [budget.rs],
    [partial.rs] and [state.rs]: [MessageAssemblyState] keeps one
    [PartialAssembly] per message key, admits frames under a size limit, the
    declared totals and two aggregate budgets, and delivers completed messages.

    Clock readings are arguments; the [HashMap] is a [gmap].  The sum of
    [total_buffered_bytes] is taken modulo 2{^64}, as in a release build. *)

From S2P Require Import Prelude.
From S2P Require Import MessageSeries.
Open Scope rust_scope.

(** ** [types.rs] *)

Record EnvelopeRouting : Type := mk_EnvelopeRouting {
  routing_envelope_id : Z;
  routing_correlation_id : option Z
}.

Record FirstFrameInput : Type := mk_FirstFrameInput {
  input_header : FirstFrameHeader;
  input_routing : EnvelopeRouting;
  input_metadata : list Z;
  input_body : list Z
}.

Inductive FirstFrameInputError : Type :=
  | MetadataLengthMismatch (header_len actual_len : Z)
  | BodyLengthMismatch (header_len actual_len : Z).

Definition FirstFrameInput_new (header : FirstFrameHeader) (routing : EnvelopeRouting)
    (metadata body : list Z) : result FirstFrameInput FirstFrameInputError :=
  if decide (metadata_len header <> len metadata)
  then Err (MetadataLengthMismatch (metadata_len header) (len metadata))
  else if decide (ff_body_len header <> len body)
  then Err (BodyLengthMismatch (ff_body_len header) (len body))
  else Ok (mk_FirstFrameInput header routing metadata body).

Record AssembledMessage : Type := mk_AssembledMessage {
  assembled_message_key : Z;
  assembled_routing : EnvelopeRouting;
  assembled_metadata : list Z;
  assembled_body : list Z
}.

(** ** [validation.rs] *)

Definition validate_first_frame (header : FirstFrameHeader) (body_len : Z) :
    result unit MessageAssemblyError :=
  match total_body_len header with
  | None => Ok tt
  | Some declared =>
      let key := ff_message_key header in
      if decide (declared < body_len) then Err (DeclaredTotalTooSmall key declared body_len)
      else if decide (ff_is_last header = true /\ declared <> body_len)
      then Err (DeclaredTotalMismatch key declared body_len)
      else Ok tt
  end.

Definition validate_continuation (key declared accumulated body_len : Z) :
    result unit MessageAssemblyError :=
  match checked_add usize_max accumulated body_len with
  | None => Err (DeclaredTotalExceeded key declared usize_max)
  | Some attempted =>
      if decide (declared < attempted) then Err (DeclaredTotalExceeded key declared attempted)
      else Ok tt
  end.

Definition validate_completion (key declared actual : Z) : result unit MessageAssemblyError :=
  if decide (actual <> declared) then Err (DeclaredTotalMismatch key declared actual) else Ok tt.

(** ** [budget.rs] *)

Record AggregateBudgets : Type := mk_AggregateBudgets {
  connection : option Z;
  in_flight : option Z
}.

Definition is_enabled (self : AggregateBudgets) : bool :=
  bool_decide (is_Some (connection self)) || bool_decide (is_Some (in_flight self)).

Record ContinuationLimits : Type := mk_ContinuationLimits {
  limits_max_message_size : Z;
  limits_budgets : AggregateBudgets
}.

Definition check_aggregate_budgets (key current_total additional_bytes : Z)
    (budgets : AggregateBudgets) : result unit MessageAssemblyError :=
  let new_total := saturating_add usize_max current_total additional_bytes in
  let? _ := match connection budgets with
            | Some limit =>
                if decide (limit < new_total)
                then Err (ConnectionBudgetExceeded key new_total limit) else Ok tt
            | None => Ok tt
            end in
  match in_flight budgets with
  | Some limit =>
      if decide (limit < new_total)
      then Err (InFlightBudgetExceeded key new_total limit) else Ok tt
  | None => Ok tt
  end.

Definition check_size_limit (max_message_size key accumulated body_len : Z) :
    result Z MessageAssemblyError :=
  match checked_add usize_max accumulated body_len with
  | None => Err (MessageTooLarge key usize_max max_message_size)
  | Some new_len =>
      if decide (max_message_size < new_len)
      then Err (MessageTooLarge key new_len max_message_size) else Ok new_len
  end.

(** ** [partial.rs] *)

Record PartialAssembly : Type := mk_PartialAssembly {
  pa_series : MessageSeries;
  pa_routing : EnvelopeRouting;
  pa_metadata : list Z;
  pa_body : list Z;
  pa_started_at : Z
}.

Definition PartialAssembly_from_first_frame (input : FirstFrameInput) (started_at : Z) :
    PartialAssembly :=
  mk_PartialAssembly (MessageSeries_from_first_frame (input_header input)) (input_routing input)
    (input_metadata input) (input_body input) started_at.

Definition body_len (self : PartialAssembly) : Z := len (pa_body self).

Definition declared_total (self : PartialAssembly) : option Z := expected_total (pa_series self).

Definition pa_accept_continuation (self : PartialAssembly) (header : ContinuationFrameHeader) :
    PartialAssembly * result MessageSeriesStatus MessageSeriesError :=
  let '(series, r) := accept_continuation (pa_series self) header in
  (mk_PartialAssembly series (pa_routing self) (pa_metadata self) (pa_body self)
     (pa_started_at self), r).

Definition admit_continuation (self : PartialAssembly) (body_len_ buffered_total : Z)
    (limits : ContinuationLimits) : result unit MessageAssemblyError :=
  let key := series_key (pa_series self) in
  let accumulated := body_len self in
  let? _ := check_size_limit (limits_max_message_size limits) key accumulated body_len_ in
  let? _ := check_aggregate_budgets key buffered_total body_len_ (limits_budgets limits) in
  match declared_total self with
  | Some declared =>
      let? _ := validate_continuation key declared accumulated body_len_ in Ok tt
  | None => Ok tt
  end.

Definition push_body (self : PartialAssembly) (body : list Z) : PartialAssembly :=
  mk_PartialAssembly (pa_series self) (pa_routing self) (pa_metadata self)
    (pa_body self ++ body) (pa_started_at self).

Definition pa_buffered_bytes (self : PartialAssembly) : Z :=
  saturating_add usize_max (len (pa_metadata self)) (len (pa_body self)).

Definition into_message (self : PartialAssembly) :
    result (option AssembledMessage) MessageAssemblyError :=
  let key := series_key (pa_series self) in
  let? _ := match expected_total (pa_series self) with
            | Some declared => validate_completion key declared (len (pa_body self))
            | None => Ok tt
            end in
  Ok (Some (mk_AssembledMessage key (pa_routing self) (pa_metadata self) (pa_body self))).

(** ** [state.rs] *)

Record MessageAssemblyState : Type := mk_MessageAssemblyState {
  st_max_message_size : Z;
  st_timeout : Z;
  assemblies : gmap Z PartialAssembly;
  budgets : AggregateBudgets
}.

Definition with_assemblies (s : MessageAssemblyState) (m : gmap Z PartialAssembly) :
    MessageAssemblyState :=
  mk_MessageAssemblyState (st_max_message_size s) (st_timeout s) m (budgets s).

Definition with_budgets (max_message_size timeout : Z)
    (connection_budget in_flight_budget : option Z) : MessageAssemblyState :=
  mk_MessageAssemblyState max_message_size timeout ∅
    (mk_AggregateBudgets connection_budget in_flight_budget).

Definition MessageAssemblyState_new (max_message_size timeout : Z) : MessageAssemblyState :=
  with_budgets max_message_size timeout None None.

Definition total_buffered_bytes (self : MessageAssemblyState) : Z :=
  map_sum pa_buffered_bytes (assemblies self) mod (usize_max + 1).

Definition buffered_count (self : MessageAssemblyState) : Z := Z.of_nat (size (assemblies self)).

Definition pa_expired (now timeout : Z) (kv : Z * PartialAssembly) : Prop :=
  timeout <= saturating_duration_since now (pa_started_at kv.2).
#[export] Instance pa_expired_dec now timeout kv : Decision (pa_expired now timeout kv).
Proof. unfold pa_expired. apply _. Defined.

Definition purge_expired_at (self : MessageAssemblyState) (now : Z) :
    MessageAssemblyState * list Z :=
  let expired := pa_expired now (st_timeout self) in
  (with_assemblies self (filter (fun kv => ~ expired kv) (assemblies self)),
   keys_where expired (assemblies self)).

Definition accept_first_frame_at (self : MessageAssemblyState) (input : FirstFrameInput)
    (now : Z) : MessageAssemblyState * result (option AssembledMessage) MessageAssemblyError :=
  let self := (purge_expired_at self now).1 in
  let header := input_header input in
  let key := ff_message_key header in
  if bool_decide (is_Some (assemblies self !! key)) then (self, Err (DuplicateFirstFrame key))
  else
    match validate_first_frame header (len (input_body input)) with
    | Err e => (self, Err e)
    | Ok _ =>
        let declared_body_len := default (len (input_body input)) (total_body_len header) in
        let total_message_size :=
          saturating_add usize_max declared_body_len (len (input_metadata input)) in
        if decide (st_max_message_size self < total_message_size)
        then (self, Err (MessageTooLarge key total_message_size (st_max_message_size self)))
        else if ff_is_last header then
          (self, Ok (Some (mk_AssembledMessage key (input_routing input) (input_metadata input)
                             (input_body input))))
        else
          let checked :=
            if is_enabled (budgets self) then
              let incoming_bytes :=
                saturating_add usize_max (len (input_body input)) (len (input_metadata input)) in
              check_aggregate_budgets key (total_buffered_bytes self) incoming_bytes (budgets self)
            else Ok tt in
          match checked with
          | Err e => (self, Err e)
          | Ok _ =>
              let partial := PartialAssembly_from_first_frame input now in
              (with_assemblies self (<[key := partial]> (assemblies self)), Ok None)
          end
    end.

Definition is_unrecoverable_continuity_error (error : MessageSeriesError) : bool :=
  match error with
  | KeyMismatch _ _ | SequenceOverflow _ | MissingFirstFrame _ | MissingSequence _
  | ContinuationBodyLengthMismatch _ _ _ => true
  | _ => false
  end.

Definition accept_continuation_frame_at (self : MessageAssemblyState)
    (header : ContinuationFrameHeader) (body : list Z) (now : Z) :
    MessageAssemblyState * result (option AssembledMessage) MessageAssemblyError :=
  let self := (purge_expired_at self now).1 in
  let key := cf_message_key header in
  if decide (cf_body_len header <> len body) then
    (self, Err (Series (ContinuationBodyLengthMismatch key (cf_body_len header) (len body))))
  else
    let limits := mk_ContinuationLimits (st_max_message_size self) (budgets self) in
    let buffered_total :=
      if is_enabled (limits_budgets limits) then total_buffered_bytes self else 0 in
    match assemblies self !! key with
    | None => (self, Err (Series (MissingFirstFrame key)))
    | Some entry =>
        let '(entry, r) := pa_accept_continuation entry header in
        (* the entry was updated in place *)
        let self_with e := with_assemblies self (<[key := e]> (assemblies self)) in
        let removed := with_assemblies self (delete key (assemblies self)) in
        match r with
        | Err e =>
            (if is_unrecoverable_continuity_error e then removed else self_with entry,
             Err (Series e))
        | Ok status =>
            match admit_continuation entry (len body) buffered_total limits with
            | Err e => (removed, Err e)
            | Ok _ =>
                let partial := push_body entry body in
                match status with
                | SeriesIncomplete => (self_with partial, Ok None)
                | SeriesCompleted => (removed, into_message partial)
                end
            end
        end
    end.

Arguments purge_expired_at : simpl never.
Arguments accept_first_frame_at : simpl never.
Arguments accept_continuation_frame_at : simpl never.

(** ** Well-formedness *)

Definition limits_ok (s : MessageAssemblyState) : Prop :=
  0 <= st_max_message_size s < usize_max
  /\ (forall l, connection (budgets s) = Some l -> 0 <= l < usize_max)
  /\ (forall l, in_flight (budgets s) = Some l -> 0 <= l < usize_max).

(** An assembly under its key: open, within the message limit, and within the
    declared total if there is one. *)
Record pa_wf (max : Z) (key : Z) (p : PartialAssembly) : Prop := {
  pw_key : series_key (pa_series p) = key;
  pw_opened : series_complete (pa_series p) = false;
  pw_body : len (pa_body p) <= max;
  pw_metadata : len (pa_metadata p) <= max;
  pw_declared d : declared_total p = Some d ->
    len (pa_body p) <= d /\ d + len (pa_metadata p) <= max
}.

Record st_wf (s : MessageAssemblyState) : Prop := {
  stw_limits : limits_ok s;
  stw_assemblies : map_Forall (pa_wf (st_max_message_size s)) (assemblies s);
  stw_connection l : connection (budgets s) = Some l ->
    map_sum pa_buffered_bytes (assemblies s) <= l;
  stw_in_flight l : in_flight (budgets s) = Some l ->
    map_sum pa_buffered_bytes (assemblies s) <= l
}.

Lemma pa_bytes_nonneg p : 0 <= pa_buffered_bytes p.
Proof.
  unfold pa_buffered_bytes, saturating_add. pose proof (len_nonneg (pa_metadata p)).
  pose proof (len_nonneg (pa_body p)). unfold usize_max, u64_max. lia.
Qed.
#[export] Hint Resolve pa_bytes_nonneg : wf.

(** The configured budget bounds the sum, so the sum does not wrap. *)
Definition budget_bound (s : MessageAssemblyState) (n : Z) : Prop :=
  (forall l, connection (budgets s) = Some l -> n <= l)
  /\ (forall l, in_flight (budgets s) = Some l -> n <= l).

Lemma total_exact s :
  st_wf s -> is_enabled (budgets s) = true ->
  total_buffered_bytes s = map_sum pa_buffered_bytes (assemblies s).
Proof.
  intros [(_ & Hc & Hi) _ H1 H2] He. unfold total_buffered_bytes. apply Z.mod_small.
  split; [apply map_sum_nonneg; auto with wf|]. unfold is_enabled in He.
  apply orb_true_iff in He as [He|He]; apply bool_decide_eq_true in He as [l Hl].
  - specialize (H1 l Hl). specialize (Hc l Hl). lia.
  - specialize (H2 l Hl). specialize (Hi l Hl). lia.
Qed.

Lemma check_budgets_ok s key total n :
  limits_ok s ->
  check_aggregate_budgets key total n (budgets s) = Ok tt <-> budget_bound s (total + n).
Proof.
  intros (_ & Hc & Hi). unfold check_aggregate_budgets, budget_bound, saturating_add.
  destruct (connection (budgets s)) as [lc|], (in_flight (budgets s)) as [li|];
    try specialize (Hc _ eq_refl); try specialize (Hi _ eq_refl); simpl; repeat case_decide;
    split; intros H'; try done; try (split; intros ? [= <-]; lia).
  all: destruct H' as [H1 H2]; try specialize (H1 _ eq_refl); try specialize (H2 _ eq_refl); lia.
Qed.

(** The budget check as the operations make it, on a well-formed state. *)
Lemma gated_check s key n :
  st_wf s ->
  (if is_enabled (budgets s)
   then check_aggregate_budgets key (total_buffered_bytes s) n (budgets s) else Ok tt) = Ok tt
  <-> budget_bound s (map_sum pa_buffered_bytes (assemblies s) + n).
Proof.
  intros Hwf. destruct (is_enabled (budgets s)) eqn:He.
  - rewrite total_exact by done. apply check_budgets_ok, Hwf.
  - split; [|done]. intros _. unfold is_enabled in He. apply orb_false_iff in He as [H1 H2].
    apply bool_decide_eq_false in H1, H2.
    split; intros l Hl; exfalso; [apply H1|apply H2]; eauto.
Qed.

Definition gated_total (s : MessageAssemblyState) : Z :=
  if is_enabled (budgets s) then total_buffered_bytes s else 0.

Lemma admit_ok s p n :
  st_wf s -> 0 <= n ->
  admit_continuation p n (gated_total s) (mk_ContinuationLimits (st_max_message_size s) (budgets s))
    = Ok tt
  <-> len (pa_body p) + n <= st_max_message_size s
      /\ budget_bound s (map_sum pa_buffered_bytes (assemblies s) + n)
      /\ (forall d, declared_total p = Some d -> len (pa_body p) + n <= d).
Proof.
  intros Hwf Hn. pose proof (stw_limits _ Hwf) as Hl. destruct Hl as (Hmax & _ & _).
  assert (check_aggregate_budgets (series_key (pa_series p)) (gated_total s) n (budgets s) = Ok tt
          <-> budget_bound s (map_sum pa_buffered_bytes (assemblies s) + n)) as Hb.
  { rewrite <- (gated_check s (series_key (pa_series p)) n Hwf). unfold gated_total.
    destruct (is_enabled (budgets s)) eqn:He; [done|]. split; [done|]. intros _.
    unfold is_enabled in He. unfold check_aggregate_budgets.
    destruct (connection (budgets s)), (in_flight (budgets s)); simpl in He; try done;
      rewrite ?bool_decide_true in He by eauto; rewrite ?orb_true_r in He; done. }
  unfold admit_continuation, check_size_limit, checked_add, body_len.
  cbn [limits_max_message_size limits_budgets].
  destruct (decide (len (pa_body p) + n <= st_max_message_size s)) as [Hle|Hgt].
  2: { split; [|intros [? _]; lia]. repeat case_decide; try done; lia. }
  rewrite decide_True by lia. rewrite decide_False by lia.
  destruct (check_aggregate_budgets _ _ _ _) as [[]|e] eqn:Ec.
  2: { split; [done|]. intros (_ & H & _). apply Hb in H. done. }
  apply proj1 in Hb. specialize (Hb eq_refl).
  unfold validate_continuation. destruct (declared_total p) as [d|].
  - unfold checked_add. rewrite decide_True by lia. case_decide; split; try done.
    + intros (_ & _ & H'). specialize (H' d eq_refl). lia.
    + intros _. split_and!; try done. intros ? [= <-]. lia.
  - split; [|done]. intros _. by split_and!.
Qed.

(** ** The exact effect of the operations *)

Definition same_config (s s' : MessageAssemblyState) : Prop :=
  st_max_message_size s' = st_max_message_size s /\ st_timeout s' = st_timeout s
  /\ budgets s' = budgets s.

Definition extend (p : PartialAssembly) (h : ContinuationFrameHeader) (body : list Z) :
    PartialAssembly :=
  mk_PartialAssembly (advanced (pa_series p) h) (pa_routing p) (pa_metadata p)
    (pa_body p ++ body) (pa_started_at p).

Definition message_of (p : PartialAssembly) : AssembledMessage :=
  mk_AssembledMessage (series_key (pa_series p)) (pa_routing p) (pa_metadata p) (pa_body p).

(** Whether a refused continuation frame costs the message its buffer. *)
Definition releases (e : MessageAssemblyError) : bool :=
  match e with
  | Series (DuplicateFrame _ _ | SequenceMismatch _ _ | SeriesComplete
            | ContinuationBodyLengthMismatch _ _ _) => false
  | _ => true
  end.

(** Every failed admission releases the buffer. *)
Lemma admit_releases p n total limits e :
  admit_continuation p n total limits = Err e -> releases e = true.
Proof.
  unfold admit_continuation. intros H.
  destruct (check_size_limit _ _ _ _) eqn:E1; simplify_eq.
  2: { unfold check_size_limit in E1. crush_hyp E1. }
  destruct (check_aggregate_budgets _ _ _ _) eqn:E2; simplify_eq.
  2: { unfold check_aggregate_budgets in E2.
         destruct (connection _), (in_flight _); repeat case_decide; by simplify_eq. }
  destruct (declared_total p); [|done]. unfold validate_continuation in H.
  destruct (checked_add _ _ _); repeat case_decide; by simplify_eq.
Qed.

Lemma purge_config s now : same_config s (purge_expired_at s now).1.
Proof. done. Qed.

Lemma purge_lookup s now key :
  assemblies (purge_expired_at s now).1 !! key
  = p ← assemblies s !! key;
    if decide (st_timeout s <= saturating_duration_since now (pa_started_at p))
    then None else Some p.
Proof.
  unfold purge_expired_at. cbn [fst assemblies with_assemblies]. rewrite map_lookup_filter.
  destruct (assemblies s !! key) as [p|]; simpl; [|done].
  case_guard as Hg; case_decide as Hd; unfold pa_expired in Hg; simpl in *; tauto.
Qed.

Lemma purge_sum_le s now :
  map_sum pa_buffered_bytes (assemblies (purge_expired_at s now).1)
  <= map_sum pa_buffered_bytes (assemblies s).
Proof.
  rewrite (map_sum_retain (pa_expired now (st_timeout s)) pa_buffered_bytes (assemblies s)).
  pose proof (map_sum_nonneg pa_buffered_bytes
    (filter (pa_expired now (st_timeout s)) (assemblies s)) pa_bytes_nonneg).
  unfold purge_expired_at. cbn [fst assemblies with_assemblies]. lia.
Qed.

Lemma purge_st_wf s now : st_wf s -> st_wf (purge_expired_at s now).1.
Proof.
  intros [Hl Ha Hc Hi]. pose proof (purge_sum_le s now). split.
  - done.
  - intros k p Hp. rewrite purge_lookup in Hp. destruct (assemblies s !! k) eqn:E; [|done].
    simpl in Hp. case_decide; simplify_eq. by apply Ha.
  - intros l E. specialize (Hc l E). lia.
  - intros l E. specialize (Hi l E). lia.
Qed.

Section effects.
Context (s : MessageAssemblyState) (now : Z) (Hwf : st_wf s).

Lemma first_frame_effect input :
  let s1 := (purge_expired_at s now).1 in
  let h := input_header input in
  let key := ff_message_key h in
  let '(s', res) := accept_first_frame_at s input now in
  match res with
  | Err e => s' = s1
  | Ok r =>
      assemblies s1 !! key = None
      /\ default (len (input_body input)) (total_body_len h) + len (input_metadata input)
         <= st_max_message_size s
      /\ (forall d, total_body_len h = Some d ->
          len (input_body input) <= d /\ (ff_is_last h = true -> d = len (input_body input)))
      /\ (if ff_is_last h then
            s' = s1
            /\ r = Some (mk_AssembledMessage key (input_routing input) (input_metadata input)
                           (input_body input))
          else
            s' = with_assemblies s1
                   (<[key := PartialAssembly_from_first_frame input now]> (assemblies s1))
            /\ r = None
            /\ budget_bound s (map_sum pa_buffered_bytes (assemblies s1)
                   + saturating_add usize_max (len (input_body input)) (len (input_metadata input))))
  end.
Proof.
  intros s1 h key. unfold accept_first_frame_at. fold s1 h key.
  pose proof (purge_st_wf s now Hwf) as Hwf1. fold s1 in Hwf1.
  assert (st_max_message_size s1 = st_max_message_size s) as Emax by done.
  assert (budgets s1 = budgets s) as Eb by done. clearbody s1.
  case_bool_decide as Hk; [done|].
  assert (assemblies s1 !! key = None) as Hnone by by apply eq_None_not_Some.
  pose proof (stw_limits _ Hwf) as (Hmax & _).
  unfold validate_first_frame. fold key.
  assert (forall d, total_body_len h = Some d ->
    ~ d < len (input_body input) -> ~ (ff_is_last h = true /\ d <> len (input_body input)) ->
    len (input_body input) <= d /\ (ff_is_last h = true -> d = len (input_body input))) as Hd.
  { intros d _ H1 H2. split; [lia|]. intros Hl. destruct (decide (d = len (input_body input)));
      [done|tauto]. }
  destruct (total_body_len h) as [d|] eqn:Et.
  1: case_decide; [done|]; case_decide; [done|]; specialize (Hd d eq_refl ltac:(done) ltac:(done)).
  all: simpl default; rewrite Emax; case_decide as Hsz; [done|].
  all: unfold saturating_add in Hsz.
  all: destruct (ff_is_last h) eqn:Hlast; [split_and!; try done; try lia; by intros ? [= <-]|].
  all: destruct (if is_enabled _ then _ else _) as [[]|e] eqn:Ec; [|done].
  all: apply (gated_check s1 key _ Hwf1) in Ec; unfold budget_bound in *; rewrite Eb in Ec.
  all: split_and!; try done; try lia; try (by intros ? [= <-]); apply Ec.
Qed.

Lemma continuation_effect h body :
  let s1 := (purge_expired_at s now).1 in
  let key := cf_message_key h in
  let '(s', res) := accept_continuation_frame_at s h body now in
  match res with
  | Err e => s' = (if releases e then with_assemblies s1 (delete key (assemblies s1)) else s1)
  | Ok r =>
      exists p, assemblies s1 !! key = Some p
      /\ continuation_error (pa_series p) h = None /\ cf_body_len h = len body
      /\ len (pa_body p) + len body <= st_max_message_size s
      /\ budget_bound s (map_sum pa_buffered_bytes (assemblies s1) + len body)
      /\ (forall d, declared_total p = Some d -> len (pa_body p) + len body <= d)
      /\ (if cf_is_last h then
            s' = with_assemblies s1 (delete key (assemblies s1))
            /\ r = Some (message_of (extend p h body))
            /\ (forall d, declared_total p = Some d -> len (pa_body p) + len body = d)
          else
            s' = with_assemblies s1 (<[key := extend p h body]> (assemblies s1)) /\ r = None)
  end.
Proof.
  intros s1 key. unfold accept_continuation_frame_at. fold s1 key.
  pose proof (purge_st_wf s now Hwf) as Hwf1. fold s1 in Hwf1.
  assert (st_max_message_size s1 = st_max_message_size s) as Emax by done.
  assert (budgets s1 = budgets s) as Eb by done. clearbody s1.
  case_decide as Hlen; [done|].
  destruct (assemblies s1 !! key) as [p|] eqn:Hp.
  2: { simpl. rewrite delete_id by done. by destruct s1. }
  unfold pa_accept_continuation. rewrite accept_continuation_exact.
  destruct (continuation_error (pa_series p) h) as [e|] eqn:He.
  { assert (mk_PartialAssembly (pa_series p) (pa_routing p) (pa_metadata p) (pa_body p)
      (pa_started_at p) = p) as -> by by destruct p.
    rewrite insert_id by done.
    assert (e = SeriesComplete \/ is_unrecoverable_continuity_error e = releases (Series e)) as Hu.
    { destruct e; auto. exfalso. unfold continuation_error in He.
      repeat (case_hyp He; try done); unfold overflow_error in He; by case_decide. }
    destruct Hu as [->|Hu]; [by destruct s1|]. rewrite Hu.
    destruct (releases (Series e)); by destruct s1. }
  set (p1 := mk_PartialAssembly (advanced _ _) _ _ _ _).
  fold (gated_total s1).
  pose proof (admit_ok s1 p1 (len body) Hwf1 (len_nonneg body)) as Hadm.
  cbn [limits_budgets] in *. fold (gated_total s1).
  destruct (admit_continuation _ _ _ _) as [[]|e] eqn:Ea.
  2: { by rewrite (admit_releases _ _ _ _ _ Ea). }
  destruct (proj1 Hadm eq_refl) as (H1 & H2 & H3). clear Hadm. rewrite Emax in H1.
  assert (budget_bound s (map_sum pa_buffered_bytes (assemblies s1) + len body)) as H2'
    by (unfold budget_bound in *; by rewrite <- Eb).
  unfold status_of. destruct (cf_is_last h) eqn:Hl.
  - unfold into_message. cbn [push_body pa_series p1 advanced expected_total pa_body].
    change (expected_total (pa_series p)) with (declared_total p).
    change (declared_total p1) with (declared_total p) in H3.
    destruct (declared_total p) as [d|] eqn:Ed.
    + unfold validate_completion. rewrite len_app.
      case_decide as Hd; [done|]. exists p. rewrite Ed.
      split_and!; try done. intros ? [= <-]. done.
    + exists p. rewrite Ed. by split_and!.
  - exists p. by split_and!.
Qed.
End effects.

(** ** Preservation *)

Lemma with_assemblies_wf s m :
  st_wf s -> map_Forall (pa_wf (st_max_message_size s)) m ->
  budget_bound s (map_sum pa_buffered_bytes m) -> st_wf (with_assemblies s m).
Proof. intros [Hl _ _ _] Hm [H1 H2]. by split. Qed.

Lemma with_deleted_wf s key : st_wf s -> st_wf (with_assemblies s (delete key (assemblies s))).
Proof.
  intros Hwf. apply with_assemblies_wf; [done|by apply map_Forall_delete, Hwf|].
  assert (map_sum pa_buffered_bytes (delete key (assemblies s))
          <= map_sum pa_buffered_bytes (assemblies s)).
  { destruct (assemblies s !! key) as [p|] eqn:E; [|by rewrite delete_id].
    rewrite (map_sum_delete _ _ _ _ E). pose proof (pa_bytes_nonneg p). lia. }
  destruct Hwf as [_ _ Hc Hi]. split; intros l Hl; etransitivity; eauto.
Qed.

Lemma first_frame_wf s input now :
  st_wf s -> st_wf (accept_first_frame_at s input now).1.
Proof.
  intros Hwf. pose proof (first_frame_effect s now Hwf input) as H.
  pose proof (purge_st_wf s now Hwf) as Hwf1. cbv zeta in H.
  destruct (accept_first_frame_at s input now) as [s' [r|e]]; simpl; [|by subst].
  set (s1 := (purge_expired_at s now).1) in *.
  assert (st_max_message_size s1 = st_max_message_size s) as Emax by done.
  assert (budgets s1 = budgets s) as Eb by done. clearbody s1.
  destruct H as (Hk & Hsz & Hd & H). destruct (ff_is_last (input_header input)) eqn:Hl.
  { by destruct H as [-> _]. }
  destruct H as (-> & _ & Hb). pose proof (len_nonneg (input_body input)).
  pose proof (len_nonneg (input_metadata input)). apply with_assemblies_wf; [done| |].
  - apply map_Forall_insert_2; [|apply Hwf1]. split; try done; cbn; rewrite Emax.
    + destruct (total_body_len _) as [d|]; simpl in Hsz; [|lia].
      destruct (Hd d eq_refl). lia.
    + destruct (total_body_len _) as [d|]; simpl in Hsz; [|lia].
      destruct (Hd d eq_refl). lia.
    + intros d Ed. unfold declared_total in Ed. simpl in Ed. rewrite Ed in Hsz. simpl in Hsz.
      destruct (Hd d Ed). lia.
  - rewrite map_sum_insert by done. unfold budget_bound in *. rewrite Eb.
    replace (pa_buffered_bytes _) with (saturating_add usize_max (len (input_body input))
      (len (input_metadata input))) by (unfold pa_buffered_bytes, saturating_add; simpl; lia).
    by rewrite Z.add_comm.
Qed.

Lemma extend_bytes p h body :
  pa_buffered_bytes (extend p h body) <= pa_buffered_bytes p + len body.
Proof.
  unfold pa_buffered_bytes, extend, saturating_add. simpl. rewrite len_app.
  pose proof (len_nonneg body). lia.
Qed.

Lemma continuation_wf s h body now :
  st_wf s -> st_wf (accept_continuation_frame_at s h body now).1.
Proof.
  intros Hwf. pose proof (continuation_effect s now Hwf h body) as H.
  pose proof (purge_st_wf s now Hwf) as Hwf1. cbv zeta in H.
  destruct (accept_continuation_frame_at s h body now) as [s' [r|e]]; simpl.
  2: { subst s'. destruct (releases e); [by apply with_deleted_wf|done]. }
  set (s1 := (purge_expired_at s now).1) in *.
  assert (st_max_message_size s1 = st_max_message_size s) as Emax by done.
  assert (budgets s1 = budgets s) as Eb by done. clearbody s1.
  destruct H as (p & Hp & He & Hlen & Hsz & Hb & Hd & H). destruct (cf_is_last h) eqn:Hl.
  { destruct H as [-> _]. by apply with_deleted_wf. }
  destruct H as (-> & _). destruct (stw_assemblies _ Hwf1 _ _ Hp) as [W1 W2 W3 W4 W5].
  apply with_assemblies_wf; [done| |].
  - apply map_Forall_insert_2; [|apply Hwf1]. split; try done; cbn; rewrite ?len_app, ?Emax.
    + done.
    + intros d Ed. change (declared_total p = Some d) in Ed. specialize (Hd d Ed).
      destruct (W5 d Ed). lia.
  - rewrite (map_sum_update _ _ _ p) by done. pose proof (extend_bytes p h body).
    unfold budget_bound in *. rewrite Eb. destruct Hb as [B1 B2].
    split; intros l El; [specialize (B1 l El)|specialize (B2 l El)]; lia.
Qed.

(** ** Sequences of operations *)

Inductive assembly_op : Type :=
  | OpFirst (input : FirstFrameInput) (now : Z)
  | OpContinuation (h : ContinuationFrameHeader) (body : list Z) (now : Z)
  | OpPurge (now : Z).

Definition apply_op (s : MessageAssemblyState) (op : assembly_op) :
    MessageAssemblyState * result (option AssembledMessage) MessageAssemblyError :=
  match op with
  | OpFirst input now => accept_first_frame_at s input now
  | OpContinuation h body now => accept_continuation_frame_at s h body now
  | OpPurge now => ((purge_expired_at s now).1, Ok None)
  end.

Lemma apply_op_wf s op : st_wf s -> st_wf (apply_op s op).1.
Proof.
  intros. destruct op; [by apply first_frame_wf|by apply continuation_wf|by apply purge_st_wf].
Qed.

Lemma apply_op_config s op : st_wf s -> same_config s (apply_op s op).1.
Proof.
  intros Hwf. destruct op as [input now|h body now|now]; simpl; [| |done].
  - pose proof (first_frame_effect s now Hwf input) as H. cbv zeta in H.
    destruct (accept_first_frame_at s input now) as [s' [r|e]]; simpl; [|by subst].
    destruct H as (_ & _ & _ & H). destruct (ff_is_last _); by destruct H as [-> _].
  - pose proof (continuation_effect s now Hwf h body) as H. cbv zeta in H.
    destruct (accept_continuation_frame_at s h body now) as [s' [r|e]]; simpl.
    + destruct H as (p & _ & _ & _ & _ & _ & _ & H). destruct (cf_is_last h); by destruct H as [-> _].
    + subst s'. by destruct (releases e).
Qed.

Lemma with_budgets_wf max_size timeout connection in_flight :
  limits_ok (with_budgets max_size timeout connection in_flight) ->
  st_wf (with_budgets max_size timeout connection in_flight).
Proof.
  intros Hl. split; [done|apply map_Forall_empty| |]; simpl; intros l E;
    rewrite map_sum_empty; destruct Hl as (_ & H1 & H2);
    [specialize (H1 l E)|specialize (H2 l E)]; lia.
Qed.

Lemma run_wf s ops : st_wf s -> st_wf (run apply_op s ops).1.
Proof. apply run_invariant. intros. by apply apply_op_wf. Qed.

Lemma run_config s ops : st_wf s -> same_config s (run apply_op s ops).1.
Proof.
  revert s. induction ops as [|op ops IH]; intros s Hwf; [done|]. simpl.
  pose proof (apply_op_wf s op Hwf) as Hwf1. pose proof (apply_op_config s op Hwf) as Hc.
  destruct (apply_op s op) as [s1 o]. simpl in *. specialize (IH s1 Hwf1).
  destruct (run apply_op s1 ops) as [s2 os]. simpl in *. unfold same_config in *.
  intuition congruence.
Qed.
