(* ===== verification/AssemblyCorrectness.v ===== *)
(** * Correctness of message assembly

    What [MessageAssemblyState] ([MessageAssembly]) guarantees over whole
    sequences of frames: limits, fidelity of what is delivered, completion of
    well-formed messages, and what a refused frame does to the others. *)

From S2P Require Import Prelude.
From S2P Require Import MessageSeries.
From S2P Require Import MessageAssembly.
Open Scope rust_scope.

(** ** Limits *)

(** The total that was declared for the message a frame belongs to. *)
Definition declaration (s : MessageAssemblyState) (op : assembly_op) : option Z :=
  match op with
  | OpFirst input _ => total_body_len (input_header input)
  | OpContinuation h _ _ => p ← assemblies s !! cf_message_key h; declared_total p
  | OpPurge _ => None
  end.

Lemma purged_lookup s now key p :
  assemblies (purge_expired_at s now).1 !! key = Some p -> assemblies s !! key = Some p.
Proof.
  rewrite purge_lookup. destruct (assemblies s !! key); [|done]. simpl. case_decide; [done|]. by intros [= ->].
Qed.

(** What is delivered keeps the limit and is as long as was declared. *)
Lemma delivered_as_declared s op msg :
  st_wf s -> (apply_op s op).2 = Ok (Some msg) ->
  len (assembled_body msg) <= st_max_message_size s
  /\ forall d, declaration s op = Some d -> len (assembled_body msg) = d.
Proof.
  intros Hwf Hm. destruct op as [input now|h body now|now]; [| |done]; simpl in Hm.
  - pose proof (first_frame_effect s now Hwf input) as H. cbv zeta in H.
    destruct (accept_first_frame_at s input now) as [s' r]. simpl in Hm. subst r.
    destruct H as (_ & Hsz & Hd & H). destruct (ff_is_last _); [|by destruct H as (_ & ? & _)].
    destruct H as [_ [= ->]]. simpl. pose proof (len_nonneg (input_metadata input)).
    destruct (total_body_len _) as [d|]; simpl in Hsz; [|split; [lia|done]].
    destruct (Hd d eq_refl) as [Hle Heq]. split; [lia|]. intros ? [= <-]. by rewrite Heq.
  - pose proof (continuation_effect s now Hwf h body) as H. cbv zeta in H.
    destruct (accept_continuation_frame_at s h body now) as [s' r]. simpl in Hm. subst r.
    destruct H as (p & Hp & _ & _ & Hsz & _ & _ & H).
    destruct (cf_is_last h); [|by destruct H]. destruct H as (_ & [= ->] & Hd).
    simpl. rewrite (purged_lookup _ _ _ _ Hp), len_app. split; [lia|exact Hd].
Qed.

(** C28: Whatever frames arrive, no assembly outgrows the message limit or its
    declared total, the retained bytes stay within each configured aggregate
    budget, and every delivered message is within the limit and exactly as long
    as its first frame declared, if it did. *)
Theorem assembly_limits_hold (max_size timeout : Z) (conn infl : option Z)
    (ops : list assembly_op) :
  let s0 := with_budgets max_size timeout conn infl in
  limits_ok s0 ->
  let s := (run apply_op s0 ops).1 in
  (forall key p, assemblies s !! key = Some p ->
     len (pa_body p) <= max_size /\ len (pa_metadata p) <= max_size
     /\ forall d, declared_total p = Some d -> len (pa_body p) <= d)
  /\ (forall l, conn = Some l -> total_buffered_bytes s <= l)
  /\ (forall l, infl = Some l -> total_buffered_bytes s <= l)
  /\ (forall op msg, (apply_op s op).2 = Ok (Some msg) ->
        len (assembled_body msg) <= max_size
        /\ forall d, declaration s op = Some d -> len (assembled_body msg) = d).
Proof.
  intros s0 Hl s. pose proof (with_budgets_wf _ _ _ _ Hl) as Hwf0.
  pose proof (run_wf s0 ops Hwf0) as Hwf. fold s in Hwf.
  pose proof (run_config s0 ops Hwf0) as (E1 & E2 & E3). fold s in E1, E2, E3.
  clearbody s. simpl in E1, E3.
  assert (forall l, conn = Some l \/ infl = Some l -> total_buffered_bytes s <= l) as Htot.
  { intros l H. rewrite total_exact; [|done|].
    - destruct H; [apply (stw_connection _ Hwf)|apply (stw_in_flight _ Hwf)]; by rewrite E3.
    - rewrite E3. unfold is_enabled. simpl. destruct H as [->| ->]; [done|by rewrite orb_true_r]. }
  split_and!; eauto.
  - intros key p Hp. destruct (stw_assemblies _ Hwf _ _ Hp) as [_ _ W3 W4 W5].
    rewrite E1 in *. split_and!; try done. intros d Hd. by destruct (W5 d Hd).
  - intros op msg Hm. rewrite <-E1. by apply delivered_as_declared.
Qed.

Lemma assembly_limits_hold_witness :
  let s := (run apply_op (with_budgets 16 100 (Some 8) None)
    [OpFirst (mk_FirstFrameInput (mk_FirstFrameHeader 1 1 2 None false)
                (mk_EnvelopeRouting 4 None) [9] [1; 2]) 0;
     OpContinuation (mk_ContinuationFrameHeader 1 (Some 1) 7 false) [1; 2; 3; 4; 5; 6; 7] 1]).1 in
  total_buffered_bytes s <= 8.
Proof.
  apply (proj1 (proj2 (assembly_limits_hold 16 100 (Some 8) None
    [OpFirst (mk_FirstFrameInput (mk_FirstFrameHeader 1 1 2 None false)
                (mk_EnvelopeRouting 4 None) [9] [1; 2]) 0;
     OpContinuation (mk_ContinuationFrameHeader 1 (Some 1) 7 false) [1; 2; 3; 4; 5; 6; 7] 1]
    ltac:(split_and!; [done|done|intros l [= <-]; done|done])))). done.
Defined.

(** ** Fidelity *)

Inductive frame : Type :=
  | FFirst (input : FirstFrameInput)
  | FCont (h : ContinuationFrameHeader) (body : list Z).

Definition frames (ops : list assembly_op) : list frame :=
  omap (fun op => match op with
                  | OpFirst input _ => Some (FFirst input)
                  | OpContinuation h body _ => Some (FCont h body)
                  | OpPurge _ => None
                  end) ops.

Definition message_frames (input : FirstFrameInput)
    (conts : list (ContinuationFrameHeader * list Z)) : list frame :=
  FFirst input :: ((fun c => FCont c.1 c.2) <$> conts).

(** [p] holds exactly a first frame and the continuation frames accepted after
    it, all of them received in this order. *)
Definition accounts_for (hist : list frame) (p : PartialAssembly) (input : FirstFrameInput)
    (conts : list (ContinuationFrameHeader * list Z)) : Prop :=
  message_frames input conts `sublist_of` hist
  /\ pa_routing p = input_routing input /\ pa_metadata p = input_metadata input
  /\ pa_body p = input_body input ++ concat conts.*2
  /\ series_after (input_header input) conts.*1 (pa_series p).

Definition accounted (hist : list frame) (_ : Z) (p : PartialAssembly) : Prop :=
  exists input conts, accounts_for hist p input conts.

Lemma accounts_for_snoc hist p input conts h body :
  accounts_for hist p input conts -> continuation_error (pa_series p) h = None ->
  accounts_for (hist ++ [FCont h body]) (extend p h body) input (conts ++ [(h, body)]).
Proof.
  intros (Hs & Hr & Hm & Hb & Ha) He. split_and!; try done; simpl.
  - unfold message_frames. rewrite fmap_app. rewrite app_comm_cons. by apply sublist_app.
  - rewrite Hb, fmap_app, concat_app. simpl. by rewrite app_nil_r, app_assoc.
  - rewrite fmap_app. by apply series_after_step.
Qed.

Lemma accounted_weaken hist x key p : accounted hist key p -> accounted (hist ++ [x]) key p.
Proof.
  intros (input & conts & Hs & H). exists input, conts. split; [|done].
  etransitivity; [done|]. by apply sublist_inserts_r.
Qed.

Lemma accounted_first hist input now key :
  ff_is_last (input_header input) = false ->
  accounted (hist ++ [FFirst input]) key (PartialAssembly_from_first_frame input now).
Proof.
  intros Hl. exists input, []. split_and!; try done; simpl.
  - by apply sublist_inserts_l.
  - by rewrite app_nil_r.
  - split; try done. { by intros [|? ?] ? ?. } by exists 0%nat, 0, 0%nat.
Qed.

Lemma purge_accounted s hist now :
  map_Forall (accounted hist) (assemblies s) ->
  map_Forall (accounted hist) (assemblies (purge_expired_at s now).1).
Proof.
  intros H key p Hp. rewrite purge_lookup in Hp.
  destruct (assemblies s !! key) as [q|] eqn:E; [|done]. simpl in Hp.
  case_decide; simplify_eq. by eapply H.
Qed.

Lemma accounted_step s hist op :
  st_wf s -> map_Forall (accounted hist) (assemblies s) ->
  map_Forall (accounted (hist ++ frames [op])) (assemblies (apply_op s op).1).
Proof.
  intros Hwf Ha. destruct op as [input now|h body now|now]; cbn [apply_op frames omap list_omap].
  3: { rewrite app_nil_r. by apply purge_accounted. }
  all: pose proof (purge_accounted s hist now Ha) as Hp.
  - pose proof (first_frame_effect s now Hwf input) as H. cbv zeta in H.
    destruct (accept_first_frame_at s input now) as [s' r]. simpl.
    assert (map_Forall (accounted (hist ++ [FFirst input]))
      (assemblies (purge_expired_at s now).1)) as Hold
      by (intros k q Hq; by eapply accounted_weaken, Hp).
    destruct r as [r|e]; [|by subst]. destruct H as (_ & _ & _ & H).
    destruct (ff_is_last (input_header input)) eqn:Hl; destruct H as [-> _]; [done|].
    apply map_Forall_insert_2; [by apply accounted_first|done].
  - pose proof (continuation_effect s now Hwf h body) as H. cbv zeta in H.
    destruct (accept_continuation_frame_at s h body now) as [s' r]. simpl.
    assert (map_Forall (accounted (hist ++ [FCont h body]))
      (assemblies (purge_expired_at s now).1)) as Hold
      by (intros k q Hq; by eapply accounted_weaken, Hp).
    destruct r as [r|e].
    2: { subst s'. destruct (releases e); [by apply map_Forall_delete|done]. }
    destruct H as (p & Hl & He & _ & _ & _ & _ & H).
    destruct (cf_is_last h); destruct H as [-> _]; [by apply map_Forall_delete|].
    apply map_Forall_insert_2; [|done]. destruct (Hp _ _ Hl) as (input & conts & Hac).
    exists input, (conts ++ [(h, body)]). by apply accounts_for_snoc.
Qed.

Lemma run_accounted s ops :
  st_wf s -> assemblies s = ∅ ->
  map_Forall (accounted (frames ops)) (assemblies (run apply_op s ops).1).
Proof.
  intros Hwf He. induction ops as [|op ops IH] using rev_ind; simpl.
  - rewrite He. apply map_Forall_empty.
  - pose proof (run_wf s ops Hwf) as Hw. rewrite run_app.
    destruct (run apply_op s ops) as [s1 os]. simpl in *.
    pose proof (accounted_step s1 (frames ops) op Hw IH) as H.
    destruct (apply_op s1 op) as [s2 o]. simpl in *.
    unfold frames in *. by rewrite omap_app.
Qed.

(** C3: Nothing is fabricated, dropped or reordered: a delivered message has
    the key, routing and metadata of a first frame that was received, and its
    body is that frame's body followed by the bodies of continuation frames
    received after it, in order, with the same key, with consecutive numbers
    where they are numbered, the last of them, and only the last, final.  If a
    total was declared, the body has exactly that length. *)
Theorem assembled_messages_were_sent (max_size timeout : Z) (conn infl : option Z)
    (ops : list assembly_op) (op : assembly_op) (msg : AssembledMessage) :
  let s0 := with_budgets max_size timeout conn infl in
  limits_ok s0 ->
  (apply_op (run apply_op s0 ops).1 op).2 = Ok (Some msg) ->
  exists input conts,
    message_frames input conts `sublist_of` frames (ops ++ [op])
    /\ msg = mk_AssembledMessage (ff_message_key (input_header input)) (input_routing input)
               (input_metadata input) (input_body input ++ concat conts.*2)
    /\ Forall (fun h => cf_message_key h = ff_message_key (input_header input)) conts.*1
    /\ (exists k n m, cf_sequence <$> conts.*1 = numbered k n m)
    /\ ff_is_last (input_header input) :: (cf_is_last <$> conts.*1)
       = replicate (length conts) false ++ [true]
    /\ (forall d, total_body_len (input_header input) = Some d -> len (assembled_body msg) = d).
Proof.
  intros s0 Hl Hm. pose proof (with_budgets_wf _ _ _ _ Hl) as Hwf0.
  pose proof (run_wf s0 ops Hwf0) as Hwf.
  pose proof (run_accounted s0 ops Hwf0 eq_refl) as Ha.
  set (s := (run apply_op s0 ops).1) in *. clearbody s.
  unfold frames in *. rewrite omap_app. fold (frames ops) in *.
  destruct op as [input now|h body now|now]; simpl in Hm; [| |done].
  - pose proof (first_frame_effect s now Hwf input) as H. cbv zeta in H.
    destruct (accept_first_frame_at s input now) as [s' r]. simpl in Hm. subst r.
    destruct H as (_ & _ & Hd & H).
    destruct (ff_is_last (input_header input)) eqn:Hlast; [|by destruct H as (_ & ? & _)].
    destruct H as [_ [= ->]]. exists input, []. simpl. rewrite Hlast, app_nil_r.
    split_and!; try done.
    + by apply sublist_inserts_l.
    + exists 0%nat, 0, 0%nat. done.
    + intros d Ed. destruct (Hd d Ed) as [_ Heq]. by rewrite Heq.
  - pose proof (continuation_effect s now Hwf h body) as H. cbv zeta in H.
    pose proof (purge_accounted s _ now Ha) as Hp.
    destruct (accept_continuation_frame_at s h body now) as [s' r]. simpl in Hm. subst r.
    destruct H as (p & Hlk & He & _ & _ & _ & _ & H).
    destruct (cf_is_last h) eqn:Hlast; [|by destruct H]. destruct H as (_ & [= ->] & Hdecl).
    destruct (Hp _ _ Hlk) as (input & conts & Hac).
    pose proof (accounts_for_snoc _ _ _ _ h body Hac He) as (Hs & Hr & Hmd & Hb & Hsa).
    exists input, (conts ++ [(h, body)]). split_and!; try done.
    + unfold message_of. rewrite Hr, Hmd, Hb. f_equal. apply Hsa.
    + apply Hsa.
    + destruct (sa_order _ _ _ Hsa) as (k & n & m & Hseq & _). eauto.
    + destruct (sa_final _ _ _ Hsa conts.*1 h) as [Hf Hfs]; [by rewrite fmap_app|].
      rewrite Hf, length_app, !fmap_app. simpl. rewrite Hlast. rewrite Nat.add_1_r. simpl.
      do 2 f_equal. clear -Hfs. induction conts as [|c conts IH]; [done|].
      simpl in *. inversion_clear Hfs as [|?? H1 H2]. rewrite H1. f_equal. by apply IH.
    + intros d Ed. simpl. rewrite len_app. apply Hdecl. unfold declared_total.
      destruct Hac as (_ & _ & _ & _ & Hsa0). by rewrite (sa_total _ _ _ Hsa0).
Qed.

Lemma assembled_messages_were_sent_witness :
  let input := mk_FirstFrameInput (mk_FirstFrameHeader 1 1 2 (Some 3) false)
                 (mk_EnvelopeRouting 4 None) [9] [1; 2] in
  let op := OpContinuation (mk_ContinuationFrameHeader 1 (Some 1) 1 true) [3] 1 in
  exists input' conts,
    message_frames input' conts `sublist_of` frames ([OpFirst input 0] ++ [op])
    /\ [1; 2; 3] = input_body input' ++ concat conts.*2.
Proof.
  cbv zeta.
  destruct (assembled_messages_were_sent 16 100 (Some 8) None
    [OpFirst (mk_FirstFrameInput (mk_FirstFrameHeader 1 1 2 (Some 3) false)
                (mk_EnvelopeRouting 4 None) [9] [1; 2]) 0]
    (OpContinuation (mk_ContinuationFrameHeader 1 (Some 1) 1 true) [3] 1)
    (mk_AssembledMessage 1 (mk_EnvelopeRouting 4 None) [9] [1; 2; 3])
    ltac:(split_and!; [done|done|intros l [= <-]; done|done]) ltac:(vm_compute; reflexivity))
    as (input & conts & H1 & H2 & _).
  exists input, conts. split; [exact H1|]. by injection H2.
Defined.

(** ** Completion *)

Definition sequence_ok (d : demand) (seq : option Z) : Prop :=
  match d, seq with
  | Anything, _ => True
  | Exactly n, Some m => m = n
  | _, _ => False
  end.

Definition after (d : demand) (seq : option Z) : demand :=
  match seq with
  | None => d
  | Some n => if decide (n < u32_max) then Exactly (n + 1) else Exhausted
  end.

Fixpoint follows (d : demand) (seqs : list (option Z)) : Prop :=
  match seqs with
  | [] => True
  | q :: seqs => sequence_ok d q /\ follows (after d q) seqs
  end.

Lemma numbered_follows k n m : n + Z.of_nat m <= u32_max + 1 -> follows Anything (numbered k n m).
Proof.
  intros Hm. induction k as [|k IH]; [|by split].
  unfold numbered. simpl. destruct m as [|m]; [done|]. simpl. split; [done|].
  assert (forall i len, n + Z.of_nat (S i) + Z.of_nat len <= u32_max + 1 ->
    follows (after Anything (Some (n + Z.of_nat i)))
      ((fun j => Some (n + Z.of_nat j)) <$> seq (S i) len)) as H.
  { intros i len. revert i. induction len as [|len IH']; intros i Hi; [done|].
    cbn [seq fmap list_fmap follows]. simpl after. rewrite decide_True by lia.
    split; [simpl; lia|]. apply IH'. lia. }
  apply (H 0%nat). lia.
Qed.

Lemma continuation_in_order s h qs :
  cf_message_key h = series_key s -> series_complete s = false ->
  follows (demands s) (cf_sequence h :: qs) -> (cf_is_last h = false -> qs <> []) ->
  continuation_error s h = None.
Proof.
  intros Hk Hc [Hq Hqs] Hl. unfold continuation_error. rewrite decide_False by congruence.
  rewrite Hc. assert (forall n, cf_sequence h = Some n -> overflow_error n (cf_is_last h) = None)
    as Hov.
  { intros n En. unfold overflow_error. apply decide_False. intros [Hn Hf].
    specialize (Hl Hf). destruct qs as [|q qs]; [done|]. rewrite En in Hqs. simpl in Hqs.
    rewrite decide_False in Hqs by lia. by destruct Hqs. }
  destruct (demands s) as [|m|], (cf_sequence h) as [n|]; simpl in Hq; try done; auto.
  subst n. rewrite !decide_False by lia. auto.
Qed.

(** A frame that passes every check is accepted. *)
Lemma continuation_accepted s h body now p :
  st_wf s -> assemblies (purge_expired_at s now).1 !! cf_message_key h = Some p ->
  continuation_error (pa_series p) h = None -> cf_body_len h = len body ->
  len (pa_body p) + len body <= st_max_message_size s ->
  budget_bound s (map_sum pa_buffered_bytes (assemblies (purge_expired_at s now).1) + len body) ->
  (forall d, declared_total p = Some d -> len (pa_body p) + len body <= d
     /\ (cf_is_last h = true -> len (pa_body p) + len body = d)) ->
  accept_continuation_frame_at s h body now
  = let s1 := (purge_expired_at s now).1 in
    if cf_is_last h
    then (with_assemblies s1 (delete (cf_message_key h) (assemblies s1)),
          Ok (Some (message_of (extend p h body))))
    else (with_assemblies s1 (<[cf_message_key h := extend p h body]> (assemblies s1)), Ok None).
Proof.
  intros Hwf Hp He Hlen Hsz Hb Hd. unfold accept_continuation_frame_at.
  pose proof (purge_st_wf s now Hwf) as Hwf1.
  rewrite <- (proj1 (purge_config s now)) in Hsz.
  assert (budget_bound (purge_expired_at s now).1
    (map_sum pa_buffered_bytes (assemblies (purge_expired_at s now).1) + len body)) as Hb' by done.
  set (s1 := (purge_expired_at s now).1) in *. clearbody s1. cbv zeta.
  rewrite decide_False by congruence. rewrite Hp. unfold pa_accept_continuation.
  rewrite accept_continuation_exact, He. cbn [limits_budgets]. fold (gated_total s1).
  set (p1 := mk_PartialAssembly (advanced _ _) _ _ _ _).
  rewrite (proj2 (admit_ok s1 p1 (len body) Hwf1 (len_nonneg body))).
  2: { split_and!; [done|done|]. intros d Ed. by apply Hd. }
  unfold status_of. destruct (cf_is_last h); [|done]. unfold into_message.
  cbn [push_body pa_series p1 advanced expected_total pa_body].
  change (expected_total (pa_series p)) with (declared_total p).
  destruct (declared_total p) as [d|]; [|done]. unfold validate_completion.
  rewrite len_app, decide_False; [done|]. intros Hne. apply Hne. by apply Hd.
Qed.

(** What the receiver holds while a message of the sender is under way, and
    what is left to come. *)
Record expecting (s : MessageAssemblyState) (key t0 : Z) (p : PartialAssembly)
    (rest : list (ContinuationFrameHeader * list Z)) : Prop := {
  ex_wf : st_wf s;
  ex_entry : assemblies s !! key = Some p;
  ex_started : pa_started_at p = t0;
  ex_size : len (pa_body p) + len (concat rest.*2) <= st_max_message_size s;
  ex_budget : budget_bound s (map_sum pa_buffered_bytes (assemblies s) + len (concat rest.*2));
  ex_declared d : declared_total p = Some d -> len (pa_body p) + len (concat rest.*2) = d;
  ex_order : follows (demands (pa_series p)) (cf_sequence <$> rest.*1)
}.

(** The continuation frames of one message, as a sender numbers and flags
    them. *)
Record well_sent (key : Z) (conts : list (ContinuationFrameHeader * list Z)) : Prop := {
  ws_keys : Forall (fun c => cf_message_key c.1 = key) conts;
  ws_lens : Forall (fun c => cf_body_len c.1 = len c.2) conts;
  ws_last : cf_is_last <$> conts.*1 = replicate (length conts - 1) false ++ [true]
}.

Definition feed_frame (s : MessageAssemblyState)
    (ct : (ContinuationFrameHeader * list Z) * Z) :
    MessageAssemblyState * result (option AssembledMessage) MessageAssemblyError :=
  accept_continuation_frame_at s ct.1.1 ct.1.2 ct.2.

Lemma expecting_purge s key t0 p rest now :
  expecting s key t0 p rest -> now - t0 < st_timeout s -> 0 < st_timeout s ->
  expecting (purge_expired_at s now).1 key t0 p rest.
Proof.
  intros [Hwf He Hs Hsz [B1 B2] Hd Ho] Ht Ht0. pose proof (purge_sum_le s now). split; try done.
  - by apply purge_st_wf.
  - rewrite purge_lookup, He. simpl. rewrite decide_False; [done|].
    unfold saturating_duration_since, saturating_sub. lia.
  - split; intros l El; [specialize (B1 l El)|specialize (B2 l El)]; lia.
Qed.

Lemma len_bodies_cons (h : ContinuationFrameHeader) (body : list Z) conts :
  len (concat ((h, body) :: conts).*2) = len body + len (concat conts.*2).
Proof. csimpl. apply len_app. Qed.

Lemma expecting_step s key t0 p h body conts t :
  expecting s key t0 p ((h, body) :: conts) -> t - t0 < st_timeout s -> 0 < st_timeout s ->
  cf_message_key h = key -> cf_body_len h = len body -> cf_is_last h = bool_decide (conts = []) ->
  let '(s', r) := accept_continuation_frame_at s h body t in
  st_timeout s' = st_timeout s
  /\ (if cf_is_last h
      then r = Ok (Some (mk_AssembledMessage key (pa_routing p) (pa_metadata p) (pa_body p ++ body)))
      else r = Ok None /\ expecting s' key t0 (extend p h body) conts).
Proof.
  intros Hex Ht Htm Hk Hl Hlast.
  pose proof (expecting_purge _ _ _ _ _ _ Hex Ht Htm) as [Hwf1 He1 Hst Hsz Hb Hd Ho].
  pose proof (continuation_wf s h body t (ex_wf _ _ _ _ _ Hex)) as Hwf'.
  destruct (stw_assemblies _ Hwf1 _ _ He1) as [W1 W2 _ _ _].
  rewrite len_bodies_cons in Hsz, Hb, Hd.
  change (st_max_message_size (purge_expired_at s t).1) with (st_max_message_size s) in Hsz.
  pose proof (len_nonneg (concat conts.*2)) as Hn. subst key.
  assert (cf_is_last h = true -> len (concat conts.*2) = 0) as Hnil.
  { rewrite Hlast. intros E. apply bool_decide_eq_true in E. by subst conts. }
  revert Hwf'. rewrite (continuation_accepted s h body t p); try done.
  - destruct (cf_is_last h); cbv zeta; cbn [fst].
    { split; [done|]. do 2 f_equal. unfold message_of. simpl. by rewrite W1. }
    intros Hwf'. split_and!; try done. split; try done; simpl.
    + apply lookup_insert_eq.
    + rewrite len_app. lia.
    + rewrite (map_sum_update _ _ _ p) by done. pose proof (extend_bytes p h body).
      destruct Hb as [B1 B2]. split; intros l El;
        [specialize (B1 l El)|specialize (B2 l El)]; simpl in *; lia.
    + intros d Ed. specialize (Hd d Ed). rewrite len_app. lia.
    + rewrite demands_advanced. destruct Ho as [_ Ho].
      unfold after in Ho. simpl in Ho. by destruct (cf_sequence h).
  - apply Hex.
  - eapply continuation_in_order; [congruence|done|exact Ho|].
    rewrite Hlast. intros Hf. apply bool_decide_eq_false in Hf. by destruct conts.
  - lia.
  - destruct Hb as [B1 B2]. split; intros l El; [specialize (B1 l El)|specialize (B2 l El)]; lia.
  - intros d Ed. specialize (Hd d Ed). split; [lia|]. intros E. specialize (Hnil E). lia.
Qed.

Lemma expecting_feed key t0 conts : forall s p ts,
  expecting s key t0 p conts -> well_sent key conts -> length ts = length conts ->
  Forall (fun t => t - t0 < st_timeout s) ts -> 0 < st_timeout s ->
  (run feed_frame s (zip conts ts)).2
  = completion (length conts)
      (mk_AssembledMessage key (pa_routing p) (pa_metadata p) (pa_body p ++ concat conts.*2)).
Proof.
  induction conts as [|[h body] conts IH]; intros s p ts Hex [Hk Hl Hlast] Hlen Hts Htm; [done|].
  destruct ts as [|t ts]; [done|]. inversion_clear Hts as [|?? Ht Hts'].
  inversion_clear Hk as [|?? Hk1 Hk2]. inversion_clear Hl as [|?? Hl1 Hl2]. simpl in Hk1, Hl1.
  assert (cf_is_last h = bool_decide (conts = [])) as Hlh.
  { destruct conts; simpl in Hlast; injection Hlast; intros;
      [by rewrite bool_decide_true|by rewrite bool_decide_false]. }
  pose proof (expecting_step _ _ _ _ _ _ _ t Hex Ht Htm Hk1 Hl1 Hlh) as H.
  cbn [zip zip_with run]. unfold feed_frame at 1. cbn [fst snd].
  destruct (accept_continuation_frame_at s h body t) as [s1 r]. destruct H as [Et H].
  rewrite Hlh in H. destruct conts as [|c conts].
  - simpl in H. subst r. destruct ts; [|done]. unfold completion. simpl. by rewrite app_nil_r.
  - rewrite bool_decide_false in H by done. destruct H as [-> Hex1].
    specialize (IH s1 (extend p h body) ts Hex1). rewrite Et in IH.
    destruct (run feed_frame s1 (zip (c :: conts) ts)) as [s3 outs]. simpl in IH |- *.
    rewrite IH; try done.
    + unfold completion. simpl. by rewrite Nat.sub_0_r, <- app_assoc.
    + split; [done..|]. simpl in Hlast |- *. injection Hlast as _ Hlast.
      by rewrite Nat.sub_0_r in *.
    + simpl in *. lia.
Qed.

Lemma first_frame_accepted s input now :
  let h := input_header input in
  let s1 := (purge_expired_at s now).1 in
  st_wf s -> assemblies s !! ff_message_key h = None -> ff_is_last h = false ->
  default (len (input_body input)) (total_body_len h) + len (input_metadata input)
    <= st_max_message_size s ->
  (forall d, total_body_len h = Some d -> len (input_body input) <= d) ->
  budget_bound s (map_sum pa_buffered_bytes (assemblies s)
                  + (len (input_metadata input) + len (input_body input))) ->
  accept_first_frame_at s input now
  = (with_assemblies s1 (<[ff_message_key h := PartialAssembly_from_first_frame input now]>
                           (assemblies s1)), Ok None).
Proof.
  intros h s1 Hwf Hk Hl Hsz Hd Hb. unfold accept_first_frame_at. fold h s1.
  pose proof (purge_st_wf s now Hwf) as Hwf1. fold s1 in Hwf1.
  pose proof (purge_sum_le s now) as Hle. fold s1 in Hle.
  pose proof (stw_limits _ Hwf) as (Hmax & _).
  rewrite bool_decide_false.
  2: { unfold s1. rewrite purge_lookup, Hk. by intros [? ?]. }
  assert (validate_first_frame h (len (input_body input)) = Ok tt) as ->.
  { unfold validate_first_frame. rewrite Hl. destruct (total_body_len h) as [d|]; [|done].
    specialize (Hd d eq_refl). rewrite decide_False by lia. by rewrite decide_False by (by intros [? _]). }
  assert (st_max_message_size s1 = st_max_message_size s) as Emax by done.
  rewrite decide_False by (unfold saturating_add; lia). rewrite Hl.
  pose proof (proj2 (gated_check s1 (ff_message_key h)
    (saturating_add usize_max (len (input_body input)) (len (input_metadata input))) Hwf1)) as ->;
    [done|].
  destruct Hb as [B1 B2]. unfold saturating_add.
  split; intros l El; [specialize (B1 l El)|specialize (B2 l El)]; lia.
Qed.

(** A message that is sent properly is received whole. *)
Lemma well_sent_delivers (s : MessageAssemblyState) (input : FirstFrameInput)
    (conts : list (ContinuationFrameHeader * list Z)) (k m : nat) (n t0 : Z) (ts : list Z) :
  let h := input_header input in
  let total := len (input_body input) + len (concat conts.*2) in
  st_wf s -> 0 < st_timeout s ->
  assemblies s !! ff_message_key h = None -> ff_is_last h = false ->
  well_sent (ff_message_key h) conts ->
  cf_sequence <$> conts.*1 = numbered k n m -> n + Z.of_nat m <= u32_max + 1 ->
  (forall d, total_body_len h = Some d -> d = total) ->
  total + len (input_metadata input) <= st_max_message_size s ->
  budget_bound s (map_sum pa_buffered_bytes (assemblies s) + (len (input_metadata input) + total)) ->
  length ts = length conts -> Forall (fun t => t - t0 < st_timeout s) ts ->
  let '(s1, r) := accept_first_frame_at s input t0 in
  r = Ok None
  /\ (run feed_frame s1 (zip conts ts)).2
     = completion (length conts)
         (mk_AssembledMessage (ff_message_key h) (input_routing input) (input_metadata input)
            (input_body input ++ concat conts.*2)).
Proof.
  intros h total Hwf Htm Hk Hl Hws Hseq Hn Hd Hsz Hb Hlen Hts.
  pose proof (len_nonneg (concat conts.*2)) as Hc.
  pose proof (len_nonneg (input_metadata input)) as Hmd.
  pose proof (first_frame_wf s input t0 Hwf) as Hwf'.
  revert Hwf'. rewrite first_frame_accepted; fold h; try done.
  - cbn [fst]. intros Hwf'. split; [done|].
    set (p := PartialAssembly_from_first_frame input t0) in *.
    apply (expecting_feed (ff_message_key h) t0 conts _ p); try done.
    split; try done; cbn [with_assemblies assemblies].
    + apply lookup_insert_eq.
    + simpl. fold total. lia.
    + pose proof (purge_sum_le s t0). rewrite map_sum_insert by (by rewrite purge_lookup, Hk).
      assert (pa_buffered_bytes p <= len (input_metadata input) + len (input_body input))
        by (unfold pa_buffered_bytes, saturating_add, p; simpl; lia).
      destruct Hb as [B1 B2]. unfold total in *.
      split; intros l El; [specialize (B1 l El)|specialize (B2 l El)]; lia.
    + intros d Ed. simpl. fold total. symmetry. by apply Hd.
    + rewrite Hseq. by apply numbered_follows.
  - destruct (total_body_len h) as [d|]; simpl; [rewrite (Hd d eq_refl)|unfold total in *]; lia.
  - intros d Ed. rewrite (Hd d Ed). unfold total. lia.
  - destruct Hb as [B1 B2]. unfold total in *.
    split; intros l El; [specialize (B1 l El)|specialize (B2 l El)]; lia.
Qed.

(** C14: A message that is sent properly arrives: when a first frame and its
    continuation frames, numbered consecutively or not at all, are delivered
    in order before the timeout to a receiver with room for them, every frame
    is accepted and the last one delivers the message, whatever other
    assemblies the receiver holds or evicts meanwhile. *)
Theorem well_sent_message_delivered (s : MessageAssemblyState) (input : FirstFrameInput)
    (conts : list (ContinuationFrameHeader * list Z)) (k m : nat) (n t0 : Z) (ts : list Z) :
  let h := input_header input in
  let total := len (input_body input) + len (concat conts.*2) in
  st_wf s -> 0 < st_timeout s ->
  assemblies s !! ff_message_key h = None -> ff_is_last h = false ->
  well_sent (ff_message_key h) conts ->
  cf_sequence <$> conts.*1 = numbered k n m -> n + Z.of_nat m <= u32_max + 1 ->
  (forall d, total_body_len h = Some d -> d = total) ->
  total + len (input_metadata input) <= st_max_message_size s ->
  budget_bound s (map_sum pa_buffered_bytes (assemblies s) + (len (input_metadata input) + total)) ->
  length ts = length conts -> Forall (fun t => t - t0 < st_timeout s) ts ->
  let '(s1, r) := accept_first_frame_at s input t0 in
  r = Ok None
  /\ (run feed_frame s1 (zip conts ts)).2
     = completion (length conts)
         (mk_AssembledMessage (ff_message_key h) (input_routing input) (input_metadata input)
            (input_body input ++ concat conts.*2)).
Proof. apply well_sent_delivers. Qed.

Lemma well_sent_message_delivered_witness :
  let input := mk_FirstFrameInput (mk_FirstFrameHeader 1 1 2 (Some 5) false)
                 (mk_EnvelopeRouting 4 None) [9] [1; 2] in
  let conts := [(mk_ContinuationFrameHeader 1 (Some 7) 1 false, [3]);
                (mk_ContinuationFrameHeader 1 (Some 8) 2 true, [4; 5])] in
  let '(s1, r) := accept_first_frame_at (with_budgets 16 100 (Some 8) None) input 0 in
  r = Ok None
  /\ (run feed_frame s1 (zip conts [5; 6])).2
     = completion 2 (mk_AssembledMessage 1 (mk_EnvelopeRouting 4 None) [9] [1; 2; 3; 4; 5]).
Proof.
  apply (well_sent_message_delivered (with_budgets 16 100 (Some 8) None)
    (mk_FirstFrameInput (mk_FirstFrameHeader 1 1 2 (Some 5) false)
       (mk_EnvelopeRouting 4 None) [9] [1; 2])
    [(mk_ContinuationFrameHeader 1 (Some 7) 1 false, [3]);
     (mk_ContinuationFrameHeader 1 (Some 8) 2 true, [4; 5])] 0 2 7 0 [5; 6]); try reflexivity.
  - apply with_budgets_wf. split_and!; [done|done|intros l [= <-]; done|done].
  - split; [repeat constructor|repeat constructor|reflexivity].
  - vm_compute. congruence.
  - intros d [= <-]. reflexivity.
  - vm_compute. congruence.
  - split; [|done]. intros l [= <-]. vm_compute. congruence.
  - repeat constructor.
Defined.

(** ** Refusals *)

(** Messages do not interfere: a frame changes no other message's
    assembly, beyond evicting the expired ones; a refused first frame changes
    nothing at all, and a refused continuation frame either leaves its message
    as it was (a duplicate, a gap, a wrong length) or releases it. *)
Theorem refusals_are_contained (s : MessageAssemblyState) (op : assembly_op) (now key : Z) :
  st_wf s ->
  match op with
  | OpFirst input t => t = now /\ key = ff_message_key (input_header input)
  | OpContinuation h _ t => t = now /\ key = cf_message_key h
  | OpPurge t => t = now
  end ->
  let s1 := (purge_expired_at s now).1 in
  let '(s', r) := apply_op s op in
  (forall key', key' <> key -> assemblies s' !! key' = assemblies s1 !! key')
  /\ (forall e, r = Err e ->
      match op with
      | OpContinuation _ _ _ =>
          assemblies s' !! key = if releases e then None else assemblies s1 !! key
      | _ => s' = s1
      end).
Proof.
  intros Hwf Hop s1. destruct op as [input t|h body t|t]; cbn [apply_op].
  - destruct Hop as [-> ->]. pose proof (first_frame_effect s now Hwf input) as H. cbv zeta in H.
    destruct (accept_first_frame_at s input now) as [s' [r|e]]; [|by split; intros; subst].
    split; [|done]. intros key' Hne. destruct H as (_ & _ & _ & H).
    destruct (ff_is_last _); destruct H as [-> _]; [done|]. simpl. by rewrite lookup_insert_ne.
  - destruct Hop as [-> ->]. pose proof (continuation_effect s now Hwf h body) as H. cbv zeta in H.
    destruct (accept_continuation_frame_at s h body now) as [s' [r|e]].
    + split; [|done]. intros key' Hne. destruct H as (p & _ & _ & _ & _ & _ & _ & H).
      destruct (cf_is_last h); destruct H as [-> _]; simpl;
        [by rewrite lookup_delete_ne|by rewrite lookup_insert_ne].
    + subst s'. split; [intros key' Hne|intros ? [= <-]]; destruct (releases e); try done; simpl.
      * by rewrite lookup_delete_ne.
      * apply lookup_delete_eq.
  - by subst t.
Qed.

Lemma refusals_are_contained_witness :
  let s := with_budgets 16 100 (Some 8) None in
  let '(s', r) := apply_op s (OpContinuation (mk_ContinuationFrameHeader 1 None 1 true) [3] 1) in
  forall key', key' <> 1 -> assemblies s' !! key' = assemblies (purge_expired_at s 1).1 !! key'.
Proof.
  pose proof (refusals_are_contained (with_budgets 16 100 (Some 8) None)
    (OpContinuation (mk_ContinuationFrameHeader 1 None 1 true) [3] 1) 1 1
    ltac:(apply with_budgets_wf; split_and!; [done|done|intros l [= <-]; done|done])
    ltac:(done)) as H.
  cbv zeta in *. destruct (apply_op _ _). exact (proj1 H).
Defined.

(** A continuation frame whose body does not have the length its header
    declares is classified as unrecoverable, but it is refused before the
    classification is consulted: the assembly is kept. *)
Theorem wrong_length_keeps_assembly (s : MessageAssemblyState) (h : ContinuationFrameHeader)
    (body : list Z) (now : Z) :
  cf_body_len h <> len body ->
  let e := ContinuationBodyLengthMismatch (cf_message_key h) (cf_body_len h) (len body) in
  is_unrecoverable_continuity_error e = true
  /\ accept_continuation_frame_at s h body now = ((purge_expired_at s now).1, Err (Series e)).
Proof.
  intros Hne e. split; [done|]. unfold accept_continuation_frame_at.
  by rewrite decide_True.
Qed.

Lemma wrong_length_keeps_assembly_witness :
  accept_continuation_frame_at (with_budgets 16 100 None None)
    (mk_ContinuationFrameHeader 1 None 2 true) [3] 1
  = ((purge_expired_at (with_budgets 16 100 None None) 1).1,
     Err (Series (ContinuationBodyLengthMismatch 1 2 1))).
Proof.
  exact (proj2 (wrong_length_keeps_assembly (with_budgets 16 100 None None)
    (mk_ContinuationFrameHeader 1 None 2 true) [3] 1 ltac:(discriminate))).
Defined.

(** The size limit counts metadata only with the first frame: an undeclared
    message whose metadata and body together exceed it is delivered. *)
Example metadata_is_counted_once :
  let input := mk_FirstFrameInput (mk_FirstFrameHeader 1 3 1 None false)
                 (mk_EnvelopeRouting 4 None) [7; 8; 9] [1] in
  (run apply_op (with_budgets 4 100 None None)
     [OpFirst input 0; OpContinuation (mk_ContinuationFrameHeader 1 None 3 true) [2; 3; 4] 1]).2
  = [Ok None;
     Ok (Some (mk_AssembledMessage 1 (mk_EnvelopeRouting 4 None) [7; 8; 9] [1; 2; 3; 4]))].
Proof. vm_compute. reflexivity. Qed.
