(* ===== verification/Budgets.v ===== *)
(** * Memory budgets and back-pressure

    [src/src/app/memory_budgets.rs], [builder_defaults.rs] and
    [frame_handling/backpressure.rs], with [clamp_frame_length] of
    [src/src/codec/mod.rs]: the byte caps of one connection, the defaults
    derived from the codec's frame length, and the decision to go on reading,
    to pause, or to abort.

    A [BudgetBytes] is its number of bytes; durations are in milliseconds. *)

From S2P Require Import Prelude.
From S2P Require Import Fragment.
From S2P Require Import FragmentPayload.
From S2P Require Import MessageSeries.
From S2P Require Import MessageAssembly.
Open Scope rust_scope.

(** ** [codec/mod.rs] *)

Definition MIN_FRAME_LENGTH : Z := 64.
Definition MAX_FRAME_LENGTH : Z := 16 * 1024 * 1024.

Definition clamp_frame_length (value : Z) : Z :=
  if decide (value < MIN_FRAME_LENGTH) then MIN_FRAME_LENGTH
  else if decide (MAX_FRAME_LENGTH < value) then MAX_FRAME_LENGTH else value.

(** ** [memory_budgets.rs] *)

Record MemoryBudgets : Type := mk_MemoryBudgets {
  bytes_per_message : Z;
  bytes_per_connection : Z;
  bytes_in_flight : Z
}.

(** ** [builder_defaults.rs] *)

Definition DEFAULT_FRAGMENT_TIMEOUT : Z := 30000.
Definition DEFAULT_MESSAGE_SIZE_MULTIPLIER : Z := 16.
Definition DEFAULT_MESSAGE_BUDGET_MULTIPLIER : Z := DEFAULT_MESSAGE_SIZE_MULTIPLIER.
Definition DEFAULT_CONNECTION_BUDGET_MULTIPLIER : Z := 64.
Definition DEFAULT_IN_FLIGHT_BUDGET_MULTIPLIER : Z := 64.

(** The outer [None] is the panic of [fragment_overhead]. *)
Definition default_fragmentation {C : Bincode} (frame_budget : Z) :
    option (option FragmentationConfig) :=
  let clamped_frame_budget := clamp_frame_length frame_budget in
  let max_message :=
    match NonZeroUsize_new
            (saturating_mul usize_max clamped_frame_budget DEFAULT_MESSAGE_SIZE_MULTIPLIER) with
    | Some m => Some m
    | None => NonZeroUsize_new clamped_frame_budget
    end in
  match max_message with
  | None => Some None
  | Some limit => for_frame_budget clamped_frame_budget limit DEFAULT_FRAGMENT_TIMEOUT
  end.

Definition derive_budget (frame_budget multiplier : Z) : Z :=
  default 1 (NonZeroUsize_new (saturating_mul usize_max frame_budget multiplier)).

Definition default_memory_budgets (frame_budget : Z) : MemoryBudgets :=
  let clamped_frame_budget := clamp_frame_length frame_budget in
  mk_MemoryBudgets
    (derive_budget clamped_frame_budget DEFAULT_MESSAGE_BUDGET_MULTIPLIER)
    (derive_budget clamped_frame_budget DEFAULT_CONNECTION_BUDGET_MULTIPLIER)
    (derive_budget clamped_frame_budget DEFAULT_IN_FLIGHT_BUDGET_MULTIPLIER).

(** ** [backpressure.rs] *)

Definition SOFT_LIMIT_NUMERATOR : Z := 4.
Definition SOFT_LIMIT_DENOMINATOR : Z := 5.
Definition SOFT_LIMIT_PAUSE_DURATION : Z := 5.

Inductive MemoryPressureAction : Type :=
  | Continue
  | Pause (duration : Z)
  | AbortConnection.

Definition active_aggregate_limit_bytes (budgets : MemoryBudgets) : Z :=
  Z.min (bytes_per_connection budgets) (bytes_in_flight budgets).

Definition resolve_effective_budgets (explicit : option MemoryBudgets) (frame_budget : Z) :
    MemoryBudgets :=
  default (default_memory_budgets frame_budget) explicit.

Definition is_at_or_above_soft_limit (buffered_bytes aggregate_limit : Z) : bool :=
  let lhs := saturating_mul u128_max buffered_bytes SOFT_LIMIT_DENOMINATOR in
  let rhs := saturating_mul u128_max aggregate_limit SOFT_LIMIT_NUMERATOR in
  bool_decide (rhs <= lhs).

Definition pressure_bytes (state : option MessageAssemblyState) (fragment_bytes : Z) : Z :=
  saturating_add usize_max
    (match state with Some s => total_buffered_bytes s | None => 0 end) fragment_bytes.

Definition has_hard_cap_been_breached (state : option MessageAssemblyState)
    (budgets : option MemoryBudgets) (fragment_bytes : Z) : bool :=
  match budgets with
  | None => false
  | Some memory_budgets =>
      let buffered_bytes := pressure_bytes state fragment_bytes in
      let aggregate_limit := active_aggregate_limit_bytes memory_budgets in
      bool_decide (aggregate_limit < buffered_bytes)
  end.

Definition should_pause_inbound_reads (state : option MessageAssemblyState)
    (budgets : option MemoryBudgets) (fragment_bytes : Z) : bool :=
  match budgets with
  | None => false
  | Some memory_budgets =>
      let buffered_bytes := pressure_bytes state fragment_bytes in
      let aggregate_limit := active_aggregate_limit_bytes memory_budgets in
      is_at_or_above_soft_limit buffered_bytes aggregate_limit
  end.

Definition evaluate_memory_pressure (state : option MessageAssemblyState)
    (budgets : option MemoryBudgets) (fragment_bytes : Z) : MemoryPressureAction :=
  if has_hard_cap_been_breached state budgets fragment_bytes then AbortConnection
  else if should_pause_inbound_reads state budgets fragment_bytes
  then Pause SOFT_LIMIT_PAUSE_DURATION
  else Continue.

(** The sleep has no effect on the state; [purge] is the caller's closure. *)
Definition apply_memory_pressure {S : Type} (action : MemoryPressureAction) (purge : S -> S)
    (s : S) : S * result unit io_error :=
  match action with
  | AbortConnection =>
      (s, Err (mk_io_error InvalidData "per-connection memory budget hard cap exceeded"))
  | Pause _ => (purge s, Ok tt)
  | Continue => (s, Ok tt)
  end.

(** ** [frame_handling/assembly.rs]: the state of a new connection *)

Definition DEFAULT_MESSAGE_ASSEMBLY_TIMEOUT : Z := 30000.

Definition new_message_assembly_state {C : Bincode} (fragmentation : option FragmentationConfig)
    (frame_budget : Z) (memory_budgets : option MemoryBudgets) : option MessageAssemblyState :=
  config ← match fragmentation with
           | Some cfg => Some (Some cfg)
           | None => default_fragmentation frame_budget
           end;
  let frag_max :=
    match config with
    | Some cfg => config_max_message_size cfg
    | None => default 1 (NonZeroUsize_new (clamp_frame_length frame_budget))
    end in
  let timeout :=
    match config with
    | Some cfg => reassembly_timeout cfg
    | None => DEFAULT_MESSAGE_ASSEMBLY_TIMEOUT
    end in
  Some match memory_budgets with
       | None => MessageAssemblyState_new frag_max timeout
       | Some budgets =>
           let per_message := bytes_per_message budgets in
           let max_message_size := Z.min frag_max per_message in
           with_budgets max_message_size timeout
             (Some (bytes_per_connection budgets)) (Some (bytes_in_flight budgets))
       end.

(** ** Lemmas *)

Lemma clamp_range v : MIN_FRAME_LENGTH <= clamp_frame_length v <= MAX_FRAME_LENGTH.
Proof.
  unfold clamp_frame_length, MIN_FRAME_LENGTH, MAX_FRAME_LENGTH. repeat case_decide; lia.
Qed.

Lemma derive_budget_exact f m :
  MIN_FRAME_LENGTH <= f <= MAX_FRAME_LENGTH -> 1 <= m <= 64 -> derive_budget f m = f * m.
Proof.
  unfold derive_budget, NonZeroUsize_new, saturating_mul, MIN_FRAME_LENGTH, MAX_FRAME_LENGTH,
    usize_max, u64_max. intros Hf Hm.
  assert (64 * 1 <= f * m) by (apply Z.mul_le_mono_nonneg; lia).
  assert (f * m <= 16 * 1024 * 1024 * 64) by (apply Z.mul_le_mono_nonneg; lia).
  case_decide; simpl; lia.
Qed.

Lemma soft_limit_exact b l :
  0 <= b <= usize_max -> 0 <= l <= usize_max ->
  is_at_or_above_soft_limit b l = bool_decide (4 * l <= 5 * b).
Proof.
  intros Hb Hl. unfold is_at_or_above_soft_limit, saturating_mul, SOFT_LIMIT_NUMERATOR,
    SOFT_LIMIT_DENOMINATOR, u128_max, usize_max, u64_max in *.
  apply bool_decide_ext. lia.
Qed.

Lemma pressure_bytes_range state n : 0 <= n -> 0 <= pressure_bytes state n <= usize_max.
Proof.
  intros Hn. unfold pressure_bytes, saturating_add. unfold usize_max, u64_max in *.
  assert (0 <= match state with Some s => total_buffered_bytes s | None => 0 end).
  { destruct state as [s|]; [|lia]. unfold total_buffered_bytes.
    apply Z.mod_pos_bound. unfold usize_max, u64_max. lia. }
  lia.
Qed.

(** ** Properties *)

(** The pressure decision is exact: the connection aborts when the
    retained bytes exceed the smaller of the two aggregate budgets, pauses when
    they are between four fifths of it and the budget itself, and goes on
    otherwise; the comparison does not overflow. *)
Theorem memory_pressure_exact (state : option MessageAssemblyState) (budgets : MemoryBudgets)
    (fragment_bytes : Z) :
  0 <= fragment_bytes ->
  0 <= bytes_per_connection budgets <= usize_max -> 0 <= bytes_in_flight budgets <= usize_max ->
  let total := pressure_bytes state fragment_bytes in
  let limit := Z.min (bytes_per_connection budgets) (bytes_in_flight budgets) in
  match evaluate_memory_pressure state (Some budgets) fragment_bytes with
  | AbortConnection => limit < total
  | Pause d => d = SOFT_LIMIT_PAUSE_DURATION /\ total <= limit /\ 4 * limit <= 5 * total
  | Continue => 5 * total < 4 * limit
  end
  /\ evaluate_memory_pressure state None fragment_bytes = Continue.
Proof.
  intros Hf Hc Hi total limit. split; [|done].
  pose proof (pressure_bytes_range state fragment_bytes Hf) as Ht. fold total in Ht.
  unfold evaluate_memory_pressure, has_hard_cap_been_breached, should_pause_inbound_reads,
    active_aggregate_limit_bytes. fold total limit.
  case_bool_decide; [done|]. rewrite soft_limit_exact by lia. case_bool_decide; lia.
Qed.

Lemma memory_pressure_exact_witness :
  let budgets := mk_MemoryBudgets 100 1000 800 in
  evaluate_memory_pressure None None 700 = Continue
  /\ match evaluate_memory_pressure None (Some budgets) 700 with
     | Pause d => d = 5 /\ 700 <= 800 /\ 4 * 800 <= 5 * 700
     | _ => False
     end.
Proof.
  pose proof (memory_pressure_exact None (mk_MemoryBudgets 100 1000 800) 700 ltac:(done)
    ltac:(vm_compute; split; congruence) ltac:(vm_compute; split; congruence)) as H.
  split; [exact (proj2 H)|exact (proj1 H)].
Defined.

(** The defaults are consistent: for every frame length a codec may ask
    for, the derived budgets do not saturate, a message of the default maximum
    size fits its budget and the aggregate ones, fragmentation is available,
    and its message limit is the per-message budget. *)
Theorem default_budgets_consistent {C : Bincode} {CL : BincodeLaws C} (frame_budget : Z) :
  let b := default_memory_budgets frame_budget in
  let f := clamp_frame_length frame_budget in
  bytes_per_message b = 16 * f
  /\ bytes_per_connection b = 64 * f /\ bytes_in_flight b = 64 * f
  /\ exists cfg, default_fragmentation frame_budget = Some (Some cfg)
     /\ config_max_message_size cfg = bytes_per_message b
     /\ config_max_buffered_bytes cfg = Some (bytes_per_connection b)
     /\ config_max_concurrent_partials cfg = Some 64
     /\ fragment_payload_cap cfg = f - 41.
Proof.
  intros b f. pose proof (clamp_range frame_budget) as Hf. fold f in Hf.
  unfold b, default_memory_budgets. fold f. cbn [bytes_per_message bytes_per_connection bytes_in_flight].
  rewrite !derive_budget_exact by
    (first [done|unfold DEFAULT_MESSAGE_BUDGET_MULTIPLIER, DEFAULT_MESSAGE_SIZE_MULTIPLIER,
       DEFAULT_CONNECTION_BUDGET_MULTIPLIER, DEFAULT_IN_FLIGHT_BUDGET_MULTIPLIER; lia]).
  unfold DEFAULT_MESSAGE_BUDGET_MULTIPLIER, DEFAULT_MESSAGE_SIZE_MULTIPLIER,
    DEFAULT_CONNECTION_BUDGET_MULTIPLIER, DEFAULT_IN_FLIGHT_BUDGET_MULTIPLIER.
  split_and!; [lia..|]. unfold MIN_FRAME_LENGTH, MAX_FRAME_LENGTH in Hf.
  unfold default_fragmentation, for_frame_budget. fold f. rewrite fragment_overhead_eq.
  unfold NonZeroUsize_new, saturating_mul, saturating_sub, DEFAULT_MESSAGE_SIZE_MULTIPLIER,
    ENVELOPE_GUARD_BYTES, DEFAULT_MAX_CONCURRENT_PARTIALS,
    DEFAULT_FRAGMENT_BUFFERED_BYTES_MULTIPLIER.
  rewrite (Z.min_r usize_max (f * 16)) by (unfold usize_max, u64_max; lia).
  rewrite (decide_False (P := f * 16 = 0)) by lia. cbn [mbind option_bind].
  rewrite (decide_False (P := f <= 9)) by lia.
  rewrite (Z.max_r 0 (f - (9 + 32))) by lia. rewrite !(decide_False (P := f - (9 + 32) = 0)) by lia.
  eexists. split; [done|]. cbn.
  rewrite (Z.min_r usize_max (f * 64)) by (unfold usize_max, u64_max; lia).
  rewrite (Z.max_l (f * 64)) by lia. rewrite Z.min_r by lia. rewrite decide_False by lia.
  split_and!; [done|done|done|lia].
Qed.

Lemma default_budgets_consistent_witness :
  exists cfg, default_fragmentation (C := varint_bincode) 1024 = Some (Some cfg)
    /\ fragment_payload_cap cfg = 983.
Proof.
  destruct (@default_budgets_consistent varint_bincode varint_bincode_laws 1024)
    as (_ & _ & _ & cfg & H1 & _ & _ & _ & H2).
  exists cfg. exact (conj H1 H2).
Defined.
