(* ===== verification/Inbound.v ===== *)
(** * The application's inbound pipeline

    [src/src/app/frame_handling/] ([core.rs], [decode.rs], [reassembly.rs],
    [assembly.rs], [response.rs]), [codec_driver.rs], [outbound_encoding.rs],
    [inbound_handler/] and the types of [src/src/middleware.rs]: how one
    connection turns the frames it reads into dispatched envelopes and
    handler responses into frames it writes.

    What the application supplies is abstract: [Externals] holds the serializer
    and the frame codec (pure, as their traits take [&self] and the code only
    relies on their results), the header parser of the message assembler, and
    three functions with effects on a [World]: [wrap_payload] (codecs keep
    counters), [before_send] (the protocol hook) and [send] (the transport).
    Handlers are functions on the [World] too.  The clock is read where the
    code calls [Instant::now]; [Readings] holds the readings of one iteration
    of the read loop, in their order.

    [None] is a panic (an exhausted message counter). *)

From S2P Require Import Prelude.
From S2P Require Import ByteOrder.
From S2P Require Import Envelope.
From S2P Require Import Fragment.
From S2P Require Import Fragmenter.
From S2P Require Import Reassembler.
From S2P Require Import FragmentPayload.
From S2P Require Import FragmentAdapter.
From S2P Require Import MessageSeries.
From S2P Require Import MessageAssembly.
From S2P Require Import Budgets.
Open Scope rust_scope.

(** ** What the application supplies *)

Record DeserializeContext : Type := mk_DeserializeContext {
  frame_metadata : option (list Z);
  ctx_message_id : option Z;
  ctx_correlation_id : option Z;
  metadata_bytes_consumed : option Z
}.

Class Externals : Type := {
  Frame : Type;
  World : Type;
  SerializerError : Type;
  (* the serializer *)
  parse : list Z -> result (Envelope * Z) SerializerError;
  should_deserialize_after_parse : bool;
  deserialize_with_context :
    list Z -> DeserializeContext -> result (Envelope * Z) SerializerError;
  deserialize : list Z -> result (Envelope * Z) SerializerError;
  is_bincode_limit_exceeded : SerializerError -> bool;
  serialize : Envelope -> result (list Z) SerializerError;
  (* the codec *)
  frame_payload_of : Frame -> list Z;
  frame_correlation_id : Frame -> option Z;
  wrap_payload : World -> list Z -> World * Frame;
  (* the protocol hook and the transport *)
  before_send : World -> Frame -> World * Frame;
  send : World -> Frame -> World * result unit io_error;
  (* the message assembler *)
  parse_frame_header : list Z -> result ParsedFrameHeader io_error
}.

Record ServiceRequest : Type := mk_ServiceRequest {
  request_frame : list Z;
  request_correlation_id : option Z
}.

Record ServiceResponse : Type := mk_ServiceResponse {
  response_frame : list Z;
  response_correlation_id : option Z
}.

(** ** [frame_handling/core.rs] *)

Definition MAX_DESER_FAILURES : Z := 10.

(** The counter is borrowed from the connection; the message is only logged. *)
Definition record (count limit : Z) : Z * result unit io_error :=
  let count := saturating_add u32_max count 1 in
  if decide (limit <= count)
  then (count, Err (mk_io_error InvalidData "too many deserialization failures"))
  else (count, Ok tt).

(** [failures.record(..)?; Ok(None)] *)
Definition record_none {A : Type} (count limit : Z) : Z * result (option A) io_error :=
  let '(count, r) := record count limit in
  (count, let? _ := r in Ok None).

(** ** [codec_driver.rs]: the pipeline's state *)

Record FramePipeline : Type := mk_FramePipeline {
  fragmentation : option DefaultFragmentAdapter;
  out : list Envelope
}.

Definition FramePipeline_with_hooks (fragmentation : option FragmentationConfig) : FramePipeline :=
  mk_FramePipeline (DefaultFragmentAdapter_new <$> fragmentation) [].

Definition fragmentation_buffered_bytes (self : FramePipeline) : Z :=
  match fragmentation self with Some state => adapter_buffered_bytes state | None => 0 end.

Definition pipeline_purge_expired (self : FramePipeline) (now : Z) : FramePipeline :=
  match fragmentation self with
  | Some state => mk_FramePipeline (Some (adapter_purge_expired state now).1) (out self)
  | None => self
  end.

Definition drain_output (self : FramePipeline) : list Envelope * FramePipeline :=
  (out self, mk_FramePipeline (fragmentation self) []).

Definition push_frame (self : FramePipeline) (envelope : Envelope) : FramePipeline :=
  mk_FramePipeline (fragmentation self) (out self ++ [envelope]).

Section inbound.
Context {B : BytesCrate} {C : Bincode} {X : Externals}.

Definition Service : Type := World -> ServiceRequest -> World * result ServiceResponse io_error.

(** ** [codec_driver.rs]: operations *)

Definition fragment_envelope (self : FramePipeline) (envelope : Envelope) :
    option (FramePipeline * result (list Envelope) FragmentationError) :=
  match fragmentation self with
  | Some state =>
      '(r, state) ← fragment state envelope;
      Some (mk_FramePipeline (Some state) (out self), r)
  | None => Some (self, Ok [envelope])
  end.

Definition process (self : FramePipeline) (envelope : Envelope) :
    option (FramePipeline * result unit io_error) :=
  '(self, r) ← fragment_envelope self envelope;
  Some match r with
       | Err _ => (self, Err (mk_io_error ErrorKindOther "failed to fragment outbound envelope"))
       | Ok frames => (foldl push_frame self frames, Ok tt)
       end.

(** [encode_message_frame] of [outbound_encoding.rs] *)
Definition encode_message_frame (w : World) (envelope : Envelope) :
    World * result Frame SerializerError :=
  match serialize envelope with
  | Err e => (w, Err e)
  | Ok bytes => let '(w, frame) := wrap_payload w bytes in (w, Ok frame)
  end.

Definition send_envelope (w : World) (envelope : Envelope) : World * result unit io_error :=
  let '(w, encoded) := encode_message_frame w envelope in
  match encoded with
  | Err _ => (w, Err (mk_io_error ErrorKindOther "failed to serialize outbound envelope"))
  | Ok frame =>
      let '(w, frame) := before_send w frame in
      let '(w, r) := send w frame in
      match r with
      | Ok _ => (w, Ok tt)
      | Err error => (w, Err (mk_io_error ErrorKindOther (message error)))
      end
  end.

(** The [for] loop of [flush_pipeline_output]. *)
Fixpoint send_all (w : World) (envelopes : list Envelope) : World * result unit io_error :=
  match envelopes with
  | [] => (w, Ok tt)
  | envelope :: envelopes =>
      let '(w, r) := send_envelope w envelope in
      match r with
      | Err e => (w, Err e)
      | Ok _ => send_all w envelopes
      end
  end.

Definition flush_pipeline_output (w : World) (pipeline : FramePipeline) :
    World * FramePipeline * result unit io_error :=
  let '(envelopes, pipeline) := drain_output pipeline in
  let '(w, r) := send_all w envelopes in
  (w, pipeline, r).

(** ** [frame_handling/response.rs] *)

Definition forward_response (w : World) (pipeline : FramePipeline) (env : Envelope)
    (service : Service) : option (World * FramePipeline * result unit io_error) :=
  let request := mk_ServiceRequest (envelope_payload env) (envelope_correlation_id env) in
  let '(w, called) := service w request in
  match called with
  | Err _ => Some (w, pipeline, Ok tt)
  | Ok resp =>
      let parts := inherit_correlation
        (mk_PacketParts (envelope_id env) (response_correlation_id resp) (response_frame resp))
        (envelope_correlation_id env) in
      let envelope := Envelope_from_parts parts in
      '(pipeline, r) ← process pipeline envelope;
      Some match r with
           | Err e => (w, pipeline, Err e)
           | Ok _ => flush_pipeline_output w pipeline
           end
  end.

(** ** [inbound_handler/core.rs]: decoding *)

Inductive ParseEnvelopeError : Type :=
  | ParseSerializer (e : SerializerError)
  | ParseTrailingBytes.

Definition parse_envelope (payload : list Z) : result (Envelope * Z) ParseEnvelopeError :=
  let? '(envelope, consumed) := map_err ParseSerializer
    match parse payload with
    | Ok (parsed_envelope, metadata_bytes_consumed) =>
        if should_deserialize_after_parse then
          let context := mk_DeserializeContext
            (slice_get payload 0 metadata_bytes_consumed)
            (Some (envelope_id parsed_envelope))
            (envelope_correlation_id parsed_envelope)
            (Some metadata_bytes_consumed) in
          deserialize_with_context payload context
        else Ok (parsed_envelope, metadata_bytes_consumed)
    | Err error =>
        if is_bincode_limit_exceeded error then Err error else deserialize payload
    end in
  if decide (consumed <> len payload) then Err ParseTrailingBytes
  else Ok (envelope, consumed).

(** [frame_handling/decode.rs] *)
Definition decode_envelope (parse_result : result (Envelope * Z) ParseEnvelopeError)
    (frame : Frame) (deser_failures : Z) : Z * result (option Envelope) io_error :=
  match parse_result with
  | Ok (env, _) =>
      let env :=
        match envelope_correlation_id env with
        | None => set_correlation_id env (frame_correlation_id frame)
        | Some _ => env
        end in
      (deser_failures, Ok (Some env))
  | Err _ => record_none deser_failures MAX_DESER_FAILURES
  end.

(** ** [frame_handling/reassembly.rs] *)

(** The messages of the two fatal errors stand for the text of [err]. *)
Definition handle_reassembly_result (result_ : result (option Envelope) FragmentAdapterError)
    (deser_failures max_deser_failures : Z) : Z * result (option Envelope) io_error :=
  match result_ with
  | Ok envelope => (deser_failures, Ok envelope)
  | Err (AdapterDecode _) => record_none deser_failures max_deser_failures
  | Err (AdapterReassembly err) =>
      match err with
      | TooManyConcurrentPartials _ _ =>
          (deser_failures, Err (mk_io_error InvalidData "too many concurrent partial messages"))
      | AggregateBufferCapExceeded _ _ =>
          (deser_failures, Err (mk_io_error InvalidData "aggregate buffer cap exceeded"))
      | _ => record_none deser_failures max_deser_failures
      end
  end.

Definition reassemble_if_needed (pipeline : FramePipeline) (deser_failures : Z) (env : Envelope)
    (max_deser_failures now : Z) :
    FramePipeline * Z * result (option Envelope) io_error :=
  match fragmentation pipeline with
  | None => (pipeline, deser_failures, Ok (Some env))
  | Some state =>
      let '(state, r) := reassemble state env now in
      let '(deser_failures, r) :=
        handle_reassembly_result r deser_failures max_deser_failures in
      (mk_FramePipeline (Some state) (out pipeline), deser_failures, r)
  end.

(** ** [frame_handling/assembly.rs] *)

Definition purge_expired_assemblies (assembly : option MessageAssemblyState) (now : Z) :
    option MessageAssemblyState :=
  (fun state => (MessageAssembly.purge_expired_at state now).1) <$> assembly.

Definition Envelope_from_assembled (assembled : AssembledMessage) : Envelope :=
  let routing := assembled_routing assembled in
  Envelope_new (routing_envelope_id routing) (routing_correlation_id routing)
    (assembled_metadata assembled ++ assembled_body assembled).

(** [frame_bytes.split_at_checked(n)] *)
Definition split_at_checked (bytes : list Z) (n : Z) : option (list Z * list Z) :=
  if decide (0 <= n <= len bytes)
  then Some (take (Z.to_nat n) bytes, drop (Z.to_nat n) bytes) else None.

Definition process_first_frame (state : MessageAssemblyState) (count limit : Z)
    (header : FirstFrameHeader) (frame_bytes : list Z) (routing : EnvelopeRouting) (now : Z) :
    MessageAssemblyState * Z * result (option AssembledMessage) io_error :=
  let fail state := let '(count, r) := record_none count limit in (state, count, r) in
  match checked_add usize_max (metadata_len header) (ff_body_len header) with
  | None => fail state
  | Some expected_len =>
      if decide (len frame_bytes <> expected_len) then fail state
      else
        match split_at_checked frame_bytes (metadata_len header) with
        | None => fail state
        | Some (metadata, body) =>
            match FirstFrameInput_new header routing metadata body with
            | Err _ => fail state
            | Ok input =>
                let '(state, r) := accept_first_frame_at state input now in
                match r with
                | Ok result_ => (state, count, Ok result_)
                | Err _ => fail state
                end
            end
        end
  end.

Definition process_continuation_frame (state : MessageAssemblyState) (count limit : Z)
    (header : ContinuationFrameHeader) (frame_bytes : list Z) (now : Z) :
    MessageAssemblyState * Z * result (option AssembledMessage) io_error :=
  let fail state := let '(count, r) := record_none count limit in (state, count, r) in
  if decide (len frame_bytes <> cf_body_len header) then fail state
  else
    let '(state, r) := accept_continuation_frame_at state header frame_bytes now in
    match r with
    | Ok result_ => (state, count, Ok result_)
    | Err _ => fail state
    end.

(** An assembler is configured exactly when there is an assembly state. *)
Definition assemble_if_needed (assembly : option MessageAssemblyState) (deser_failures : Z)
    (env : Envelope) (max_deser_failures now : Z) :
    option MessageAssemblyState * Z * result (option Envelope) io_error :=
  match assembly with
  | None => (None, deser_failures, Ok (Some env))
  | Some state =>
      let fail := let '(count, r) := record_none deser_failures max_deser_failures in
                  (Some state, count, r) in
      match parse_frame_header (envelope_payload env) with
      | Err _ => fail
      | Ok parsed =>
          match slice_from (envelope_payload env) (header_len parsed) with
          | None => fail
          | Some frame_bytes =>
              let routing := mk_EnvelopeRouting (envelope_id env) (envelope_correlation_id env) in
              let '(state, count, r) :=
                match parsed_header parsed with
                | First header =>
                    process_first_frame state deser_failures max_deser_failures header
                      frame_bytes routing now
                | Continuation header =>
                    process_continuation_frame state deser_failures max_deser_failures header
                      frame_bytes now
                end in
              (Some state, count,
               let? assembled := r in Ok (Envelope_from_assembled <$> assembled))
          end
      end
  end.

(** ** [inbound_handler/core.rs]: one frame *)

Record Readings : Type := mk_Readings {
  t_purge_fragments : Z;
  t_purge_assemblies : Z;
  t_reassembly : Z;
  t_assembly : Z
}.

(** The state of a connection across the frames it reads. *)
Record Connection : Type := mk_Connection {
  deser_failures : Z;
  message_assembly : option MessageAssemblyState;
  pipeline : FramePipeline;
  world : World
}.

Definition build_dispatchable_envelope (conn : Connection) (frame : Frame)
    (t_reassembly t_assembly : Z) : Connection * result (option Envelope) io_error :=
  let '(failures, r) :=
    decode_envelope (parse_envelope (frame_payload_of frame)) frame (deser_failures conn) in
  let conn := mk_Connection failures (message_assembly conn) (pipeline conn) (world conn) in
  match r with
  | Err e => (conn, Err e)
  | Ok None => (conn, Ok None)
  | Ok (Some envelope) =>
      let '(pipeline, failures, r) :=
        reassemble_if_needed (pipeline conn) (deser_failures conn) envelope
          MAX_DESER_FAILURES t_reassembly in
      let conn := mk_Connection failures (message_assembly conn) pipeline (world conn) in
      match r with
      | Err e => (conn, Err e)
      | Ok None => (conn, Ok None)
      | Ok (Some reassembled_envelope) =>
          let '(assembly, failures, r) :=
            assemble_if_needed (message_assembly conn) (deser_failures conn)
              reassembled_envelope MAX_DESER_FAILURES t_assembly in
          let conn := mk_Connection failures assembly pipeline (world conn) in
          match r with
          | Err e => (conn, Err e)
          | Ok None => (conn, Ok None)
          | Ok (Some assembled_envelope) =>
              (mk_Connection 0 assembly pipeline (world conn), Ok (Some assembled_envelope))
          end
      end
  end.

Definition handle_frame (routes : gmap Z Service) (conn : Connection) (frame : Frame)
    (t_reassembly t_assembly : Z) : option (Connection * result unit io_error) :=
  let '(conn, r) := build_dispatchable_envelope conn frame t_reassembly t_assembly in
  match r with
  | Err e => Some (conn, Err e)
  | Ok None => Some (conn, Ok tt)
  | Ok (Some envelope) =>
      match routes !! envelope_id envelope with
      | Some service =>
          '(w, pipeline, r) ← forward_response (world conn) (pipeline conn) envelope service;
          Some (mk_Connection (deser_failures conn) (message_assembly conn) pipeline w, r)
      | None => Some (conn, Ok tt)
      end
  end.

(** ** [inbound_handler/core.rs]: the read loop *)

Definition purge_expired (conn : Connection) (t_fragments t_assemblies : Z) : Connection :=
  mk_Connection (deser_failures conn)
    (purge_expired_assemblies (message_assembly conn) t_assemblies)
    (pipeline_purge_expired (pipeline conn) t_fragments) (world conn).

(** What [timeout(.., framed.next())] yields. *)
Inductive ReadEvent : Type :=
  | ReadFrame (frame : Frame)
  | ReadError (error : io_error)
  | ReadEof
  | ReadTimeout.

(** One iteration: [Some r] when the loop is left with [r]. *)
Definition process_step (routes : gmap Z Service) (effective_budgets : MemoryBudgets)
    (conn : Connection) (ev : ReadEvent * Readings) :
    option (Connection * option (result unit io_error)) :=
  let '(event, t) := ev in
  let pressure := evaluate_memory_pressure (message_assembly conn) (Some effective_budgets)
    (fragmentation_buffered_bytes (pipeline conn)) in
  let '(conn, r) := apply_memory_pressure pressure
    (fun conn => purge_expired conn (t_purge_fragments t) (t_purge_assemblies t)) conn in
  match r with
  | Err e => Some (conn, Some (Err e))
  | Ok _ =>
      match event with
      | ReadFrame frame =>
          '(conn, r) ← handle_frame routes conn frame (t_reassembly t) (t_assembly t);
          Some match r with
               | Err e => (conn, Some (Err e))
               | Ok _ => (conn, None)
               end
      | ReadError error => Some (conn, Some (Err error))
      | ReadEof => Some (conn, Some (Ok tt))
      | ReadTimeout => Some (purge_expired conn (t_reassembly t) (t_assembly t), None)
      end
  end.

(** The loop on the events of a connection; [None] in the second component
    says that it is still waiting for the next one. *)
Fixpoint process_loop (routes : gmap Z Service) (effective_budgets : MemoryBudgets)
    (conn : Connection) (events : list (ReadEvent * Readings)) :
    option (Connection * option (result unit io_error)) :=
  match events with
  | [] => Some (conn, None)
  | ev :: events =>
      '(conn, r) ← process_step routes effective_budgets conn ev;
      match r with
      | Some r => Some (conn, Some r)
      | None => process_loop routes effective_budgets conn events
      end
  end.

Record StreamProcessingContext : Type := mk_StreamProcessingContext {
  ctx_routes : gmap Z Service;
  ctx_max_frame_length : Z;
  ctx_has_assembler : bool;
  ctx_fragmentation : option FragmentationConfig;
  ctx_memory_budgets : option MemoryBudgets
}.

Definition connection_start (context : StreamProcessingContext) (w : World) :
    option Connection :=
  let requested_frame_length := ctx_max_frame_length context in
  let effective_budgets :=
    resolve_effective_budgets (ctx_memory_budgets context) requested_frame_length in
  message_assembly ←
    (if ctx_has_assembler context then
       state ← new_message_assembly_state (ctx_fragmentation context) requested_frame_length
                 (Some effective_budgets);
       Some (Some state)
     else Some None);
  Some (mk_Connection 0 message_assembly
          (FramePipeline_with_hooks (ctx_fragmentation context)) w).

Definition process_stream (context : StreamProcessingContext) (w : World)
    (events : list (ReadEvent * Readings)) :
    option (Connection * option (result unit io_error)) :=
  conn ← connection_start context w;
  process_loop (ctx_routes context)
    (resolve_effective_budgets (ctx_memory_budgets context) (ctx_max_frame_length context))
    conn events.

(** ** [inbound_handler/mod.rs] *)

(** [None] in the second component: the stream is still open. *)
Definition process_connection {S : Type} (on_connect : option (World -> World * S))
    (on_disconnect : option (World -> S -> World)) (context : StreamProcessingContext)
    (w : World) (events : list (ReadEvent * Readings)) :
    option (World * option (result unit io_error)) :=
  let '(w, connection_state) :=
    match on_connect with
    | Some setup => let '(w, s) := setup w in (w, Some s)
    | None => (w, None)
    end in
  '(conn, processing_result) ← process_stream context w events;
  Some match processing_result with
       | None => (world conn, None)
       | Some r =>
           let w :=
             match on_disconnect, connection_state with
             | Some teardown, Some state => teardown (world conn) state
             | _, _ => world conn
             end in
           (w, Some r)
       end.
End inbound.

Arguments build_dispatchable_envelope : simpl never.
Arguments handle_frame : simpl never.
Arguments process_step : simpl never.
