(* ===== verification/InboundCorrectness.v ===== *)
(** * Correctness of the inbound pipeline

    Properties of [Inbound] over single frames and over whole connections: the
    failure counter, the memory caps, the order of setup and teardown, and the
    path of a response from one peer's handler to the other peer's dispatch. *)

From S2P Require Import Prelude.
From S2P Require Import ByteOrder.
From S2P Require Import Envelope.
From S2P Require Import Fragment.
From S2P Require Import Fragmenter.
From S2P Require Import Reassembler.
From S2P Require Import FragmentPayload.
From S2P Require Import FragmentAdapter.
From S2P Require Import MessageSeries.
From S2P Require Import MessageAssembly.
From S2P Require Import Budgets.
From S2P Require Import Inbound.
Open Scope rust_scope.

(** ** The failure counter *)

(** What becomes of a frame: it is dispatched, it is a part of something that
    is not complete, it is refused, or it hits a fragment cap. *)
Inductive Verdict : Type := Dispatched | Partial | Refused | CapExceeded.

Definition counted {A} (v : Verdict) (c c' : Z) (r : result (option A) io_error) : Prop :=
  match v with
  | Dispatched => c' = c /\ exists e, r = Ok (Some e)
  | Partial => c' = c /\ r = Ok None
  | Refused => c' = c + 1
      /\ r = if decide (MAX_DESER_FAILURES <= c + 1)
             then Err (mk_io_error InvalidData "too many deserialization failures") else Ok None
  | CapExceeded => c' = c /\ exists m, r = Err (mk_io_error InvalidData m)
  end.

Lemma record_none_counted {A} c :
  0 <= c < MAX_DESER_FAILURES ->
  let '(c', r) := record_none (A := A) c MAX_DESER_FAILURES in counted Refused c c' r.
Proof.
  intros Hc. unfold record_none, record. unfold MAX_DESER_FAILURES in *.
  rewrite saturating_add_exact by (unfold u32_max; lia).
  case_decide; simpl; unfold MAX_DESER_FAILURES;
    [by rewrite decide_True by lia|by rewrite decide_False by lia].
Qed.

Section failures.
Context {B : BytesCrate} {C : Bincode} {X : Externals}.

(** ** The verdicts

    Each stage's verdict, from its own check alone. *)

Definition reassembly_verdict (r : result (option Envelope) FragmentAdapterError) : Verdict :=
  match r with
  | Ok (Some _) => Dispatched
  | Ok None => Partial
  | Err (AdapterReassembly (TooManyConcurrentPartials _ _))
  | Err (AdapterReassembly (AggregateBufferCapExceeded _ _)) => CapExceeded
  | Err _ => Refused
  end.

Definition acceptance {E : Type} (r : result (option AssembledMessage) E) : Verdict :=
  match r with Ok (Some _) => Dispatched | Ok None => Partial | Err _ => Refused end.

Definition first_verdict (state : MessageAssemblyState) (h : FirstFrameHeader) (bytes : list Z)
    (routing : EnvelopeRouting) (now : Z) : Verdict :=
  if decide (checked_add usize_max (metadata_len h) (ff_body_len h) = Some (len bytes)) then
    match split_at_checked bytes (metadata_len h) with
    | Some (metadata, body) =>
        match FirstFrameInput_new h routing metadata body with
        | Ok input => acceptance (accept_first_frame_at state input now).2
        | Err _ => Refused
        end
    | None => Refused
    end
  else Refused.

Definition continuation_verdict (state : MessageAssemblyState) (h : ContinuationFrameHeader)
    (bytes : list Z) (now : Z) : Verdict :=
  if decide (len bytes = cf_body_len h) then acceptance (accept_continuation_frame_at state h bytes now).2
  else Refused.

Definition assembly_verdict (assembly : option MessageAssemblyState) (env : Envelope) (now : Z) : Verdict :=
  match assembly with
  | None => Dispatched
  | Some state =>
      match parse_frame_header (envelope_payload env) with
      | Err _ => Refused
      | Ok parsed =>
          match slice_from (envelope_payload env) (header_len parsed), parsed_header parsed with
          | None, _ => Refused
          | Some bytes, First h =>
              first_verdict state h bytes
                (mk_EnvelopeRouting (envelope_id env) (envelope_correlation_id env)) now
          | Some bytes, Continuation h => continuation_verdict state h bytes now
          end
      end
  end.

(** The first stage that does not pass a frame on decides. *)
Definition frame_verdict (conn : Connection) (frame : Frame) (t1 t2 : Z) : Verdict :=
  match parse_envelope (frame_payload_of frame) with
  | Err _ => Refused
  | Ok (env, _) =>
      let env := match envelope_correlation_id env with
                 | None => set_correlation_id env (frame_correlation_id frame)
                 | Some _ => env
                 end in
      match Inbound.fragmentation (pipeline conn) with
      | None => assembly_verdict (message_assembly conn) env t2
      | Some state =>
          match (reassemble state env t1).2 with
          | Ok (Some env) => assembly_verdict (message_assembly conn) env t2
          | r => reassembly_verdict r
          end
      end
  end.

Lemma reassemble_counted r c :
  0 <= c < MAX_DESER_FAILURES ->
  let '(c', r') := handle_reassembly_result r c MAX_DESER_FAILURES in
  counted (reassembly_verdict r) c c' r' /\ (forall e, r = Ok (Some e) -> r' = Ok (Some e)).
Proof.
  intros Hc. unfold handle_reassembly_result.
  pose proof (record_none_counted (A := Envelope) c Hc) as H.
  destruct r as [[e|]|[e|e]].
  - split; [split; [done|by eexists]|by intros ? [= ->]].
  - by split.
  - destruct (record_none _ _); by split.
  - destruct e; try (destruct (record_none _ _); by split); (split; [split; [done|by eexists]|done]).
Qed.

Lemma first_counted st c h bytes routing now :
  0 <= c < MAX_DESER_FAILURES ->
  let '(_, c', r) := process_first_frame st c MAX_DESER_FAILURES h bytes routing now in
  counted (first_verdict st h bytes routing now) c c' r.
Proof.
  intros Hc. unfold process_first_frame, first_verdict.
  pose proof (record_none_counted (A := AssembledMessage) c Hc) as H.
  destruct (record_none c MAX_DESER_FAILURES) as [c1 r1].
  destruct (checked_add _ _ _) as [n|]; [|by rewrite decide_False].
  case_decide as Hn; [by rewrite decide_False by congruence|].
  rewrite decide_True by (f_equal; lia).
  destruct (split_at_checked _ _) as [[md body]|]; [|done].
  destruct (FirstFrameInput_new _ _ _ _); [|done].
  destruct (accept_first_frame_at _ _ _) as [st' [[m|]|e]]; [|done..]. split; [done|by eexists].
Qed.

Lemma continuation_counted st c h bytes now :
  0 <= c < MAX_DESER_FAILURES ->
  let '(_, c', r) := process_continuation_frame st c MAX_DESER_FAILURES h bytes now in
  counted (continuation_verdict st h bytes now) c c' r.
Proof.
  intros Hc. unfold process_continuation_frame, continuation_verdict.
  pose proof (record_none_counted (A := AssembledMessage) c Hc) as H.
  destruct (record_none c MAX_DESER_FAILURES) as [c1 r1].
  case_decide as Hn; [by rewrite decide_False by congruence|]. rewrite decide_True by lia.
  destruct (accept_continuation_frame_at _ _ _ _) as [st' [[m|]|e]]; [|done..]. split; [done|by eexists].
Qed.

(** Turning the message into an envelope changes no verdict. *)
Lemma counted_map {A D} (f : A -> D) v c c' r :
  counted v c c' r -> counted v c c' (let? x := r in Ok (f <$> x))%rust.
Proof.
  destruct v; cbn; intros [-> H]; (split; [done|]).
  - destruct H as [e ->]. by eexists.
  - by rewrite H.
  - rewrite H. by case_decide.
  - destruct H as [m ->]. by eexists.
Qed.

Lemma assemble_counted asm c env now :
  0 <= c < MAX_DESER_FAILURES ->
  let '(_, c', r) := assemble_if_needed asm c env MAX_DESER_FAILURES now in
  counted (assembly_verdict asm env now) c c' r.
Proof.
  intros Hc. unfold assemble_if_needed, assembly_verdict.
  destruct asm as [st|]; [|split; [done|by eexists]].
  pose proof (record_none_counted (A := Envelope) c Hc) as H.
  destruct (parse_frame_header _) as [ph|]; [|by destruct (record_none _ _)].
  destruct (slice_from _ _) as [bytes|]; [|by destruct (record_none _ _)]. clear H.
  destruct (parsed_header ph) as [h|h].
  - pose proof (first_counted st c h bytes
      (mk_EnvelopeRouting (envelope_id env) (envelope_correlation_id env)) now Hc) as H.
    destruct (process_first_frame _ _ _ _ _ _ _) as [[s' c'] r]. by apply counted_map.
  - pose proof (continuation_counted st c h bytes now Hc) as H.
    destruct (process_continuation_frame _ _ _ _ _ _) as [[s' c'] r]. by apply counted_map.
Qed.

(** A frame that is dispatched also resets the counter. *)
Definition frame_counted (v : Verdict) (c c' : Z) (r : result (option Envelope) io_error) : Prop :=
  match v with Dispatched => c' = 0 /\ exists e, r = Ok (Some e) | _ => counted v c c' r end.

Lemma assembled_counted conn pl env t2 :
  0 <= deser_failures conn < MAX_DESER_FAILURES ->
  let '(conn', r') :=
    let '(assembly, failures, r) :=
      assemble_if_needed (message_assembly conn) (deser_failures conn) env MAX_DESER_FAILURES t2 in
    match r with
    | Err e => (mk_Connection failures assembly pl (world conn), Err e)
    | Ok None => (mk_Connection failures assembly pl (world conn), Ok None)
    | Ok (Some e) => (mk_Connection 0 assembly pl (world conn), Ok (Some e))
    end in
  frame_counted (assembly_verdict (message_assembly conn) env t2) (deser_failures conn) (deser_failures conn') r'.
Proof.
  intros Hc. pose proof (assemble_counted (message_assembly conn) _ env t2 Hc) as H.
  destruct (assemble_if_needed _ _ _ _ _) as [[asm c3] r].
  destruct (assembly_verdict _ _ _); cbn in H |- *; destruct H as [-> H].
  - destruct H as [e ->]. split; [done|by eexists].
  - by subst r.
  - subst r. by case_decide.
  - destruct H as [m ->]. split; [done|by eexists].
Qed.

Lemma build_counted conn frame t1 t2 :
  0 <= deser_failures conn < MAX_DESER_FAILURES ->
  let '(conn', r) := build_dispatchable_envelope conn frame t1 t2 in
  frame_counted (frame_verdict conn frame t1 t2) (deser_failures conn) (deser_failures conn') r.
Proof.
  intros Hc. unfold build_dispatchable_envelope, frame_verdict, decode_envelope.
  destruct (parse_envelope (frame_payload_of frame)) as [[env n]|].
  2:{ pose proof (record_none_counted (A := Envelope) _ Hc) as H. revert H.
      destruct (record_none _ _) as [c1 r1]. cbn. intros [-> ->]. by case_decide. }
  cbn [deser_failures message_assembly pipeline world].
  set (env1 := match envelope_correlation_id env with None => _ | Some _ => _ end). clearbody env1.
  unfold reassemble_if_needed. destruct (Inbound.fragmentation (pipeline conn)) as [st|];
    [|apply (assembled_counted conn (pipeline conn) env1 t2 Hc)].
  destruct (reassemble st env1 t1) as [st' r] eqn:Er. cbn [snd].
  pose proof (reassemble_counted r _ Hc) as H.
  destruct (handle_reassembly_result r _ _) as [c2 r2]. destruct H as [H Hpass].
  cbn [deser_failures message_assembly pipeline world].
  destruct r as [[env2|]|e].
  - rewrite (Hpass env2 eq_refl) in *. cbn in H. destruct H as [-> _].
    apply (assembled_counted conn _ env2 t2 Hc).
  - cbn in H. destruct H as [-> ->]. done.
  - destruct (reassembly_verdict (Err e)) eqn:Ev; cbn in H |- *; destruct H as [-> H].
    + exfalso. destruct e as [|e]; [done|]. by destruct e.
    + by subst r2.
    + subst r2. by case_decide.
    + destruct H as [m ->]. split; [done|by eexists].
Qed.

Lemma frame_counted_open v c c' e :
  0 <= c < MAX_DESER_FAILURES -> frame_counted v c c' (Ok e) -> 0 <= c' < MAX_DESER_FAILURES.
Proof.
  intros Hc. destruct v; cbn.
  - intros [-> _]. done.
  - by intros [-> _].
  - intros [-> H]. case_decide; [done|lia].
  - by intros [-> [m [=]]].
Qed.

Lemma step_counted routes budgets conn ev conn' r :
  0 <= deser_failures conn < MAX_DESER_FAILURES ->
  process_step routes budgets conn ev = Some (conn', r) ->
  r = None -> 0 <= deser_failures conn' < MAX_DESER_FAILURES.
Proof.
  intros Hc Hstep ->. unfold process_step in Hstep. destruct ev as [event t].
  destruct (apply_memory_pressure _ _ conn) as [conn1 rp] eqn:Ep.
  assert (deser_failures conn1 = deser_failures conn) as E1.
  { unfold apply_memory_pressure in Ep. by destruct (evaluate_memory_pressure _ _ _); simplify_eq. }
  rewrite <- E1 in Hc. destruct rp; [|done]. destruct event as [frame|error| |]; simplify_eq/=; try done.
  unfold handle_frame in Hstep. pose proof (build_counted conn1 frame (t_reassembly t)
    (t_assembly t) Hc) as H.
  destruct (build_dispatchable_envelope _ _ _ _) as [conn2 [[env|]|e]]; simplify_eq/=; try done;
    apply (frame_counted_open _ _ _ _ Hc) in H; [|done].
  destruct (routes !! envelope_id env) as [svc|]; simplify_eq/=; [|done].
  by destruct (forward_response _ _ _ _) as [[[w pl] [r|]]|]; simplify_eq/=.
Qed.

Lemma loop_counted routes budgets events : forall conn conn',
  0 <= deser_failures conn < MAX_DESER_FAILURES ->
  process_loop routes budgets conn events = Some (conn', None) ->
  0 <= deser_failures conn' < MAX_DESER_FAILURES.
Proof.
  induction events as [|ev events IH]; intros conn conn' Hc H; simplify_eq/=; [done|].
  destruct (process_step routes budgets conn ev) as [[conn1 [r|]]|] eqn:Es; simplify_eq/=; try done.
  eapply IH; [|done]. by eapply step_counted.
Qed.
End failures.

(** C35: Malformed input closes the connection at the tenth failure since the
    last envelope that was dispatched, and not before.  On every connection that
    is still open the counter is below ten.  A frame that is dispatched resets
    it; one that is a part of a packet or message still to be completed leaves
    it; one that is refused (it does not decode, its fragment is out of order or
    malformed, or its message header, length or assembly is) adds one, which is
    an error exactly if that makes ten; and one that exceeds a fragment cap is
    an error at once and is not counted. *)
Theorem failures_close_connection {B : BytesCrate} {C : Bincode} {X : Externals}
    (context : StreamProcessingContext) (w : World) (events : list (ReadEvent * Readings))
    (conn : Connection) (frame : Frame) (t1 t2 : Z) :
  process_stream context w events = Some (conn, None) ->
  let c := deser_failures conn in
  0 <= c < MAX_DESER_FAILURES
  /\ let '(conn', r) := build_dispatchable_envelope conn frame t1 t2 in
     match frame_verdict conn frame t1 t2 with
     | Dispatched => deser_failures conn' = 0 /\ exists e, r = Ok (Some e)
     | Partial => deser_failures conn' = c /\ r = Ok None
     | Refused => deser_failures conn' = c + 1
         /\ r = if decide (MAX_DESER_FAILURES <= c + 1)
                then Err (mk_io_error InvalidData "too many deserialization failures") else Ok None
     | CapExceeded => deser_failures conn' = c /\ exists m, r = Err (mk_io_error InvalidData m)
     end.
Proof.
  unfold process_stream. destruct (connection_start context w) as [conn0|] eqn:E0; [|done].
  simpl. intros H. assert (0 <= deser_failures conn < MAX_DESER_FAILURES) as Hc.
  { eapply loop_counted; [|done]. unfold connection_start in E0.
    destruct (if ctx_has_assembler context then _ else _); simplify_eq/=. done. }
  split; [done|]. pose proof (build_counted conn frame t1 t2 Hc) as H1.
  destruct (build_dispatchable_envelope conn frame t1 t2) as [conn' r].
  by destruct (frame_verdict conn frame t1 t2).
Qed.

(** ** A small application

    Frames are payloads, envelopes are serialized as their fields in order,
    and the world is the list of frames written. *)

Definition demo_serialize (e : Envelope) : list Z :=
  envelope_id e :: (match envelope_correlation_id e with Some c => [1; c] | None => [0; 0] end)
    ++ envelope_payload e.

Definition demo_parse (bs : list Z) : result (Envelope * Z) unit :=
  match bs with
  | id :: flag :: c :: payload =>
      Ok (mk_Envelope id (if decide (flag = 1) then Some c else None) payload, len bs)
  | _ => Err tt
  end.

Definition demo : Externals := {|
  Frame := list Z;
  World := list (list Z);
  SerializerError := unit;
  parse := demo_parse;
  should_deserialize_after_parse := false;
  deserialize_with_context bs _ := demo_parse bs;
  deserialize := demo_parse;
  is_bincode_limit_exceeded _ := false;
  serialize e := Ok (demo_serialize e);
  frame_payload_of f := f;
  frame_correlation_id _ := None;
  wrap_payload w p := (w, p);
  before_send w f := (w, f);
  send w f := (w ++ [f], Ok tt);
  parse_frame_header _ := Err (mk_io_error InvalidData "no header")
|}.

Lemma failures_close_connection_witness :
  let context := mk_StreamProcessingContext (X := demo) ∅ 1024 false None None in
  let bad := (ReadFrame (X := demo) [1], mk_Readings 0 0 0 0) in
  exists conn,
    process_stream (B := reference_bytes) (C := varint_bincode) (X := demo)
      context [] (replicate 9 bad) = Some (conn, None)
    /\ 0 <= deser_failures conn < MAX_DESER_FAILURES
    /\ (build_dispatchable_envelope (B := reference_bytes) (C := varint_bincode) (X := demo)
          conn [1] 0 0).2
       = Err (mk_io_error InvalidData "too many deserialization failures").
Proof.
  cbv zeta. eexists. split; [vm_compute; reflexivity|]. split; [|vm_compute; reflexivity].
  refine (proj1 (@failures_close_connection reference_bytes varint_bincode demo
    (mk_StreamProcessingContext (X := demo) ∅ 1024 false None None) []
    (replicate 9 (ReadFrame (X := demo) [1], mk_Readings 0 0 0 0)) _ [1] 0 0 _)).
  vm_compute. reflexivity.
Defined.

(** ** The memory caps *)

Definition budgets_ok (b : MemoryBudgets) : Prop :=
  0 < bytes_per_message b < usize_max /\ 0 < bytes_per_connection b < usize_max
  /\ 0 < bytes_in_flight b < usize_max.

(** The connection's assemblies are well formed and run under [b]. *)
Definition governed (b : MemoryBudgets) (asm : option MessageAssemblyState) : Prop :=
  match asm with
  | None => True
  | Some st =>
      st_wf st
      /\ budgets st = mk_AggregateBudgets (Some (bytes_per_connection b)) (Some (bytes_in_flight b))
  end.

Lemma default_budgets_ok frame_budget : budgets_ok (default_memory_budgets frame_budget).
Proof.
  pose proof (clamp_range frame_budget) as Hf. unfold default_memory_budgets, budgets_ok.
  cbn [bytes_per_message bytes_per_connection bytes_in_flight].
  rewrite !derive_budget_exact by (first [done|vm_compute; split; congruence]).
  unfold DEFAULT_MESSAGE_BUDGET_MULTIPLIER, DEFAULT_MESSAGE_SIZE_MULTIPLIER,
    DEFAULT_CONNECTION_BUDGET_MULTIPLIER, DEFAULT_IN_FLIGHT_BUDGET_MULTIPLIER,
    MIN_FRAME_LENGTH, MAX_FRAME_LENGTH, usize_max, u64_max in *. lia.
Qed.

Lemma governed_bytes b asm :
  governed b asm ->
  0 <= match asm with Some st => total_buffered_bytes st | None => 0 end
    <= match asm with
       | Some _ => Z.min (bytes_per_connection b) (bytes_in_flight b) | None => 0 end.
Proof.
  destruct asm as [st|]; [|lia]. intros [Hwf Hb].
  rewrite total_exact; [|done|by rewrite Hb]. split; [apply map_sum_nonneg; auto with wf|].
  apply Z.min_glb; [apply (stw_connection _ Hwf)|apply (stw_in_flight _ Hwf)]; by rewrite Hb.
Qed.

(** The assemblies alone never breach the hard cap. *)
Lemma governed_no_abort b asm :
  governed b asm -> budgets_ok b ->
  evaluate_memory_pressure asm (Some b) 0 <> AbortConnection.
Proof.
  intros Hg (_ & Hc & Hi). pose proof (governed_bytes b asm Hg) as Hr.
  unfold evaluate_memory_pressure, has_hard_cap_been_breached, active_aggregate_limit_bytes,
    pressure_bytes, saturating_add.
  rewrite bool_decide_false; [by destruct (should_pause_inbound_reads _ _ _)|].
  destruct asm; lia.
Qed.

Section caps.
Context {B : BytesCrate} {C : Bincode} {X : Externals} (b : MemoryBudgets).

Lemma governed_op st op :
  governed b (Some st) -> governed b (Some (MessageAssembly.apply_op st op).1).
Proof.
  intros [Hwf Hb]. split; [by apply apply_op_wf|].
  destruct (apply_op_config st op Hwf) as (_ & _ & ->). done.
Qed.

Lemma governed_purge asm now :
  governed b asm -> governed b (purge_expired_assemblies asm now).
Proof.
  destruct asm as [st|]; [|done]. intros Hg.
  apply (governed_op st (MessageAssembly.OpPurge now) Hg).
Qed.

Lemma governed_first st c h bytes routing now :
  governed b (Some st) ->
  governed b (Some (process_first_frame st c MAX_DESER_FAILURES h bytes routing now).1.1).
Proof.
  intros Hg. unfold process_first_frame.
  destruct (record_none c MAX_DESER_FAILURES) as [c1 r1].
  destruct (checked_add _ _ _); [|done]. case_decide as Hlen; [done|].
  destruct (split_at_checked _ _) as [[md body]|]; [|done].
  destruct (FirstFrameInput_new _ _ _ _) as [input|]; [|done].
  pose proof (governed_op st (OpFirst input now) Hg) as H. cbn [MessageAssembly.apply_op] in H.
  by destruct (accept_first_frame_at _ _ _) as [st' [r|e]].
Qed.

Lemma governed_continuation st c h bytes now :
  governed b (Some st) ->
  governed b (Some (process_continuation_frame st c MAX_DESER_FAILURES h bytes now).1.1).
Proof.
  intros Hg. unfold process_continuation_frame.
  destruct (record_none c MAX_DESER_FAILURES) as [c1 r1]. case_decide as Hlen; [done|].
  pose proof (governed_op st (OpContinuation h bytes now) Hg) as H.
  cbn [MessageAssembly.apply_op] in H.
  by destruct (accept_continuation_frame_at _ _ _ _) as [st' [r|e]].
Qed.

Lemma governed_assemble asm c env now :
  governed b asm ->
  governed b (assemble_if_needed asm c env MAX_DESER_FAILURES now).1.1.
Proof.
  intros Hg. unfold assemble_if_needed. destruct asm as [st|]; [|done].
  destruct (record_none c MAX_DESER_FAILURES) as [c1 r1].
  destruct (parse_frame_header _) as [ph|]; [|done].
  destruct (slice_from _ _) as [bytes|]; [|done]. destruct (parsed_header ph) as [h|h].
  - pose proof (governed_first st c h bytes
      (mk_EnvelopeRouting (envelope_id env) (envelope_correlation_id env)) now Hg) as H.
    by destruct (process_first_frame _ _ _ _ _ _ _) as [[st' c'] r].
  - pose proof (governed_continuation st c h bytes now Hg) as H.
    by destruct (process_continuation_frame _ _ _ _ _ _) as [[st' c'] r].
Qed.

(** A connection without fragmentation whose assemblies run under [b]. *)
Definition capped (conn : Connection) : Prop :=
  governed b (message_assembly conn) /\ Inbound.fragmentation (pipeline conn) = None.

Lemma capped_build conn frame t1 t2 :
  capped conn -> capped (build_dispatchable_envelope conn frame t1 t2).1.
Proof.
  intros [Hg Hf]. unfold build_dispatchable_envelope.
  destruct (decode_envelope _ _ _) as [c1 [[env|]|e]]; [|done..].
  cbn [message_assembly pipeline deser_failures world].
  unfold reassemble_if_needed. rewrite Hf. cbn [message_assembly pipeline deser_failures world].
  pose proof (governed_assemble (message_assembly conn) c1 env t2 Hg) as H.
  by destruct (assemble_if_needed _ _ _ _ _) as [[asm c3] [[env3|]|e]].
Qed.

Lemma forward_response_unfragmented w pl env svc w' pl' r :
  Inbound.fragmentation pl = None -> forward_response w pl env svc = Some (w', pl', r) ->
  Inbound.fragmentation pl' = None.
Proof.
  intros Hf. unfold forward_response. destruct (svc w _) as [w1 [resp|e]]; [|by intros [= _ <- _]].
  unfold process, fragment_envelope. rewrite Hf. simpl.
  unfold flush_pipeline_output, drain_output. destruct (send_all _ _). by intros [= _ <- _].
Qed.

Lemma capped_step routes conn ev conn' r :
  capped conn -> process_step routes b conn ev = Some (conn', r) -> capped conn'.
Proof.
  intros Hcap. unfold process_step. destruct ev as [event t].
  destruct (apply_memory_pressure _ _ conn) as [conn1 rp] eqn:Ep.
  assert (forall c t1 t2, capped c -> capped (purge_expired c t1 t2)) as Hpurge.
  { intros c t1 t2 [Hg Hf]. split; [by apply governed_purge|].
    simpl. unfold pipeline_purge_expired. by rewrite Hf. }
  assert (capped conn1) as Hcap1.
  { unfold apply_memory_pressure in Ep. destruct (evaluate_memory_pressure _ _ _);
      simplify_eq; auto. }
  destruct rp; [|by intros [= <- _]].
  destruct event as [frame|error| |]; try (by intros [= <- _]); [|intros [= <- _]; auto].
  unfold handle_frame. pose proof (capped_build conn1 frame (t_reassembly t) (t_assembly t) Hcap1)
    as Hb. destruct (build_dispatchable_envelope _ _ _ _) as [conn2 [[env|]|e]];
    simpl in Hb; try (by intros [= <- _]).
  destruct (routes !! envelope_id env) as [svc|]; [|by intros [= <- _]].
  destruct (forward_response _ _ _ _) as [[[w pl] rr]|] eqn:Ef; [|done].
  simpl. destruct Hb as [Hg Hf].
  apply forward_response_unfragmented in Ef; [|done].
  destruct rr; intros [= <- _]; done.
Qed.

Lemma capped_loop routes events : forall conn conn' r,
  capped conn -> process_loop routes b conn events = Some (conn', r) -> capped conn'.
Proof.
  induction events as [|ev events IH]; intros conn conn' r Hc H; simplify_eq/=; [done|].
  destruct (process_step routes b conn ev) as [[conn1 [r1|]]|] eqn:Es; simplify_eq/=; try done.
  - by eapply capped_step.
  - eapply IH; [|done]. by eapply capped_step.
Qed.
End caps.

Lemma new_state_governed {C : Bincode} frag frame_budget b st :
  budgets_ok b -> (forall cfg, frag = Some cfg -> 0 <= config_max_message_size cfg) ->
  new_message_assembly_state frag frame_budget (Some b) = Some st -> governed b (Some st).
Proof.
  intros (H1 & H2 & H3) Hfr. unfold new_message_assembly_state.
  destruct (match frag with Some _ => _ | None => _ end) as [config|] eqn:Ec; [|done].
  simpl. intros [= <-]. split; [|done]. apply with_budgets_wf.
  assert (0 <= match config with Some cfg => config_max_message_size cfg
    | None => default 1 (NonZeroUsize_new (clamp_frame_length frame_budget)) end) as Hmax.
  { pose proof (clamp_range frame_budget) as Hcl. unfold MIN_FRAME_LENGTH in Hcl.
    destruct config as [cfg|].
    - destruct frag as [cfg'|]; simplify_eq; [by apply Hfr|]. clear Hfr.
      unfold default_fragmentation, for_frame_budget in Ec.
      destruct (match NonZeroUsize_new _ with Some _ => _ | None => _ end) as [m|] eqn:Em; [|done].
      assert (0 <= m).
      { unfold NonZeroUsize_new, saturating_mul, DEFAULT_MESSAGE_SIZE_MULTIPLIER, usize_max,
          u64_max in Em. repeat case_decide; simplify_eq; lia. }
      destruct (fragment_overhead) as [o|]; [|done]. simpl in Ec.
      repeat case_decide; simplify_eq.
      destruct (NonZeroUsize_new (saturating_sub _ _)); simplify_eq/=. done.
    - unfold NonZeroUsize_new. case_decide; simpl; lia. }
  split_and!; simpl; [lia|lia|..]; intros l [= <-]; lia.
Qed.

(** On a connection without fragmentation the hard cap is a safety net
    that is never needed: whatever frames arrive, the admission checks of the
    assemblies keep the retained bytes within both aggregate budgets, so the
    pressure check never asks to abort. *)
Theorem hard_cap_unreachable {B : BytesCrate} {C : Bincode} {X : Externals}
    (context : StreamProcessingContext) (w : World) (events : list (ReadEvent * Readings))
    (conn : Connection) (r : option (result unit io_error)) :
  ctx_fragmentation context = None ->
  (forall b, ctx_memory_budgets context = Some b -> budgets_ok b) ->
  process_stream context w events = Some (conn, r) ->
  let b := resolve_effective_budgets (ctx_memory_budgets context) (ctx_max_frame_length context) in
  evaluate_memory_pressure (message_assembly conn) (Some b)
    (fragmentation_buffered_bytes (pipeline conn)) <> AbortConnection
  /\ (forall st, message_assembly conn = Some st ->
      total_buffered_bytes st <= Z.min (bytes_per_connection b) (bytes_in_flight b)).
Proof.
  intros Hfrag Hbud. unfold process_stream.
  set (b := resolve_effective_budgets _ _).
  assert (budgets_ok b) as Hb.
  { unfold b, resolve_effective_budgets. destruct (ctx_memory_budgets context) as [b'|]; simpl;
      [by apply Hbud|apply default_budgets_ok]. }
  destruct (connection_start context w) as [conn0|] eqn:E0; [|done]. simpl. intros H.
  assert (capped b conn0) as Hc0.
  { unfold connection_start in E0. fold b in E0. destruct (ctx_has_assembler context).
    - destruct (new_message_assembly_state _ _ _) as [st|] eqn:Es; simplify_eq/=.
      split; [|simpl; by rewrite Hfrag]. eapply new_state_governed; [done| |done].
      intros cfg E. congruence.
    - simplify_eq/=. split; [done|]. simpl. by rewrite Hfrag. }
  destruct (capped_loop b _ _ _ _ _ Hc0 H) as [Hg Hf].
  unfold fragmentation_buffered_bytes. rewrite Hf. split; [by apply governed_no_abort|].
  intros st E. rewrite E in Hg. by apply (governed_bytes b (Some st) Hg).
Qed.

Lemma hard_cap_unreachable_witness :
  exists conn,
    process_stream (B := reference_bytes) (C := varint_bincode) (X := demo)
      (mk_StreamProcessingContext (X := demo) ∅ 1024 true None None) []
      [(ReadFrame (X := demo) [1; 0; 0; 7], mk_Readings 0 0 0 0)] = Some (conn, None)
    /\ evaluate_memory_pressure (message_assembly conn) (Some (default_memory_budgets 1024))
         (fragmentation_buffered_bytes (pipeline conn)) <> AbortConnection.
Proof.
  eexists. split; [vm_compute; reflexivity|].
  refine (proj1 (@hard_cap_unreachable reference_bytes varint_bincode demo
    (mk_StreamProcessingContext (X := demo) ∅ 1024 true None None) []
    [(ReadFrame (X := demo) [1; 0; 0; 7], mk_Readings 0 0 0 0)] _ None _ _ _)).
  - reflexivity.
  - discriminate.
  - vm_compute. reflexivity.
Defined.

(** ** From a handler to the peer *)

(** What the serializer, the codec, the hook and the transport promise: what
    the serializer serialized it parses, wrapping keeps the payload, the codec
    and the hook do not write, and a write that succeeds has written its frame.
    [sent] is what has been written.  Serializing and writing may fail, and the
    hook may change the frame. *)
Class ExternalsLaws (X : Externals) : Type := {
  sent : World -> list Frame;
  serialize_parse e bs :
    serialize e = Ok bs ->
    parse bs = Ok (e, len bs) /\ forall ctx, deserialize_with_context bs ctx = Ok (e, len bs);
  wrap_payload_law w p :
    frame_payload_of (wrap_payload w p).2 = p /\ sent (wrap_payload w p).1 = sent w;
  before_send_law w f : sent (before_send w f).1 = sent w;
  send_law w f : (send w f).2 = Ok tt -> sent (send w f).1 = sent w ++ [f]
}.

(** The protocol's hook leaves the payload of every frame as it is. *)
Definition hook_keeps_payloads (X : Externals) : Prop :=
  forall w f, frame_payload_of (before_send w f).2 = frame_payload_of f.

Section delivery.
Context {B : BytesCrate} {BL : BytesCrateLaws B} {C : Bincode} {CL : BincodeLaws C}.
Context {X : Externals} {XL : ExternalsLaws X}.

(** Frame [f] carries envelope [e]. *)
Definition carries (e : Envelope) (f : Frame) : Prop :=
  parse_envelope (frame_payload_of f) = Ok (e, len (frame_payload_of f)).

Lemma send_envelope_law w e w' :
  hook_keeps_payloads X -> send_envelope w e = (w', Ok tt) ->
  exists f, sent w' = sent w ++ [f] /\ carries e f.
Proof.
  intros Hhook. unfold send_envelope, encode_message_frame.
  destruct (serialize e) as [bs|] eqn:Hs; [|done]. destruct (serialize_parse e bs Hs) as [Hp Hd].
  pose proof (wrap_payload_law w bs) as [H1 H2].
  destruct (wrap_payload w bs) as [w1 f1]. pose proof (before_send_law w1 f1) as H4.
  pose proof (Hhook w1 f1) as H3.
  destruct (before_send w1 f1) as [w2 f2]. pose proof (send_law w2 f2) as H6.
  destruct (send w2 f2) as [w3 [[]|]]; [|done]. simpl in *. intros [= <-].
  exists f2. split; [rewrite H6 by done; congruence|].
  unfold carries, parse_envelope. rewrite H3, H1, Hp.
  destruct should_deserialize_after_parse; rewrite ?Hd; simpl; by rewrite decide_False by congruence.
Qed.

Lemma send_all_law es : hook_keeps_payloads X -> forall w w',
  send_all w es = (w', Ok tt) -> exists fs, sent w' = sent w ++ fs /\ Forall2 carries es fs.
Proof.
  intros Hhook. induction es as [|e es IH]; intros w w'; simpl.
  - intros [= <-]. exists []. by rewrite app_nil_r.
  - destruct (send_envelope w e) as [w1 [[]|]] eqn:E; [|done]. intros Hall.
    destruct (send_envelope_law _ _ _ Hhook E) as (f & H1 & H2).
    destruct (IH w1 w' Hall) as (fs & H3 & H4). exists (f :: fs).
    split; [|by constructor]. by rewrite H3, H1, <- app_assoc.
Qed.

(** A flush fails only when the serializer or the transport does. *)
Definition output_failed (X : Externals) : Prop :=
  (exists e, is_ok (serialize e) = false) \/ (exists w f, is_ok (send w f).2 = false).

Lemma send_all_fails es : forall w w' e, send_all w es = (w', Err e) -> output_failed X.
Proof.
  induction es as [|x es IH]; intros w w' e; simpl; [done|].
  unfold send_envelope, encode_message_frame.
  destruct (serialize x) as [bs|] eqn:Es; [|intros _; left; exists x; by rewrite Es].
  destruct (wrap_payload w bs) as [w1 f1]. destruct (before_send w1 f1) as [w2 f2].
  destruct (send w2 f2) as [w3 [[]|]] eqn:E; [apply IH|].
  intros _. right. exists w2, f2. by rewrite E.
Qed.

Lemma foldl_push_frame es pl :
  foldl push_frame pl es = mk_FramePipeline (Inbound.fragmentation pl) (out pl ++ es).
Proof.
  revert pl. induction es as [|e es IH]; intros pl; simpl; [destruct pl; by rewrite app_nil_r|].
  rewrite IH. simpl. by rewrite <- app_assoc.
Qed.

(** A peer that has fragmentation and no message assembler hands each
    envelope to its adapter. *)
Definition peer (conn : Connection) (a : DefaultFragmentAdapter) : Prop :=
  message_assembly conn = None /\ Inbound.fragmentation (pipeline conn) = Some a.

Definition receive (conn : Connection) (ft : Frame * Z) :
    Connection * result (option Envelope) io_error :=
  build_dispatchable_envelope conn ft.1 ft.2 ft.2.

Lemma receive_one conn a e f t a' o :
  peer conn a -> carries e f -> is_Some (envelope_correlation_id e) ->
  reassemble a e t = (a', Ok o) ->
  exists conn', receive conn (f, t) = (conn', Ok o) /\ peer conn' a'.
Proof.
  intros [Hm Hf] Hc [c Hcor] Hr. unfold receive, build_dispatchable_envelope. cbn [fst snd].
  rewrite Hc. unfold decode_envelope. rewrite Hcor.
  cbn [message_assembly pipeline deser_failures world].
  unfold reassemble_if_needed. rewrite Hf, Hr. simpl. rewrite Hm.
  destruct o as [e'|]; simpl; eexists; by split.
Qed.

Lemma receive_all es fs : Forall2 carries es fs ->
  Forall (fun e => is_Some (envelope_correlation_id e)) es ->
  forall conn a ts outs, peer conn a ->
  (run deliver a (zip es ts)).2 = Ok <$> outs ->
  (run receive conn (zip fs ts)).2 = Ok <$> outs.
Proof.
  induction 1 as [|e f es fs Hc _ IH]; intros Hcor conn a ts outs Hp Hrun;
    [by destruct outs|].
  inversion_clear Hcor as [|?? Hcor1 Hcor2]. destruct ts as [|t ts]; [by destruct outs|].
  cbn [zip zip_with run] in *. unfold deliver at 1 in Hrun. cbn [fst snd] in Hrun.
  destruct (reassemble a e t) as [a1 r] eqn:Er.
  destruct (run deliver a1 (zip es ts)) as [a2 rs] eqn:Erun.
  destruct outs as [|o outs]; simplify_eq/=.
  destruct (receive_one conn a e f t a1 o Hp Hc Hcor1 Er) as (conn1 & -> & Hp1).
  specialize (IH Hcor2 conn1 a1 ts outs Hp1). rewrite Erun in IH. specialize (IH eq_refl).
  destruct (run receive conn1 (zip fs ts)). simpl in *. by rewrite IH.
Qed.

Lemma completion_fmap {A Er} n (a : A) :
  completion (Er := Er) n a = Ok <$> (replicate (n - 1) None ++ [Some a]).
Proof. unfold completion. by rewrite fmap_app, fmap_replicate. Qed.
End delivery.

(** C11: A response reaches the peer.  When a handler answers a request that
    has a correlation identifier, the pipeline is left empty, and forwarding
    fails only if the serializer refuses an envelope or the transport a frame.
    If it does not fail, a peer that reads the frames written in order, with
    room and before its timeout, dispatches exactly one envelope: the request's
    identifier and correlation identifier with the handler's payload.  This is
    for a serializer that parses what it serialized, a codec that keeps the
    payloads it wraps, a [before_send] hook that keeps them too (a hook may
    change a frame; then the peer gets what the hook made of it), and a payload
    of at most 2{^32} fragments that, if sent whole, does not begin with the
    fragment marker. *)
Theorem response_reaches_peer {B : BytesCrate} {BL : BytesCrateLaws B} {C : Bincode}
    {CL : BincodeLaws C} {X : Externals} {XL : ExternalsLaws X}
    (w w1 : World) (sender receiver : DefaultFragmentAdapter) (env : Envelope) (c : Z)
    (service : Service) (resp : ServiceResponse) (conn : Connection) (ts : list Z) :
  let payload := response_frame resp in
  let fr := fragmenter sender in
  let answer := mk_Envelope (envelope_id env) (Some c) payload in
  hook_keeps_payloads X ->
  envelope_correlation_id env = Some c ->
  service w (mk_ServiceRequest (envelope_payload env) (Some c)) = (w1, Ok resp) ->
  1 <= max_fragment_size fr <= usize_max -> 0 <= next_message_id_counter fr < u64_max ->
  len payload <= isize_max ->
  div_ceil (len payload) (max_fragment_size fr) <= u32_max + 1 ->
  (len payload <= max_fragment_size fr -> slice_get payload 0 4 <> Some FRAGMENT_MAGIC) ->
  ready (reassembler receiver) (next_message_id_counter fr) (len payload) ->
  len ts = Z.max 1 (div_ceil (len payload) (max_fragment_size fr)) ->
  (forall t0, head ts = Some t0 -> Forall (fun t => t - t0 < timeout (reassembler receiver)) ts) ->
  peer conn receiver ->
  exists w2 sender' r,
    forward_response w (mk_FramePipeline (Some sender) []) env service
    = Some (w2, mk_FramePipeline (Some sender') [], r)
    /\ match r with
       | Err _ => output_failed X
       | Ok _ => exists frames, sent w2 = sent w1 ++ frames /\ length frames = length ts
           /\ (run receive conn (zip frames ts)).2 = completion (length frames) answer
       end.
Proof.
  cbv zeta. intros Hhook Hcor Hsvc Hmax Hmid Hlen Hdiv Hmagic Hrd Hts Htimes Hpeer.
  set (answer := mk_Envelope (envelope_id env) (Some c) (response_frame resp)).
  unfold forward_response. rewrite Hcor, Hsvc, inherit_correlation_spec.
  cbn [parts_id parts_payload]. change (Envelope_from_parts _) with answer.
  destruct (adapters_deliver sender receiver answer ts) as (es & sender' & Hfr & Hl & Hrun);
    try done.
  unfold process, fragment_envelope. cbn [Inbound.fragmentation out]. rewrite Hfr.
  cbn [mbind option_bind]. rewrite foldl_push_frame. cbn [Inbound.fragmentation out app].
  unfold flush_pipeline_output, drain_output. cbn [Inbound.fragmentation out].
  destruct (send_all w1 es) as [w2 r] eqn:Eall. exists w2, sender', r. split; [done|].
  destruct r as [[]|e]; [|by eapply send_all_fails].
  destruct (send_all_law es Hhook w1 w2 Eall) as (fs & Hsent & Hall).
  pose proof (Forall2_length _ _ _ Hall) as Hfe.
  exists fs. split_and!; try done; [lia|].
  rewrite completion_fmap. eapply receive_all; [done| |done|].
  - unfold fragment in Hfr. destruct (fragment_packet (fragmenter sender) answer) as [[r f]|] eqn:Ep;
      simplify_eq/=. apply fragment_packet_parts in Ep.
    eapply Forall_impl; [exact Ep|]. intros e [_ Hc]. simpl in Hc. rewrite Hc. eauto.
  - rewrite Hrun. simpl. rewrite completion_fmap, <- Hfe. done.
Qed.

Lemma demo_serialize_parse (e : Envelope) bs :
  Ok (E := unit) (demo_serialize e) = Ok bs ->
  demo_parse bs = Ok (e, len bs) /\ forall _ : DeserializeContext, demo_parse bs = Ok (e, len bs).
Proof. intros [= <-]. by destruct e as [id [c|] p]. Qed.

Definition demo_laws : ExternalsLaws demo :=
  Build_ExternalsLaws demo (fun w => w) demo_serialize_parse (fun _ _ => conj eq_refl eq_refl)
    (fun _ _ => eq_refl) (fun _ _ _ => eq_refl).

Lemma response_reaches_peer_witness :
  let cfg := mk_FragmentationConfig 2 16 (Some 4) (Some 64) 30 in
  let conn := mk_Connection (X := demo) 0 None (FramePipeline_with_hooks (Some cfg)) [] in
  exists w2 sender' frames,
    forward_response (B := reference_bytes) (C := varint_bincode) (X := demo) []
      (mk_FramePipeline (Some (DefaultFragmentAdapter_new cfg)) []) (mk_Envelope 5 (Some 9) [7])
      (fun w _ => (w, Ok (mk_ServiceResponse [1; 2; 3] None)))
    = Some (w2, mk_FramePipeline (Some sender') [], Ok tt)
    /\ w2 = frames
    /\ (run (receive (B := reference_bytes) (C := varint_bincode) (X := demo)) conn
          (zip frames [100; 110])).2
       = completion (length frames) (mk_Envelope 5 (Some 9) [1; 2; 3]).
Proof.
  cbv zeta.
  destruct (@response_reaches_peer reference_bytes reference_bytes_laws varint_bincode
    varint_bincode_laws demo demo_laws [] []
    (DefaultFragmentAdapter_new (mk_FragmentationConfig 2 16 (Some 4) (Some 64) 30))
    (DefaultFragmentAdapter_new (mk_FragmentationConfig 2 16 (Some 4) (Some 64) 30))
    (mk_Envelope 5 (Some 9) [7]) 9 (fun w _ => (w, Ok (mk_ServiceResponse [1; 2; 3] None)))
    (mk_ServiceResponse [1; 2; 3] None)
    (mk_Connection (X := demo) 0 None
       (FramePipeline_with_hooks (Some (mk_FragmentationConfig 2 16 (Some 4) (Some 64) 30))) [])
    [100; 110]) as (w2 & s' & r & H1 & H2).
  - done.
  - reflexivity.
  - reflexivity.
  - vm_compute; split; congruence.
  - vm_compute; split; congruence.
  - vm_compute; congruence.
  - vm_compute; congruence.
  - intros H. exfalso. apply H. reflexivity.
  - apply (new_ready 16 30 (Some 4) (Some 64)).
    + split_and!; [done| |]; intros l [= <-]; done.
    + reflexivity.
    + vm_compute; congruence.
    + vm_compute; congruence.
    + intros l [= <-]. vm_compute. congruence.
    + intros l [= <-]. done.
  - reflexivity.
  - intros t0 [= <-]. repeat constructor; vm_compute; reflexivity.
  - split; reflexivity.
  - destruct r as [[]|e]; [|exfalso; destruct H2 as [[x H]|(x & y & H)]; discriminate H].
    destruct H2 as (frames & H2 & _ & H3).
    exists w2, s', frames. split; [exact H1|]. split; [exact H2|exact H3].
Defined.

(** ** Setup and teardown *)

(** When the stream of a connection ends, cleanly or with an error, and
    setup produced state and a teardown hook is registered, the last effect is
    that of the teardown on that state, once, and the result is the stream's. *)
Theorem teardown_runs_once {B : BytesCrate} {C : Bincode} {X : Externals} {S : Type}
    (setup : World -> World * S) (teardown : World -> S -> World)
    (context : StreamProcessingContext) (w : World) (events : list (ReadEvent * Readings))
    (w' : World) (r : result unit io_error) :
  process_connection (Some setup) (Some teardown) context w events = Some (w', Some r) <->
  exists conn, process_stream context (setup w).1 events = Some (conn, Some r)
    /\ w' = teardown (world conn) (setup w).2.
Proof.
  unfold process_connection. destruct (setup w) as [w1 st]. simpl.
  destruct (process_stream context w1 events) as [[conn [r'|]]|]; simpl.
  - split; [intros [= <- <-]; eauto|]. by intros (conn' & [= <- <-] & ->).
  - split; [done|]. by intros (conn' & [=] & _).
  - split; [done|]. by intros (conn' & [=] & _).
Qed.
