(* ===== verification/Mpsc.v ===== *)
(** * Bounded channels

    The connection actor and the push queues are built on [tokio::sync::mpsc],
    which is not part of the repository.  [Mpsc] holds the operations the code
    calls on a channel, and [MpscLaws] what tokio's documentation says of them
    in terms of three observations: the frames in the channel, its capacity,
    and whether it is closed (by its receiver, or because its senders are
    gone).  A channel is one value here; the two ends the code holds are that
    value, which is why [try_send] and [try_recv] return it.

    [recv] is a poll of the future: [None] says that it is pending.
    [list_mpsc] is a channel that satisfies the laws. *)

From S2P Require Import Prelude.
Open Scope rust_scope.

Inductive TrySendError : Type := SendFull | SendClosed.
Inductive TryRecvError : Type := Empty | Disconnected.

Class Mpsc : Type := {
  Chan : Type -> Type;
  channel : forall F, Z -> Chan F;
  try_send : forall F, Chan F -> F -> Chan F * result unit TrySendError;
  try_recv : forall F, Chan F -> Chan F * result F TryRecvError;
  recv : forall F, Chan F -> option (Chan F * option F);
  close : forall F, Chan F -> Chan F;
  queued : forall F, Chan F -> list F;
  capacity : forall F, Chan F -> Z;
  closed : forall F, Chan F -> bool
}.
Arguments channel {_} F _.
Arguments try_send {_ F} _ _.
Arguments try_recv {_ F} _.
Arguments recv {_ F} _.
Arguments close {_ F} _.
Arguments queued {_ F} _.
Arguments capacity {_ F} _.
Arguments closed {_ F} _.

(** [c'] is [c] holding the frames [q], closed or not as [b] says. *)
Definition now_holds {Q : Mpsc} {F} (c c' : Chan F) (q : list F) (b : bool) : Prop :=
  queued c' = q /\ capacity c' = capacity c /\ closed c' = b.

Class MpscLaws (Q : Mpsc) : Prop := {
  channel_law F n :
    1 <= n -> queued (channel F n) = [] /\ capacity (channel F n) = n
              /\ closed (channel F n) = false;
  try_send_closed F (c : Chan F) f : closed c = true -> try_send c f = (c, Err SendClosed);
  try_send_full F (c : Chan F) f :
    closed c = false -> capacity c <= len (queued c) -> try_send c f = (c, Err SendFull);
  try_send_ok F (c : Chan F) f :
    closed c = false -> len (queued c) < capacity c ->
    exists c', try_send c f = (c', Ok tt) /\ now_holds c c' (queued c ++ [f]) false;
  try_recv_frame F (c : Chan F) f q :
    queued c = f :: q -> exists c', try_recv c = (c', Ok f) /\ now_holds c c' q (closed c);
  try_recv_empty F (c : Chan F) :
    queued c = [] -> closed c = false -> try_recv c = (c, Err Empty);
  try_recv_disconnected F (c : Chan F) :
    queued c = [] -> closed c = true -> try_recv c = (c, Err Disconnected);
  recv_frame F (c : Chan F) f q :
    queued c = f :: q -> exists c', recv c = Some (c', Some f) /\ now_holds c c' q (closed c);
  recv_pending F (c : Chan F) : queued c = [] -> closed c = false -> recv c = None;
  recv_closed F (c : Chan F) : queued c = [] -> closed c = true -> recv c = Some (c, None);
  close_law F (c : Chan F) : now_holds c (close c) (queued c) true
}.

(** ** A channel *)

Record list_chan (F : Type) : Type := mk_list_chan {
  lc_queued : list F;
  lc_capacity : Z;
  lc_closed : bool
}.
Arguments mk_list_chan {F} _ _ _.
Arguments lc_queued {F} _.
Arguments lc_capacity {F} _.
Arguments lc_closed {F} _.

Definition list_mpsc : Mpsc := {|
  Chan := list_chan;
  channel F n := mk_list_chan [] n false;
  try_send F c f :=
    if lc_closed c then (c, Err SendClosed)
    else if decide (lc_capacity c <= len (lc_queued c)) then (c, Err SendFull)
    else (mk_list_chan (lc_queued c ++ [f]) (lc_capacity c) false, Ok tt);
  try_recv F c :=
    match lc_queued c with
    | f :: q => (mk_list_chan q (lc_capacity c) (lc_closed c), Ok f)
    | [] => (c, Err (if lc_closed c then Disconnected else Empty))
    end;
  recv F c :=
    match lc_queued c with
    | f :: q => Some (mk_list_chan q (lc_capacity c) (lc_closed c), Some f)
    | [] => if lc_closed c then Some (c, None) else None
    end;
  close F c := mk_list_chan (lc_queued c) (lc_capacity c) true;
  queued F c := lc_queued c;
  capacity F c := lc_capacity c;
  closed F c := lc_closed c
|}.

Lemma list_mpsc_laws : MpscLaws list_mpsc.
Proof.
  split; intros F; cbn.
  - done.
  - by intros c f ->.
  - intros c f -> H. by rewrite decide_True.
  - intros c f -> H. rewrite decide_False by lia. eexists. split; [done|]. by split_and!.
  - intros c f q ->. eexists. split; [done|]. by split_and!.
  - by intros c -> ->.
  - by intros c -> ->.
  - intros c f q ->. eexists. split; [done|]. by split_and!.
  - by intros c -> ->.
  - by intros c -> ->.
  - intros c. by split_and!.
Qed.
