(* ===== verification/Fairness.v ===== *)
(** * Fairness between push queues

    [src/src/fairness.rs]: the tracker that makes a burst of high-priority
    frames yield to the low-priority queue, by count and by time.  The clock's
    readings are arguments. *)

From S2P Require Import Prelude.
Open Scope rust_scope.

Record FairnessConfig : Type := mk_FairnessConfig {
  max_high_before_low : Z;
  time_slice : option Z
}.

Definition FairnessConfig_default : FairnessConfig := mk_FairnessConfig 8 None.

Record FairnessTracker : Type := mk_FairnessTracker {
  config : FairnessConfig;
  high_counter : Z;
  high_start : option Z
}.

Definition FairnessTracker_new (config : FairnessConfig) : FairnessTracker :=
  mk_FairnessTracker config 0 None.

Definition fairness_clear (self : FairnessTracker) : FairnessTracker :=
  mk_FairnessTracker (config self) 0 None.

Definition fairness_reset (self : FairnessTracker) : FairnessTracker := fairness_clear self.

Definition set_config (self : FairnessTracker) (cfg : FairnessConfig) : FairnessTracker :=
  fairness_reset (mk_FairnessTracker cfg (high_counter self) (high_start self)).

Definition record_high_priority (self : FairnessTracker) (now : Z) : FairnessTracker :=
  let counter := wrapping_add usize_max (high_counter self) 1 in
  mk_FairnessTracker (config self) counter
    (if decide (counter = 1) then Some now else high_start self).

Definition should_yield_to_low_priority (self : FairnessTracker) (now : Z) : bool :=
  if decide (0 < max_high_before_low (config self)
             /\ max_high_before_low (config self) <= high_counter self) then true
  else
    match time_slice (config self), high_start self with
    | Some slice, Some start => bool_decide (slice <= saturating_duration_since now start)
    | _, _ => false
    end.

(** A burst of high-priority frames emitted at [ts], from a fresh tracker. *)
Definition burst (cfg : FairnessConfig) (ts : list Z) : FairnessTracker :=
  foldl record_high_priority (FairnessTracker_new cfg) ts.

Lemma burst_state cfg ts :
  len ts < usize_max ->
  burst cfg ts = mk_FairnessTracker cfg (len ts) (head ts).
Proof.
  unfold burst. induction ts as [|t ts IH] using rev_ind; intros Hlen; [done|].
  rewrite len_app in Hlen. change (len [t]) with 1 in Hlen. pose proof (len_nonneg ts).
  rewrite foldl_app, IH by lia. simpl. unfold record_high_priority. simpl.
  unfold wrapping_add. rewrite Z.mod_small by lia. rewrite len_app. change (len [t]) with 1.
  f_equal. destruct ts as [|t' ts]; [done|]. rewrite decide_False; [done|]. len_solve.
Qed.

(** A burst yields to the low-priority queue exactly when it has reached
    the configured length (if that is not zero) or when the time slice (if
    there is one) has elapsed since its first frame; resetting or changing the
    configuration starts a new burst. *)
Theorem burst_yields_exactly (cfg : FairnessConfig) (ts : list Z) (now : Z) :
  len ts < usize_max ->
  (should_yield_to_low_priority (burst cfg ts) now = true <->
   (0 < max_high_before_low cfg <= len ts
    \/ exists slice start, time_slice cfg = Some slice /\ head ts = Some start
       /\ slice <= Z.max 0 (now - start)))
  /\ fairness_reset (burst cfg ts) = FairnessTracker_new cfg
  /\ forall cfg', set_config (burst cfg ts) cfg' = FairnessTracker_new cfg'.
Proof.
  intros Hlen. rewrite burst_state by done. split_and!; [|done|done].
  unfold should_yield_to_low_priority. cbn [config high_counter high_start].
  case_decide as Hd; [by split; [left|]|].
  destruct (time_slice cfg) as [sl|], (head ts) as [st|].
  - rewrite bool_decide_eq_true. unfold saturating_duration_since, saturating_sub. split.
    + intros H. right. eauto.
    + intros [H|(? & ? & [= <-] & [= <-] & H)]; [tauto|done].
  - split; [done|]. intros [H|(? & ? & _ & [=] & _)]. tauto.
  - split; [done|]. intros [H|(? & ? & [=] & _)]. tauto.
  - split; [done|]. intros [H|(? & ? & [=] & _)]. tauto.
Qed.

Lemma burst_yields_exactly_witness :
  fairness_reset (burst FairnessConfig_default [3; 4; 5])
  = FairnessTracker_new FairnessConfig_default.
Proof.
  exact (proj1 (proj2 (burst_yields_exactly FairnessConfig_default [3; 4; 5] 9
    ltac:(vm_compute; reflexivity)))).
Defined.
