(* ===== verification/ConnectionActor.v ===== *)
(** * The connection actor

    [src/src/connection/]: the actor that merges two push queues and one
    active output (a response stream or a multi-packet channel) into the
    outbound frames of a connection, and winds them down on shutdown.

    [tokio::select!] with [biased] polls its enabled branches in order and takes
    the first that is ready; [next_event] does the same on the channels of
    [Mpsc], and is [None] when every enabled branch is pending.  Protocol hooks
    act on a [World], and the response stream is abstract ([Actor], a type
    class).  The cancellation token is a flag; [ActiveConnection], a guard on a
    global gauge, is a flag that says whether it is held.  Handlers take and
    return the actor, its state and the frames emitted so far ([machine]), and
    the two clock readings of the fairness tracker; [None] is the panic of an
    exhausted message counter. *)

From S2P Require Import Prelude.
From S2P Require Import ByteOrder.
From S2P Require Import Envelope.
From S2P Require Import Fragment.
From S2P Require Import Fragmenter.
From S2P Require Import FragmentPayload.
From S2P Require Import FragmentAdapter.
From S2P Require Import Mpsc.
From S2P Require Import Fairness.
Open Scope rust_scope.

(** ** [error.rs] *)

Inductive WireframeError (E CodecError : Type) : Type :=
  | DuplicateRoute (id : Z)
  | WireframeIo (e : io_error)
  | WireframeProtocol (e : E)
  | WireframeCodec (e : CodecError).
Arguments DuplicateRoute {E CodecError} id.
Arguments WireframeIo {E CodecError} e.
Arguments WireframeProtocol {E CodecError} e.
Arguments WireframeCodec {E CodecError} e.

(** ** [state.rs] *)

Inductive RunState : Type := Active | ShuttingDown | Finished.
#[export] Instance RunState_eq_dec : EqDecision RunState.
Proof. solve_decision. Defined.

Record ActorState : Type := mk_ActorState {
  run_state : RunState;
  closed_sources : Z;
  total_sources : Z
}.

Definition ActorState_new (has_response has_multi_packet : bool) : ActorState :=
  mk_ActorState Active 1
    (3 + (if has_response then 1 else 0) + (if has_multi_packet then 1 else 0)).

Definition mark_closed (self : ActorState) : ActorState :=
  let closed_sources := closed_sources self + 1 in
  mk_ActorState
    (if decide (total_sources self <= closed_sources) then Finished else run_state self)
    closed_sources (total_sources self).

Definition state_start_shutdown (self : ActorState) : ActorState :=
  mk_ActorState (match run_state self with Active => ShuttingDown | s => s end)
    (closed_sources self) (total_sources self).

Definition is_active (self : ActorState) : bool := bool_decide (run_state self = Active).
Definition is_shutting_down (self : ActorState) : bool :=
  bool_decide (run_state self = ShuttingDown).
Definition is_done (self : ActorState) : bool := bool_decide (run_state self = Finished).

(** ** [multi_packet.rs] *)

Inductive MultiPacketStamp : Type := StampDisabled | StampEnabled (correlation_id : option Z).

(** ** What the protocol supplies *)

Class Actor (F : Type) : Type := {
  ProtocolError : Type;
  CodecError : Type;
  World : Type;
  Stream : Type;
  before_send : World -> F -> World * F;
  on_command_end : World -> World;
  handle_error : World -> ProtocolError -> World;
  stream_end_frame : World -> World * option F;
  (* a poll of the response stream; [None] is pending *)
  stream_next : Stream -> option (Stream * option (result F (WireframeError ProtocolError CodecError)))
}.

Section actor.
Context {B : BytesCrate} {C : Bincode} {Q : Mpsc}.
Context {F : Type} {P : Packet F} {A : Actor F}.

Definition Error : Type := WireframeError ProtocolError CodecError.

Record MultiPacketContext : Type := mk_MultiPacketContext {
  mp_channel : option (Chan F);
  mp_stamp : MultiPacketStamp
}.

Definition MultiPacketContext_new : MultiPacketContext :=
  mk_MultiPacketContext None StampDisabled.

Definition install (self : MultiPacketContext) (channel : option (Chan F))
    (correlation_id : option Z) : MultiPacketContext :=
  let stamp := match channel with
               | Some _ => StampEnabled correlation_id
               | None => StampDisabled
               end in
  mk_MultiPacketContext channel stamp.

Definition is_stamping_enabled (self : MultiPacketContext) : bool :=
  match mp_stamp self with StampEnabled _ => true | StampDisabled => false end.

Definition mp_correlation_id (self : MultiPacketContext) : option Z :=
  match mp_stamp self with StampEnabled value => value | StampDisabled => None end.

(** ** [output.rs] *)

Inductive ActiveOutput : Type :=
  | OutputNone
  | OutputResponse (stream : Stream)
  | OutputMultiPacket (ctx : MultiPacketContext).

Record ShutdownResult : Type := mk_ShutdownResult {
  sr_correlation_id : option Z;
  source_closed : bool;
  call_on_command_end : bool
}.

Inductive AvailableOutput : Type := AvailableNone | AvailableMultiPacket | AvailableResponse.

Record EventAvailability : Type := mk_EventAvailability {
  avail_high : bool;
  avail_low : bool;
  avail_output : AvailableOutput
}.

Definition available_output (self : ActiveOutput) (shutting_down : bool) : AvailableOutput :=
  if shutting_down then AvailableNone
  else match self with
       | OutputNone => AvailableNone
       | OutputResponse _ => AvailableResponse
       | OutputMultiPacket _ => AvailableMultiPacket
       end.

Definition is_response (self : ActiveOutput) : bool :=
  match self with OutputResponse _ => true | _ => false end.
Definition is_multi_packet (self : ActiveOutput) : bool :=
  match self with OutputMultiPacket _ => true | _ => false end.

Definition clear_response (self : ActiveOutput) : ActiveOutput :=
  match self with OutputResponse _ => OutputNone | _ => self end.

(** The output is replaced by [OutputNone]; the channel is closed and dropped. *)
Definition output_shutdown (self : ActiveOutput) : ActiveOutput * ShutdownResult :=
  (OutputNone,
   match self with
   | OutputMultiPacket ctx =>
       mk_ShutdownResult (mp_correlation_id ctx)
         (match mp_channel ctx with Some _ => true | None => false end) true
   | OutputResponse _ => mk_ShutdownResult None true false
   | OutputNone => mk_ShutdownResult None false false
   end).

(** Also returns the correlation identifier, which is only logged. *)
Definition close_multi_packet (self : ActiveOutput) : ActiveOutput * option Z :=
  match self with
  | OutputMultiPacket ctx =>
      (OutputMultiPacket (mk_MultiPacketContext (close <$> mp_channel ctx) (mp_stamp ctx)),
       mp_correlation_id ctx)
  | _ => (self, None)
  end.

(** ** [mod.rs]: the actor *)

Record ConnectionActor : Type := mk_ConnectionActor {
  high_rx : option (Chan F);
  low_rx : option (Chan F);
  active_output : ActiveOutput;
  shutdown : bool;
  counter : bool;
  world : World;
  fairness : FairnessTracker;
  actor_fragmenter : option Fragmenter
}.

Definition set_high_rx (a : ConnectionActor) (rx : option (Chan F)) : ConnectionActor :=
  mk_ConnectionActor rx (low_rx a) (active_output a) (shutdown a) (counter a) (world a)
    (fairness a) (actor_fragmenter a).
Definition set_low_rx (a : ConnectionActor) (rx : option (Chan F)) : ConnectionActor :=
  mk_ConnectionActor (high_rx a) rx (active_output a) (shutdown a) (counter a) (world a)
    (fairness a) (actor_fragmenter a).
Definition set_output (a : ConnectionActor) (o : ActiveOutput) : ConnectionActor :=
  mk_ConnectionActor (high_rx a) (low_rx a) o (shutdown a) (counter a) (world a)
    (fairness a) (actor_fragmenter a).
Definition set_world (a : ConnectionActor) (w : World) : ConnectionActor :=
  mk_ConnectionActor (high_rx a) (low_rx a) (active_output a) (shutdown a) (counter a) w
    (fairness a) (actor_fragmenter a).
Definition set_tracker (a : ConnectionActor) (t : FairnessTracker) : ConnectionActor :=
  mk_ConnectionActor (high_rx a) (low_rx a) (active_output a) (shutdown a) (counter a) (world a)
    t (actor_fragmenter a).
Definition set_fragmenter (a : ConnectionActor) (f : option Fragmenter) : ConnectionActor :=
  mk_ConnectionActor (high_rx a) (low_rx a) (active_output a) (shutdown a) (counter a) (world a)
    (fairness a) f.
Definition release_counter (a : ConnectionActor) : ConnectionActor :=
  mk_ConnectionActor (high_rx a) (low_rx a) (active_output a) (shutdown a) false (world a)
    (fairness a) (actor_fragmenter a).

(** [w] is the world after the setup hook. *)
Definition ConnectionActor_with_hooks (high low : Chan F) (response : option Stream)
    (cancelled : bool) (w : World) : ConnectionActor :=
  mk_ConnectionActor (Some high) (Some low)
    (match response with Some s => OutputResponse s | None => OutputNone end)
    cancelled true w (FairnessTracker_new FairnessConfig_default) None.

Inductive ConnectionStateError : Type := MultiPacketActive | ResponseActive.

Definition set_fairness (self : ConnectionActor) (cfg : FairnessConfig) : ConnectionActor :=
  set_tracker self (set_config (fairness self) cfg).

Definition enable_fragmentation (self : ConnectionActor) (config : FragmentationConfig) :
    ConnectionActor :=
  set_fragmenter self (Some (Fragmenter_new (fragment_payload_cap config))).

Definition set_response (self : ConnectionActor) (stream : option Stream) :
    ConnectionActor * result unit ConnectionStateError :=
  if is_multi_packet (active_output self) then (self, Err MultiPacketActive)
  else (set_output self (match stream with Some s => OutputResponse s | None => OutputNone end),
        Ok tt).

Definition set_multi_packet_with_correlation (self : ConnectionActor)
    (channel : option (Chan F)) (correlation_id : option Z) :
    ConnectionActor * result unit ConnectionStateError :=
  if is_response (active_output self) then (self, Err ResponseActive)
  else (set_output self
          (match channel with
           | None => OutputNone
           | Some rx =>
               OutputMultiPacket (install MultiPacketContext_new (Some rx) correlation_id)
           end), Ok tt).

Definition set_multi_packet (self : ConnectionActor) (channel : option (Chan F)) :
    ConnectionActor * result unit ConnectionStateError :=
  set_multi_packet_with_correlation self channel None.

Definition set_low_queue (self : ConnectionActor) (queue : option (Chan F)) : ConnectionActor :=
  set_low_rx self queue.

(** ** [frame.rs] *)

Definition actor_push_frame (self : ConnectionActor) (frame : F) (out : list F) :
    ConnectionActor * list F :=
  let '(w, frame) := before_send (world self) frame in
  (set_world self w, out ++ [frame]).

(** The [for_each] over the fragments. *)
Fixpoint push_frames (self : ConnectionActor) (frames : list F) (out : list F) :
    ConnectionActor * list F :=
  match frames with
  | [] => (self, out)
  | frame :: frames =>
      let '(self, out) := actor_push_frame self frame out in push_frames self frames out
  end.

Definition process_frame_with_hooks_and_metrics (self : ConnectionActor) (frame : F)
    (out : list F) : option (ConnectionActor * list F) :=
  match actor_fragmenter self with
  | Some fragmenter =>
      '(fragmented, fragmenter) ← fragment_packet fragmenter frame;
      let self := set_fragmenter self (Some fragmenter) in
      Some match fragmented with
           | Ok frames => push_frames self frames out
           | Err _ => (self, out)
           end
  | None => Some (actor_push_frame self frame out)
  end.

Definition apply_multi_packet_correlation (self : ConnectionActor) (frame : F) : F :=
  match active_output self with
  | OutputMultiPacket ctx =>
      if negb (is_stamping_enabled ctx) then frame
      else set_correlation_id frame (mp_correlation_id ctx)
  | _ => frame
  end.

Definition emit_multi_packet_frame (self : ConnectionActor) (frame : F) (out : list F) :
    option (ConnectionActor * list F) :=
  process_frame_with_hooks_and_metrics self (apply_multi_packet_correlation self frame) out.

(** ** [shutdown.rs] *)

Definition machine : Type := ConnectionActor * ActorState * list F.

Definition after_low (self : ConnectionActor) : ConnectionActor :=
  set_tracker self (fairness_reset (fairness self)).

Definition handle_multi_packet_closed (self : ConnectionActor) (state : ActorState)
    (out : list F) : option machine :=
  let self := set_output self (close_multi_packet (active_output self)).1 in
  let state := mark_closed state in
  let '(w, end_frame) := stream_end_frame (world self) in
  let self := set_world self w in
  '(self, out) ←
    match end_frame with
    | Some frame =>
        '(self, out) ← emit_multi_packet_frame self frame out;
        Some (after_low self, out)
    | None => Some (self, out)
    end;
  let self := set_output self OutputNone in
  Some (set_world self (on_command_end (world self)), state, out).

Definition start_shutdown (self : ConnectionActor) (state : ActorState) :
    ConnectionActor * ActorState :=
  let self := set_high_rx self (close <$> high_rx self) in
  let self := set_low_rx self (close <$> low_rx self) in
  let '(output, result_) := output_shutdown (active_output self) in
  let self := set_output self output in
  let state := if source_closed result_ then mark_closed state else state in
  let self := if call_on_command_end result_
              then set_world self (on_command_end (world self)) else self in
  (self, state).

Definition process_shutdown (self : ConnectionActor) (state : ActorState) :
    ConnectionActor * ActorState :=
  start_shutdown self (state_start_shutdown state).

(** ** [drain.rs] *)

Inductive QueueKind : Type := QueueHigh | QueueLow | QueueMulti.

Definition try_opportunistic_low_drain (self : ConnectionActor) (state : ActorState)
    (out : list F) : option (machine * bool) :=
  match low_rx self with
  | None => Some (self, state, out, false)
  | Some receiver =>
      let '(receiver, r) := try_recv receiver in
      let self := set_low_rx self (Some receiver) in
      match r with
      | Ok frame =>
          '(self, out) ← process_frame_with_hooks_and_metrics self frame out;
          Some (after_low self, state, out, true)
      | Err Empty => Some (self, state, out, false)
      | Err Disconnected => Some (set_low_rx self None, mark_closed state, out, false)
      end
  end.

Definition try_opportunistic_multi_drain (self : ConnectionActor) (state : ActorState)
    (out : list F) : option (machine * bool) :=
  match active_output self with
  | OutputMultiPacket ctx =>
      match mp_channel ctx with
      | None => Some (self, state, out, false)
      | Some rx =>
          let '(rx, r) := try_recv rx in
          let self := set_output self
            (OutputMultiPacket (mk_MultiPacketContext (Some rx) (mp_stamp ctx))) in
          match r with
          | Ok frame =>
              '(self, out) ← emit_multi_packet_frame self frame out;
              Some (after_low self, state, out, true)
          | Err Empty => Some (self, state, out, false)
          | Err Disconnected =>
              m ← handle_multi_packet_closed self state out;
              Some (m, false)
          end
      end
  | _ => Some (self, state, out, false)
  end.

(** [try_opportunistic_drain] on the two kinds it is called with. *)
Definition after_high (self : ConnectionActor) (state : ActorState) (out : list F)
    (t_record t_yield : Z) : option machine :=
  let self := set_tracker self (record_high_priority (fairness self) t_record) in
  if negb (should_yield_to_low_priority (fairness self) t_yield) then Some (self, state, out)
  else
    '(self, state, out, forwarded) ← try_opportunistic_low_drain self state out;
    if forwarded : bool then Some (self, state, out)
    else
      '(m, _) ← try_opportunistic_multi_drain self state out;
      Some m.

Definition should_emit_multi_packet_frame (self : ConnectionActor) (kind : QueueKind) : bool :=
  match kind, active_output self with
  | QueueMulti, OutputMultiPacket ctx => is_stamping_enabled ctx
  | _, _ => false
  end.

Definition forward_queue_frame (self : ConnectionActor) (kind : QueueKind) (frame : F)
    (state : ActorState) (out : list F) (t_record t_yield : Z) : option machine :=
  '(self, out) ←
    (if should_emit_multi_packet_frame self kind then emit_multi_packet_frame self frame out
     else process_frame_with_hooks_and_metrics self frame out);
  match kind with
  | QueueHigh => after_high self state out t_record t_yield
  | QueueLow | QueueMulti => Some (after_low self, state, out)
  end.

Definition handle_empty_queue (self : ConnectionActor) (kind : QueueKind) (state : ActorState)
    (out : list F) : option machine :=
  match kind with
  | QueueHigh =>
      let self := set_high_rx self None in
      Some (set_tracker self (fairness_reset (fairness self)), mark_closed state, out)
  | QueueLow => Some (set_low_rx self None, mark_closed state, out)
  | QueueMulti => handle_multi_packet_closed self state out
  end.

Definition process_queue (self : ConnectionActor) (kind : QueueKind) (res : option F)
    (state : ActorState) (out : list F) (t_record t_yield : Z) : option machine :=
  match res with
  | Some frame => forward_queue_frame self kind frame state out t_record t_yield
  | None => handle_empty_queue self kind state out
  end.

(** ** [response.rs] *)

Definition handle_response (self : ConnectionActor) (res : option (result F Error))
    (state : ActorState) (out : list F) : option (machine * result bool Error) :=
  match res with
  | Some (Ok frame) =>
      '(self, out) ← process_frame_with_hooks_and_metrics self frame out;
      Some (self, state, out, Ok true)
  | Some (Err (WireframeProtocol e)) =>
      let self := set_world self (handle_error (world self) e) in
      let state := mark_closed state in
      let self := set_output self (clear_response (active_output self)) in
      let self := set_world self (on_command_end (world self)) in
      Some (self, state, out, Ok false)
  | Some (Err e) => Some (self, state, out, Err e)
  | None =>
      let state := mark_closed state in
      let '(w, end_frame) := stream_end_frame (world self) in
      let self := set_world self w in
      '(self, out, produced) ←
        match end_frame with
        | Some frame =>
            '(self, out) ← process_frame_with_hooks_and_metrics self frame out;
            Some (self, out, true)
        | None => Some (self, out, false)
        end;
      Some (set_world self (on_command_end (world self)), state, out, Ok produced)
  end.

Definition process_response (self : ConnectionActor) (res : option (result F Error))
    (state : ActorState) (out : list F) : option (machine * result unit Error) :=
  '(self, state, out, r) ← handle_response self res state out;
  match r with
  | Err e => Some (self, state, out, Err e)
  | Ok produced =>
      let self := if produced : bool then after_low self else self in
      let self := match res with
                  | None => set_output self (clear_response (active_output self))
                  | Some _ => self
                  end in
      Some (self, state, out, Ok tt)
  end.

(** ** [event.rs], [dispatch.rs] *)

Inductive Event : Type :=
  | EventShutdown
  | EventHigh (res : option F)
  | EventLow (res : option F)
  | EventMultiPacket (res : option F)
  | EventResponse (res : option (result F Error))
  | EventIdle.

Definition dispatch_event (self : ConnectionActor) (event : Event) (state : ActorState)
    (out : list F) (t_record t_yield : Z) : option (machine * result unit Error) :=
  match event with
  | EventShutdown =>
      let '(self, state) := process_shutdown self state in Some (self, state, out, Ok tt)
  | EventHigh res =>
      m ← process_queue self QueueHigh res state out t_record t_yield; Some (m, Ok tt)
  | EventLow res =>
      m ← process_queue self QueueLow res state out t_record t_yield; Some (m, Ok tt)
  | EventMultiPacket res =>
      m ← process_queue self QueueMulti res state out t_record t_yield; Some (m, Ok tt)
  | EventResponse res => process_response self res state out
  | EventIdle => Some (self, state, out, Ok tt)
  end.

(** ** [mod.rs]: the loop *)

Definition compute_availability (self : ConnectionActor) (state : ActorState) :
    EventAvailability :=
  mk_EventAvailability
    (match high_rx self with Some _ => true | None => false end)
    (match low_rx self with Some _ => true | None => false end)
    (available_output (active_output self) (is_shutting_down state)).

(** The branches of [select!], in order: a disabled one is skipped, and
    [Some None] is one that is enabled and pending. *)
Definition poll_shutdown (self : ConnectionActor) (state : ActorState) :
    option (option (ConnectionActor * Event)) :=
  if is_active state then
    Some (if shutdown self then Some (self, EventShutdown) else None)
  else None.

Definition poll_high (self : ConnectionActor) : option (option (ConnectionActor * Event)) :=
  rx ← high_rx self;
  Some ((fun r => (set_high_rx self (Some r.1), EventHigh r.2)) <$> recv rx).

Definition poll_low (self : ConnectionActor) : option (option (ConnectionActor * Event)) :=
  rx ← low_rx self;
  Some ((fun r => (set_low_rx self (Some r.1), EventLow r.2)) <$> recv rx).

Definition poll_output (self : ConnectionActor) (available : AvailableOutput) :
    option (option (ConnectionActor * Event)) :=
  match available, active_output self with
  | AvailableMultiPacket, OutputMultiPacket ctx =>
      Some match mp_channel ctx with
           | None => Some (self, EventMultiPacket None)
           | Some rx =>
               (fun r => (set_output self
                  (OutputMultiPacket (mk_MultiPacketContext (Some r.1) (mp_stamp ctx))),
                  EventMultiPacket r.2)) <$> recv rx
           end
  | AvailableResponse, OutputResponse stream =>
      Some ((fun r => (set_output self (OutputResponse r.1), EventResponse r.2))
            <$> stream_next stream)
  | _, _ => None
  end.

(** The first branch that is ready; [else] when none is enabled. *)
Fixpoint select (self : ConnectionActor)
    (branches : list (option (option (ConnectionActor * Event)))) (enabled : bool) :
    option (ConnectionActor * Event) :=
  match branches with
  | [] => if enabled then None else Some (self, EventIdle)
  | Some (Some r) :: _ => Some r
  | Some None :: branches => select self branches true
  | None :: branches => select self branches enabled
  end.

Definition next_event (self : ConnectionActor) (state : ActorState) :
    option (ConnectionActor * Event) :=
  let avail := compute_availability self state in
  select self
    [poll_shutdown self state;
     (if avail_high avail then poll_high self else None);
     (if avail_low avail then poll_low self else None);
     poll_output self (avail_output avail)] false.

(** One poll of the loop's body: pending, a panic, or a step. *)
Inductive Polled : Type :=
  | Pending
  | Panicked
  | Stepped (m : machine) (r : result unit Error).

Definition poll_sources (m : machine) (t_record t_yield : Z) : Polled :=
  let '(self, state, out) := m in
  match next_event self state with
  | None => Pending
  | Some (self, event) =>
      match dispatch_event self event state out t_record t_yield with
      | None => Panicked
      | Some (m, r) => Stepped m r
      end
  end.

(** What [run] does before its loop: the machine it starts with, or nothing
    when shutdown was requested already. *)
Definition run_start (self : ConnectionActor) (out : list F) : option machine :=
  if shutdown self then None
  else Some (self, ActorState_new (is_response (active_output self))
                     (is_multi_packet (active_output self)), out).

(** At most [n] iterations of [while !state.is_done()] with nothing happening
    in between: [run] returns (the counter is released unless an error is
    propagated), waits for one of its sources, or has more to do. *)
Inductive Ran : Type :=
  | Returned (self : ConnectionActor) (out : list F) (r : result unit Error)
  | Running (m : machine)
  | Waiting (m : machine)
  | RunPanicked.

Fixpoint run_loop (n : nat) (m : machine) (t : Z) : Ran :=
  if is_done m.1.2 then Returned (release_counter m.1.1) m.2 (Ok tt)
  else
    match n with
    | O => Running m
    | S n =>
        match poll_sources m t t with
        | Pending => Waiting m
        | Panicked => RunPanicked
        | Stepped (self, state, out) (Err e) => Returned self out (Err e)
        | Stepped m (Ok _) => run_loop n m t
        end
    end.
End actor.
