(* ===== verification/ActorCorrectness.v ===== *)
(** * Correctness of the connection actor

    The accounting of sources that decides when [run] returns: over every run,
    the counters of [ActorState] agree with the queues and the output the actor
    still has ([ConnectionActor]). *)

From S2P Require Import Prelude.
From S2P Require Import ByteOrder.
From S2P Require Import Envelope.
From S2P Require Import Fragment.
From S2P Require Import Fragmenter.
From S2P Require Import FragmentPayload.
From S2P Require Import FragmentAdapter.
From S2P Require Import Mpsc.
From S2P Require Import Fairness.
From S2P Require Import ConnectionActor.
Open Scope rust_scope.

Section accounting.
Context {B : BytesCrate} {C : Bincode} {Q : Mpsc}.
Context {F : Type} {P : Packet F} {A : Actor F}.
Implicit Types (a : ConnectionActor) (st : ActorState) (out : list F).

(** ** Sources *)

Definition open_queue (rx : option (Chan F)) : Z :=
  match rx with Some _ => 1 | None => 0 end.

Definition open_output (o : ActiveOutput) : Z :=
  match o with OutputNone => 0 | _ => 1 end.

(** The sources an actor still has. *)
Definition sources (a : ConnectionActor) : Z :=
  open_queue (high_rx a) + open_queue (low_rx a) + open_output (active_output a).

Definition output_wf (o : ActiveOutput) : Prop :=
  match o with
  | OutputMultiPacket ctx => is_Some (mp_channel ctx) /\ is_stamping_enabled ctx = true
  | _ => True
  end.

(** The counters say how many sources are left; the actor is finished exactly
    when there are none; and shutdown leaves no output. *)
Record accounts (a : ConnectionActor) (st : ActorState) : Prop := {
  ac_count : total_sources st - closed_sources st = sources a;
  ac_done : run_state st = Finished <-> sources a = 0;
  ac_shutdown : run_state st = ShuttingDown -> active_output a = OutputNone;
  ac_output : output_wf (active_output a)
}.

Lemma sources_nonneg a : 0 <= sources a.
Proof.
  unfold sources, open_queue, open_output.
  destruct (high_rx a), (low_rx a), (active_output a); lia.
Qed.

(** Two actors with the same queues and output. *)
Definition same_sources (a a' : ConnectionActor) : Prop :=
  high_rx a' = high_rx a /\ low_rx a' = low_rx a /\ active_output a' = active_output a.

Lemma accounts_same a a' st : same_sources a a' -> accounts a st -> accounts a' st.
Proof.
  intros (E1 & E2 & E3) [H1 H2 H3 H4].
  assert (sources a' = sources a) as E by (unfold sources; by rewrite E1, E2, E3).
  split; rewrite ?E, ?E3; done.
Qed.

(** Losing one source keeps the account. *)
Lemma accounts_close a a' st :
  accounts a st -> run_state st <> Finished -> sources a' = sources a - 1 ->
  output_wf (active_output a') ->
  (run_state st = ShuttingDown -> active_output a' = OutputNone) ->
  accounts a' (mark_closed st).
Proof.
  intros [H1 H2 H3 H4] Hnd Hs Ho Hsd. pose proof (sources_nonneg a') as Hn.
  unfold mark_closed. split; cbn [total_sources closed_sources run_state].
  - lia.
  - case_decide; split; intros; try done; try lia.
  - case_decide; [done|]. done.
  - done.
Qed.

Lemma push_frames_same frames : forall a out a' out',
  push_frames a frames out = (a', out') -> same_sources a a'.
Proof.
  induction frames as [|f frames IH]; intros a out a' out' H; simpl in H; simplify_eq; [done|].
  unfold actor_push_frame in H. destruct (before_send (world a) f) as [w f'].
  by apply IH in H.
Qed.

Lemma process_frame_same a f out a' out' :
  process_frame_with_hooks_and_metrics a f out = Some (a', out') -> same_sources a a'.
Proof.
  unfold process_frame_with_hooks_and_metrics. destruct (actor_fragmenter a) as [fr|].
  - destruct (fragment_packet fr f) as [[[frames|e] fr']|]; simpl; [| |done].
    + intros [= H]. by apply push_frames_same in H.
    + by intros [= <- _].
  - unfold actor_push_frame. destruct (before_send _ _). by intros [= <- _].
Qed.

Lemma emit_same a f out a' out' :
  emit_multi_packet_frame a f out = Some (a', out') -> same_sources a a'.
Proof. apply process_frame_same. Qed.

(** ** Every handler keeps the account *)

Lemma multi_closed_accounts a st out m :
  accounts a st -> run_state st <> Finished -> is_multi_packet (active_output a) = true ->
  handle_multi_packet_closed a st out = Some m -> accounts m.1.1 m.1.2.
Proof.
  intros Ha Hnd Hm. unfold handle_multi_packet_closed.
  destruct (active_output a) as [| |ctx] eqn:Ho; try done.
  set (a1 := set_output a _). destruct (stream_end_frame (world a1)) as [w ef].
  assert (forall a2, high_rx a2 = high_rx a -> low_rx a2 = low_rx a ->
    accounts (set_world (set_output a2 OutputNone)
      (on_command_end (world (set_output a2 OutputNone)))) (mark_closed st)) as Hfin.
  { intros a2 E1 E2. eapply accounts_close; try done.
    unfold sources. simpl. rewrite E1, E2, Ho. simpl. lia. }
  destruct ef as [f|]; simpl.
  - destruct (emit_multi_packet_frame _ f out) as [[a2 out2]|] eqn:Ee; [|done].
    simpl. intros [= <-]. apply emit_same in Ee as (E1 & E2 & _). by apply Hfin.
  - intros [= <-]. by apply Hfin.
Qed.

Lemma low_drain_accounts a st out m b :
  accounts a st -> run_state st <> Finished ->
  try_opportunistic_low_drain a st out = Some (m, b) -> accounts m.1.1 m.1.2.
Proof.
  intros Ha Hnd. unfold try_opportunistic_low_drain.
  destruct (low_rx a) as [c|] eqn:Hl; [|by intros [= <- _]].
  destruct (try_recv c) as [c' r].
  assert (accounts (set_low_rx a (Some c')) st) as Ha1.
  { destruct Ha as [H1 H2 H3 H4]. assert (sources (set_low_rx a (Some c')) = sources a) as E
      by (unfold sources; simpl; by rewrite Hl). split; rewrite ?E; done. }
  destruct r as [f|[|]].
  - destruct (process_frame_with_hooks_and_metrics _ f out) as [[a2 out2]|] eqn:Ep; [|done].
    simpl. intros [= <- _]. apply process_frame_same in Ep.
    eapply accounts_same; [|exact Ha1]. exact Ep.
  - by intros [= <- _].
  - intros [= <- _]. apply (accounts_close a); try done; [|apply Ha|apply Ha].
    unfold sources. simpl. rewrite Hl. simpl. lia.
Qed.

Lemma multi_drain_accounts a st out m b :
  accounts a st -> run_state st <> Finished ->
  try_opportunistic_multi_drain a st out = Some (m, b) -> accounts m.1.1 m.1.2.
Proof.
  intros Ha Hnd. unfold try_opportunistic_multi_drain.
  destruct (active_output a) as [|s|ctx] eqn:Ho; try (by intros [= <- _]).
  destruct (mp_channel ctx) as [c|] eqn:Hc; [|by intros [= <- _]].
  destruct (try_recv c) as [c' r]. set (a1 := set_output a _).
  assert (accounts a1 st) as Ha1.
  { destruct Ha as [H1 H2 H3 H4]. assert (sources a1 = sources a) as E
      by (unfold sources, a1; simpl; by rewrite Ho).
    split; rewrite ?E; try done.
    - intros Hs. specialize (H3 Hs). congruence.
    - rewrite Ho in H4. simpl in *. split; [eauto|]. apply H4. }
  destruct r as [f|[|]].
  - destruct (emit_multi_packet_frame _ f out) as [[a2 out2]|] eqn:Ep; [|done].
    simpl. intros [= <- _]. apply emit_same in Ep. eapply accounts_same; [|exact Ha1]. exact Ep.
  - by intros [= <- _].
  - destruct (handle_multi_packet_closed a1 st out) as [m'|] eqn:Em; [|done].
    simpl. intros [= <- _]. by eapply multi_closed_accounts.
Qed.
Lemma low_drain_high a st out m b :
  try_opportunistic_low_drain a st out = Some (m, b) -> high_rx m.1.1 = high_rx a.
Proof.
  unfold try_opportunistic_low_drain. destruct (low_rx a) as [c|]; [|by intros [= <- _]].
  destruct (try_recv c) as [c' [f|[|]]]; try (by intros [= <- _]).
  destruct (process_frame_with_hooks_and_metrics _ f out) as [[a2 out2]|] eqn:Ep; [|done].
  simpl. intros [= <- _]. by apply process_frame_same in Ep as (E & _).
Qed.

Lemma open_high_not_done a st :
  accounts a st -> is_Some (high_rx a) -> run_state st <> Finished.
Proof.
  intros Ha [c Hc] Hf. apply Ha in Hf. revert Hf. unfold sources. rewrite Hc.
  unfold open_queue, open_output. destruct (low_rx a), (active_output a); simpl; lia.
Qed.

Lemma after_high_accounts a st out t1 t2 m :
  accounts a st -> is_Some (high_rx a) ->
  after_high a st out t1 t2 = Some m -> accounts m.1.1 m.1.2.
Proof.
  intros Ha Hh. unfold after_high. set (a1 := set_tracker a _).
  assert (accounts a1 st) as Ha1 by by apply (accounts_same a).
  destruct (negb _); [by intros [= <-]|].
  destruct (try_opportunistic_low_drain a1 st out) as [[[[a2 st2] out2] b]|] eqn:El; [|done].
  pose proof (low_drain_high _ _ _ _ _ El) as Hh2.
  apply low_drain_accounts in El; [|done|exact (open_high_not_done _ _ Ha Hh)]. simpl in *.
  destruct b; [by intros [= <-]|].
  destruct (try_opportunistic_multi_drain a2 st2 out2) as [[m' b']|] eqn:Em; [|done].
  simpl. intros [= <-]. eapply multi_drain_accounts; [exact El| |exact Em].
  eapply open_high_not_done; [exact El|]. by rewrite Hh2.
Qed.

Lemma forward_accounts a k f st out t1 t2 m :
  accounts a st -> (k = QueueHigh -> is_Some (high_rx a)) ->
  forward_queue_frame a k f st out t1 t2 = Some m -> accounts m.1.1 m.1.2.
Proof.
  intros Ha Hk. unfold forward_queue_frame.
  set (emitted := if should_emit_multi_packet_frame a k then _ else _).
  assert (forall a' out', emitted = Some (a', out') -> same_sources a a') as Hsame.
  { intros a' out'. unfold emitted. destruct (should_emit_multi_packet_frame a k);
      [apply emit_same|apply process_frame_same]. }
  destruct emitted as [[a' out']|]; [|done]. simpl. specialize (Hsame _ _ eq_refl).
  assert (accounts a' st) as Ha' by by apply (accounts_same a).
  destruct k; [|intros [= <-]; by apply (accounts_same a')..].
  intros H. eapply after_high_accounts; [exact Ha'| |exact H].
  destruct Hsame as (-> & _). by apply Hk.
Qed.

(** What an event presupposes of the actor that is to handle it. *)
Definition event_source (a : ConnectionActor) (e : Event) : Prop :=
  match e with
  | EventHigh _ => is_Some (high_rx a)
  | EventLow _ => is_Some (low_rx a)
  | EventMultiPacket _ => is_multi_packet (active_output a) = true
  | EventResponse _ => is_response (active_output a) = true
  | EventShutdown | EventIdle => True
  end.

Lemma empty_queue_accounts a k st out m :
  accounts a st -> run_state st <> Finished ->
  match k with
  | QueueHigh => is_Some (high_rx a)
  | QueueLow => is_Some (low_rx a)
  | QueueMulti => is_multi_packet (active_output a) = true
  end ->
  handle_empty_queue a k st out = Some m -> accounts m.1.1 m.1.2.
Proof.
  intros Ha Hnd Hk. destruct k; simpl.
  - intros [= <-]. apply (accounts_close a); try done; [|apply Ha|apply Ha].
    destruct Hk as [c Hc]. unfold sources. simpl. rewrite Hc. simpl. lia.
  - intros [= <-]. apply (accounts_close a); try done; [|apply Ha|apply Ha].
    destruct Hk as [c Hc]. unfold sources. simpl. rewrite Hc. simpl. lia.
  - by apply multi_closed_accounts.
Qed.

Lemma shutdown_accounts a st :
  accounts a st -> run_state st = Active ->
  accounts (process_shutdown a st).1 (process_shutdown a st).2.
Proof.
  intros Ha Hs. set (st1 := state_start_shutdown st).
  assert (run_state st1 = ShuttingDown) as Hs1 by (unfold st1; simpl; by rewrite Hs).
  assert (forall a', sources a' = sources a -> active_output a' = OutputNone ->
    accounts a' st1) as Hkeep.
  { intros a' Es Eo. destruct Ha as [H1 H2 _ _]. split; rewrite ?Es, ?Eo; try done.
    rewrite Hs1, <- H2, Hs. done. }
  unfold process_shutdown, start_shutdown. fold st1. cbn [active_output set_low_rx set_high_rx].
  assert (forall a', sources a' = sources a - 1 -> active_output a' = OutputNone ->
    accounts a' (mark_closed st1)) as Hless.
  { intros a' Es Eo. pose proof (sources_nonneg a'). destruct Ha as [H1 _ _ _].
    split; rewrite ?Es, ?Eo; try done; unfold mark_closed;
      cbn [total_sources closed_sources run_state]; change (total_sources st1) with (total_sources st);
      change (closed_sources st1) with (closed_sources st); [lia|].
    case_decide; rewrite ?Hs1; split; intros; try done; lia. }
  pose proof (ac_output _ _ Ha) as Hw.
  destruct (active_output a) as [|s|ctx] eqn:Ho; simpl.
  - apply Hkeep; [|done]. unfold sources. simpl. rewrite Ho. by destruct (high_rx a), (low_rx a).
  - apply Hless; [|done]. unfold sources. simpl. rewrite Ho. simpl.
    destruct (high_rx a), (low_rx a); simpl; lia.
  - destruct Hw as [[c Hc] _]. rewrite Hc. apply Hless; [|done].
    unfold sources. simpl. rewrite Ho. simpl. destruct (high_rx a), (low_rx a); simpl; lia.
Qed.

Lemma response_accounts a res st out m :
  accounts a st -> run_state st <> Finished -> is_response (active_output a) = true ->
  process_response a res st out = Some (m, Ok tt) -> accounts m.1.1 m.1.2.
Proof.
  intros Ha Hnd Hr. unfold process_response, handle_response.
  assert (forall a' o, same_sources a a' -> o = OutputNone ->
    forall w, accounts (set_world (set_output a' o) w) (mark_closed st)) as Hless.
  { intros a' o (E1 & E2 & _) -> w. apply (accounts_close a); try done.
    unfold sources. simpl. rewrite E1, E2. destruct (active_output a); simpl in *; try done. lia. }
  destruct res as [[f|e]|].
  - destruct (process_frame_with_hooks_and_metrics a f out) as [[a2 out2]|] eqn:Ep; [|done].
    simpl. intros [= <-]. apply process_frame_same in Ep.
    by eapply (accounts_same a).
  - destruct e; try done. simpl. intros [= <-]. apply Hless; [done|].
    simpl. by destruct (active_output a).
  - destruct (stream_end_frame (world a)) as [w [f|]]; simpl.
    + destruct (process_frame_with_hooks_and_metrics _ f out) as [[a2 out2]|] eqn:Ep; [|done].
      simpl. intros [= <-]. apply process_frame_same in Ep as (E1 & E2 & E3). simpl.
      apply (accounts_same (set_world (set_output a2 OutputNone) (world a2))).
      * split_and!; try done. simpl. rewrite E3. simpl. by destruct (active_output a).
      * by apply Hless.
    + intros [= <-]. simpl.
      apply (accounts_same (set_world (set_output a OutputNone) (world a))).
      * split_and!; try done. simpl. by destruct (active_output a).
      * by apply Hless.
Qed.
Lemma dispatch_accounts a e st out t1 t2 m :
  accounts a st -> run_state st <> Finished -> event_source a e ->
  (e = EventShutdown -> run_state st = Active) ->
  dispatch_event a e st out t1 t2 = Some (m, Ok tt) -> accounts m.1.1 m.1.2.
Proof.
  intros Ha Hnd He Hs. destruct e as [|[f|]|[f|]|[f|]|res|];
    cbn [dispatch_event process_queue event_source] in *.
  - pose proof (shutdown_accounts a st Ha (Hs eq_refl)) as H.
    destruct (process_shutdown a st). intros [= <-]. exact H.
  - destruct (forward_queue_frame _ _ _ _ _ _ _) as [m'|] eqn:E; [|done].
    simpl. intros [= <-]. by eapply forward_accounts; [exact Ha| |exact E].
  - intros [= <-]. by eapply (empty_queue_accounts a QueueHigh).
  - destruct (forward_queue_frame _ _ _ _ _ _ _) as [m'|] eqn:E; [|done].
    simpl. intros [= <-]. by eapply forward_accounts; [exact Ha| |exact E].
  - intros [= <-]. by eapply (empty_queue_accounts a QueueLow).
  - destruct (forward_queue_frame _ _ _ _ _ _ _) as [m'|] eqn:E; [|done].
    simpl. intros [= <-]. by eapply forward_accounts; [exact Ha| |exact E].
  - cbn [handle_empty_queue].
    destruct (handle_multi_packet_closed a st out) as [m'|] eqn:E; [|done].
    simpl. intros [= <-]. by eapply multi_closed_accounts.
  - by apply response_accounts.
  - by intros [= <-].
Qed.

(** ** Polling *)

(** Two actors that hold the same sources, whatever is in them. *)
Definition output_alike (o o' : ActiveOutput) : Prop :=
  match o, o' with
  | OutputNone, OutputNone => True
  | OutputResponse _, OutputResponse _ => True
  | OutputMultiPacket x, OutputMultiPacket y =>
      mp_stamp y = mp_stamp x /\ (is_Some (mp_channel y) <-> is_Some (mp_channel x))
  | _, _ => False
  end.

Definition alike (a a' : ConnectionActor) : Prop :=
  (is_Some (high_rx a') <-> is_Some (high_rx a))
  /\ (is_Some (low_rx a') <-> is_Some (low_rx a))
  /\ output_alike (active_output a) (active_output a').

Lemma output_alike_refl o : output_alike o o.
Proof. by destruct o. Qed.

Lemma open_queue_alike (x y : option (Chan F)) :
  (is_Some y <-> is_Some x) -> open_queue y = open_queue x.
Proof.
  intros [H1 H2]. destruct x, y; try done; [by destruct H2|by destruct H1].
Qed.

Lemma accounts_alike a a' st : alike a a' -> accounts a st -> accounts a' st.
Proof.
  intros (H1 & H2 & H3) [A1 A2 A3 A4].
  assert (sources a' = sources a) as E.
  { unfold sources. rewrite (open_queue_alike _ _ H1), (open_queue_alike _ _ H2).
    by destruct (active_output a), (active_output a'). }
  split; rewrite ?E; try done.
  - intros Hs. rewrite (A3 Hs) in H3. by destruct (active_output a').
  - destruct (active_output a) as [| |x], (active_output a') as [| |y]; try done.
    destruct H3 as [Hst Hc]. simpl in *. unfold is_stamping_enabled in *. rewrite Hst.
    by rewrite Hc.
Qed.

(** The guards of the queue branches say that there is a queue. *)
Lemma next_event_polls a st :
  next_event a st
  = select a [poll_shutdown a st; poll_high a; poll_low a;
              poll_output a (available_output (active_output a) (is_shutting_down st))] false.
Proof.
  unfold next_event, compute_availability, poll_high, poll_low. simpl.
  by destruct (high_rx a), (low_rx a).
Qed.

Lemma poll_output_alike a av a' e :
  poll_output a av = Some (Some (a', e)) ->
  alike a a' /\ event_source a' e /\ e <> EventShutdown /\ e <> EventIdle.
Proof.
  unfold poll_output. destruct av; [done| |];
    destruct (active_output a) as [|s|ctx] eqn:Ho; try done.
  - destruct (mp_channel ctx) as [c|] eqn:Hc.
    + destruct (recv c) as [[c' r]|]; [|done]. simpl. intros [= <- <-].
      unfold alike. simpl. rewrite Ho. unfold output_alike. rewrite Hc. by split_and!.
    + intros [= <- <-]. unfold alike. simpl. rewrite Ho. by split_and!.
  - destruct (stream_next s) as [[s' r]|]; [|done]. simpl. intros [= <- <-].
    unfold alike. simpl. rewrite Ho. by split_and!.
Qed.

Lemma poll_high_alike a a' e :
  poll_high a = Some (Some (a', e)) ->
  alike a a' /\ event_source a' e /\ e <> EventShutdown /\ e <> EventIdle.
Proof.
  unfold poll_high. destruct (high_rx a) as [c|] eqn:Hc; [|done]. simpl.
  destruct (recv c) as [[c' r]|]; [|done]. simpl. intros [= <- <-].
  unfold alike. simpl. rewrite Hc. split_and!; try done. apply output_alike_refl.
Qed.

Lemma poll_low_alike a a' e :
  poll_low a = Some (Some (a', e)) ->
  alike a a' /\ event_source a' e /\ e <> EventShutdown /\ e <> EventIdle.
Proof.
  unfold poll_low. destruct (low_rx a) as [c|] eqn:Hc; [|done]. simpl.
  destruct (recv c) as [[c' r]|]; [|done]. simpl. intros [= <- <-].
  unfold alike. simpl. rewrite Hc. split_and!; try done. apply output_alike_refl.
Qed.

(** What polling an actor that still has sources can yield. *)
Lemma next_event_ok a st a' e :
  accounts a st -> run_state st <> Finished -> next_event a st = Some (a', e) ->
  alike a a' /\ event_source a' e /\ (e = EventShutdown -> run_state st = Active)
  /\ e <> EventIdle.
Proof.
  intros Ha Hnd. rewrite next_event_polls. unfold select.
  destruct (poll_shutdown a st) as [[r|]|] eqn:E0.
  { intros [= ->]. revert E0. unfold poll_shutdown, is_active.
    case_bool_decide; [|done]. destruct (shutdown a); [|done]. intros [= <- <-].
    split_and!; try done. unfold alike. split_and!; try done. apply output_alike_refl. }
  all: destruct (poll_high a) as [[r|]|] eqn:E1;
    [intros [= ->]; apply poll_high_alike in E1 as (Hk & He & Hne & Hni); exact (conj Hk (conj He (conj (fun E => False_ind _ (Hne E)) Hni)))| |].
  all: destruct (poll_low a) as [[r|]|] eqn:E2;
    [intros [= ->]; apply poll_low_alike in E2 as (Hk & He & Hne & Hni); exact (conj Hk (conj He (conj (fun E => False_ind _ (Hne E)) Hni)))| |].
  all: destruct (poll_output a _) as [[r|]|] eqn:E3;
    [intros [= ->]; apply poll_output_alike in E3 as (Hk & He & Hne & Hni); exact (conj Hk (conj He (conj (fun E => False_ind _ (Hne E)) Hni)))| |];
    try done.
  exfalso. apply Hnd, Ha. revert E0 E1 E2. unfold poll_shutdown, poll_high, poll_low, is_active.
  case_bool_decide as Hact; [done|]. intros _.
  destruct (high_rx a) eqn:Hh, (low_rx a) eqn:Hl; try done. intros _ _.
  destruct (run_state st) eqn:Hr; try done.
  unfold sources. by rewrite Hh, Hl, (ac_shutdown _ _ Ha Hr).
Qed.

Lemma poll_accounts m t1 t2 m' :
  accounts m.1.1 m.1.2 -> run_state m.1.2 <> Finished ->
  poll_sources m t1 t2 = Stepped m' (Ok tt) -> accounts m'.1.1 m'.1.2.
Proof.
  destruct m as [[a st] out]. simpl. intros Ha Hnd.
  destruct (next_event a st) as [[a' e]|] eqn:En; [|done].
  apply next_event_ok in En as (Hk & He & Hs & _); try done.
  destruct (dispatch_event a' e st out t1 t2) as [[m2 r]|] eqn:Ed; [|done].
  intros [= -> ->]. eapply dispatch_accounts; [| | | |exact Ed]; try done.
  by eapply accounts_alike.
Qed.

(** ** Runs *)

(** How an actor is set up: [new], then any of the setters, where a low
    queue is replaced by another and not taken away. *)
Inductive configured : ConnectionActor -> Prop :=
  | conf_new high low response cancelled w :
      configured (ConnectionActor_with_hooks high low response cancelled w)
  | conf_fairness a cfg : configured a -> configured (set_fairness a cfg)
  | conf_fragmentation a cfg : configured a -> configured (enable_fragmentation a cfg)
  | conf_response a s : configured a -> configured (set_response a s).1
  | conf_multi a ch cid : configured a -> configured (set_multi_packet_with_correlation a ch cid).1
  | conf_low a c : configured a -> configured (set_low_queue a (Some c)).

(** The machines of a run.  Between two polls anything may happen to what is
    shared: frames arrive in channels, senders go away, the token is
    cancelled, the stream and the world move on. *)
Inductive reachable (a0 : ConnectionActor) : machine -> Prop :=
  | reach_start out m : run_start a0 out = Some m -> reachable a0 m
  | reach_env a st out a' :
      reachable a0 (a, st, out) -> alike a a' -> reachable a0 (a', st, out)
  | reach_poll m t1 t2 m' :
      reachable a0 m -> is_done m.1.2 = false ->
      poll_sources m t1 t2 = Stepped m' (Ok tt) -> reachable a0 m'.

Lemma configured_sources a :
  configured a -> is_Some (high_rx a) /\ is_Some (low_rx a) /\ output_wf (active_output a).
Proof.
  induction 1 as [h l [s|] b w|a cfg _ IH|a cfg _ IH|a s _ IH|a ch cid _ IH|a c _ IH];
    simpl; eauto.
  - unfold set_response. destruct (is_multi_packet (active_output a)); [done|].
    destruct IH as (H1 & H2 & _). by destruct s.
  - unfold set_multi_packet_with_correlation.
    destruct (is_response (active_output a)); [done|].
    destruct IH as (H1 & H2 & _). destruct ch; simpl; eauto.
  - destruct IH as (H1 & _ & H3). eauto.
Qed.

Lemma start_accounts a out m :
  configured a -> run_start a out = Some m -> accounts m.1.1 m.1.2.
Proof.
  intros ([h Hh] & [l Hl] & Ho)%configured_sources. unfold run_start.
  destruct (shutdown a); [done|]. intros [= <-]. split; simpl; try done;
    unfold sources; rewrite Hh, Hl; destruct (active_output a); simpl; split || lia; done || lia.
Qed.

Lemma reachable_accounts a0 m : configured a0 -> reachable a0 m -> accounts m.1.1 m.1.2.
Proof.
  intros Hc. induction 1 as [out m H|a st out a' _ IH Hk|m t1 t2 m' _ IH Hd H].
  - by eapply start_accounts.
  - by eapply accounts_alike.
  - eapply poll_accounts; [exact IH| |exact H].
    unfold is_done in Hd. by apply bool_decide_eq_false in Hd.
Qed.
End accounting.

(** ** An actor to run *)

(** Hooks that count the frames sent and the commands ended, a response stream
    that is a list of results, and an end frame. *)
Definition demo_actor : Actor Envelope := {|
  ProtocolError := Z;
  CodecError := unit;
  World := Z * Z;
  Stream := list (result Envelope (WireframeError Z unit));
  before_send w f := ((w.1 + 1, w.2), f);
  on_command_end w := (w.1, w.2 + 1);
  handle_error w _ := w;
  stream_end_frame w := (w, Some (mk_Envelope 99 None []));
  stream_next s :=
    match s with
    | [] => Some ([], None)
    | r :: s => Some (s, Some r)
    end
|}.

Definition demo_chan (q : list Envelope) (closed : bool) : @Chan list_mpsc Envelope :=
  mk_list_chan q 8 closed.

Definition demo_with_hooks :=
  ConnectionActor_with_hooks (Q := list_mpsc) (A := demo_actor).

(** C21: In every run of an actor whose low queue was not taken away before the
    run ([set_low_queue] with [None], a setter for tests, after which the loop
    need not stop), with any other configuration and whatever happens to its
    channels, its stream and its token between two polls, the loop stops exactly
    when both queues and the output are gone, the number of closed sources never
    exceeds the total, and while the loop goes on no poll yields the idle
    event. *)
Theorem run_ends_with_last_source {B : BytesCrate} {C : Bincode} {Q : Mpsc} {F : Type}
    {P : Packet F} {A : Actor F} (a0 a : ConnectionActor) (st : ActorState) (out : list F) :
  configured a0 -> reachable a0 (a, st, out) ->
  (is_done st = true <->
     high_rx a = None /\ low_rx a = None /\ active_output a = OutputNone)
  /\ closed_sources st <= total_sources st
  /\ (is_done st = false ->
      forall a' e, next_event a st = Some (a', e) -> e <> EventIdle).
Proof.
  intros Hc Hr. pose proof (reachable_accounts _ _ Hc Hr) as Ha. simpl in Ha.
  pose proof (sources_nonneg a) as Hn. unfold is_done. split_and!.
  - rewrite bool_decide_eq_true, (ac_done _ _ Ha). unfold sources, open_queue, open_output.
    destruct (high_rx a), (low_rx a), (active_output a);
      (split; [intros Hz; (lia || done)|intros (? & ? & ?); done]).
  - pose proof (ac_count _ _ Ha). lia.
  - intros Hd%bool_decide_eq_false a' e He. by eapply next_event_ok.
Qed.

Lemma run_ends_with_last_source_witness :
  exists m : machine (Q := list_mpsc) (A := demo_actor),
    run_loop (B := reference_bytes) (C := varint_bincode) 2
      (demo_with_hooks (demo_chan [] true) (demo_chan [] true) None false (0, 0),
       ActorState_new false false, []) 0
    = Returned (release_counter m.1.1) m.2 (Ok tt)
    /\ high_rx m.1.1 = None /\ low_rx m.1.1 = None /\ active_output m.1.1 = OutputNone.
Proof.
  set (a0 := demo_with_hooks (demo_chan [] true) (demo_chan [] true) None false (0, 0)).
  set (a1 := set_tracker (set_high_rx a0 None) (FairnessTracker_new FairnessConfig_default)).
  exists (set_low_rx a1 None, mk_ActorState Finished 3 3, []).
  split; [vm_compute; reflexivity|].
  apply (run_ends_with_last_source (B := reference_bytes) (C := varint_bincode)
    a0 _ (mk_ActorState Finished 3 3) []); [apply conf_new| |reflexivity].
  apply (reach_poll a0 (a1, mk_ActorState Active 2 3, []) 0 0);
    [|reflexivity|vm_compute; reflexivity].
  apply (reach_poll a0 (a0, mk_ActorState Active 1 3, []) 0 0);
    [|reflexivity|vm_compute; reflexivity].
  apply reach_start with (out := []). reflexivity.
Defined.
