(* ===== verification/ActorDelivery.v ===== *)
(** * What the connection actor puts on the wire

    Shutdown delivers the frames that were queued, the fairness limit lets a
    low-priority frame through, and multi-packet frames carry the correlation
    identifier of their channel ([ConnectionActor]). *)

From S2P Require Import Prelude.
From S2P Require Import ByteOrder.
From S2P Require Import Envelope.
From S2P Require Import Fragment.
From S2P Require Import Fragmenter.
From S2P Require Import FragmentPayload.
From S2P Require Import FragmentAdapter.
From S2P Require Import Mpsc.
From S2P Require Import Fairness.
From S2P Require Import ConnectionActor.
From S2P Require Import ActorCorrectness.
Open Scope rust_scope.

(** ** Emitting a frame *)

Section emitter.
Context {B : BytesCrate} {C : Bincode} {Q : Mpsc}.
Context {F : Type} {P : Packet F} {A : Actor F}.
Implicit Types (a : ConnectionActor) (st : ActorState) (out : list F) (f : F).

(** Emitting depends on the world and the fragmenter alone. *)
Definition emitter : Type := World * option Fragmenter.
Definition emitter_of (a : ConnectionActor) : emitter := (world a, actor_fragmenter a).
Definition with_emitter (a : ConnectionActor) (s : emitter) : ConnectionActor :=
  set_fragmenter (set_world a s.1) s.2.

Fixpoint hooked (w : World) (frames : list F) : World * list F :=
  match frames with
  | [] => (w, [])
  | f :: frames =>
      let '(w, f) := before_send w f in
      let '(w, fs) := hooked w frames in (w, f :: fs)
  end.

Definition emit (s : emitter) (f : F) : option (emitter * list F) :=
  match s.2 with
  | Some fr =>
      '(r, fr) ← fragment_packet fr f;
      Some match r with
           | Ok frames => let '(w, fs) := hooked s.1 frames in ((w, Some fr), fs)
           | Err _ => ((s.1, Some fr), [])
           end
  | None => let '(w, f) := before_send s.1 f in Some ((w, None), [f])
  end.

(** The frames on the wire for a sequence of frames taken from the sources. *)
Fixpoint emit_all (s : emitter) (frames : list F) : option (emitter * list F) :=
  match frames with
  | [] => Some (s, [])
  | f :: frames =>
      '(s, fs) ← emit s f;
      '(s, gs) ← emit_all s frames;
      Some (s, fs ++ gs)
  end.

(** Without a fragmenter every frame goes out as the hook leaves it. *)
Lemma emit_all_whole frames : forall w fr s wire,
  emit_all (w, fr) frames = Some (s, wire) -> fr = None -> wire = (hooked w frames).2.
Proof.
  induction frames as [|f frames IH]; intros w fr s wire He ->; simpl in He; [by injection He as _ <-|].
  simpl. unfold emit in He. cbn [fst snd] in He. destruct (before_send w f) as [w1 g]. simpl in He.
  destruct (emit_all (w1, None) frames) as [[s2 gs]|] eqn:E; [|done]. simpl in He.
  injection He as _ <-. rewrite (IH _ _ _ _ E eq_refl). by destruct (hooked w1 frames).
Qed.

Lemma emit_all_app s s1 s2 fs gs w1 w2 :
  emit_all s fs = Some (s1, w1) -> emit_all s1 gs = Some (s2, w2) ->
  emit_all s (fs ++ gs) = Some (s2, w1 ++ w2).
Proof.
  revert s w1. induction fs as [|f fs IH]; intros s w1; simpl.
  - by intros [= -> <-].
  - destruct (emit s f) as [[s' x]|]; [|done]. simpl.
    destruct (emit_all s' fs) as [[s'' y]|] eqn:E; [|done]. simpl. intros [= -> <-] H.
    rewrite (IH _ _ E H). simpl. by rewrite app_assoc.
Qed.

Lemma push_frames_hooked frames : forall a out,
  push_frames a frames out
  = (set_world a (hooked (world a) frames).1, out ++ (hooked (world a) frames).2).
Proof.
  induction frames as [|f frames IH]; intros a out; simpl.
  - rewrite app_nil_r. by destruct a.
  - unfold actor_push_frame. destruct (before_send (world a) f) as [w f'].
    rewrite IH. simpl. destruct (hooked w frames). by rewrite <- app_assoc.
Qed.

Lemma process_frame_emit a f out :
  process_frame_with_hooks_and_metrics a f out
  = '(s, fs) ← emit (emitter_of a) f; Some (with_emitter a s, out ++ fs).
Proof.
  unfold process_frame_with_hooks_and_metrics, emit, emitter_of. cbn [fst snd].
  destruct (actor_fragmenter a) as [fr|] eqn:Hf.
  - destruct (fragment_packet fr f) as [[[frames|e] fr']|]; simpl; [| |done].
    + rewrite push_frames_hooked. simpl. by destruct (hooked (world a) frames).
    + by rewrite app_nil_r.
  - unfold actor_push_frame. destruct (before_send (world a) f) as [w f']. simpl.
    unfold with_emitter. simpl. do 2 f_equal. destruct a; simpl in *. by subst.
Qed.

(** Emitting panics only in the fragmenter. *)
Lemma emit_none s f : emit s f = None -> is_Some s.2.
Proof. unfold emit. destruct s.2; [done|]. by destruct (before_send s.1 f). Qed.

Lemma emit_keeps s f s' fs : emit s f = Some (s', fs) -> is_Some s'.2 <-> is_Some s.2.
Proof.
  unfold emit. destruct s.2 as [fr|].
  - destruct (fragment_packet fr f) as [[[frames|e] fr']|]; simpl; [| |done].
    + destruct (hooked s.1 frames). by intros [= <- _].
    + by intros [= <- _].
  - destruct (before_send s.1 f). by intros [= <- _].
Qed.

Lemma emit_all_keeps fs : forall s s' wire,
  emit_all s fs = Some (s', wire) -> is_Some s'.2 <-> is_Some s.2.
Proof.
  induction fs as [|f fs IH]; intros s s' wire; simpl; [by intros [= <- _]|].
  destruct (emit s f) as [[s1 w1]|] eqn:E1; [|done]. simpl.
  destruct (emit_all s1 fs) as [[s2 w2]|] eqn:E2; [|done]. simpl. intros [= <- _].
  rewrite (IH _ _ _ E2). by eapply emit_keeps.
Qed.
End emitter.

(** ** Winding down *)

Section winding.
Context {B : BytesCrate} {C : Bincode} {Q : Mpsc} {QL : MpscLaws Q}.
Context {F : Type} {P : Packet F} {A : Actor F}.
Implicit Types (a : ConnectionActor) (st : ActorState) (out : list F) (f : F).

Definition pending (rx : option (Chan F)) : list F :=
  match rx with Some c => queued c | None => [] end.

(** The polls a queue that is closed still needs: one per frame, and one that
    finds it closed. *)
Definition weight (rx : option (Chan F)) : nat :=
  match rx with Some c => S (length (queued c)) | None => O end.

Definition closed_queue (rx : option (Chan F)) : Prop :=
  forall c, rx = Some c -> closed c = true.

(** The queues are closed, the output is gone and no frame is accepted. *)
Record winding (a : ConnectionActor) (st : ActorState) : Prop := {
  wd_state : run_state st <> Active;
  wd_output : active_output a = OutputNone;
  wd_high : closed_queue (high_rx a);
  wd_low : closed_queue (low_rx a)
}.

(** From one machine to another, the frames [fs] were taken from the queues
    and emitted. *)
Record delivers (a : ConnectionActor) (out : list F) (fs : list F)
    (a' : ConnectionActor) (st' : ActorState) (out' : list F) : Prop := {
  dl_out : exists wire, out' = out ++ wire
             /\ emit_all (emitter_of a) fs = Some (emitter_of a', wire);
  dl_winding : winding a' st';
  dl_order gs : interleave (pending (high_rx a')) (pending (low_rx a')) gs ->
                interleave (pending (high_rx a)) (pending (low_rx a)) (fs ++ gs);
  dl_weight : (weight (high_rx a') + weight (low_rx a') <= weight (high_rx a) + weight (low_rx a))%nat
}.

Lemma delivers_refl a st out : winding a st -> delivers a out [] a st out.
Proof. intros Hw. split; try done. exists []. by rewrite app_nil_r. Qed.

Lemma delivers_trans a1 o1 fs a2 s2 o2 gs a3 s3 o3 :
  delivers a1 o1 fs a2 s2 o2 -> delivers a2 o2 gs a3 s3 o3 ->
  delivers a1 o1 (fs ++ gs) a3 s3 o3.
Proof.
  intros [(w1 & -> & E1) W1 O1 L1] [(w2 & -> & E2) W2 O2 L2]. split; [|done| |lia].
  - exists (w1 ++ w2). rewrite app_assoc. split; [done|]. by eapply emit_all_app.
  - intros hs H. rewrite <- app_assoc. by apply O1, O2.
Qed.

(** Changing the tracker changes nothing of this. *)
Lemma delivers_tracker a out fs a' st' out' t :
  delivers a out fs a' st' out' -> delivers a out fs (set_tracker a' t) st' out'.
Proof. intros [H1 [W1 W2 W3 W4] H3 H4]. split; try done. Qed.

Lemma mark_closed_not_active st : run_state st <> Active -> run_state (mark_closed st) <> Active.
Proof. intros H. unfold mark_closed. simpl. by case_decide. Qed.

(** One frame emitted. *)
Lemma emit_one a a' f s wire :
  emit (emitter_of a) f = Some (s, wire) ->
  emit_all (emitter_of a) [f] = Some (emitter_of (with_emitter a' s), wire).
Proof. intros E. simpl. rewrite E. simpl. rewrite app_nil_r. by destruct s. Qed.

(** The low queue gives up its first frame. *)
Lemma pop_low a st out c f q c' s wire :
  winding a st -> low_rx a = Some c -> queued c = f :: q -> now_holds c c' q (closed c) ->
  emit (emitter_of a) f = Some (s, wire) ->
  delivers a out [f] (with_emitter (set_low_rx a (Some c')) s) st (out ++ wire).
Proof.
  intros [W1 W2 W3 W4] Hl Hq (Hq' & _ & Hc) He. split.
  - exists wire. split; [done|]. by apply emit_one.
  - split; try done. intros d [= <-]. rewrite Hc. by apply W4.
  - intros gs H. rewrite Hl. simpl in *. rewrite Hq. rewrite Hq' in H. by apply il_right.
  - rewrite Hl. simpl. rewrite Hq, Hq'. simpl. lia.
Qed.

(** The low queue is found closed. *)
Lemma drop_low a st out c :
  winding a st -> low_rx a = Some c -> queued c = [] ->
  delivers a out [] (set_low_rx a None) (mark_closed st) out.
Proof.
  intros [W1 W2 W3 W4] Hl Hq. split.
  - exists []. by rewrite app_nil_r.
  - split; try done. by apply mark_closed_not_active.
  - intros gs H. rewrite Hl. simpl in *. by rewrite Hq.
  - rewrite Hl. simpl. lia.
Qed.

Lemma pop_high a st out c f q c' s wire :
  winding a st -> high_rx a = Some c -> queued c = f :: q -> now_holds c c' q (closed c) ->
  emit (emitter_of a) f = Some (s, wire) ->
  delivers a out [f] (with_emitter (set_high_rx a (Some c')) s) st (out ++ wire).
Proof.
  intros [W1 W2 W3 W4] Hl Hq (Hq' & _ & Hc) He. split.
  - exists wire. split; [done|]. by apply emit_one.
  - split; try done. intros d [= <-]. rewrite Hc. by apply W3.
  - intros gs H. rewrite Hl. simpl in *. rewrite Hq. rewrite Hq' in H. by apply il_left.
  - rewrite Hl. simpl. rewrite Hq, Hq'. simpl. lia.
Qed.

Lemma drop_high a st out c :
  winding a st -> high_rx a = Some c -> queued c = [] ->
  delivers a out [] (set_high_rx a None) (mark_closed st) out.
Proof.
  intros [W1 W2 W3 W4] Hl Hq. split.
  - exists []. by rewrite app_nil_r.
  - split; try done. by apply mark_closed_not_active.
  - intros gs H. rewrite Hl. simpl in *. by rewrite Hq.
  - rewrite Hl. simpl. lia.
Qed.

(** The opportunistic drains of a burst. *)
Lemma low_drain_winds a st out :
  winding a st ->
  (is_Some (actor_fragmenter a) /\ try_opportunistic_low_drain a st out = None)
  \/ exists fs a' st' out' b,
       try_opportunistic_low_drain a st out = Some (a', st', out', b)
       /\ delivers a out fs a' st' out'.
Proof.
  intros W. unfold try_opportunistic_low_drain.
  destruct (low_rx a) as [c|] eqn:Hl.
  2: { right. exists [], a, st, out, false. split; [done|]. by apply delivers_refl. }
  destruct (queued c) as [|f q] eqn:Hq.
  - rewrite (try_recv_disconnected _ c Hq (wd_low _ _ W _ Hl)). right.
    exists [], (set_low_rx a None), (mark_closed st), out, false. split; [done|].
    by eapply drop_low.
  - destruct (try_recv_frame _ c f q Hq) as (c' & -> & Hh). rewrite process_frame_emit.
    change (emitter_of (set_low_rx a (Some c'))) with (emitter_of a).
    destruct (emit (emitter_of a) f) as [[s wire]|] eqn:He; simpl.
    + right. do 5 eexists. split; [reflexivity|]. apply delivers_tracker. by eapply pop_low.
    + left. by apply emit_none in He.
Qed.

Lemma after_high_winds a st out t1 t2 :
  winding a st ->
  (is_Some (actor_fragmenter a) /\ after_high a st out t1 t2 = None)
  \/ exists fs a' st' out',
       after_high a st out t1 t2 = Some (a', st', out') /\ delivers a out fs a' st' out'.
Proof.
  intros W. unfold after_high. set (a1 := set_tracker a _).
  assert (winding a1 st) as W1 by (destruct W; by split).
  destruct (negb _).
  { right. exists [], a1, st, out. split; [done|]. by apply delivers_tracker, delivers_refl. }
  destruct (low_drain_winds a1 st out W1) as [[Hs ->]|(fs & a' & st' & out' & b & -> & D)];
    [by left|].
  right. simpl. assert (delivers a out fs a' st' out') as D' by (destruct D; by split).
  destruct b; [by eauto 6|]. unfold try_opportunistic_multi_drain.
  rewrite (wd_output _ _ (dl_winding _ _ _ _ _ _ D)). simpl. eauto 6.
Qed.

(** Every poll of an actor that winds down takes frames from its queues in
    order, emits them, and is one poll closer to the end. *)
Lemma winding_poll a st out t1 t2 :
  winding a st -> accounts a st -> is_done st = false ->
  (is_Some (actor_fragmenter a) /\ poll_sources (a, st, out) t1 t2 = Panicked)
  \/ exists fs a' st' out',
       poll_sources (a, st, out) t1 t2 = Stepped (a', st', out') (Ok tt)
       /\ delivers a out fs a' st' out'
       /\ (weight (high_rx a') + weight (low_rx a') < weight (high_rx a) + weight (low_rx a))%nat.
Proof.
  intros W Ha Hd. unfold poll_sources. rewrite next_event_polls.
  replace (poll_shutdown a st) with (@None (option (ConnectionActor * Event))).
  2: { unfold poll_shutdown, is_active. rewrite bool_decide_false; [done|]. apply W. }
  unfold poll_high. destruct (high_rx a) as [c|] eqn:Hh; cbn [mbind option_bind].
  - destruct (queued c) as [|f q] eqn:Hq.
    + rewrite (recv_closed _ c Hq (wd_high _ _ W _ Hh)). right. simpl.
      do 4 eexists. split; [reflexivity|]. split; [|simpl; lia].
      apply delivers_tracker.
      by apply (drop_high a st out c).
    + destruct (recv_frame _ c f q Hq) as (c' & -> & Hc). cbn -[after_high].
      rewrite process_frame_emit. simpl.
      change (emitter_of (set_high_rx a (Some c'))) with (emitter_of a).
      destruct (emit (emitter_of a) f) as [[s wire]|] eqn:He; simpl;
        [|left; by apply emit_none in He].
      pose proof (pop_high a st out c f q c' s wire W Hh Hq Hc He) as D.
      set (a1 := with_emitter _ s) in *.
      assert (weight (high_rx a1) + weight (low_rx a1) < S (length (queued c)) + weight (low_rx a))%nat
        as Hlt by (simpl; rewrite (proj1 Hc), Hq; simpl; lia).
      destruct (after_high_winds a1 st (out ++ wire) t1 t2 (dl_winding _ _ _ _ _ _ D))
        as [[Hs ->]|(fs & a' & st' & out' & -> & D')].
      * left. split; [|done]. apply emit_keeps in He. by apply He.
      * right. simpl. do 4 eexists. split; [reflexivity|].
        split; [by eapply delivers_trans|]. pose proof (dl_weight _ _ _ _ _ _ D'). lia.
  - unfold poll_low. destruct (low_rx a) as [c|] eqn:Hl; cbn [mbind option_bind].
    + destruct (queued c) as [|f q] eqn:Hq.
      * rewrite (recv_closed _ c Hq (wd_low _ _ W _ Hl)). right. simpl.
        do 4 eexists. split; [reflexivity|]. split; [|simpl; rewrite Hh; simpl; lia].
        by apply (drop_low a st out c).
      * destruct (recv_frame _ c f q Hq) as (c' & -> & Hc). simpl.
        unfold forward_queue_frame. simpl. rewrite process_frame_emit.
        change (emitter_of (set_low_rx a (Some c'))) with (emitter_of a).
        destruct (emit (emitter_of a) f) as [[s wire]|] eqn:He; simpl;
          [|left; by apply emit_none in He].
        right. do 4 eexists. split; [reflexivity|]. split.
        -- apply delivers_tracker. by eapply pop_low.
        -- simpl. rewrite Hh, (proj1 Hc), Hq. simpl. lia.
    + exfalso. unfold is_done in Hd. apply bool_decide_eq_false in Hd. apply Hd, Ha.
      unfold sources. by rewrite Hh, Hl, (wd_output _ _ W).
Qed.
Lemma winding_run n : forall a st out t,
  winding a st -> accounts a st -> (weight (high_rx a) + weight (low_rx a) <= n)%nat ->
  (is_Some (actor_fragmenter a) /\ run_loop n (a, st, out) t = RunPanicked)
  \/ exists fs a' wire,
       run_loop n (a, st, out) t = Returned a' (out ++ wire) (Ok tt) /\ counter a' = false
       /\ interleave (pending (high_rx a)) (pending (low_rx a)) fs
       /\ emit_all (emitter_of a) fs = Some (emitter_of a', wire).
Proof.
  induction n as [|n IH]; intros a st out t W Ha Hn.
  all: destruct (is_done st) eqn:Hd; cbn [run_loop fst snd]; rewrite Hd.
  1,3: right; exists [], (release_counter a), []; rewrite app_nil_r; split_and!; try done;
    unfold is_done in Hd; apply bool_decide_eq_true, Ha in Hd; revert Hd;
    unfold sources, open_queue; rewrite (wd_output _ _ W); simpl;
    destruct (high_rx a), (low_rx a); (lia || constructor).
  - exfalso. destruct (high_rx a) eqn:Hh, (low_rx a) eqn:Hl; simpl in Hn; try lia.
    unfold is_done in Hd. apply bool_decide_eq_false in Hd. apply Hd, Ha.
    unfold sources. by rewrite Hh, Hl, (wd_output _ _ W).
  - pose proof (winding_poll a st out t t W Ha Hd) as Hp.
    destruct Hp as [[Hs ->]|(fs & a' & st' & out' & Hp & D & Hlt)]; [by left|].
    rewrite Hp. apply bool_decide_eq_false in Hd.
    pose proof (poll_accounts (a, st, out) t t _ Ha Hd Hp) as Ha'. cbn [fst snd] in Ha'.
    destruct D as [(wire & -> & E) W' O _].
    destruct (IH a' st' (out ++ wire) t W' Ha' ltac:(lia))
      as [[Hs ->]|(gs & a2 & wire2 & -> & Hc & Hi & E2)].
    + left. split; [|done]. apply emit_all_keeps in E. by apply E.
    + right. exists (fs ++ gs), a2, (wire ++ wire2). rewrite app_assoc.
      split_and!; [done|done|by apply O|by eapply emit_all_app].
Qed.

(** Shutdown closes the queues and keeps what is in them. *)
Lemma shutdown_winds a st :
  run_state st = Active ->
  let m := process_shutdown a st in
  winding m.1 m.2
  /\ pending (high_rx m.1) = pending (high_rx a) /\ pending (low_rx m.1) = pending (low_rx a)
  /\ weight (high_rx m.1) = weight (high_rx a) /\ weight (low_rx m.1) = weight (low_rx a)
  /\ actor_fragmenter m.1 = actor_fragmenter a.
Proof.
  intros Hs. simpl.
  assert (forall rx : option (Chan F), closed_queue (close <$> rx)
    /\ pending (close <$> rx) = pending rx /\ weight (close <$> rx) = weight rx) as Hq.
  { intros [c|]; [|done]. destruct (close_law _ c) as (E & _ & Hc). simpl.
    rewrite E. split_and!; try done. by intros d [= <-]. }
  pose proof (Hq (high_rx a)) as (H1 & H2 & H3). pose proof (Hq (low_rx a)) as (L1 & L2 & L3).
  assert (run_state (state_start_shutdown st) <> Active) as Hs' by (simpl; by rewrite Hs).
  destruct (active_output a) as [|s|ctx]; simpl; split_and!; try done; split; try done;
    try by apply mark_closed_not_active.
  destruct (mp_channel ctx); [by apply mark_closed_not_active|done].
Qed.
End winding.

(** C5: Cancelling a running actor loses no queued frame.  Take an actor whose
    low queue was not taken away before the run ([set_low_queue] with [None]).
    One poll sees the cancellation and closes the queues and the output; within
    as many polls as there are queued frames and open queues, [run] returns with
    the connection counter released, having processed an interleaving of the
    two queues' frames that keeps the order of each.  Without fragmentation
    what it emits is exactly these frames, each through the [before_send] hook.
    With fragmentation it is their fragments, less the frames the fragmenter
    refuses, which are logged and dropped; and the run panics instead if the
    fragmenter's message counter is exhausted. *)
Theorem shutdown_drains_queues {B : BytesCrate} {C : Bincode} {Q : Mpsc} {QL : MpscLaws Q}
    {F : Type} {P : Packet F} {A : Actor F}
    (a0 a : ConnectionActor) (st : ActorState) (out : list F) (t : Z) :
  configured a0 -> reachable a0 (a, st, out) -> is_active st = true -> shutdown a = true ->
  let polls := (1 + weight (high_rx a) + weight (low_rx a))%nat in
  (exists fs a' wire,
     run_loop polls (a, st, out) t = Returned a' (out ++ wire) (Ok tt) /\ counter a' = false
     /\ interleave (pending (high_rx a)) (pending (low_rx a)) fs
     /\ emit_all (emitter_of (process_shutdown a st).1) fs = Some (emitter_of a', wire)
     /\ (actor_fragmenter a = None -> wire = (hooked (world (process_shutdown a st).1) fs).2))
  \/ (is_Some (actor_fragmenter a) /\ run_loop polls (a, st, out) t = RunPanicked).
Proof.
  intros Hc Hr Hact Hsd. apply bool_decide_eq_true in Hact.
  pose proof (reachable_accounts _ _ Hc Hr) as Ha. simpl in Ha.
  pose proof (shutdown_accounts a st Ha Hact) as Ha1.
  destruct (shutdown_winds a st Hact) as (W & Ph & Pl & Wh & Wl & Ef).
  cbv zeta. change (1 + weight (high_rx a) + weight (low_rx a))%nat
    with (S (weight (high_rx a) + weight (low_rx a))).
  assert (forall n, run_loop (S n) (a, st, out) t
    = run_loop n ((process_shutdown a st).1, (process_shutdown a st).2, out) t) as ->.
  { intros n. cbn [run_loop fst snd]. unfold is_done. rewrite Hact, bool_decide_false by done.
    unfold poll_sources. rewrite next_event_polls. unfold poll_shutdown, is_active.
    rewrite Hact, bool_decide_true by done.
    rewrite Hsd. cbn [select dispatch_event]. by destruct (process_shutdown a st). }
  set (m := process_shutdown a st) in *. clearbody m.
  destruct (winding_run (weight (high_rx a) + weight (low_rx a)) m.1 m.2 out t W Ha1 ltac:(lia))
    as [[Hs E]|(fs & a' & wire & E1 & E2 & E3 & E4)].
  - right. by rewrite <- Ef.
  - left. exists fs, a', wire. rewrite <- Ph, <- Pl. split_and!; try done.
    intros Hno. eapply emit_all_whole; [exact E4|]. by rewrite <- Hno.
Qed.

(** Envelopes to send. *)
Definition demo_frame (n : Z) : Envelope := mk_Envelope n None [n].

Lemma shutdown_drains_queues_witness :
  exists fs wire (a' : ConnectionActor (Q := list_mpsc) (A := demo_actor)),
    run_loop (B := reference_bytes) (C := varint_bincode) 6
      (demo_with_hooks (demo_chan [demo_frame 1; demo_frame 2] false)
         (demo_chan [demo_frame 3] false) None true (0, 0), ActorState_new false false, []) 0
    = Returned a' ([] ++ wire) (Ok tt)
    /\ interleave [demo_frame 1; demo_frame 2] [demo_frame 3] fs.
Proof.
  set (a := demo_with_hooks (demo_chan [demo_frame 1; demo_frame 2] false)
         (demo_chan [demo_frame 3] false) None true (0, 0)).
  set (a0 := demo_with_hooks (demo_chan [demo_frame 1; demo_frame 2] false)
         (demo_chan [demo_frame 3] false) None false (0, 0)).
  assert (reachable (B := reference_bytes) (C := varint_bincode) a0
    (a, ActorState_new false false, [])) as Hr.
  { apply (reach_env a0 a0); [apply reach_start with (out := []); reflexivity|].
    split_and!; [reflexivity|reflexivity|exact I]. }
  destruct (shutdown_drains_queues (QL := list_mpsc_laws) (B := reference_bytes)
    (C := varint_bincode) a0 a (ActorState_new false false) [] 0 (conf_new _ _ _ _ _) Hr
    eq_refl eq_refl) as [(fs & a' & wire & H1 & _ & H2 & _)|[[fr Hf] _]]; [|discriminate].
  exists fs, wire, a'. exact (conj H1 H2).
Defined.

(** ** Fairness *)

Section schedule.
Context {B : BytesCrate} {C : Bincode} {Q : Mpsc} {QL : MpscLaws Q}.
Context {F : Type} {P : Packet F} {A : Actor F}.
Implicit Types (a : ConnectionActor) (st : ActorState) (out : list F) (f : F).

(** An actor that is not cancelled takes its next frame from the high queue. *)
Lemma poll_takes_high a st out c f q t1 t2 s wire :
  is_done st = false -> shutdown a = false -> high_rx a = Some c -> queued c = f :: q ->
  emit (emitter_of a) f = Some (s, wire) ->
  exists c', now_holds c c' q (closed c)
    /\ poll_sources (a, st, out) t1 t2
       = match after_high (with_emitter (set_high_rx a (Some c')) s) st (out ++ wire) t1 t2 with
         | Some m => Stepped m (Ok tt)
         | None => Panicked
         end.
Proof.
  intros Hd Hs Hh Hq He. destruct (recv_frame _ c f q Hq) as (c' & Hr & Hc).
  exists c'. split; [done|]. unfold poll_sources. rewrite next_event_polls.
  unfold poll_shutdown, poll_high.
  rewrite Hs, Hh. cbn [mbind option_bind]. rewrite Hr.
  assert (forall (x : bool) l, select a ((if x then Some None else None)
    :: Some (Some (set_high_rx a (Some c'), EventHigh (Some f))) :: l) false
    = Some (set_high_rx a (Some c'), EventHigh (Some f))) as Hsel by by intros [].
  cbn [fmap option_fmap option_map fst snd]. rewrite Hsel.
  cbn [dispatch_event process_queue]. unfold forward_queue_frame. simpl.
  rewrite process_frame_emit. change (emitter_of (set_high_rx a (Some c'))) with (emitter_of a).
  rewrite He. simpl. by destruct (after_high _ _ _ _ _).
Qed.

(** A burst that is not over. *)
Lemma after_high_continues a st out t1 t2 :
  should_yield_to_low_priority (record_high_priority (fairness a) t1) t2 = false ->
  after_high a st out t1 t2
  = Some (set_tracker a (record_high_priority (fairness a) t1), st, out).
Proof. intros H. unfold after_high. cbn [fairness set_tracker]. by rewrite H. Qed.

(** A burst that is over lets the low queue through. *)
Lemma after_high_yields a st out t1 t2 d g r s wire :
  should_yield_to_low_priority (record_high_priority (fairness a) t1) t2 = true ->
  low_rx a = Some d -> queued d = g :: r -> emit (emitter_of a) g = Some (s, wire) ->
  exists d', now_holds d d' r (closed d)
    /\ after_high a st out t1 t2
       = Some (set_tracker (with_emitter (set_low_rx a (Some d')) s)
                 (fairness_reset (record_high_priority (fairness a) t1)), st, out ++ wire).
Proof.
  intros H Hl Hq He. destruct (try_recv_frame _ d g r Hq) as (d' & Hr & Hd).
  exists d'. split; [done|]. unfold after_high. cbn [fairness set_tracker]. rewrite H.
  unfold try_opportunistic_low_drain. cbn [low_rx set_tracker negb]. rewrite Hl, Hr.
  rewrite process_frame_emit.
  change (emitter_of (set_low_rx _ (Some d'))) with (emitter_of a). by rewrite He.
Qed.
Lemma burst_snoc cfg ts t : burst cfg (ts ++ [t]) = record_high_priority (burst cfg ts) t.
Proof. unfold burst. by rewrite foldl_app. Qed.

Lemma burst_reset cfg ts :
  len ts < usize_max -> fairness_reset (burst cfg ts) = FairnessTracker_new cfg.
Proof. intros H. by rewrite burst_state. Qed.

Lemma burst_yields_by_count cfg ts now :
  time_slice cfg = None -> 0 < max_high_before_low cfg -> len ts < usize_max ->
  should_yield_to_low_priority (burst cfg ts) now
  = bool_decide (max_high_before_low cfg <= len ts).
Proof.
  intros Hs Hm Hl. rewrite burst_state by done. unfold should_yield_to_low_priority.
  cbn [config high_counter high_start]. rewrite Hs.
  case_decide; case_bool_decide; tauto.
Qed.

Lemma burst_schedule hs : forall a st out t ts c rest d g r cfg s wire,
  is_done st = false -> shutdown a = false ->
  high_rx a = Some c -> queued c = hs ++ rest -> low_rx a = Some d -> queued d = g :: r ->
  fairness a = burst cfg ts -> time_slice cfg = None -> hs <> [] ->
  max_high_before_low cfg = len ts + len hs -> max_high_before_low cfg < usize_max ->
  emit_all (emitter_of a) (hs ++ [g]) = Some (s, wire) ->
  exists a', run_loop (length hs) (a, st, out) t = Running (a', st, out ++ wire)
    /\ emitter_of a' = s /\ fairness a' = FairnessTracker_new cfg
    /\ pending (high_rx a') = rest /\ pending (low_rx a') = r.
Proof.
  induction hs as [|f hs IH]; [done|].
  intros a st out t ts c rest d g r cfg s wire Hd Hs Hh Hq Hl Hr Hf Hts _ Hmax Hus He.
  simpl in He. destruct (emit (emitter_of a) f) as [[s1 w1]|] eqn:He1; [|done]. simpl in He.
  destruct (emit_all s1 (hs ++ [g])) as [[s2 w2]|] eqn:He2; [|done]. simpl in He.
  injection He as <- <-. cbn [length run_loop fst snd]. rewrite Hd.
  destruct (poll_takes_high a st out c f (hs ++ rest) t t s1 w1 Hd Hs Hh Hq He1)
    as (c' & (Hc' & _) & ->). set (a1 := with_emitter _ s1).
  assert (emitter_of a1 = s1) as Em by by destruct s1.
  assert (len (f :: hs) = 1 + len hs) as Elen by (unfold len; simpl; lia).
  pose proof (len_nonneg hs). pose proof (len_nonneg ts).
  assert (len (ts ++ [t]) = len ts + 1) as Ets by by rewrite len_app.
  assert (record_high_priority (fairness a1) t = burst cfg (ts ++ [t])) as Eb
    by (rewrite burst_snoc; simpl; by rewrite Hf).
  assert (should_yield_to_low_priority (burst cfg (ts ++ [t])) t
          = bool_decide (max_high_before_low cfg <= len (ts ++ [t]))) as Ey
    by (apply burst_yields_by_count; [done|lia..]).
  rewrite app_assoc. destruct hs as [|f' hs].
  - simpl in He2. destruct (emit s1 g) as [[s3 w3]|] eqn:He3; [|done].
    simpl in He2. injection He2 as <- <-. rewrite app_nil_r.
    destruct (after_high_yields a1 st (out ++ w1) t t d g r s3 w3) as (d' & (Hd' & _) & ->);
      [|done|done|by rewrite Em|].
    { rewrite Eb, Ey. apply bool_decide_true. unfold len in *. simpl in *. lia. }
    cbn [length run_loop fst snd]. rewrite Hd. eexists. split; [reflexivity|].
    split_and!; [by destruct s3| |by simpl|by simpl].
    cbn [fairness set_tracker]. rewrite Eb. apply burst_reset.
    unfold len in *; simpl in *; lia.
  - rewrite after_high_continues.
    2: { rewrite Eb, Ey. apply bool_decide_false. unfold len in *. simpl in *. lia. }
    apply (IH _ st (out ++ w1) t (ts ++ [t]) c' rest d g r cfg s2 w2); try done.
    unfold len in *; simpl in *; lia.
Qed.
End schedule.

(** The fairness limit is exact.  If the high queue always has a frame and
    a low-priority frame waits, an actor whose burst starts afresh and whose
    configuration has no time slice emits exactly [max_high_before_low]
    high-priority frames, then the first low-priority one, and starts a new
    burst: no high-priority load, however long, holds a low-priority frame back
    for more. *)
Theorem low_frame_after_full_burst {B : BytesCrate} {C : Bincode} {Q : Mpsc} {QL : MpscLaws Q}
    {F : Type} {P : Packet F} {A : Actor F} (a : ConnectionActor) (st : ActorState)
    (out : list F) (t : Z) (c d : Chan F) (hs rest : list F) (g : F) (r : list F)
    (cfg : FairnessConfig) (s : emitter) (wire : list F) :
  is_done st = false -> shutdown a = false ->
  high_rx a = Some c -> queued c = hs ++ rest -> low_rx a = Some d -> queued d = g :: r ->
  fairness a = FairnessTracker_new cfg -> time_slice cfg = None ->
  1 <= max_high_before_low cfg < usize_max -> max_high_before_low cfg = len hs ->
  emit_all (emitter_of a) (hs ++ [g]) = Some (s, wire) ->
  exists a', run_loop (length hs) (a, st, out) t = Running (a', st, out ++ wire)
    /\ emitter_of a' = s /\ fairness a' = FairnessTracker_new cfg
    /\ pending (high_rx a') = rest /\ pending (low_rx a') = r.
Proof.
  intros Hd Hs Hh Hq Hl Hr Hf Hts Hmax Hlen He.
  apply (burst_schedule hs a st out t [] c rest d g r cfg s wire); try done.
  - intros ->. unfold len in *. simpl in *. lia.
  - lia.
Qed.

Lemma low_frame_after_full_burst_witness :
  exists a' : ConnectionActor (Q := list_mpsc) (A := demo_actor),
    run_loop (B := reference_bytes) (C := varint_bincode) 2
      (set_fairness (demo_with_hooks (demo_chan [demo_frame 1; demo_frame 2; demo_frame 3] false)
         (demo_chan [demo_frame 4; demo_frame 5] false) None false (0, 0))
         (mk_FairnessConfig 2 None), ActorState_new false false, []) 0
    = Running (a', ActorState_new false false,
        [] ++ [demo_frame 1; demo_frame 2; demo_frame 4]).
Proof.
  destruct (low_frame_after_full_burst (QL := list_mpsc_laws) (B := reference_bytes)
    (C := varint_bincode)
    (set_fairness (demo_with_hooks (demo_chan [demo_frame 1; demo_frame 2; demo_frame 3] false)
         (demo_chan [demo_frame 4; demo_frame 5] false) None false (0, 0))
         (mk_FairnessConfig 2 None)) (ActorState_new false false) [] 0
    (demo_chan [demo_frame 1; demo_frame 2; demo_frame 3] false)
    (demo_chan [demo_frame 4; demo_frame 5] false)
    [demo_frame 1; demo_frame 2] [demo_frame 3] (demo_frame 4) [demo_frame 5]
    (mk_FairnessConfig 2 None) ((3, 0), None) [demo_frame 1; demo_frame 2; demo_frame 4])
    as (a' & H & _); try reflexivity; [split; [vm_compute; congruence|vm_compute; reflexivity]|].
  exists a'. exact H.
Defined.

(** ** Stamping *)

Section stamping.
Context {B : BytesCrate} {C : Bincode} {Q : Mpsc}.
Context {F : Type} {P : Packet F} {A : Actor F}.
Context {CL : CorrelatableFrameLaws F} {PL : PacketLaws F}.
Implicit Types (a : ConnectionActor) (st : ActorState) (out : list F) (f : F).

(** The hooks leave correlation identifiers alone. *)
Definition hooks_keep_correlation : Prop :=
  forall (w : World) (f : F), correlation_id (before_send w f).2 = correlation_id f.

Hypothesis Hooks : hooks_keep_correlation.

Definition stamped (cid : option Z) (fs : list F) : Prop :=
  Forall (fun f => correlation_id f = cid) fs.

Lemma hooked_stamped cid frames : forall w,
  stamped cid frames -> stamped cid (hooked w frames).2.
Proof.
  induction frames as [|f frames IH]; intros w; [done|]. intros [Hf Hfs]%Forall_cons.
  simpl. pose proof (Hooks w f) as Hw. destruct (before_send w f) as [w' f']. simpl in Hw.
  specialize (IH w' Hfs). destruct (hooked w' frames). constructor; [congruence|done].
Qed.

(** A frame's fragments carry its identifier. *)
Lemma emit_stamped s f s' fs :
  emit s f = Some (s', fs) -> stamped (correlation_id f) fs.
Proof.
  unfold emit. destruct s.2 as [fr|].
  - destruct (fragment_packet fr f) as [[[frames|e] fr']|] eqn:Ef; simpl; [| |done].
    + apply fragment_packet_parts in Ef.
      assert (stamped (correlation_id f) frames) as Hs.
      { eapply Forall_impl; [exact Ef|]. intros e [_ H]. simpl in H.
        by rewrite !into_parts_correlation in H. }
      apply (hooked_stamped _ _ s.1) in Hs. destruct (hooked s.1 frames). by intros [= _ <-].
    + intros [= _ <-]. constructor.
  - pose proof (Hooks s.1 f) as Hw. destruct (before_send s.1 f) as [w f']. simpl in Hw.
    intros [= _ <-]. by repeat constructor.
Qed.

Lemma emit_multi_stamped a ctx cid f out a' out' :
  active_output a = OutputMultiPacket ctx -> mp_stamp ctx = StampEnabled cid ->
  emit_multi_packet_frame a f out = Some (a', out') ->
  exists fs, out' = out ++ fs /\ stamped cid fs.
Proof.
  intros Ho Hs. unfold emit_multi_packet_frame, apply_multi_packet_correlation.
  rewrite Ho, process_frame_emit. unfold is_stamping_enabled, mp_correlation_id. rewrite Hs.
  cbn [negb]. destruct (emit _ _) as [[s fs]|] eqn:Ee; [|done]. simpl. intros [= _ <-].
  exists fs. split; [done|]. apply emit_stamped in Ee. by rewrite correlation_id_set in Ee.
Qed.

Lemma multi_closed_stamped a ctx cid st out m :
  active_output a = OutputMultiPacket ctx -> mp_stamp ctx = StampEnabled cid ->
  handle_multi_packet_closed a st out = Some m ->
  active_output m.1.1 = OutputNone /\ m.1.2 = mark_closed st
  /\ exists fs, m.2 = out ++ fs /\ stamped cid fs.
Proof.
  intros Ho Hs. unfold handle_multi_packet_closed. rewrite Ho. simpl.
  destruct (stream_end_frame (world a)) as [w [f|]].
  - destruct (emit_multi_packet_frame _ f out) as [[a' out']|] eqn:Ee; [|done].
    simpl. intros [= <-]. split; [done|]. split; [done|].
    eapply emit_multi_stamped in Ee; [exact Ee|reflexivity|exact Hs].
  - simpl. intros [= <-]. split; [done|]. split; [done|]. exists []. rewrite app_nil_r.
    by split; [|constructor].
Qed.
End stamping.

(** Frames of a multi-packet channel carry the channel's correlation
    identifier, its end-of-stream frame and the fragments of each included,
    whether they are taken in turn or drained after a burst; when the channel
    ends the output is cleared and one source is closed.  (The hooks are
    supposed to leave correlation identifiers alone.) *)
Theorem multi_packet_frames_stamped {B : BytesCrate} {C : Bincode} {Q : Mpsc} {F : Type}
    {P : Packet F} {A : Actor F} {CL : CorrelatableFrameLaws F} {PL : PacketLaws F}
    (a : ConnectionActor) (ctx : MultiPacketContext) (cid : option Z) (st : ActorState)
    (out : list F) :
  hooks_keep_correlation ->
  active_output a = OutputMultiPacket ctx -> mp_stamp ctx = StampEnabled cid ->
  (forall res t1 t2 m r,
     dispatch_event a (EventMultiPacket res) st out t1 t2 = Some (m, r) ->
     (exists fs, m.2 = out ++ fs /\ stamped cid fs)
     /\ (res = None -> active_output m.1.1 = OutputNone /\ m.1.2 = mark_closed st))
  /\ (forall m b, try_opportunistic_multi_drain a st out = Some (m, b) ->
      exists fs, m.2 = out ++ fs /\ stamped cid fs).
Proof.
  intros Hooks Ho Hs. split.
  - intros [f|] t1 t2 m r; simpl.
    + unfold forward_queue_frame. simpl. rewrite Ho. unfold is_stamping_enabled. rewrite Hs.
      destruct (emit_multi_packet_frame a f out) as [[a' out']|] eqn:Ee; [|done].
      simpl. intros [= <- _]. split; [|done]. by eapply emit_multi_stamped.
    + destruct (handle_multi_packet_closed a st out) as [m'|] eqn:Em; [|done].
      simpl. intros [= -> _]. by eapply multi_closed_stamped in Em as (H1 & H2 & H3).
  - intros m b. unfold try_opportunistic_multi_drain. rewrite Ho.
    assert (exists fs, out = out ++ fs /\ stamped cid fs) as Hnone.
    { exists []. rewrite app_nil_r. by split; [|constructor]. }
    destruct (mp_channel ctx) as [c|]; [|by intros [= <- _]].
    destruct (try_recv c) as [c' [f|[|]]].
    + destruct (emit_multi_packet_frame _ f out) as [[a' out']|] eqn:Ee; [|done].
      simpl. intros [= <- _]. eapply emit_multi_stamped in Ee; [exact Ee|done|done|exact Hs].
    + by intros [= <- _].
    + destruct (handle_multi_packet_closed _ st out) as [m'|] eqn:Em; [|done].
      simpl. intros [= <- _]. eapply multi_closed_stamped in Em; [apply Em|done|done|exact Hs].
Qed.

Lemma multi_packet_frames_stamped_witness :
  exists m fs,
    dispatch_event (B := reference_bytes) (C := varint_bincode) (Q := list_mpsc) (A := demo_actor)
      (set_multi_packet_with_correlation
         (demo_with_hooks (demo_chan [] false) (demo_chan [] false) None false (0, 0))
         (Some (demo_chan [] true)) (Some 7)).1
      (EventMultiPacket None) (ActorState_new false true) [] 0 0 = Some (m, Ok tt)
    /\ m.2 = [] ++ fs /\ stamped (Some 7) fs /\ fs = [mk_Envelope 99 (Some 7) []].
Proof.
  set (a := (set_multi_packet_with_correlation
         (demo_with_hooks (demo_chan [] false) (demo_chan [] false) None false (0, 0))
         (Some (demo_chan [] true)) (Some 7)).1).
  set (d := dispatch_event (B := reference_bytes) (C := varint_bincode) a
    (EventMultiPacket None) (ActorState_new false true) [] 0 0).
  set (m := match d with Some (m, _) => m | None => (a, ActorState_new false true, []) end).
  assert (d = Some (m, Ok tt)) as Hd by reflexivity.
  destruct (multi_packet_frames_stamped (B := reference_bytes) (C := varint_bincode)
    a (mk_MultiPacketContext (Some (demo_chan [] true)) (StampEnabled (Some 7))) (Some 7)
    (ActorState_new false true) [] (fun w f => eq_refl) eq_refl eq_refl) as [Hall _].
  destruct (Hall None 0 0 m (Ok tt) Hd) as [(fs & E & Hfs) _].
  exists m, fs. split; [exact Hd|]. split; [exact E|]. split; [exact Hfs|].
  simpl in E. rewrite <- E. reflexivity.
Defined.

(** C40: An actor whose low-priority queue was taken away ([set_low_queue] with
    [None]) still counts it as a source.  Once the high queue is closed and
    empty no source is left, and yet after a cancellation the loop never ends:
    it polls idle events for ever. *)
Theorem removed_low_queue_never_finishes {B : BytesCrate} {C : Bincode} {Q : Mpsc}
    {QL : MpscLaws Q} {F : Type} {P : Packet F} {A : Actor F} (high low : Chan F) (w : World)
    (out : list F) (t : Z) :
  queued high = [] ->
  let a0 := set_low_queue (ConnectionActor_with_hooks high low None false w) None in
  let a := set_low_queue (ConnectionActor_with_hooks high low None true w) None in
  exists st m, run_start a0 out = Some (a0, st, out) /\ alike a0 a
    /\ sources m.1.1 = 0
    /\ forall n, run_loop (2 + n) (a, st, out) t = Running m.
Proof.
  intros Hq a0 a. exists (ActorState_new false false).
  set (a1 := set_output (set_high_rx a (Some (close high))) OutputNone).
  set (a2 := set_tracker (set_high_rx a1 None) (FairnessTracker_new FairnessConfig_default)).
  set (st2 := mk_ActorState ShuttingDown 2 3). exists (a2, st2, out).
  destruct (close_law _ high) as (Eq & _ & Ec). rewrite Hq in Eq.
  split_and!; [done| |done|].
  { unfold alike. split_and!; done. }
  assert (forall n, run_loop n (a2, st2, out) t = Running (a2, st2, out)) as Hspin
    by by induction n.
  intros n. cbn [Nat.add run_loop fst snd].
  change (poll_sources (a, ActorState_new false false, out) t t)
    with (Stepped (a1, mk_ActorState ShuttingDown 1 3, out) (Ok tt)).
  cbn [run_loop fst snd]. unfold poll_sources, next_event, poll_high. simpl.
  rewrite (recv_closed _ _ Eq Ec). simpl. apply Hspin.
Qed.

Lemma removed_low_queue_never_finishes_witness :
  exists st m,
    forall n, run_loop (B := reference_bytes) (C := varint_bincode) (2 + n)
      (set_low_queue (demo_with_hooks (demo_chan [] false) (demo_chan [] false) None true (0, 0))
         None, st, []) 0 = Running m.
Proof.
  destruct (removed_low_queue_never_finishes (QL := list_mpsc_laws) (B := reference_bytes)
    (C := varint_bincode) (A := demo_actor) (demo_chan [] false) (demo_chan [] false) (0, 0) [] 0
    eq_refl) as (st & m & _ & _ & _ & H).
  exists st, m. exact H.
Defined.

(** ** The end of a command *)

Section command_end.
Context {B : BytesCrate} {C : Bincode} {Q : Mpsc}.
Context {F : Type} {P : Packet F} {A : Actor F}.
Implicit Types (a : ConnectionActor) (st : ActorState) (out : list F) (f : F).

(** [ended] counts the calls of [on_command_end]: that hook adds one and the
    others leave it alone. *)
Record counts_ends (ended : World -> Z) : Prop := {
  ce_end w : ended (on_command_end w) = ended w + 1;
  ce_send w (f : F) : ended (before_send w f).1 = ended w;
  ce_error w e : ended (handle_error w e) = ended w;
  ce_stream w : ended (stream_end_frame w).1 = ended w
}.

Context (ended : World -> Z) (Hends : counts_ends ended).

(** Ends announced and outputs that are still to end. *)
Definition commands (a : ConnectionActor) : Z := ended (world a) + open_output (active_output a).

Lemma hooked_ended frames : forall w, ended (hooked w frames).1 = ended w.
Proof.
  induction frames as [|f frames IH]; intros w; [done|]. simpl.
  pose proof (ce_send _ Hends w f) as Hw. destruct (before_send w f) as [w' f']. simpl in Hw.
  specialize (IH w'). destruct (hooked w' frames). simpl in *. lia.
Qed.

Lemma emit_ended s f s' fs : emit s f = Some (s', fs) -> ended s'.1 = ended s.1.
Proof.
  unfold emit. destruct s.2 as [fr|].
  - destruct (fragment_packet fr f) as [[[frames|e] fr']|]; simpl; [| |done].
    + pose proof (hooked_ended frames s.1) as Hh. destruct (hooked s.1 frames).
      by intros [= <- _].
    + by intros [= <- _].
  - pose proof (ce_send _ Hends s.1 f) as Hw. destruct (before_send s.1 f). by intros [= <- _].
Qed.

Lemma process_frame_ended a f out a' out' :
  process_frame_with_hooks_and_metrics a f out = Some (a', out') ->
  ended (world a') = ended (world a) /\ active_output a' = active_output a.
Proof.
  rewrite process_frame_emit. destruct (emit (emitter_of a) f) as [[s fs]|] eqn:Ee; [|done].
  simpl. intros [= <- _]. apply emit_ended in Ee. done.
Qed.

Lemma process_frame_commands a f out a' out' :
  process_frame_with_hooks_and_metrics a f out = Some (a', out') -> commands a' = commands a.
Proof. unfold commands. by intros [-> ->]%process_frame_ended. Qed.

Lemma multi_closed_commands a st out m :
  is_multi_packet (active_output a) = true ->
  handle_multi_packet_closed a st out = Some m -> commands m.1.1 = commands a.
Proof.
  intros Hm. unfold handle_multi_packet_closed, commands.
  destruct (active_output a) as [| |ctx]; try done. set (a1 := set_output a _).
  pose proof (ce_stream _ Hends (world a)) as Hs. change (world a1) with (world a).
  destruct (stream_end_frame (world a)) as [w [f|]]; simpl in Hs.
  - destruct (emit_multi_packet_frame _ f out) as [[a2 out2]|] eqn:Ee; [|done].
    simpl. intros [= <-]. apply process_frame_ended in Ee as [Ee _]. simpl in *.
    rewrite (ce_end _ Hends). lia.
  - simpl. intros [= <-]. simpl. rewrite (ce_end _ Hends). lia.
Qed.

Lemma low_drain_commands a st out m b :
  try_opportunistic_low_drain a st out = Some (m, b) -> commands m.1.1 = commands a.
Proof.
  unfold try_opportunistic_low_drain. destruct (low_rx a) as [c|]; [|by intros [= <- _]].
  destruct (try_recv c) as [c' [f|[|]]]; try (by intros [= <- _]).
  destruct (process_frame_with_hooks_and_metrics _ f out) as [[a2 out2]|] eqn:Ep; [|done].
  simpl. intros [= <- _]. by apply process_frame_commands in Ep.
Qed.

Lemma multi_drain_commands a st out m b :
  try_opportunistic_multi_drain a st out = Some (m, b) -> commands m.1.1 = commands a.
Proof.
  unfold try_opportunistic_multi_drain.
  destruct (active_output a) as [|s|ctx] eqn:Ho; try (by intros [= <- _]).
  destruct (mp_channel ctx) as [c|]; [|by intros [= <- _]].
  destruct (try_recv c) as [c' r]. set (a1 := set_output a _).
  assert (commands a1 = commands a) as E1 by (unfold commands; simpl; by rewrite Ho).
  destruct r as [f|[|]].
  - destruct (emit_multi_packet_frame a1 f out) as [[a2 out2]|] eqn:Ep; [|done].
    simpl. intros [= <- _]. apply process_frame_commands in Ep. by rewrite <- E1.
  - by intros [= <- _].
  - destruct (handle_multi_packet_closed a1 st out) as [m'|] eqn:Em; [|done].
    simpl. intros [= <- _]. rewrite <- E1. by eapply multi_closed_commands.
Qed.

Lemma after_high_commands a st out t1 t2 m :
  after_high a st out t1 t2 = Some m -> commands m.1.1 = commands a.
Proof.
  unfold after_high. set (a1 := set_tracker a _). destruct (negb _); [by intros [= <-]|].
  destruct (try_opportunistic_low_drain a1 st out) as [[[[a2 st2] out2] b]|] eqn:El; [|done].
  apply low_drain_commands in El. simpl in *. destruct b; [by intros [= <-]|].
  destruct (try_opportunistic_multi_drain a2 st2 out2) as [[m' b']|] eqn:Em; [|done].
  simpl. intros [= <-]. apply multi_drain_commands in Em. by rewrite Em.
Qed.

Lemma queue_commands a k res st out t1 t2 m :
  (k = QueueMulti -> is_multi_packet (active_output a) = true) ->
  process_queue a k res st out t1 t2 = Some m -> commands m.1.1 = commands a.
Proof.
  intros Hk. destruct res as [f|]; simpl.
  - unfold forward_queue_frame.
    set (emitted := if should_emit_multi_packet_frame a k then _ else _).
    assert (forall a' out', emitted = Some (a', out') -> commands a' = commands a) as Hsame
      by (intros a' out'; unfold emitted; destruct (should_emit_multi_packet_frame a k);
          apply process_frame_commands).
    destruct emitted as [[a' out']|]; [|done]. simpl. rewrite <- (Hsame _ _ eq_refl).
    destruct k; [|by intros [= <-]..]. apply after_high_commands.
  - destruct k; simpl; [by intros [= <-]..|]. apply multi_closed_commands. by apply Hk.
Qed.

Lemma response_commands a res st out m :
  is_response (active_output a) = true ->
  process_response a res st out = Some (m, Ok tt) -> commands m.1.1 = commands a.
Proof.
  intros Hr. unfold process_response, handle_response, commands.
  assert (clear_response (active_output a) = OutputNone
    /\ open_output (active_output a) = 1) as [Ec Eo] by by destruct (active_output a).
  destruct res as [[f|e]|].
  - destruct (process_frame_with_hooks_and_metrics a f out) as [[a2 out2]|] eqn:Ep; [|done].
    simpl. intros [= <-]. apply process_frame_commands in Ep. done.
  - destruct e; try done. simpl. intros [= <-]. simpl.
    rewrite (ce_end _ Hends), (ce_error _ Hends), Ec, Eo. simpl. lia.
  - pose proof (ce_stream _ Hends (world a)) as Hs.
    destruct (stream_end_frame (world a)) as [w [f|]]; simpl in *.
    + destruct (process_frame_with_hooks_and_metrics _ f out) as [[a2 out2]|] eqn:Ep; [|done].
      simpl. intros [= <-]. apply process_frame_ended in Ep as [E1 E2]. simpl in *.
      rewrite (ce_end _ Hends), E2, Ec, Eo. simpl. lia.
    + intros [= <-]. simpl. rewrite (ce_end _ Hends), Ec, Eo. simpl. lia.
Qed.

Lemma shutdown_commands a st :
  commands (process_shutdown a st).1
  = commands a - (if is_response (active_output a) then 1 else 0).
Proof.
  unfold process_shutdown, start_shutdown, commands.
  cbn [active_output set_low_rx set_high_rx].
  destruct (active_output a) as [|s|ctx]; simpl; rewrite ?(ce_end _ Hends); lia.
Qed.

Lemma poll_output_commands a av a' e :
  poll_output a av = Some (Some (a', e)) -> commands a' = commands a /\ e <> EventShutdown.
Proof.
  unfold poll_output, commands. destruct av; [done| |];
    destruct (active_output a) as [|s|ctx] eqn:Ho; try done.
  - destruct (mp_channel ctx) as [c|].
    + destruct (recv c) as [[c' r]|]; [|done]. simpl. intros [= <- <-]. by simpl.
    + intros [= <- <-]. by rewrite Ho.
  - destruct (stream_next s) as [[s' r]|]; [|done]. simpl. intros [= <- <-]. by simpl.
Qed.

(** Polling takes a frame from a source, and changes nothing else; it sees a
    cancellation first. *)
Lemma next_event_commands a st a' e :
  next_event a st = Some (a', e) ->
  commands a' = commands a
  /\ match e with
     | EventShutdown => is_active st = true /\ shutdown a = true
                        /\ is_response (active_output a') = is_response (active_output a)
     | _ => is_active st && shutdown a && is_response (active_output a) = false
     end.
Proof.
  rewrite next_event_polls. unfold select.
  destruct (poll_shutdown a st) as [[r|]|] eqn:E0.
  { intros [= ->]. revert E0. unfold poll_shutdown.
    destruct (is_active st), (shutdown a); try done. by intros [= <- <-]. }
  all: assert (is_active st && shutdown a && is_response (active_output a) = false) as Hoff
    by (revert E0; unfold poll_shutdown; by destruct (is_active st), (shutdown a)).
  all: destruct (poll_high a) as [[r|]|] eqn:E1;
    [intros [= ->]; revert E1; unfold poll_high; destruct (high_rx a) as [c|]; [|done]; simpl;
     destruct (recv c); [|done]; simpl; by intros [= <- <-]| |].
  all: destruct (poll_low a) as [[r|]|] eqn:E2;
    [intros [= ->]; revert E2; unfold poll_low; destruct (low_rx a) as [c|]; [|done]; simpl;
     destruct (recv c); [|done]; simpl; by intros [= <- <-]| |].
  all: destruct (poll_output a _) as [[r|]|] eqn:E3;
    [intros [= ->]; destruct (poll_output_commands _ _ _ _ E3) as [E He];
     (split; [exact E|]); destruct e; done| |]; try done.
  by intros [= <- <-].
Qed.
End command_end.

(** The end of a command is announced once.  Every poll keeps the number of
    ends announced ([on_command_end]) plus the outputs still open: when a stream
    ends or fails with a protocol error, or a multi-packet channel ends or is
    shut down, its end is announced there and then, and nothing else is.  The one exception is a streamed
    response abandoned by a shutdown, whose end is not announced at all. *)
Theorem command_end_announced_once {B : BytesCrate} {C : Bincode} {Q : Mpsc} {F : Type}
    {P : Packet F} {A : Actor F} (ended : World -> Z) (a0 a : ConnectionActor) (st : ActorState)
    (out : list F) (t1 t2 : Z) (m : machine) :
  counts_ends ended ->
  configured a0 -> reachable a0 (a, st, out) -> is_done st = false ->
  poll_sources (a, st, out) t1 t2 = Stepped m (Ok tt) ->
  commands ended m.1.1
  = commands ended a
    - (if is_active st && shutdown a && is_response (active_output a) then 1 else 0).
Proof.
  intros He Hc Hr Hd%bool_decide_eq_false Hp.
  pose proof (reachable_accounts _ _ Hc Hr) as Ha. simpl in Ha. unfold poll_sources in Hp.
  destruct (next_event a st) as [[a' e]|] eqn:En; [|done].
  pose proof (next_event_commands ended a st a' e En) as [Ec Es].
  apply next_event_ok in En as (_ & Hsrc & _); [|done..].
  destruct (dispatch_event a' e st out t1 t2) as [[m' r]|] eqn:Ed; [|done].
  injection Hp as -> ->. rewrite <- Ec.
  destruct e as [|res|res|res|res|]; cbn [dispatch_event event_source] in Ed, Hsrc.
  - destruct Es as (-> & -> & Eo). rewrite <- Eo. cbn [andb].
    pose proof (shutdown_commands ended He a' st) as Hs.
    destruct (process_shutdown a' st). injection Ed as <-. exact Hs.
  - rewrite Es. rewrite Z.sub_0_r.
    destruct (process_queue _ _ _ _ _ _ _) as [m''|] eqn:E; [|done]. injection Ed as <-.
    by eapply (queue_commands ended He a' QueueHigh).
  - rewrite Es. rewrite Z.sub_0_r.
    destruct (process_queue _ _ _ _ _ _ _) as [m''|] eqn:E; [|done]. injection Ed as <-.
    by eapply (queue_commands ended He a' QueueLow).
  - rewrite Es. rewrite Z.sub_0_r.
    destruct (process_queue _ _ _ _ _ _ _) as [m''|] eqn:E; [|done]. injection Ed as <-.
    by eapply (queue_commands ended He a' QueueMulti).
  - rewrite Es. rewrite Z.sub_0_r. by eapply response_commands.
  - rewrite Es. rewrite Z.sub_0_r. by injection Ed as <-.
Qed.

Lemma command_end_announced_once_witness :
  exists m : machine (Q := list_mpsc) (A := demo_actor),
    active_output m.1.1 = OutputNone /\ world m.1.1 = (1, 1)
    /\ commands (fun w : @World _ demo_actor => w.2) m.1.1 = 1.
Proof.
  set (a := (set_multi_packet_with_correlation
         (demo_with_hooks (demo_chan [] false) (demo_chan [] false) None false (0, 0))
         (Some (demo_chan [] true)) (Some 7)).1).
  set (p := poll_sources (B := reference_bytes) (C := varint_bincode)
    (a, ActorState_new false true, []) 0 0).
  set (m := match p with Stepped m _ => m | _ => (a, ActorState_new false true, []) end).
  exists m. split; [reflexivity|]. split; [reflexivity|].
  rewrite (command_end_announced_once (B := reference_bytes) (C := varint_bincode)
    (fun w : @World _ demo_actor => w.2) a a (ActorState_new false true) [] 0 0 m).
  - reflexivity.
  - split; reflexivity.
  - apply conf_multi, conf_new.
  - apply reach_start with (out := []). reflexivity.
  - reflexivity.
  - reflexivity.
Defined.
