(* ===== verification/Push.v ===== *)
(** * Push queues

    [src/src/push/queues/]: the two bounded queues producers push frames to,
    the handle with its non-blocking and awaited pushes, the dead-letter queue
    with its loss counter, and the receiving side.

    The sender a handle holds and the receiver the queues hold are the two ends
    of one channel ([Mpsc]), and every clone of a handle shares one
    [PushHandleInner]; so one record holds the channels and the shared state,
    and every operation takes and returns it.  The rate limiter is
    [leaky_bucket::RateLimiter], a parameter.  Clock readings are arguments, in
    milliseconds.

    What one producer does is also split where another can come in between:
    [route_step] takes a dead-letter hand-off from one atomic operation (or
    mutex operation) to the next, and [push_step] an awaited push from one
    await point or counter update to the next. *)

From S2P Require Import Prelude.
From S2P Require Import Mpsc.
Open Scope rust_scope.

(** ** [mod.rs], [errors.rs] *)

Definition DEFAULT_PUSH_RATE : Z := 100.
Definition MAX_PUSH_RATE : Z := 10000.

Inductive PushPriority : Type := PriorityHigh | PriorityLow.
Inductive PushPolicy : Type := ReturnErrorIfFull | DropIfFull | WarnAndDropIfFull.
Inductive PushError : Type := QueueFull | PushClosed.
Inductive PushConfigError : Type :=
  | InvalidRate (rate : Z)
  | InvalidCapacity (high low : Z).

#[export] Instance PushPriority_eq_dec : EqDecision PushPriority.
Proof. solve_decision. Defined.
#[export] Instance PushPolicy_eq_dec : EqDecision PushPolicy.
Proof. solve_decision. Defined.

(** A limiter of [r] permits a second, and a non-blocking attempt to take one. *)
Class RateLimiting : Type := {
  RateLimiter : Type;
  RateLimiter_build : Z -> RateLimiter;
  try_acquire : RateLimiter -> Z -> RateLimiter * bool
}.

(** ** [waits.rs] *)

Record PushWaitCounters : Type := mk_PushWaitCounters {
  awaited_capacity_waits : Z;
  capacity_probes : Z
}.

Definition PushWaitCounters_default : PushWaitCounters := mk_PushWaitCounters 0 0.

Definition since (self before : PushWaitCounters) : PushWaitCounters :=
  mk_PushWaitCounters
    (saturating_sub (awaited_capacity_waits self) (awaited_capacity_waits before))
    (saturating_sub (capacity_probes self) (capacity_probes before)).

(** The atomics of [PushWaitCounts], updated by [fetch_add]. *)
Definition record_capacity_probe (self : PushWaitCounters) : PushWaitCounters :=
  mk_PushWaitCounters (awaited_capacity_waits self)
    (wrapping_add u64_max (capacity_probes self) 1).

Definition record_capacity_wait (self : PushWaitCounters) : PushWaitCounters :=
  mk_PushWaitCounters (wrapping_add u64_max (awaited_capacity_waits self) 1)
    (capacity_probes self).

Definition snapshot (self : PushWaitCounters) : PushWaitCounters :=
  mk_PushWaitCounters (awaited_capacity_waits self) (capacity_probes self).

Section push.
Context {Q : Mpsc} {L : RateLimiting} {F : Type}.

(** ** [dlq.rs] *)

Inductive DlqState : Type := DlqFull | DlqClosed.

(** [locked] says whether the mutex around [last_log] is held; [reported] is
    kept by the code when it is built for loom. *)
Record DeadLetterState : Type := mk_DeadLetterState {
  sink : option (Chan F);
  drops : Z;
  last_log : Z;
  locked : bool;
  reported : Z;
  log_every_n : Z;
  log_interval : Z
}.

Definition DeadLetterState_new (sink : option (Chan F)) (log_every_n log_interval now : Z) :
    DeadLetterState :=
  mk_DeadLetterState sink 0 now false 0 log_every_n log_interval.

(** What the probe of the loom builds reads. *)
Definition reported_count (self : DeadLetterState) : Z := reported self.
Definition pending_count (self : DeadLetterState) : Z := drops self.

Definition has_queue (self : DeadLetterState) : bool :=
  match sink self with Some _ => true | None => false end.

Definition set_sink (s : DeadLetterState) (c : option (Chan F)) : DeadLetterState :=
  mk_DeadLetterState c (drops s) (last_log s) (locked s) (reported s) (log_every_n s)
    (log_interval s).
Definition set_drops (s : DeadLetterState) (n : Z) : DeadLetterState :=
  mk_DeadLetterState (sink s) n (last_log s) (locked s) (reported s) (log_every_n s)
    (log_interval s).
Definition set_last_log (s : DeadLetterState) (t : Z) : DeadLetterState :=
  mk_DeadLetterState (sink s) (drops s) t (locked s) (reported s) (log_every_n s)
    (log_interval s).
Definition set_locked (s : DeadLetterState) (b : bool) : DeadLetterState :=
  mk_DeadLetterState (sink s) (drops s) (last_log s) b (reported s) (log_every_n s)
    (log_interval s).
Definition set_reported (s : DeadLetterState) (n : Z) : DeadLetterState :=
  mk_DeadLetterState (sink s) (drops s) (last_log s) (locked s) n (log_every_n s)
    (log_interval s).

(** [dropped] is due for a report, by count or by time. *)
Definition should_log (self : DeadLetterState) (dropped now : Z) : bool :=
  bool_decide (log_every_n self <> 0 /\ dropped mod log_every_n self = 0)
  || bool_decide (log_interval self < saturating_duration_since now (last_log self)).

(** A producer alone: the lock is free, and is free again afterwards. *)
Definition log_if_due (self : DeadLetterState) (dropped t_elapsed t_log : Z) :
    DeadLetterState :=
  if negb (should_log self dropped t_elapsed) then self
  else
    let reported_now := drops self in
    let self := set_drops self 0 in
    let self := set_last_log self t_log in
    if decide (reported_now = 0) then self
    else set_reported self (wrapping_add usize_max (reported self) reported_now).

Definition route_or_count (self : DeadLetterState) (frame : F) (t_elapsed t_log : Z) :
    DeadLetterState :=
  match sink self with
  | None => self
  | Some queue =>
      let '(queue, r) := try_send queue frame in
      let self := set_sink self (Some queue) in
      match r with
      | Ok _ => self
      | Err _ =>
          let dropped := wrapping_add usize_max (drops self) 1 in
          let self := set_drops self dropped in
          log_if_due self dropped t_elapsed t_log
      end
  end.

(** Where a producer is in [route_or_count].  [RouteDone] says whether its
    frame was lost. *)
Inductive Routing : Type :=
  | RouteStart (frame : F)
  | RouteRefused (state : DlqState)
  | RouteCounted (dropped : Z)
  | RouteLocked (dropped : Z)
  | RouteDue
  | RouteSwapped (reported_now : Z)
  | RouteDone (lost : bool).

(** The next atomic step; [None] when the mutex is held by another, or at the
    end. *)
Definition route_step (self : DeadLetterState) (p : Routing) (now : Z) :
    option (DeadLetterState * Routing) :=
  match p with
  | RouteStart frame =>
      Some match sink self with
           | None => (self, RouteDone false)
           | Some queue =>
               let '(queue, r) := try_send queue frame in
               (set_sink self (Some queue),
                match r with
                | Ok _ => RouteDone false
                | Err SendFull => RouteRefused DlqFull
                | Err SendClosed => RouteRefused DlqClosed
                end)
           end
  | RouteRefused _ =>
      let dropped := wrapping_add usize_max (drops self) 1 in
      Some (set_drops self dropped, RouteCounted dropped)
  | RouteCounted dropped =>
      if locked self then None else Some (set_locked self true, RouteLocked dropped)
  | RouteLocked dropped =>
      Some (if should_log self dropped now then (self, RouteDue)
            else (set_locked self false, RouteDone true))
  | RouteDue => Some (set_drops self 0, RouteSwapped (drops self))
  | RouteSwapped reported_now =>
      let self := set_last_log self now in
      let self := if decide (reported_now = 0) then self
                  else set_reported self (wrapping_add usize_max (reported self) reported_now) in
      Some (set_locked self false, RouteDone true)
  | RouteDone _ => None
  end.

(** ** [handle.rs], [mod.rs] *)

Record PushQueues : Type := mk_PushQueues {
  high_prio : Chan F;
  low_prio : Chan F;
  limiter : option RateLimiter;
  dead_letter : DeadLetterState;
  waits : PushWaitCounters
}.

Definition queue_of (self : PushQueues) (priority : PushPriority) : Chan F :=
  match priority with PriorityHigh => high_prio self | PriorityLow => low_prio self end.

Definition set_queue (self : PushQueues) (priority : PushPriority) (c : Chan F) : PushQueues :=
  match priority with
  | PriorityHigh =>
      mk_PushQueues c (low_prio self) (limiter self) (dead_letter self) (waits self)
  | PriorityLow =>
      mk_PushQueues (high_prio self) c (limiter self) (dead_letter self) (waits self)
  end.
Definition set_limiter (self : PushQueues) (l : option RateLimiter) : PushQueues :=
  mk_PushQueues (high_prio self) (low_prio self) l (dead_letter self) (waits self).
Definition set_dead_letter (self : PushQueues) (d : DeadLetterState) : PushQueues :=
  mk_PushQueues (high_prio self) (low_prio self) (limiter self) d (waits self).
Definition set_waits (self : PushQueues) (w : PushWaitCounters) : PushQueues :=
  mk_PushQueues (high_prio self) (low_prio self) (limiter self) (dead_letter self) w.

Record PushQueueConfig : Type := mk_PushQueueConfig {
  high_capacity : Z;
  low_capacity : Z;
  rate : option Z;
  dlq : option (Chan F);
  dlq_log_every_n : Z;
  dlq_log_interval : Z
}.

Definition PushQueueConfig_new (high_capacity low_capacity : Z) (rate : option Z)
    (dlq : option (Chan F)) : PushQueueConfig :=
  mk_PushQueueConfig high_capacity low_capacity rate dlq 1 10000.

Definition invalid_rate (rate : option Z) : option Z :=
  match rate with
  | Some r => if decide (r = 0 \/ MAX_PUSH_RATE < r) then Some r else None
  | None => None
  end.

Definition build_with_config (config : PushQueueConfig) (now : Z) :
    result PushQueues PushConfigError :=
  match invalid_rate (rate config) with
  | Some invalid => Err (InvalidRate invalid)
  | None =>
      if decide (high_capacity config = 0 \/ low_capacity config = 0)
      then Err (InvalidCapacity (high_capacity config) (low_capacity config))
      else Ok (mk_PushQueues (channel F (high_capacity config)) (channel F (low_capacity config))
             (RateLimiter_build <$> rate config)
             (DeadLetterState_new (dlq config) (dlq_log_every_n config)
                (dlq_log_interval config) now)
             PushWaitCounters_default)
  end.

(** *** [builder.rs]: the builder has the fields of the configuration *)

Definition PushQueuesBuilder_default : PushQueueConfig :=
  mk_PushQueueConfig 1 1 (Some DEFAULT_PUSH_RATE) None 1 10000.

Definition with_high_capacity (self : PushQueueConfig) (capacity : Z) : PushQueueConfig :=
  mk_PushQueueConfig capacity (low_capacity self) (rate self) (dlq self) (dlq_log_every_n self)
    (dlq_log_interval self).
Definition with_low_capacity (self : PushQueueConfig) (capacity : Z) : PushQueueConfig :=
  mk_PushQueueConfig (high_capacity self) capacity (rate self) (dlq self) (dlq_log_every_n self)
    (dlq_log_interval self).
Definition with_rate (self : PushQueueConfig) (rate : option Z) : PushQueueConfig :=
  mk_PushQueueConfig (high_capacity self) (low_capacity self) rate (dlq self)
    (dlq_log_every_n self) (dlq_log_interval self).
Definition unlimited (self : PushQueueConfig) : PushQueueConfig := with_rate self None.
Definition with_dlq (self : PushQueueConfig) (dlq : option (Chan F)) : PushQueueConfig :=
  mk_PushQueueConfig (high_capacity self) (low_capacity self) (rate self) dlq
    (dlq_log_every_n self) (dlq_log_interval self).
Definition with_dlq_log_every_n (self : PushQueueConfig) (n : Z) : PushQueueConfig :=
  mk_PushQueueConfig (high_capacity self) (low_capacity self) (rate self) (dlq self) n
    (dlq_log_interval self).
Definition with_dlq_log_interval (self : PushQueueConfig) (interval : Z) : PushQueueConfig :=
  mk_PushQueueConfig (high_capacity self) (low_capacity self) (rate self) (dlq self)
    (dlq_log_every_n self) interval.

Definition build (self : PushQueueConfig) (now : Z) : result PushQueues PushConfigError :=
  build_with_config
    (mk_PushQueueConfig (high_capacity self) (low_capacity self) (rate self) (dlq self)
       (dlq_log_every_n self) (dlq_log_interval self)) now.

(** *** The deprecated constructors *)

Definition build_via_builder (high_capacity low_capacity : Z) (rate : option Z)
    (dlq : option (Chan F)) (now : Z) : result PushQueues PushConfigError :=
  build (with_dlq (with_rate (with_low_capacity (with_high_capacity PushQueuesBuilder_default
    high_capacity) low_capacity) rate) dlq) now.

Definition bounded (high_capacity low_capacity : Z) (now : Z) :
    result PushQueues PushConfigError :=
  build_via_builder high_capacity low_capacity (Some DEFAULT_PUSH_RATE) None now.
Definition bounded_no_rate_limit (high_capacity low_capacity : Z) (now : Z) :
    result PushQueues PushConfigError :=
  build_via_builder high_capacity low_capacity None None now.
Definition bounded_with_rate (high_capacity low_capacity : Z) (rate : option Z) (now : Z) :
    result PushQueues PushConfigError :=
  build_via_builder high_capacity low_capacity rate None now.
Definition bounded_with_rate_dlq (high_capacity low_capacity : Z) (rate : option Z)
    (dlq : option (Chan F)) (now : Z) : result PushQueues PushConfigError :=
  build_with_config (PushQueueConfig_new high_capacity low_capacity rate dlq) now.

(** *** Pushing *)

Definition try_push (self : PushQueues) (frame : F) (priority : PushPriority)
    (policy : PushPolicy) (t_elapsed t_log : Z) : PushQueues * result unit PushError :=
  let '(tx, r) := try_send (queue_of self priority) frame in
  let self := set_queue self priority tx in
  match r with
  | Ok _ => (self, Ok tt)
  | Err SendFull =>
      match policy with
      | ReturnErrorIfFull => (self, Err QueueFull)
      | DropIfFull | WarnAndDropIfFull =>
          (set_dead_letter self (route_or_count (dead_letter self) frame t_elapsed t_log), Ok tt)
      end
  | Err SendClosed => (self, Err PushClosed)
  end.

(** An awaited push: waiting for a permit, about to probe the queue, about to
    reserve a slot, parked in [send] ([recorded] is [is_wait_recorded]), or
    done.  The last field of [PushDone] says whether it ever parked. *)
Inductive PushFuture : Type :=
  | PushPermit (frame : F) (priority : PushPriority)
  | PushProbe (frame : F) (priority : PushPriority)
  | PushReserve (frame : F) (priority : PushPriority)
  | PushSend (frame : F) (priority : PushPriority) (recorded : bool)
  | PushDone (frame : F) (priority : PushPriority) (r : result unit PushError) (parked : bool).

Definition push_with_priority (frame : F) (priority : PushPriority) : PushFuture :=
  PushPermit frame priority.

Definition push_high_priority (frame : F) : PushFuture := push_with_priority frame PriorityHigh.
Definition push_low_priority (frame : F) : PushFuture := push_with_priority frame PriorityLow.
Definition wait_counters (self : PushQueues) : PushWaitCounters := snapshot (waits self).
Definition dlq_drop_count (self : PushQueues) : Z := pending_count (dead_letter self).
Definition dlq_reported_count (self : PushQueues) : Z := reported_count (dead_letter self).

(** [wait_for_permit]: one attempt of its loop. *)
Definition wait_for_permit (self : PushQueues) (now : Z) : PushQueues * bool :=
  match limiter self with
  | None => (self, true)
  | Some l => let '(l, ok) := try_acquire l now in (set_limiter self (Some l), ok)
  end.

(** [record_first_pending] on a poll that returned [Pending]. *)
Definition record_first_pending (recorded : bool) (waits : PushWaitCounters) :
    PushWaitCounters :=
  if negb recorded then record_capacity_wait waits else waits.

(** [try_reserve] with [send] on the permit, and a poll of [send], put the
    frame in the queue when there is room. *)
Definition push_step (self : PushQueues) (p : PushFuture) (now : Z) :
    option (PushQueues * PushFuture) :=
  match p with
  | PushPermit frame priority =>
      let '(self, ok) := wait_for_permit self now in
      Some (self, if ok : bool then PushProbe frame priority else p)
  | PushProbe frame priority =>
      Some (set_waits self (record_capacity_probe (waits self)), PushReserve frame priority)
  | PushReserve frame priority =>
      let '(tx, r) := try_send (queue_of self priority) frame in
      Some (set_queue self priority tx,
            match r with
            | Ok _ => PushDone frame priority (Ok tt) false
            | Err SendFull => PushSend frame priority false
            | Err SendClosed => PushDone frame priority (Err PushClosed) false
            end)
  | PushSend frame priority recorded =>
      let '(tx, r) := try_send (queue_of self priority) frame in
      let self := set_queue self priority tx in
      Some match r with
           | Ok _ => (self, PushDone frame priority (Ok tt) recorded)
           | Err SendClosed => (self, PushDone frame priority (Err PushClosed) recorded)
           | Err SendFull =>
               (set_waits self (record_first_pending recorded (waits self)),
                PushSend frame priority true)
           end
  | PushDone _ _ _ _ => None
  end.

(** *** Receiving *)

(** The locals of the [recv] future. *)
Record RecvFuture : Type := mk_RecvFuture { high_closed : bool; low_closed : bool }.

Definition RecvFuture_new : RecvFuture := mk_RecvFuture false false.

(** A poll of [recv]: [RecvPending] keeps the locals for the next poll, and
    [n] bounds the iterations of its loop. *)
Inductive RecvPoll : Type :=
  | RecvReady (r : option (PushPriority * F))
  | RecvPending (fut : RecvFuture)
  | RecvOutOfFuel.

Fixpoint recv_poll (n : nat) (self : PushQueues) (fut : RecvFuture) : PushQueues * RecvPoll :=
  match n with
  | O => (self, RecvOutOfFuel)
  | S n =>
      let high := if high_closed fut then None else Some (recv (high_prio self)) in
      let low := if low_closed fut then None else Some (recv (low_prio self)) in
      match high, low with
      | Some (Some (c, Some f)), _ =>
          (set_queue self PriorityHigh c, RecvReady (Some (PriorityHigh, f)))
      | Some (Some (c, None)), _ =>
          recv_poll n (set_queue self PriorityHigh c) (mk_RecvFuture true (low_closed fut))
      | _, Some (Some (c, Some f)) =>
          (set_queue self PriorityLow c, RecvReady (Some (PriorityLow, f)))
      | _, Some (Some (c, None)) =>
          recv_poll n (set_queue self PriorityLow c) (mk_RecvFuture (high_closed fut) true)
      | None, None => (self, RecvReady None)
      | _, _ => (self, RecvPending fut)
      end
  end.

Definition close_queues (self : PushQueues) : PushQueues :=
  set_queue (set_queue self PriorityHigh (close (high_prio self)))
    PriorityLow (close (low_prio self)).
End push.
