(* ===== verification/PushCorrectness.v ===== *)
(** * Correctness of the push queues

    Where a pushed frame goes, what the dead-letter counter counts when
    producers run concurrently, the order frames are received in, and what the
    wait counters of awaited pushes count ([Push]). *)

From S2P Require Import Prelude.
From S2P Require Import Mpsc.
From S2P Require Import Push.
Open Scope rust_scope.

(** ** A limiter and queues to run *)

(** A limiter that has a stock of permits and is never refilled. *)
Definition stock_limiting : RateLimiting := {|
  RateLimiter := Z;
  RateLimiter_build r := r;
  try_acquire l _ := if decide (0 < l) then (l - 1, true) else (l, false)
|}.

Definition demo_push (high low : list Z) (sink : option (list Z)) :
    @PushQueues list_mpsc stock_limiting Z :=
  mk_PushQueues (Q := list_mpsc) (L := stock_limiting)
    (mk_list_chan high 2 false) (mk_list_chan low 2 false) None
    (DeadLetterState_new (Q := list_mpsc) ((fun q => mk_list_chan q 1 false) <$> sink) 2 1000 0)
    PushWaitCounters_default.

(** ** Where a frame goes *)

Inductive Fate : Type := Enqueued | Rejected (e : PushError) | DeadLettered | Lost | Discarded.

Section fate.
Context {Q : Mpsc} {QL : MpscLaws Q} {L : RateLimiting} {F : Type}.
Implicit Types (q : @PushQueues Q L F) (s : @DeadLetterState Q F) (f : F).

Definition has_room (c : Chan F) : Prop := closed c = false /\ len (queued c) < capacity c.
#[global] Instance has_room_dec c : Decision (has_room c).
Proof. unfold has_room. apply _. Defined.

Definition fate (q : @PushQueues Q L F) (priority : PushPriority) (policy : PushPolicy) : Fate :=
  let c := queue_of q priority in
  if closed c then Rejected PushClosed
  else if decide (has_room c) then Enqueued
  else if decide (policy = ReturnErrorIfFull) then Rejected QueueFull
  else match sink (dead_letter q) with
       | None => Discarded
       | Some d => if decide (has_room d) then DeadLettered else Lost
       end.

(** A frame is appended to a channel with room, and others are refused. *)
Lemma try_send_cases (c : Chan F) f :
  (has_room c /\ exists c', try_send c f = (c', Ok tt) /\ now_holds c c' (queued c ++ [f]) false)
  \/ (~ has_room c /\ try_send c f = (c, Err (if closed c then SendClosed else SendFull))).
Proof.
  destruct (closed c) eqn:Hc.
  - right. split; [intros [? _]; congruence|]. by apply try_send_closed.
  - destruct (decide (len (queued c) < capacity c)).
    + left. split; [done|]. by apply try_send_ok.
    + right. split; [intros [_ ?]; lia|]. apply try_send_full; [done|lia].
Qed.

(** The losses counted so far: those not yet reported and those reported. *)
Definition losses (s : @DeadLetterState Q F) : Z := drops s + reported s.

Definition counters_wf (s : @DeadLetterState Q F) : Prop := 0 <= drops s /\ 0 <= reported s.

Lemma log_if_due_losses s dropped t1 t2 :
  counters_wf s -> losses s <= usize_max ->
  let s' := log_if_due s dropped t1 t2 in
  counters_wf s' /\ losses s' = losses s /\ sink s' = sink s /\ locked s' = locked s.
Proof.
  intros [H1 H2] Hl. unfold log_if_due. destruct (negb _); [done|].
  unfold losses, counters_wf in *. case_decide as Hd; simpl; [split_and!; try done; lia|].
  unfold wrapping_add. rewrite Z.mod_small by lia. split_and!; try done; lia.
Qed.

Lemma route_or_count_cases s f t1 t2 :
  counters_wf s -> losses s < usize_max ->
  let s' := route_or_count s f t1 t2 in
  counters_wf s' /\ locked s' = locked s
  /\ match sink s with
     | None => s' = s
     | Some d =>
         (has_room d /\ losses s' = losses s
          /\ exists d', sink s' = Some d' /\ now_holds d d' (queued d ++ [f]) false)
         \/ (~ has_room d /\ losses s' = losses s + 1 /\ sink s' = Some d)
     end.
Proof.
  intros Hw Hl. unfold route_or_count. destruct (sink s) as [d|] eqn:Hs; [|done].
  destruct (try_send_cases d f) as [(Hr & d' & -> & Hh)|(Hr & ->)]; simpl.
  - split; [exact Hw|]. split; [done|]. left. split_and!; try done. by exists d'.
  - set (s1 := set_drops _ _).
    assert (drops s1 = drops s + 1) as E1.
    { unfold s1, wrapping_add. simpl. rewrite Z.mod_small; [done|].
      unfold losses, counters_wf in *. lia. }
    destruct (log_if_due_losses s1 (wrapping_add usize_max (drops s) 1) t1 t2)
      as (A1 & A2 & A3 & A4).
    + split; [rewrite E1; destruct Hw; lia|apply Hw].
    + unfold losses in *. rewrite E1. change (reported s1) with (reported s). lia.
    + split; [done|]. split; [by rewrite A4|]. right. split_and!; [done| |by rewrite A3].
      rewrite A2. unfold losses. rewrite E1. change (reported s1) with (reported s). lia.
Qed.

(** What [try_push] leaves behind, by the fate of the frame. *)
Record pushed (q q' : @PushQueues Q L F) (f : F) (priority : PushPriority) (x : Fate) : Prop := {
  ps_queue : now_holds (queue_of q priority) (queue_of q' priority)
               (queued (queue_of q priority) ++ (match x with Enqueued => [f] | _ => [] end))
               (closed (queue_of q priority));
  ps_other p : p <> priority -> queue_of q' p = queue_of q p;
  ps_rest : limiter q' = limiter q /\ waits q' = waits q;
  ps_losses : losses (dead_letter q')
              = losses (dead_letter q) + match x with Lost => 1 | _ => 0 end;
  ps_wf : counters_wf (dead_letter q');
  ps_sink : match sink (dead_letter q), sink (dead_letter q') with
            | Some d, Some d' =>
                now_holds d d' (queued d ++ (match x with DeadLettered => [f] | _ => [] end)) (closed d)
            | None, None => True
            | _, _ => False
            end
}.

Lemma queue_set q p c : queue_of (set_queue q p c) p = c.
Proof. by destruct p. Qed.
Lemma queue_set_other q p c p' : p' <> p -> queue_of (set_queue q p c) p' = queue_of q p'.
Proof. by destruct p, p'. Qed.
Lemma queue_set_rest q p c :
  limiter (set_queue q p c) = limiter q /\ waits (set_queue q p c) = waits q
  /\ dead_letter (set_queue q p c) = dead_letter q.
Proof. by destruct p. Qed.

Lemma now_holds_refl (c : Chan F) : now_holds c c (queued c ++ []) (closed c).
Proof. rewrite app_nil_r. by split_and!. Qed.

(** The push left its queue as [c'] and the dead-letter state as [d']. *)
Lemma pushed_intro q f p c' d' x :
  now_holds (queue_of q p) c'
    (queued (queue_of q p) ++ (match x with Enqueued => [f] | _ => [] end))
    (closed (queue_of q p)) ->
  losses d' = losses (dead_letter q) + match x with Lost => 1 | _ => 0 end ->
  counters_wf d' ->
  match sink (dead_letter q), sink d' with
  | Some d, Some d' =>
      now_holds d d' (queued d ++ (match x with DeadLettered => [f] | _ => [] end)) (closed d)
  | None, None => True
  | _, _ => False
  end ->
  pushed q (set_dead_letter (set_queue q p c') d') f p x.
Proof.
  intros H1 H2 H3 H4. split; try done; [by destruct p| |by destruct p].
  intros p' Hp. by destruct p, p'.
Qed.

Lemma set_dead_letter_same q : set_dead_letter q (dead_letter q) = q.
Proof. by destruct q. Qed.

(** The dead-letter state is as it was. *)
Lemma pushed_main q f p c' x :
  now_holds (queue_of q p) c'
    (queued (queue_of q p) ++ (match x with Enqueued => [f] | _ => [] end))
    (closed (queue_of q p)) ->
  x <> Lost -> x <> DeadLettered -> counters_wf (dead_letter q) ->
  pushed q (set_queue q p c') f p x.
Proof.
  intros H1 N1 N2 Hw. destruct (queue_set_rest q p c') as (_ & _ & E).
  rewrite <- (set_dead_letter_same (set_queue q p c')), E.
  apply pushed_intro; try done; [destruct x; done || lia|].
  destruct (sink (dead_letter q)); [|done]. destruct x; try done; apply now_holds_refl.
Qed.

(** The frame was handed to the dead-letter state. *)
Lemma pushed_routed q f p t1 t2 :
  counters_wf (dead_letter q) -> losses (dead_letter q) < usize_max ->
  pushed q (set_dead_letter (set_queue q p (queue_of q p))
              (route_or_count (dead_letter q) f t1 t2)) f p
    (match sink (dead_letter q) with
     | None => Discarded
     | Some d => if decide (has_room d) then DeadLettered else Lost
     end).
Proof.
  intros Hw Hl. destruct (route_or_count_cases (dead_letter q) f t1 t2 Hw Hl) as (W & _ & Hs).
  pose proof (now_holds_refl (queue_of q p)) as Hq.
  destruct (sink (dead_letter q)) as [d|] eqn:Es.
  - destruct Hs as [(Hr & E & d' & Ed & Hh)|(Hr & E & Ed)].
    + rewrite decide_True by done. apply pushed_intro; try done; [lia|].
      rewrite Es, Ed. by rewrite (proj1 Hr).
    + rewrite decide_False by done. apply pushed_intro; try done.
      rewrite Es, Ed. apply now_holds_refl.
  - apply pushed_intro; rewrite ?Hs; try done; [lia|by rewrite Es].
Qed.

(** No fate takes a queue over its capacity. *)
Lemma pushed_capacity q q' f p policy :
  pushed q q' f p (fate q p policy) ->
  len (queued (queue_of q p)) <= capacity (queue_of q p) ->
  len (queued (queue_of q' p)) <= capacity (queue_of q' p).
Proof.
  intros [(E1 & E2 & _) _ _ _ _ _] Hle. rewrite E1, E2, len_app.
  destruct (fate q p policy) eqn:Ef; try (unfold len in *; simpl in *; lia).
  unfold fate in Ef. destruct (closed _); [done|]. case_decide as Hr.
  - destruct Hr. unfold len in *. simpl. lia.
  - case_decide; [done|]. destruct (sink _); [|done]. by case_decide.
Qed.
End fate.

(** A non-blocking push puts the frame in exactly one place, given by the
    state of the queue, the policy and the dead-letter queue: at the end of its
    queue if there is room; nowhere, with an error, if the queue is closed, or
    full under [ReturnErrorIfFull]; otherwise at the end of the dead-letter
    queue, or lost and counted once if that has no room, or discarded if there
    is none.  Nothing else changes, and the queues' capacities are respected. *)
Theorem try_push_fate {Q : Mpsc} {QL : MpscLaws Q} {L : RateLimiting} {F : Type}
    (q : @PushQueues Q L F) (f : F) (priority : PushPriority) (policy : PushPolicy) (t1 t2 : Z) :
  counters_wf (dead_letter q) -> losses (dead_letter q) < usize_max ->
  let '(q', r) := try_push q f priority policy t1 t2 in
  pushed q q' f priority (fate q priority policy)
  /\ r = match fate q priority policy with Rejected e => Err e | _ => Ok tt end
  /\ (len (queued (queue_of q priority)) <= capacity (queue_of q priority) ->
      len (queued (queue_of q' priority)) <= capacity (queue_of q' priority)).
Proof.
  intros Hw Hl. destruct (try_push q f priority policy t1 t2) as [q' r] eqn:Ht.
  enough (pushed q q' f priority (fate q priority policy)
    /\ r = match fate q priority policy with Rejected e => Err e | _ => Ok tt end) as [Hp Hr]
    by (split_and!; [done|done|by eapply pushed_capacity]).
  revert Ht. unfold try_push, fate.
  destruct (try_send_cases (queue_of q priority) f) as [(Hr & c' & -> & Hh)|(Hr & ->)].
  - rewrite (proj1 Hr), decide_True by done. intros [= <- <-]. split; [|done].
    apply pushed_main; try done. by rewrite (proj1 Hr).
  - assert (forall e, pushed q (set_queue q priority (queue_of q priority)) f priority (Rejected e))
      as Hrej by (intros e; apply pushed_main; [apply now_holds_refl|done..]).
    destruct (closed _); [by intros [= <- <-]|]. rewrite (decide_False (P := has_room _)) by done.
    destruct (queue_set_rest q priority (queue_of q priority)) as (_ & _ & ->).
    pose proof (pushed_routed q f priority t1 t2 Hw Hl) as Hpush.
    destruct policy; rewrite ?decide_True, ?decide_False by done; intros [= <- <-]; [done| |];
      (split; [exact Hpush|]); destruct (sink _); try case_decide; done.
Qed.

Lemma try_push_fate_witness :
  pushed (demo_push [1; 2] [] (Some [7]))
    (try_push (demo_push [1; 2] [] (Some [7])) 3 PriorityHigh DropIfFull 5 6).1 3 PriorityHigh Lost.
Proof.
  exact (proj1 (try_push_fate (QL := list_mpsc_laws) (demo_push [1; 2] [] (Some [7])) 3
    PriorityHigh DropIfFull 5 6
    ltac:(split; vm_compute; congruence) ltac:(vm_compute; reflexivity))).
Defined.

(** ** The dead-letter counter under contention *)

Section dead_letter.
Context {Q : Mpsc} {F : Type}.
Implicit Types (s : @DeadLetterState Q F) (p : @Routing F) (ps : list (@Routing F)).

(** Producers at work on one handle.  At each step one of them takes its next
    atomic step, or the consumer of the dead-letter queue changes it. *)
Inductive routing_step :
    DeadLetterState * list Routing -> DeadLetterState * list Routing -> Prop :=
  | rs_producer s ps i p now s' p' :
      ps !! i = Some p -> route_step s p now = Some (s', p') ->
      routing_step (s, ps) (s', <[i := p']> ps)
  | rs_consumer s ps c c' :
      sink s = Some c -> routing_step (s, ps) (set_sink s (Some c'), ps).

(** The frame of a producer has been counted as lost. *)
Definition was_counted (p : @Routing F) : Z :=
  match p with
  | RouteStart _ | RouteRefused _ | RouteDone false => 0
  | _ => 1
  end.

(** What a producer has taken from the counter and not reported yet. *)
Definition in_flight (p : @Routing F) : Z :=
  match p with RouteSwapped n => n | _ => 0 end.

Definition holds_lock (p : @Routing F) : Z :=
  match p with RouteLocked _ | RouteDue | RouteSwapped _ => 1 | _ => 0 end.

Record accounted (s : @DeadLetterState Q F) (ps : list (@Routing F)) : Prop := {
  rc_nonneg : counters_wf s /\ Forall (fun p => 0 <= in_flight p) ps;
  rc_losses : losses s + zsum in_flight ps = zsum was_counted ps;
  rc_lock : zsum holds_lock ps = (if locked s then 1 else 0)
}.

Lemma was_counted_bound p : 0 <= was_counted p <= 1.
Proof. destruct p as [| | | | | |[]]; simpl; lia. Qed.
Lemma holds_lock_bound p : 0 <= holds_lock p <= 1.
Proof. destruct p; simpl; lia. Qed.

Lemma losses_bound s ps : accounted s ps -> losses s + zsum in_flight ps <= len ps.
Proof.
  intros [_ -> _]. pose proof (zsum_bound was_counted ps was_counted_bound). lia.
Qed.

(** One step of a producer, given what it does to the counters. *)
Lemma accounted_update s ps i p s' p' :
  accounted s ps -> ps !! i = Some p -> counters_wf s' -> 0 <= in_flight p' ->
  losses s' + in_flight p' - was_counted p' = losses s + in_flight p - was_counted p ->
  holds_lock p' - (if locked s' then 1 else 0) = holds_lock p - (if locked s then 1 else 0) ->
  accounted s' (<[i := p']> ps).
Proof.
  intros [[_ Hf] Hl Hk] Hi Hw Hp He Hh. split.
  - split; [done|]. by apply Forall_insert.
  - rewrite !(zsum_insert _ _ _ _ _ Hi). lia.
  - rewrite (zsum_insert _ _ _ _ _ Hi). lia.
Qed.

(** A producer that holds the lock finds it held. *)
Lemma holder_locked s ps i p :
  accounted s ps -> ps !! i = Some p -> holds_lock p = 1 -> locked s = true.
Proof.
  intros [_ _ Hk] Hi Hp.
  assert (Forall (fun p => 0 <= holds_lock p) ps) as Hf
    by (apply Forall_forall; intros; apply holds_lock_bound).
  pose proof (zsum_lookup _ _ _ _ Hf Hi). destruct (locked s); [done|lia].
Qed.

Lemma route_step_accounted s ps i p now s' p' :
  accounted s ps -> len ps <= usize_max -> ps !! i = Some p ->
  route_step s p now = Some (s', p') -> accounted s' (<[i := p']> ps).
Proof.
  intros Ha Hlen Hi Hs. pose proof (losses_bound _ _ Ha) as Hb.
  destruct (rc_nonneg _ _ Ha) as [[Hd Hr] Hf].
  pose proof (zsum_lookup _ _ _ _ Hf Hi) as Hfl.
  pose proof (Forall_lookup_1 _ _ _ _ Hf Hi) as Hfp.
  pose proof (zsum_nonneg _ _ Hf) as Hnn.
  pose proof (holder_locked s ps i p Ha Hi) as Hhold.
  pose proof (rc_losses _ _ Ha) as Hsum.
  pose proof (zsum_insert was_counted ps i p (RouteDone true) Hi) as Hins.
  pose proof (zsum_bound was_counted (<[i := RouteDone true]> ps) was_counted_bound) as Hins'.
  assert (len (<[i := RouteDone true]> ps) = len ps) as El by (unfold len; by rewrite length_insert).
  unfold losses in *. destruct p as [f|d|n|n| |n|b]; simpl in Hs, Hhold, Hfl, Hfp, Hins.
  - assert (counters_wf s' /\ losses s' = losses s /\ locked s' = locked s
      /\ was_counted p' = 0 /\ in_flight p' = 0 /\ holds_lock p' = 0)
      as (W & E1 & E2 & E3 & E4 & E5).
    { destruct (sink s) as [c|]; [|by simplify_eq].
      by destruct (try_send c f) as [c' [u|[|]]]; simplify_eq. }
    apply (accounted_update s ps i _ _ _ Ha Hi); rewrite ?E2, ?E3, ?E4, ?E5; simpl; done || lia.
  - simplify_eq. unfold wrapping_add. rewrite Z.mod_small by lia.
    apply (accounted_update s ps i _ _ _ Ha Hi); simpl; try done; unfold counters_wf, losses;
      simpl; lia.
  - destruct (locked s) eqn:Hk; simplify_eq.
    apply (accounted_update s ps i _ _ _ Ha Hi); simpl; rewrite ?Hk; done || lia.
  - specialize (Hhold eq_refl). destruct (should_log s n now); injection Hs as <- <-;
      apply (accounted_update s ps i _ _ _ Ha Hi); simpl; rewrite ?Hhold; done || lia.
  - specialize (Hhold eq_refl). simplify_eq.
    apply (accounted_update s ps i _ _ _ Ha Hi); simpl; rewrite ?Hhold; try done;
      unfold counters_wf, losses; simpl; lia.
  - specialize (Hhold eq_refl). simplify_eq.
    apply (accounted_update s ps i _ _ _ Ha Hi); simpl; rewrite ?Hhold; try done; case_decide;
      unfold counters_wf, losses, wrapping_add; simpl; rewrite ?Z.mod_small by lia; lia.
  - done.
Qed.

Lemma routing_step_accounted x y :
  routing_step x y -> accounted x.1 x.2 -> len x.2 <= usize_max ->
  accounted y.1 y.2 /\ len y.2 = len x.2.
Proof.
  destruct 1 as [s ps i p now s' p' Hi Hs|s ps c c' Hc]; intros Ha Hlen; simpl in *.
  - split; [by eapply route_step_accounted|]. unfold len. by rewrite length_insert.
  - by destruct Ha.
Qed.

Lemma routing_accounted x y :
  rtc routing_step x y -> accounted x.1 x.2 -> len x.2 <= usize_max ->
  accounted y.1 y.2.
Proof.
  induction 1 as [x|x y z Hxy _ IH]; intros Ha Hlen; [done|].
  destruct (routing_step_accounted _ _ Hxy Ha Hlen) as [Hy El]. apply IH; [done|lia].
Qed.

Lemma start_accounted c n i now (fs : list F) :
  accounted (DeadLetterState_new c n i now) (RouteStart <$> fs).
Proof.
  assert (forall g : Routing -> Z, (forall f, g (RouteStart f) = 0) ->
    zsum g (RouteStart <$> fs) = 0) as Hz.
  { intros g Hg. induction fs as [|f fs IH]; [done|].
    rewrite fmap_cons. cbn [zsum foldr]. rewrite Hg. fold (zsum g (RouteStart <$> fs)). by rewrite IH. }
  split; rewrite ?Hz by done; try done. split; [done|].
  apply Forall_forall. intros p (f & -> & _)%list_elem_of_fmap. done.
Qed.

Definition route_done (p : @Routing F) : bool :=
  match p with RouteDone _ => true | _ => false end.

(** Some producer can always go on. *)
Lemma routing_progress s ps p :
  accounted s ps -> p ∈ ps -> route_done p = false ->
  exists i p0 now s' p', ps !! i = Some p0 /\ route_step s p0 now = Some (s', p').
Proof.
  intros Ha Hp Hd.
  assert (forall p0, p0 ∈ ps -> is_Some (route_step s p0 0) ->
    exists i p0 now s' p', ps !! i = Some p0 /\ route_step s p0 now = Some (s', p')) as Hgo.
  { intros p0 [i Hi]%list_elem_of_lookup [[s' p'] Hs]. by exists i, p0, 0, s', p'. }
  destruct p as [f|d|n|n| |n|b]; try (by eapply Hgo; [exact Hp|simpl; eauto]).
  destruct (locked s) eqn:Hl; [|eapply Hgo; [exact Hp|simpl; rewrite Hl; eauto]].
  pose proof (rc_lock _ _ Ha) as Hk. rewrite Hl in Hk.
  assert (exists p0, p0 ∈ ps /\ holds_lock p0 = 1) as (p0 & Hp0 & Hh).
  { clear -Hk. induction ps as [|p0 ps IH]; simpl in Hk; [done|].
    pose proof (holds_lock_bound p0). destruct (decide (holds_lock p0 = 1)) as [E|E].
    - exists p0. by split; [left|].
    - destruct IH as (p1 & H1 & H2); [lia|]. exists p1. by split; [right|]. }
  eapply Hgo; [exact Hp0|]. destruct p0; simpl in *; try done; eauto.
Qed.

(** The steps of the producers [ops], each at its time. *)
Fixpoint schedule (x : @DeadLetterState Q F * list Routing) (ops : list (nat * Z)) :
    DeadLetterState * list Routing :=
  match ops with
  | [] => x
  | (i, now) :: ops =>
      schedule
        (match p ← x.2 !! i; route_step x.1 p now with
         | Some (s, p) => (s, <[i := p]> x.2)
         | None => x
         end) ops
  end.

Lemma schedule_rtc ops : forall x, rtc routing_step x (schedule x ops).
Proof.
  induction ops as [|[i now] ops IH]; intros [s ps]; [done|]. cbn [schedule fst snd].
  destruct (ps !! i) as [p|] eqn:Hi; [|apply IH]. cbn [mbind option_bind].
  destruct (route_step s p now) as [[s' p']|] eqn:Hs; [|apply IH].
  eapply rtc_l; [by eapply rs_producer|apply IH].
Qed.

(** A producer alone, with its two clock readings. *)
Fixpoint route_run (s : @DeadLetterState Q F) (p : Routing) (nows : list Z) :
    DeadLetterState * Routing :=
  match nows with
  | [] => (s, p)
  | now :: nows =>
      match route_step s p now with
      | Some (s, p) => route_run s p nows
      | None => (s, p)
      end
  end.

Lemma route_run_done nows s b : route_run s (RouteDone b) nows = (s, RouteDone b).
Proof. by destruct nows. Qed.

Lemma route_solo s f t t_elapsed t_log :
  locked s = false ->
  exists b, route_run s (RouteStart f) [t; t; t; t_elapsed; t; t_log]
            = (route_or_count s f t_elapsed t_log, RouteDone b).
Proof.
  intros Hl. unfold route_or_count. cbn [route_run route_step].
  destruct (sink s) as [c|]; [|by exists false].
  assert (forall s1, locked s1 = false -> set_locked (set_locked s1 true) false = s1) as Hu
    by by intros [] H; simpl in *; subst.
  destruct (try_send c f) as [c' [u|e]]; [by exists false|].
  set (s1 := set_sink s (Some c')). set (n := wrapping_add usize_max (drops s1) 1).
  exists true. destruct e.
  all: cbn [route_run route_step locked set_drops]; change (locked s1) with (locked s);
    rewrite Hl; cbn [route_run route_step]; fold n.
  all: change (should_log (set_locked (set_drops s1 n) true) n t_elapsed)
    with (should_log (set_drops s1 n) n t_elapsed).
  all: unfold log_if_due; destruct (should_log (set_drops s1 n) n t_elapsed);
    cbn [negb route_run route_step]; f_equal.
  2,4: by apply Hu.
  all: clearbody n; subst s1; destruct s; simpl in *; subst; by case_decide.
Qed.
End dead_letter.

(** C17: However the atomic operations of concurrent producers interleave, with
    each other and with the consumer of the dead-letter queue, no loss is
    reported twice or forgotten: what is pending, what has been reported and
    what a reporting producer has taken add up to the frames counted as lost,
    so that when all producers are done the pending and reported counts add up
    to the frames lost; at most one producer is in the reporting section, and
    some producer can always go on until all are done.  A producer alone does
    what [route_or_count] does. *)
Theorem dlq_losses_accounted {Q : Mpsc} {F : Type} (c : option (Chan F)) (n interval now : Z)
    (frames : list F) (s : @DeadLetterState Q F) (ps : list Routing) :
  len frames <= usize_max ->
  rtc routing_step (DeadLetterState_new c n interval now, RouteStart <$> frames) (s, ps) ->
  drops s + reported s + zsum in_flight ps = zsum was_counted ps
  /\ zsum holds_lock ps = (if locked s then 1 else 0)
  /\ (Forall (fun p => route_done p = true) ps ->
      drops s + reported s = zsum was_counted ps /\ locked s = false)
  /\ (forall p, p ∈ ps -> route_done p = false ->
      exists i p0 t s' p', ps !! i = Some p0 /\ route_step s p0 t = Some (s', p'))
  /\ (forall f t t_elapsed t_log, locked s = false ->
      exists b, route_run s (RouteStart f) [t; t; t; t_elapsed; t; t_log]
                = (route_or_count s f t_elapsed t_log, RouteDone b)).
Proof.
  intros Hlen Hr.
  assert (accounted s ps) as Ha.
  { apply (routing_accounted _ _ Hr); [apply start_accounted|].
    unfold len in *. cbn [snd]. by rewrite length_fmap. }
  pose proof (rc_losses _ _ Ha) as Hl. pose proof (rc_lock _ _ Ha) as Hk. unfold losses in Hl.
  split_and!; [done|done| | |].
  - intros Hd.
    assert (zsum in_flight ps = 0 /\ zsum holds_lock ps = 0) as [E1 E2].
    { clear -Hd. induction Hd as [|p ps Hp _ [IH1 IH2]]; [done|]. by destruct p. }
    split; [lia|]. destruct (locked s); [lia|done].
  - intros p. by apply routing_progress.
  - intros f t t1 t2. apply route_solo.
Qed.

Lemma dlq_losses_accounted_witness :
  exists s ps,
    rtc routing_step
      (DeadLetterState_new (Q := list_mpsc) (Some (mk_list_chan [5] 1 false)) 2 1000 0,
       RouteStart <$> [8; 9]) (s, ps)
    /\ drops s = 0 /\ reported s = 2 /\ drops s + reported s = zsum was_counted ps.
Proof.
  set (s0 := DeadLetterState_new (Q := list_mpsc) (Some (mk_list_chan [5] 1 false)) 2 1000 0).
  set (s := mk_DeadLetterState (Q := list_mpsc) (Some (mk_list_chan [5] 1 false)) 0 4 false 2 2 1000).
  set (ps := [RouteDone true; RouteDone true] : list (@Routing Z)).
  assert (rtc routing_step (s0, RouteStart <$> [8; 9]) (s, ps)) as Hr.
  { (* both frames are refused, then both counted, then the second producer
       reports both and the first finds nothing due *)
    replace (s, ps) with (schedule (s0, RouteStart <$> [8; 9])
      [(0%nat, 1); (1%nat, 1); (0%nat, 1); (1%nat, 1); (1%nat, 2); (1%nat, 3); (1%nat, 4);
       (1%nat, 4); (0%nat, 5); (0%nat, 6)]) by (vm_compute; reflexivity).
    apply schedule_rtc. }
  exists s, ps. split; [exact Hr|]. split; [reflexivity|]. split; [reflexivity|].
  destruct (dlq_losses_accounted _ 2 1000 0 [8; 9] s ps ltac:(vm_compute; congruence) Hr)
    as (_ & _ & Hd & _).
  apply Hd. repeat constructor.
Defined.

(** ** Receiving *)

Section receiving.
Context {Q : Mpsc} {QL : MpscLaws Q} {L : RateLimiting} {F : Type}.
Implicit Types (q : @PushQueues Q L F).

(** What a poll of [recv] yields, as the queues are. *)
Definition next_frame (q : @PushQueues Q L F) : @RecvPoll F :=
  match queued (high_prio q), queued (low_prio q) with
  | f :: _, _ => RecvReady (Some (PriorityHigh, f))
  | [], f :: _ => RecvReady (Some (PriorityLow, f))
  | [], [] =>
      if closed (high_prio q) && closed (low_prio q) then RecvReady None
      else RecvPending (mk_RecvFuture (closed (high_prio q)) (closed (low_prio q)))
  end.

(** A poll leaves the queue it took from one frame shorter. *)
Definition popped (c c' : Chan F) : Prop := now_holds c c' (tail (queued c)) (closed c).

Lemma recv_cases (c : Chan F) :
  match queued c with
  | f :: _ => exists c', recv c = Some (c', Some f) /\ popped c c'
  | [] => recv c = if closed c then Some (c, None) else None
  end.
Proof.
  destruct (queued c) as [|f q] eqn:Hq.
  - destruct (closed c) eqn:Hc; [by apply recv_closed|by apply recv_pending].
  - destruct (recv_frame _ c f q Hq) as (c' & Hr & Hh). exists c'. split; [done|].
    unfold popped. by rewrite Hq.
Qed.

(** A future's locals are right about the queues. *)
Definition fut_ok (q : @PushQueues Q L F) (fut : RecvFuture) : Prop :=
  (high_closed fut = true -> queued (high_prio q) = [] /\ closed (high_prio q) = true)
  /\ (low_closed fut = true -> queued (low_prio q) = [] /\ closed (low_prio q) = true).

(** The queues after a poll. *)
Definition taken (q q' : @PushQueues Q L F) (r : @RecvPoll F) : Prop :=
  match r with
  | RecvReady (Some (p, _)) => exists c, popped (queue_of q p) c /\ q' = set_queue q p c
  | _ => q' = q
  end.

Lemma set_queue_same q p : set_queue q p (queue_of q p) = q.
Proof. by destruct q, p. Qed.

(** The future once both queues are known to be closed or open. *)
Lemma recv_poll_settled n q fut :
  queued (high_prio q) = [] ->
  high_closed fut = closed (high_prio q) -> (low_closed fut = true ->
    queued (low_prio q) = [] /\ closed (low_prio q) = true) ->
  let '(q', r) := recv_poll (S (S n)) q fut in r = next_frame q /\ taken q q' r.
Proof.
  intros Hh Ef Hl. destruct fut as [hc lc]. simpl in Ef, Hl. subst hc. cbn [recv_poll].
  cbn [high_closed low_closed]. unfold next_frame. rewrite Hh.
  pose proof (recv_cases (high_prio q)) as Rh. rewrite Hh in Rh. rewrite Rh.
  pose proof (recv_cases (low_prio q)) as Rl.
  pose proof (set_queue_same q PriorityLow : set_queue q PriorityLow (low_prio q) = q) as Es.
  destruct lc.
  - destruct (Hl eq_refl) as [-> ->]. by destruct (closed (high_prio q)).
  - destruct (queued (low_prio q)) as [|g l] eqn:Hq.
    + rewrite Rl. destruct (closed (high_prio q)) eqn:Ch, (closed (low_prio q)) eqn:Cl;
        cbn [high_closed low_closed andb]; try done.
      by rewrite Es, Rh.
    + destruct Rl as (c & -> & Hp). destruct (closed (high_prio q)); simpl;
        (split; [done|]); by exists c.
Qed.

Lemma recv_poll_exact q fut :
  fut_ok q fut -> let '(q', r) := recv_poll 3 q fut in r = next_frame q /\ taken q q' r.
Proof.
  intros [Hh Hl].
  destruct (queued (high_prio q)) as [|f l] eqn:Hq.
  - destruct (bool_decide (high_closed fut = closed (high_prio q))) eqn:Ef.
    + apply bool_decide_eq_true in Ef. by apply recv_poll_settled.
    + apply bool_decide_eq_false in Ef. destruct fut as [[] lc]; simpl in Hh, Hl, Ef.
      { destruct (Hh eq_refl) as [_ E]. congruence. }
      destruct (closed (high_prio q)) eqn:Ch; [|done].
      pose proof (recv_cases (high_prio q)) as Rh. rewrite Hq, Ch in Rh.
      pose proof (set_queue_same q PriorityHigh : set_queue q PriorityHigh (high_prio q) = q) as Es.
      cbn [recv_poll high_closed]. rewrite Rh, Es.
      apply (recv_poll_settled 0 q (mk_RecvFuture true lc)); done.
  - destruct fut as [[] lc]; [destruct (Hh eq_refl); congruence|]. cbn [recv_poll high_closed].
    pose proof (recv_cases (high_prio q)) as Rh. rewrite Hq in Rh.
    destruct Rh as (c & -> & Hp). unfold next_frame. rewrite Hq. split; [done|]. by exists c.
Qed.

(** [n] calls of [recv], each polled once. *)
Fixpoint recv_many (n : nat) (q : @PushQueues Q L F) : list (@RecvPoll F) :=
  match n with
  | O => []
  | S n => let '(q, r) := recv_poll 3 q RecvFuture_new in r :: recv_many n q
  end.

Lemma recv_many_drains h l : forall q,
  queued (high_prio q) = h -> queued (low_prio q) = l ->
  closed (high_prio q) = true -> closed (low_prio q) = true ->
  recv_many (length h + length l + 1) q
  = ((fun f => RecvReady (Some (PriorityHigh, f))) <$> h)
    ++ ((fun f => RecvReady (Some (PriorityLow, f))) <$> l) ++ [RecvReady None].
Proof.
  assert (forall q, fut_ok q RecvFuture_new) as Hok by done.
  induction h as [|f h IH].
  - induction l as [|g l IHl]; intros q Hh Hl Ch Cl; pose proof (recv_poll_exact q _ (Hok q)) as H;
      cbn [length Nat.add recv_many]; destruct (recv_poll 3 q RecvFuture_new) as [q' r];
      destruct H as [-> Ht]; unfold next_frame in *; rewrite Hh, Hl in *.
    + by rewrite Ch, Cl.
    + destruct Ht as (c & (E1 & _ & E3) & ->). simpl in *. f_equal.
      apply IHl; simpl; try done; [by rewrite E1, Hl|by rewrite E3].
  - intros q Hh Hl Ch Cl. pose proof (recv_poll_exact q _ (Hok q)) as H.
    cbn [length Nat.add recv_many]. destruct (recv_poll 3 q RecvFuture_new) as [q' r].
    destruct H as [-> Ht]. unfold next_frame in *. rewrite Hh in *.
    destruct Ht as (c & (E1 & _ & E3) & ->). simpl in *. f_equal.
    apply IH; simpl; try done; [by rewrite E1, Hh|by rewrite E3].
Qed.
End receiving.

(** A poll of [recv] ends within three rounds of its loop and gives the
    first high-priority frame if there is one, otherwise the first low-priority
    one, otherwise the end if both queues are closed, and otherwise it is
    pending; only the frame it gives is taken.  After [close], receiving
    delivers every high-priority frame in order, then every low-priority one,
    and then the end. *)
Theorem recv_by_priority {Q : Mpsc} {QL : MpscLaws Q} {L : RateLimiting} {F : Type}
    (q : @PushQueues Q L F) (fut : RecvFuture) :
  fut_ok q fut ->
  (let '(q', r) := recv_poll 3 q fut in r = next_frame q /\ taken q q' r)
  /\ recv_many (length (queued (high_prio q)) + length (queued (low_prio q)) + 1) (close_queues q)
     = ((fun f => RecvReady (Some (PriorityHigh, f))) <$> queued (high_prio q))
       ++ ((fun f => RecvReady (Some (PriorityLow, f))) <$> queued (low_prio q))
       ++ [RecvReady None].
Proof.
  intros Hf. split; [by apply recv_poll_exact|].
  destruct (close_law _ (high_prio q)) as (E1 & _ & E2).
  destruct (close_law _ (low_prio q)) as (E3 & _ & E4).
  apply recv_many_drains; done.
Qed.

Lemma recv_by_priority_witness :
  (let '(q', r) := recv_poll 3 (demo_push [] [4; 5] None) RecvFuture_new in
   r = next_frame (demo_push [] [4; 5] None) /\ taken (demo_push [] [4; 5] None) q' r)
  /\ recv_many 3 (close_queues (demo_push [] [4; 5] None))
     = [RecvReady (Some (PriorityLow, 4)); RecvReady (Some (PriorityLow, 5)); RecvReady None].
Proof.
  apply (recv_by_priority (QL := list_mpsc_laws) (demo_push [] [4; 5] None) RecvFuture_new).
  split; intros H; discriminate H.
Defined.

(** ** Awaited pushes *)

Section awaited.
Context {Q : Mpsc} {QL : MpscLaws Q} {L : RateLimiting} {F : Type}.
Implicit Types (q : @PushQueues Q L F) (p : @PushFuture F).

(** The shared state, the pushes under way and the frames received. *)
Definition pushing : Type :=
  @PushQueues Q L F * list (@PushFuture F) * list (PushPriority * F).

(** At each step a push goes on, a frame is received, or the queues are
    closed. *)
Inductive pushing_step : pushing -> pushing -> Prop :=
  | pg_push q ps got i p now q' p' :
      ps !! i = Some p -> push_step q p now = Some (q', p') ->
      pushing_step (q, ps, got) (q', <[i := p']> ps, got)
  | pg_recv q ps got q' x :
      recv_poll 3 q RecvFuture_new = (q', RecvReady (Some x)) ->
      pushing_step (q, ps, got) (q', ps, got ++ [x])
  | pg_close q ps got : pushing_step (q, ps, got) (close_queues q, ps, got).

Definition probed (p : @PushFuture F) : Z :=
  match p with PushPermit _ _ | PushProbe _ _ => 0 | _ => 1 end.
Definition parked (p : @PushFuture F) : Z :=
  match p with PushSend _ _ true | PushDone _ _ _ true => 1 | _ => 0 end.
Definition sent (p : @PushFuture F) : option (PushPriority * F) :=
  match p with PushDone f priority (Ok _) _ => Some (priority, f) | _ => None end.

(** The frames in the queues. *)
Definition waiting (q : @PushQueues Q L F) : list (PushPriority * F) :=
  (pair PriorityHigh <$> queued (high_prio q)) ++ (pair PriorityLow <$> queued (low_prio q)).

Definition bounded_queue (c : Chan F) (n : Z) : Prop :=
  capacity c = n /\ len (queued c) <= n.

Record push_inv (nh nl : Z) (x : pushing) : Prop := {
  pi_probes : capacity_probes (waits x.1.1) = zsum probed x.1.2;
  pi_waits : awaited_capacity_waits (waits x.1.1) = zsum parked x.1.2;
  pi_frames : omap sent x.1.2 ≡ₚ x.2 ++ waiting x.1.1;
  pi_high : bounded_queue (high_prio x.1.1) nh;
  pi_low : bounded_queue (low_prio x.1.1) nl
}.

Lemma probed_bound p : 0 <= probed p <= 1.
Proof. destruct p; simpl; lia. Qed.
Lemma parked_bound p : 0 <= parked p <= 1.
Proof. destruct p as [| | |? ? []|? ? ? []]; simpl; lia. Qed.

Definition capacity_of (nh nl : Z) (priority : PushPriority) : Z :=
  match priority with PriorityHigh => nh | PriorityLow => nl end.

(** The queue of one priority is replaced. *)
Lemma bounded_set q priority c nh nl :
  bounded_queue (high_prio q) nh -> bounded_queue (low_prio q) nl ->
  bounded_queue c (capacity_of nh nl priority) ->
  bounded_queue (high_prio (set_queue q priority c)) nh
  /\ bounded_queue (low_prio (set_queue q priority c)) nl.
Proof. by destruct priority. Qed.

Lemma bounded_of q priority nh nl :
  bounded_queue (high_prio q) nh -> bounded_queue (low_prio q) nl ->
  bounded_queue (queue_of q priority) (capacity_of nh nl priority).
Proof. by destruct priority. Qed.

Lemma waiting_push q priority c f :
  queued c = queued (queue_of q priority) ++ [f] ->
  waiting (set_queue q priority c) ≡ₚ waiting q ++ [(priority, f)].
Proof.
  intros E. unfold waiting. destruct priority; simpl in *; rewrite E, fmap_app; simpl.
  - rewrite <- !app_assoc. f_equiv. by rewrite Permutation_app_comm.
  - by rewrite app_assoc.
Qed.

Lemma waiting_pop q priority c f r :
  queued (queue_of q priority) = f :: r -> queued c = r ->
  waiting q ≡ₚ (priority, f) :: waiting (set_queue q priority c).
Proof.
  intros E1 E2. unfold waiting. destruct priority; simpl in *; rewrite E1, E2; simpl; [done|].
  by rewrite <- Permutation_middle.
Qed.

(** One step of a push, by what it changes. *)
Lemma push_inv_update nh nl q ps got i p q' p' :
  push_inv nh nl (q, ps, got) -> ps !! i = Some p ->
  capacity_probes (waits q') = capacity_probes (waits q) + probed p' - probed p ->
  awaited_capacity_waits (waits q') = awaited_capacity_waits (waits q) + parked p' - parked p ->
  (sent p' = sent p /\ waiting q' = waiting q)
  \/ (exists x, sent p = None /\ sent p' = Some x /\ waiting q' ≡ₚ waiting q ++ [x]) ->
  bounded_queue (high_prio q') nh -> bounded_queue (low_prio q') nl ->
  push_inv nh nl (q', <[i := p']> ps, got).
Proof.
  intros [H1 H2 H3 _ _] Hi Ep Ew Hs Bh Bl. simpl in *.
  split; simpl; try done; rewrite ?(zsum_insert _ _ _ _ _ Hi); try lia.
  destruct Hs as [[E1 E2]|(x & E1 & E2 & E3)].
  - by rewrite (omap_insert_same _ _ _ _ _ Hi E1), E2.
  - rewrite (omap_insert_perm _ _ _ _ _ _ Hi E1 E2), H3, E3. by rewrite app_assoc.
Qed.

(** A frame is offered to a queue. *)
Lemma offer_cases nh nl q ps got priority f c r :
  push_inv nh nl (q, ps, got) -> try_send (queue_of q priority) f = (c, r) ->
  let q' := set_queue q priority c in
  waits q' = waits q
  /\ bounded_queue (high_prio q') nh /\ bounded_queue (low_prio q') nl
  /\ match r with
     | Ok _ => waiting q' ≡ₚ waiting q ++ [(priority, f)]
     | Err _ => waiting q' = waiting q
     end.
Proof.
  intros [_ _ _ Bh Bl] Hs. simpl in *. split; [apply queue_set_rest|].
  destruct (bounded_of q priority nh nl Bh Bl) as [Ec El].
  destruct (try_send_cases (queue_of q priority) f)
    as [(Hr & c' & E & Hq & Hc & _)|(Hr & E)]; rewrite E in Hs; injection Hs as <- <-.
  - assert (bounded_queue c' (capacity_of nh nl priority)) as Bc.
    { split; [congruence|]. rewrite Hq, len_app. destruct Hr. unfold len in *. simpl. lia. }
    destruct (bounded_set q priority c' nh nl Bh Bl Bc) as [B1 B2].
    split; [exact B1|]. split; [exact B2|]. by apply waiting_push.
  - rewrite set_queue_same. split; [exact Bh|]. by split; [exact Bl|].
Qed.

Lemma push_step_inv nh nl q ps got i p now q' p' :
  push_inv nh nl (q, ps, got) -> len ps <= u64_max -> ps !! i = Some p ->
  push_step q p now = Some (q', p') -> push_inv nh nl (q', <[i := p']> ps, got).
Proof.
  intros Hinv Hlen Hi Hs. pose proof Hinv as [H1 H2 _ Bh Bl]. simpl in *.
  assert (forall g : PushFuture -> Z, (forall x, 0 <= g x <= 1) -> g p = 0 ->
    zsum g ps + 1 <= u64_max /\ 0 <= zsum g ps) as Hroom.
  { intros g Hg Hp.
    assert (zsum g ps + zsum (fun x => 1 - g x) ps = len ps) as Es
      by (clear; induction ps as [|x l IH]; [done|]; unfold len in *; simpl; lia).
    assert (1 - g p <= zsum (fun x => 1 - g x) ps) as Hle.
    { apply (zsum_lookup (fun x => 1 - g x) ps i p); [|done].
      apply Forall_forall. intros x _. specialize (Hg x). lia. }
    pose proof (zsum_bound g ps Hg). lia. }
  destruct p as [f pr|f pr|f pr|f pr b|f pr r b]; simpl in Hs.
  - unfold wait_for_permit in Hs. destruct (limiter q) as [l|].
    + destruct (try_acquire l now) as [l' []]; injection Hs as <- <-;
        (apply (push_inv_update nh nl q ps got i _ _ _ Hinv Hi); simpl; try lia; [by left|done..]).
    + injection Hs as <- <-.
      apply (push_inv_update nh nl q ps got i _ _ _ Hinv Hi); simpl; try lia; [by left|done..].
  - injection Hs as <- <-. destruct (Hroom probed probed_bound eq_refl).
    apply (push_inv_update nh nl q ps got i _ _ _ Hinv Hi); simpl; try lia; [|by left|done..].
    unfold wrapping_add. rewrite Z.mod_small by lia. lia.
  - destruct (try_send (queue_of q pr) f) as [c r] eqn:Ht.
    destruct (offer_cases nh nl q ps got pr f c r Hinv Ht) as (Ew & Bh' & Bl' & Hw).
    injection Hs as <- <-.
    apply (push_inv_update nh nl q ps got i _ _ _ Hinv Hi); rewrite ?Ew; try done;
      destruct r as [u|[|]]; simpl; try lia; try (by left).
    right. by exists (pr, f).
  - destruct (try_send (queue_of q pr) f) as [c r] eqn:Ht.
    destruct (offer_cases nh nl q ps got pr f c r Hinv Ht) as (Ew & Bh' & Bl' & Hw).
    assert (forall q w, waits (set_waits q w) = w) as Esw by done.
    destruct r as [u|[|]]; injection Hs as <- <-.
    all: apply (push_inv_update nh nl q ps got i _ _ _ Hinv Hi); rewrite ?Esw, ?Ew; 
      first [exact Bh' | exact Bl' | left; split; [done|exact Hw]
            | right; exists (pr, f); by split_and! | idtac];
      unfold record_first_pending; destruct b; simpl; try lia.
    destruct (Hroom parked parked_bound eq_refl).
    unfold wrapping_add. rewrite Z.mod_small by lia. lia.
  - done.
Qed.

Lemma recv_inv nh nl q ps got q' x :
  push_inv nh nl (q, ps, got) -> recv_poll 3 q RecvFuture_new = (q', RecvReady (Some x)) ->
  push_inv nh nl (q', ps, got ++ [x]).
Proof.
  intros [H1 H2 H3 Bh Bl] Hr. cbn [fst snd] in *.
  assert (fut_ok q RecvFuture_new) as Hok by done.
  pose proof (recv_poll_exact q RecvFuture_new Hok) as He. rewrite Hr in He.
  destruct x as [pr f], He as [En (c & (Eq & Ec & _) & ->)].
  assert (exists r, queued (queue_of q pr) = f :: r) as [r Er].
  { unfold next_frame in En. destruct (queued (high_prio q)) eqn:Eh.
    - destruct (queued (low_prio q)) eqn:El; [by destruct (_ && _)|].
      injection En as -> ->. eauto.
    - injection En as -> ->. eauto. }
  rewrite Er in Eq. destruct (bounded_of q pr nh nl Bh Bl) as [B1 B2].
  assert (bounded_queue c (capacity_of nh nl pr)) as Bc.
  { split; [congruence|]. rewrite Eq. rewrite Er in B2. unfold len in *. simpl in *. lia. }
  destruct (bounded_set q pr c nh nl Bh Bl Bc) as [B3 B4].
  destruct (queue_set_rest q pr c) as (_ & Ew & _).
  split; cbn [fst snd]; rewrite ?Ew; try done.
  rewrite H3, (waiting_pop q pr c f r Er Eq). by rewrite <- app_assoc.
Qed.

Lemma close_inv nh nl q ps got :
  push_inv nh nl (q, ps, got) -> push_inv nh nl (close_queues q, ps, got).
Proof.
  intros [H1 H2 H3 [B1 B2] [B3 B4]]. simpl in *.
  destruct (close_law _ (high_prio q)) as (E1 & E2 & _).
  destruct (close_law _ (low_prio q)) as (E3 & E4 & _).
  split; unfold bounded_queue; simpl; rewrite ?E1, ?E2, ?E3, ?E4; try done.
  unfold waiting. simpl. by rewrite E1, E3.
Qed.

Lemma pushing_inv nh nl x y :
  rtc pushing_step x y -> push_inv nh nl x -> len x.1.2 <= u64_max -> push_inv nh nl y.
Proof.
  induction 1 as [x|x y z Hxy _ IH]; intros Hx Hlen; [done|].
  apply IH; destruct Hxy; simpl in *.
  - by eapply push_step_inv.
  - by eapply recv_inv.
  - by apply close_inv.
  - unfold len in *. by rewrite length_insert.
  - done.
  - done.
Qed.

Lemma start_pushing cfg now q (frames : list (F * PushPriority)) :
  0 <= high_capacity cfg -> 0 <= low_capacity cfg -> build cfg now = Ok q ->
  push_inv (high_capacity cfg) (low_capacity cfg)
    (q, (fun x => push_with_priority x.1 x.2) <$> frames, []).
Proof.
  intros Hh Hl. unfold build, build_with_config. simpl.
  destruct (invalid_rate (rate cfg)); [done|]. case_decide as Hz; [done|].
  intros [= <-].
  destruct (channel_law F (high_capacity cfg)) as (E1 & E2 & _); [lia|].
  destruct (channel_law F (low_capacity cfg)) as (E3 & E4 & _); [lia|].
  assert (forall g : PushFuture -> Z, (forall f pr, g (PushPermit f pr) = 0) ->
    zsum g ((fun x => push_with_priority x.1 x.2) <$> frames) = 0) as Hsum.
  { intros g Hg. induction frames as [|[f pr] fs IH]; [done|]. rewrite fmap_cons.
    cbn [zsum foldr]. unfold push_with_priority at 1. rewrite Hg. exact IH. }
  assert (omap sent ((fun x => push_with_priority x.1 x.2) <$> frames) = []) as Hsent.
  { clear Hsum. induction frames as [|x fs IH]; [done|]. by rewrite fmap_cons, omap_cons_eq. }
  split; cbn [fst snd waits high_prio low_prio]; rewrite ?Hsum, ?Hsent by done; try done.
  - unfold waiting. simpl. by rewrite E1, E3.
  - split; [done|]. rewrite E1. exact Hh.
  - split; [done|]. rewrite E3. exact Hl.
Qed.

(** The steps [ops] in order; one that cannot be taken is left out. *)
Inductive push_op : Type := OpPush (i : nat) (now : Z) | OpReceive | OpClose.

Definition do_push_op (x : pushing) (op : push_op) : pushing :=
  let '(q, ps, got) := x in
  match op with
  | OpPush i now =>
      match p ← ps !! i; push_step q p now with
      | Some (q, p) => (q, <[i := p]> ps, got)
      | None => x
      end
  | OpReceive =>
      match recv_poll 3 q RecvFuture_new with
      | (q, RecvReady (Some r)) => (q, ps, got ++ [r])
      | _ => x
      end
  | OpClose => (close_queues q, ps, got)
  end.

Lemma push_ops_rtc ops : forall x, rtc pushing_step x (foldl do_push_op x ops).
Proof.
  induction ops as [|op ops IH]; intros [[q ps] got]; [done|]. cbn [foldl].
  destruct op as [i now| |]; cbn [do_push_op].
  - destruct (ps !! i) as [p|] eqn:Hi; [|apply IH]. cbn [mbind option_bind].
    destruct (push_step q p now) as [[q' p']|] eqn:Hs; [|apply IH].
    eapply rtc_l; [by eapply pg_push|apply IH].
  - destruct (recv_poll 3 q RecvFuture_new) as [q' [[r|]| |]] eqn:Hr; try apply IH.
    eapply rtc_l; [by eapply pg_recv|apply IH].
  - eapply rtc_l; [apply pg_close|apply IH].
Qed.
End awaited.

(** Whatever the order in which awaited pushes go on, frames are received
    and the queues are closed, the frames of the pushes that succeeded are
    exactly those received and those still queued; the queues never hold more
    than their capacities; and the wait counters say exactly how many pushes
    have probed their queue and how many of them had to park, each once however
    often it was polled. *)
Theorem awaited_pushes_accounted {Q : Mpsc} {QL : MpscLaws Q} {L : RateLimiting} {F : Type}
    (cfg : @PushQueueConfig Q F) (now : Z) (q0 q : @PushQueues Q L F)
    (frames : list (F * PushPriority)) (ps : list PushFuture) (got : list (PushPriority * F)) :
  0 <= high_capacity cfg -> 0 <= low_capacity cfg -> len frames <= u64_max ->
  build cfg now = Ok q0 ->
  rtc pushing_step (q0, (fun x => push_with_priority x.1 x.2) <$> frames, []) (q, ps, got) ->
  omap sent ps ≡ₚ got ++ waiting q
  /\ len (queued (high_prio q)) <= high_capacity cfg
  /\ len (queued (low_prio q)) <= low_capacity cfg
  /\ capacity_probes (snapshot (waits q)) = zsum probed ps
  /\ awaited_capacity_waits (snapshot (waits q)) = zsum parked ps.
Proof.
  intros Hh Hl Hlen Hb Hr. pose proof (start_pushing cfg now q0 frames Hh Hl Hb) as Hs.
  destruct (pushing_inv _ _ _ _ Hr Hs) as [H1 H2 H3 [_ H4] [_ H5]].
  { unfold len in *. cbn [fst snd]. by rewrite length_fmap. }
  done.
Qed.

(** Two pushes to a queue for one frame: the second parks until the first frame
    is received. *)
Lemma awaited_pushes_accounted_witness :
  exists q ps got,
    omap sent ps ≡ₚ got ++ waiting (Q := list_mpsc) (L := stock_limiting) q
    /\ got = [(PriorityHigh, 7)] /\ waiting q = [(PriorityHigh, 8)]
    /\ capacity_probes (snapshot (waits q)) = 2 /\ awaited_capacity_waits (snapshot (waits q)) = 1.
Proof.
  set (cfg := unlimited (PushQueuesBuilder_default (Q := list_mpsc) (F := Z))).
  set (q0 := match build (L := stock_limiting) cfg 0 with
             | Ok q => q
             | Err _ => demo_push [] [] None
             end).
  set (x0 := (q0, (fun x => push_with_priority x.1 x.2)
                    <$> [(7, PriorityHigh); (8, PriorityHigh)], []) : pushing).
  set (x := foldl do_push_op x0 [OpPush 0 1; OpPush 1 1; OpPush 1 1; OpPush 0 1; OpPush 0 2;
    OpPush 1 2; OpPush 1 3; OpPush 1 4; OpReceive; OpPush 1 5]).
  pose proof (push_ops_rtc _ x0 : rtc pushing_step x0 x) as Hr.
  exists x.1.1, x.1.2, x.2.
  destruct (awaited_pushes_accounted (QL := list_mpsc_laws) cfg 0 q0 x.1.1
    [(7, PriorityHigh); (8, PriorityHigh)] x.1.2 x.2) as (H & _ & _ & H1 & H2).
  - vm_compute. congruence.
  - vm_compute. congruence.
  - vm_compute. congruence.
  - reflexivity.
  - exact Hr.
  - split; [exact H|]. split; [reflexivity|]. split; [reflexivity|].
    split; [rewrite H1; reflexivity|rewrite H2; reflexivity].
Defined.
