(* ===== verification/AsyncIo.v ===== *)
(** * Byte streams and the rewind stream

    Models [rewind_stream.rs] and the part of tokio's [AsyncRead] and
    [AsyncWrite] the crate reads and writes through.  A stream is the list of
    what its successive polls will see; a poll that finds nothing yet returns
    [Pending], the end of the list is the end of the stream. *)

From S2P Require Import Prelude.

Local Open Scope Z_scope.

(** ** [AsyncRead]: one poll, and [read(..).await] *)

Inductive poll (A : Type) : Type :=
  | Pending
  | Ready (a : A).
Arguments Pending {A}.
Arguments Ready {A} a.

Inductive ReadEvent : Type :=
  | Stall
  | Chunk (bytes : list Z)
  | Fault (e : io_error).

Abbreviation Source := (list ReadEvent) (only parsing).

(** A poll with room for [room] bytes. *)
Definition source_poll (room : Z) (s : Source) : Source * poll (result (list Z) io_error) :=
  match s with
  | [] => ([], Ready (Ok []))
  | Stall :: s => (s, Pending)
  | Fault e :: s => (s, Ready (Err e))
  | Chunk bs :: s =>
      if decide (len bs <= room) then (s, Ready (Ok bs))
      else (Chunk (drop (Z.to_nat room) bs) :: s, Ready (Ok (take (Z.to_nat room) bs)))
  end.

Class AsyncRead (R : Type) : Type := {
  poll_read : Z -> R -> R * poll (result (list Z) io_error);
  (** how often [poll_read] can answer [Pending] before it is ready *)
  patience : R -> nat
}.

#[export] Instance source_read : AsyncRead (list ReadEvent) := {|
  poll_read := source_poll;
  patience := length
|}.

Fixpoint await_read {R} `{AsyncRead R} (fuel : nat) (room : Z) (r : R)
    : R * result (list Z) io_error :=
  match poll_read room r, fuel with
  | (r', Ready x), _ => (r', x)
  | (r', Pending), S fuel => await_read fuel room r'
  | (r', Pending), O => (r', Err (mk_io_error ErrorKindOther "out of patience"))
  end.

(** [reader.read(&mut buf).await] with a buffer of [room] bytes. *)
Definition read {R} `{AsyncRead R} (room : Z) (r : R) : R * result (list Z) io_error :=
  await_read (patience r) room r.

(** ** [AsyncWrite]

    A sink that accepts [room] bytes and then fails; [flush_fault] is what
    flushing answers. *)

Record Sink : Type := mk_Sink {
  written : list Z;
  room_left : option (nat * io_error);
  flush_fault : option io_error
}.

Definition write_all (bytes : list Z) (w : Sink) : Sink * result unit io_error :=
  match room_left w with
  | Some (n, e) =>
      if decide ((n < length bytes)%nat)
      then (mk_Sink (written w ++ take n bytes) (Some (O, e)) (flush_fault w), Err e)
      else (mk_Sink (written w ++ bytes) (Some ((n - length bytes)%nat, e)) (flush_fault w), Ok tt)
  | None => (mk_Sink (written w ++ bytes) None (flush_fault w), Ok tt)
  end.

Definition flush (w : Sink) : Sink * result unit io_error :=
  (w, match flush_fault w with Some e => Err e | None => Ok tt end).

(** ** [RewindStream] *)

Record RewindStream (S : Type) : Type := mk_RewindStream {
  leftover : list Z;
  pos : Z;
  inner : S
}.
Arguments mk_RewindStream {S} leftover pos inner.
Arguments leftover {S} r.
Arguments pos {S} r.
Arguments inner {S} r.

Definition rewind_new {S} (leftover : list Z) (inner : S) : RewindStream S :=
  mk_RewindStream leftover 0 inner.

Section Rewind.
Context {S : Type} `{AsyncRead S}.

Definition rewind_delegate (room : Z) (self : RewindStream S)
    : RewindStream S * poll (result (list Z) io_error) :=
  let self :=
    if decide (len (leftover self) <= pos self /\ leftover self <> [])
    then mk_RewindStream [] 0 (inner self) else self in
  let '(i, x) := poll_read room (inner self) in
  (mk_RewindStream (leftover self) (pos self) i, x).

Definition rewind_poll_read (room : Z) (self : RewindStream S)
    : RewindStream S * poll (result (list Z) io_error) :=
  if decide (pos self = len (leftover self)) then rewind_delegate room self
  else
    let remaining := saturating_sub (len (leftover self)) (pos self) in
    let to_copy := Z.min remaining room in
    match slice_get (leftover self) (pos self) (pos self + to_copy) with
    | None => (self, Ready (Err (mk_io_error UnexpectedEof "rewind buffer slice out of bounds")))
    | Some slice =>
        let self := mk_RewindStream (leftover self) (pos self + to_copy) (inner self) in
        if decide (pos self < len (leftover self) \/ 0 < to_copy)
        then (self, Ready (Ok slice))
        else rewind_delegate room self
    end.

#[export] Instance rewind_read : AsyncRead (RewindStream S) := {|
  poll_read := rewind_poll_read;
  patience r := patience (inner r)
|}.
End Rewind.

(** ** What a reader still has to deliver

    [unread r] are the bytes reading [r] to its end yields when no fault is on
    the way.  [read_exact]: a [read] takes a prefix of them that fits the
    buffer, and takes something while something is left. *)

Class ReadLaws (R : Type) {A : AsyncRead R} : Type := {
  unread : R -> option (list Z);
  read_exact r room bs :
    unread r = Some bs -> 0 < room ->
    exists got rest,
      (read room r).2 = Ok got /\ bs = got ++ rest /\
      unread (read room r).1 = Some rest /\ len got <= room /\ (bs <> [] -> got <> [])
}.

Fixpoint source_bytes (s : list ReadEvent) : option (list Z) :=
  match s with
  | [] => Some []
  | Stall :: s => source_bytes s
  | Fault _ :: _ => None
  | Chunk bs :: s => if decide (bs = []) then None else option_map (app bs) (source_bytes s)
  end.

Lemma await_source_exact fuel room s bs :
  (length s <= fuel)%nat -> source_bytes s = Some bs -> 0 < room ->
  exists got rest,
    (await_read fuel room s).2 = Ok got /\ bs = got ++ rest /\
    source_bytes (await_read fuel room s).1 = Some rest /\ len got <= room /\
    (bs <> [] -> got <> []).
Proof.
  revert fuel. induction s as [|[|c|e] s IH]; intros fuel Hf Hs Hr; simplify_eq/=.
  - exists [], []. destruct fuel; simpl; repeat split; try done; len_solve.
  - destruct fuel as [|fuel]; [lia|]. simpl. apply IH; [lia|done|done].
  - case_decide as Hc; [done|]. destruct (source_bytes s) as [tl|] eqn:Ht; simplify_eq/=.
    assert (Hgoal : exists got rest, (source_poll room (Chunk c :: s)).2 = Ready (Ok got) /\
      c ++ tl = got ++ rest /\ source_bytes (source_poll room (Chunk c :: s)).1 = Some rest /\
      len got <= room /\ got <> []).
    { simpl. case_decide as Hl; simpl.
      - exists c, tl. by rewrite Ht.
      - exists (take (Z.to_nat room) c), (drop (Z.to_nat room) c ++ tl).
        assert (length c > Z.to_nat room)%nat by (unfold len in Hl; lia).
        rewrite decide_False, Ht by (intros E; apply (f_equal length) in E;
          rewrite length_drop in E; simpl in E; lia).
        rewrite app_assoc, take_drop. repeat split; [len_solve|].
        intros E; apply (f_equal length) in E; rewrite length_take in E; simpl in E; lia. }
    destruct Hgoal as (got & rest & H1 & H2 & H3 & H4 & H5). exists got, rest.
    change (poll_read room (Chunk c :: s)) with (source_poll room (Chunk c :: s)).
    destruct fuel; cbn [await_read]; change (poll_read room (Chunk c :: s))
      with (source_poll room (Chunk c :: s));
      destruct (source_poll room (Chunk c :: s)) as [r' p]; simplify_eq/=; done.
Qed.

#[export] Instance source_laws : ReadLaws (list ReadEvent) := {|
  unread := source_bytes;
  read_exact r room bs Hs Hr := await_source_exact (length r) room r bs (le_n _) Hs Hr
|}.

Section RewindLaws.
Context {S : Type} `{L : ReadLaws S}.

Definition rewind_unread (r : RewindStream S) : option (list Z) :=
  if decide (0 <= pos r <= len (leftover r))
  then option_map (app (drop (Z.to_nat (pos r)) (leftover r))) (unread (inner r))
  else None.

Lemma drained_poll room l (i : S) :
  poll_read room (mk_RewindStream l (len l) i) =
  (mk_RewindStream [] 0 (poll_read room i).1, (poll_read room i).2).
Proof.
  cbn [poll_read rewind_read]. unfold rewind_poll_read. cbn [pos leftover].
  rewrite decide_True by done. unfold rewind_delegate. cbn [pos leftover inner].
  destruct (decide (len l <= len l /\ l <> [])) as [Hd|Hd]; cbn [pos leftover inner];
    destruct (poll_read room i) as [i' x]; [done|].
  destruct l as [|b l]; [done|]. destruct Hd. split; [lia|done].
Qed.

Lemma drained_await fuel room l (i : S) :
  await_read fuel room (mk_RewindStream l (len l) i) =
  (mk_RewindStream [] 0 (await_read fuel room i).1, (await_read fuel room i).2).
Proof.
  revert l i. induction fuel as [|fuel IH]; intros l i; cbn [await_read];
    rewrite drained_poll; destruct (poll_read room i) as [i' [|x]]; try done.
  exact (IH [] i').
Qed.

Lemma leftover_poll room l p (i : S) :
  0 <= p < len l -> 0 < room ->
  poll_read room (mk_RewindStream l p i) =
  (mk_RewindStream l (p + Z.min (len l - p) room) i,
   Ready (Ok (take (Z.to_nat (Z.min (len l - p) room)) (drop (Z.to_nat p) l)))).
Proof.
  intros Hp Hr. cbn [poll_read rewind_read]. unfold rewind_poll_read. cbn [pos leftover inner].
  rewrite decide_False by lia. unfold saturating_sub, slice_get.
  rewrite Z.max_r by lia. rewrite (decide_True (P := 0 <= p <= _ /\ _)) by lia.
  rewrite decide_True by lia. f_equal. do 3 f_equal. lia.
Qed.

Lemma rewind_read_exact (r : RewindStream S) room bs :
  rewind_unread r = Some bs -> 0 < room ->
  exists got rest,
    (read room r).2 = Ok got /\ bs = got ++ rest /\
    rewind_unread (read room r).1 = Some rest /\ len got <= room /\ (bs <> [] -> got <> []).
Proof.
  destruct r as [l p i]. unfold rewind_unread at 1. cbn [pos leftover inner].
  case_decide as Hp; [|done]. destruct (unread i) as [tl|] eqn:Hi; [|done].
  intros [= <-] Hr. unfold read. cbn [patience rewind_read inner].
  destruct (decide (p = len l)) as [->|Hne].
  - rewrite drained_await, drop_ge by len_solve.
    destruct (read_exact i room tl Hi Hr) as (got & rest & H1 & H2 & H3 & H4 & H5).
    unfold read in H1, H3. exists got, rest. cbn. unfold rewind_unread. cbn [pos leftover inner].
    rewrite decide_True, H3 by len_solve. done.
  - set (n := Z.min (len l - p) room). exists (take (Z.to_nat n) (drop (Z.to_nat p) l)),
      (drop (Z.to_nat n) (drop (Z.to_nat p) l) ++ tl).
    assert (E : forall fuel, await_read fuel room (mk_RewindStream l p i) =
      (mk_RewindStream l (p + n) i, Ok (take (Z.to_nat n) (drop (Z.to_nat p) l)))).
    { intros [|fuel]; cbn [await_read]; rewrite leftover_poll by lia; done. }
    rewrite E. cbn [fst snd]. unfold rewind_unread. cbn [pos leftover inner].
    rewrite decide_True, Hi by lia. rewrite app_assoc, take_drop.
    split; [done|]. split; [done|]. split.
    + cbn. do 2 f_equal. rewrite drop_drop. f_equal. lia.
    + split; [len_solve|]. intros _ E'. apply (f_equal length) in E'.
      rewrite length_take, length_drop in E'. cbn in E'. unfold n, len in *. lia.
Qed.

#[export] Instance rewind_laws : ReadLaws (RewindStream S) := {|
  unread := rewind_unread;
  read_exact := rewind_read_exact
|}.

(** A rewind stream delivers its leftover bytes, then its stream's. *)
Lemma unread_rewind_new l (i : S) bs :
  unread i = Some bs -> unread (rewind_new l i) = Some (l ++ bs).
Proof.
  intros Hi. cbn. unfold rewind_unread. cbn. rewrite decide_True by (pose proof (len_nonneg l); lia).
  by rewrite Hi.
Qed.
End RewindLaws.

(** ** Reading to the end

    [rooms] are the sizes of the buffers the caller offers. *)

Fixpoint read_through {R} `{AsyncRead R} (rooms : list Z) (r : R) : result (list Z) io_error :=
  match rooms with
  | [] => Ok []
  | room :: rooms =>
      let '(r, x) := read room r in
      match x with
      | Err e => Err e
      | Ok bs => match read_through rooms r with Ok more => Ok (bs ++ more) | Err e => Err e end
      end
  end.

Lemma read_through_exact {R} `{ReadLaws R} (r : R) rooms bs :
  unread r = Some bs -> Forall (fun room => 0 < room) rooms -> (length bs <= length rooms)%nat ->
  read_through rooms r = Ok bs.
Proof.
  intros Hu Hr. revert r bs Hu.
  induction Hr as [|room rooms Hroom Hr IH]; intros r bs Hu Hlen.
  - destruct bs; [done|simpl in Hlen; lia].
  - destruct (read_exact r room bs Hu Hroom) as (got & rest & H1 & -> & H3 & _ & H5).
    cbn [read_through]. destruct (read room r) as [r' x]. cbn in H1, H3. subst x.
    rewrite (IH r' rest H3); [done|]. rewrite length_app in Hlen. cbn in Hlen.
    destruct got as [|g got]; [|simpl in Hlen; lia].
    destruct rest as [|b rest]; [simpl; lia|]. by destruct H5.
Qed.
