(* ===== verification/Preamble.v ===== *)
(** * Connection preambles

    Models [preamble/mod.rs].  bincode is a parameter: [BincodePreamble] gives
    its two functions, [BincodePreambleLaws] what its documentation says of
    them.  [Other] stands for the decode errors the code passes on.  A loop
    whose fuel runs out answers [None]; [read_preamble_finishes] shows that this
    never happens. *)

From S2P Require Import Prelude.
From S2P Require Import AsyncIo.

Local Open Scope Z_scope.

Definition MAX_PREAMBLE_LEN : Z := 1024.
Definition PREAMBLE_TOO_LONG_ERROR : string := "preamble too long".

Inductive DecodeError : Type :=
  | UnexpectedEnd (additional : Z)
  | DecodeIo (inner : io_error) (additional : Z)
  | Other (msg : string).

Inductive EncodeError : Type :=
  | EncodeIo (inner : io_error) (index : Z)
  | EncodeOther (msg : string).

(** [accounted] is what decoding a value costs in bincode's own accounting,
    which [with_limit] bounds and which need not be the encoding's length. *)
Class BincodePreamble (T : Type) : Type := {
  borrow_decode_from_slice : list Z -> result (T * Z) DecodeError;
  encode_to_vec : T -> result (list Z) EncodeError;
  accounted : T -> Z
}.

(** Decoding reads a value whose cost keeps the limit from the front of a slice
    and ignores what follows; on a shorter slice it asks for some of the bytes
    it misses. *)
Class BincodePreambleLaws (T : Type) {B : BincodePreamble T} : Prop := {
  asks_for_more bs n :
    borrow_decode_from_slice (T := T) bs = Err (UnexpectedEnd n) -> 1 <= n;
  consumes_at_most bs (v : T) n :
    borrow_decode_from_slice bs = Ok (v, n) -> 0 <= n <= len bs;
  decodes_encoded (v : T) bs more :
    encode_to_vec v = Ok bs -> accounted v <= MAX_PREAMBLE_LEN ->
    borrow_decode_from_slice (bs ++ more) = Ok (v, len bs);
  asks_what_is_missing (v : T) p q :
    encode_to_vec v = Ok (p ++ q) -> q <> [] -> accounted v <= MAX_PREAMBLE_LEN ->
    exists n, borrow_decode_from_slice (T := T) p = Err (UnexpectedEnd n) /\ 1 <= n <= len q
}.

(** ** Reading *)

Section Reading.
Context {R : Type} `{AsyncRead R}.

(** The [while] loop of [read_more]; [buf] holds what was read so far. *)
Fixpoint read_more_loop (fuel : nat) (additional read_so_far : Z) (buf : list Z) (reader : R)
    : option (R * result (list Z) DecodeError) :=
  if decide (read_so_far < additional) then
    match fuel with
    | O => None
    | S fuel =>
        let '(reader, x) := read (additional - read_so_far) reader in
        match x with
        | Ok [] =>
            Some (reader, Err (DecodeIo (mk_io_error UnexpectedEof "unexpected end of file")
                                 (additional - read_so_far)))
        | Ok bs => read_more_loop fuel additional (read_so_far + len bs) (buf ++ bs) reader
        | Err inner => Some (reader, Err (DecodeIo inner (additional - read_so_far)))
        end
    end
  else Some (reader, Ok buf).

Definition read_more (reader : R) (buf : list Z) (additional : Z)
    : option (R * result (list Z) DecodeError) :=
  if decide (MAX_PREAMBLE_LEN < len buf + additional)
  then Some (reader, Err (Other PREAMBLE_TOO_LONG_ERROR))
  else read_more_loop (Z.to_nat additional) additional 0 buf reader.

Context {T : Type} `{BincodePreamble T}.

Fixpoint read_preamble_loop (fuel : nat) (buf : list Z) (reader : R)
    : option (R * result (T * list Z) DecodeError) :=
  match borrow_decode_from_slice buf with
  | Ok (value, consumed) => Some (reader, Ok (value, drop (Z.to_nat consumed) buf))
  | Err (UnexpectedEnd additional) =>
      match fuel with
      | O => None
      | S fuel =>
          match read_more reader buf additional with
          | None => None
          | Some (reader, Err e) => Some (reader, Err e)
          | Some (reader, Ok buf) => read_preamble_loop fuel buf reader
          end
      end
  | Err e => Some (reader, Err e)
  end.

Definition read_preamble (reader : R) : option (R * result (T * list Z) DecodeError) :=
  match read_more reader [] 1 with
  | None => None
  | Some (reader, Err e) => Some (reader, Err e)
  | Some (reader, Ok buf) => read_preamble_loop (Z.to_nat MAX_PREAMBLE_LEN) buf reader
  end.
End Reading.

(** ** Writing *)

Definition write_preamble {T} `{BincodePreamble T} (w : Sink) (preamble : T)
    : Sink * result unit EncodeError :=
  match encode_to_vec preamble with
  | Err e => (w, Err e)
  | Ok bytes =>
      let '(w, x) := write_all bytes w in
      match x with
      | Err inner => (w, Err (EncodeIo inner 0))
      | Ok _ => let '(w, y) := flush w in (w, map_err (fun inner => EncodeIo inner (len bytes)) y)
      end
  end.

(** ** The loops finish *)

Section Finishes.
Context {R : Type} `{AsyncRead R}.

Lemma read_more_loop_finishes fuel additional sofar buf (r : R) :
  (Z.to_nat (additional - sofar) <= fuel)%nat ->
  exists r' x, read_more_loop fuel additional sofar buf r = Some (r', x) /\
    (forall b, x = Ok b -> len buf + Z.max 0 (additional - sofar) <= len b).
Proof.
  revert sofar buf r. induction fuel as [|fuel IH]; intros sofar buf r Hf; cbn [read_more_loop];
    case_decide as Hd; try lia;
    try (eexists _, _; split; [done|]; intros b [= <-]; lia).
  destruct (read _ r) as [r' [[|b bs]|e]]; try (eexists _, _; split; [done|]; intros; done).
  destruct (IH (sofar + len (b :: bs)) (buf ++ b :: bs) r') as (r'' & x & E & Hx); [len_solve|].
  exists r'', x. split; [done|]. intros c Hc. apply Hx in Hc. len_solve.
Qed.

Lemma read_more_finishes (r : R) buf additional :
  1 <= additional ->
  exists r' x, read_more r buf additional = Some (r', x) /\
    (forall b, x = Ok b -> len buf + additional <= len b) /\
    (x = Err (Other PREAMBLE_TOO_LONG_ERROR) \/ len buf + additional <= MAX_PREAMBLE_LEN).
Proof.
  intros Ha. unfold read_more. case_decide as Hd.
  - eexists _, _. split; [done|]. split; [intros; done|by left].
  - destruct (read_more_loop_finishes (Z.to_nat additional) additional 0 buf r)
      as (r' & x & E & Hx); [lia|].
    exists r', x. split; [done|]. split; [|right; lia]. intros b Hb. apply Hx in Hb. lia.
Qed.

Context {T : Type} `{BL : BincodePreambleLaws T}.

Lemma read_preamble_loop_finishes fuel buf (r : R) :
  Z.max 1 (MAX_PREAMBLE_LEN + 1 - len buf) <= Z.of_nat fuel ->
  read_preamble_loop (T := T) fuel buf r <> None.
Proof.
  revert buf r. induction fuel as [|fuel IH]; intros buf r Hf; [lia|]. cbn [read_preamble_loop].
  destruct (borrow_decode_from_slice buf) as [[v n]|[n|e n|m]] eqn:Hd; try done.
  apply asks_for_more in Hd.
  destruct (read_more_finishes r buf n Hd) as (r' & x & -> & Hx & [->|Hle]); [done|].
  destruct x as [b|e]; [|done]. specialize (Hx b eq_refl).
  apply IH. unfold MAX_PREAMBLE_LEN in *. lia.
Qed.
End Finishes.

(** ** What is read *)

Section Reads.
Context {R : Type} `{RL : ReadLaws R}.

Lemma read_more_loop_exact fuel additional sofar buf (r : R) bs rest :
  (Z.to_nat (additional - sofar) <= fuel)%nat -> sofar <= additional ->
  unread r = Some (bs ++ rest) -> len bs = additional - sofar ->
  exists r', read_more_loop fuel additional sofar buf r = Some (r', Ok (buf ++ bs)) /\
             unread r' = Some rest.
Proof.
  revert sofar buf r bs. induction fuel as [|fuel IH]; intros sofar buf r bs Hf Hs Hu Hl;
    cbn [read_more_loop]; case_decide as Hd; try lia.
  1,3: exists r; assert (bs = []) as -> by (apply len_zero; lia); by rewrite app_nil_r.
  destruct (read_exact r (additional - sofar) (bs ++ rest) Hu ltac:(lia))
    as (got & tl & H1 & H2 & H3 & H4 & H5).
  destruct (read _ r) as [r' x]. cbn in H1, H3. subst x.
  assert (Hg : got <> []).
  { apply H5. intros E. apply app_eq_nil in E as [-> _]. cbn in Hl. unfold len in *. simpl in *. lia. }
  destruct got as [|g got]; [done|].
  assert (exists bs', bs = (g :: got) ++ bs') as [bs' ->].
  { exists (drop (length (g :: got)) bs).
    assert (take (length (g :: got)) (bs ++ rest) = g :: got) as Ht by (rewrite H2; by rewrite take_app_length).
    rewrite take_app_le in Ht by (unfold len in *; lia). rewrite <- Ht at 1. by rewrite take_drop. }
  rewrite <- app_assoc in H2. apply app_inv_head in H2. subst tl. rewrite len_app in Hl.
  pose proof (len_nonneg bs').
  destruct (IH (sofar + len (g :: got)) (buf ++ g :: got) r' bs') as (r'' & E & Hr''); [len_solve|lia|done|lia|].
  exists r''. rewrite E. by rewrite <- app_assoc.
Qed.

Lemma read_more_exact (r : R) buf additional bs rest :
  len buf + additional <= MAX_PREAMBLE_LEN -> 0 <= additional ->
  unread r = Some (bs ++ rest) -> len bs = additional ->
  exists r', read_more r buf additional = Some (r', Ok (buf ++ bs)) /\ unread r' = Some rest.
Proof.
  intros Hm Ha Hu Hl. unfold read_more. rewrite decide_False by lia.
  eapply read_more_loop_exact; [lia|lia|done|lia].
Qed.

Context {T : Type} `{BL : BincodePreambleLaws T}.

Lemma read_preamble_loop_exact fuel (v : T) p q (r : R) rest :
  encode_to_vec v = Ok (p ++ q) -> len (p ++ q) <= MAX_PREAMBLE_LEN -> accounted v <= MAX_PREAMBLE_LEN ->
  unread r = Some (q ++ rest) -> (length q <= fuel)%nat ->
  exists r', read_preamble_loop fuel p r = Some (r', Ok (v, [])) /\ unread r' = Some rest.
Proof.
  revert p q r. induction fuel as [|fuel IH]; intros p q r He Hm Hacc Hu Hf.
  - destruct q; [|simpl in Hf; lia]. rewrite app_nil_r in He, Hm. exists r. cbn [read_preamble_loop].
    rewrite <- (app_nil_r p) at 1. rewrite (decodes_encoded v p [] He Hacc).
    by rewrite drop_ge by len_solve.
  - destruct (decide (q = [])) as [->|Hq].
    + rewrite app_nil_r in He, Hm. exists r. cbn [read_preamble_loop].
      rewrite <- (app_nil_r p) at 1. rewrite (decodes_encoded v p [] He Hacc).
      by rewrite drop_ge by len_solve.
    + destruct (asks_what_is_missing v p q He Hq Hacc) as (n & Hn & Hle). cbn [read_preamble_loop].
      rewrite Hn. rewrite len_app in Hm.
      rewrite <- (take_drop (Z.to_nat n) q), <- app_assoc in Hu.
      destruct (read_more_exact r p n (take (Z.to_nat n) q) (drop (Z.to_nat n) q ++ rest))
        as (r' & -> & Hr'); [lia|lia|done|len_solve|].
      apply (IH (p ++ take (Z.to_nat n) q) (drop (Z.to_nat n) q)); [| |done|done|].
      * by rewrite <- app_assoc, take_drop.
      * rewrite <- app_assoc, take_drop, len_app. lia.
      * rewrite length_drop. lia.
Qed.
End Reads.

(** ** Reading what was written *)

Lemma write_preamble_bytes {T} `{BincodePreamble T} w (v : T) bs :
  encode_to_vec v = Ok bs -> room_left w = None -> flush_fault w = None ->
  write_preamble w v = (mk_Sink (written w ++ bs) None None, Ok tt).
Proof.
  intros He Hr Hf. unfold write_preamble, write_all, flush. rewrite He, Hr. cbn. by rewrite Hf.
Qed.

(** C25: a preamble of at most 1024 encoded bytes, which bincode accounts for
    with at most as many too, crosses a connection and takes nothing with it:
    [write_preamble] to a sink without faults, followed by other traffic, read
    on the other side by [read_preamble] in pieces of any size, gives back the
    preamble, and the connection that goes on over [RewindStream] reads exactly
    the bytes that followed it.  ([read_preamble] reads a byte before it
    decodes, so there must be one: a preamble that encodes to nothing needs
    traffic to follow it.) *)
Theorem preamble_then_traffic {R} `{ReadLaws R} {T} `{BincodePreambleLaws T}
    (w : Sink) (v : T) (bs rest : list Z) (r : R) :
  written w = [] -> room_left w = None -> flush_fault w = None ->
  encode_to_vec v = Ok bs -> len bs <= MAX_PREAMBLE_LEN -> accounted v <= MAX_PREAMBLE_LEN ->
  bs ++ rest <> [] ->
  unread r = Some (written (write_preamble w v).1 ++ rest) ->
  exists r' more,
    read_preamble r = Some (r', Ok (v, more)) /\
    unread (rewind_new more r') = Some rest /\
    (forall rooms, Forall (fun n => 0 < n) rooms -> (length rest <= length rooms)%nat ->
       read_through rooms (rewind_new more r') = Ok rest).
Proof.
  intros Hw Hroom Hfl He Hm Hacc Hne Hu.
  rewrite (write_preamble_bytes w v bs He Hroom Hfl), Hw in Hu. cbn in Hu.
  assert (Hex : exists r' more, read_preamble r = Some (r', Ok (v, more)) /\
    unread (rewind_new more r') = Some rest).
  { unfold read_preamble. destruct bs as [|b bs].
    - destruct rest as [|b rest]; [done|].
      destruct (read_more_exact r [] 1 [b] rest) as (r' & -> & Hr'); try done.
      exists r', [b]. split; [|exact (unread_rewind_new [b] r' rest Hr')].
      cbn [app]. pose proof (decodes_encoded v [] [b] He Hacc) as Hd. cbn in Hd.
      destruct (Z.to_nat MAX_PREAMBLE_LEN); cbn [read_preamble_loop]; rewrite Hd; done.
    - destruct (read_more_exact r [] 1 [b] (bs ++ rest)) as (r' & -> & Hr'); try done.
      destruct (read_preamble_loop_exact (Z.to_nat MAX_PREAMBLE_LEN) v [b] bs r' rest)
        as (r'' & E & Hr''); [done|done|done|done|unfold MAX_PREAMBLE_LEN, len in *; simpl in *; lia|].
      exists r'', []. cbn [app]. split; [done|]. exact (unread_rewind_new [] r'' rest Hr''). }
  destruct Hex as (r' & more & E & Hr'). exists r', more. split; [done|]. split; [done|].
  intros rooms Hpos Hlen. by apply read_through_exact.
Qed.

(** Reading a preamble always finishes: with the fuel given to its loops
    [read_preamble] never stops early, whatever the stream delivers. *)
Lemma read_preamble_finishes {R} `{AsyncRead R} {T} `{BincodePreambleLaws T} (r : R) :
  exists r' x, read_preamble (T := T) r = Some (r', x).
Proof.
  unfold read_preamble.
  destruct (read_more_finishes r [] 1 ltac:(lia)) as (r' & x & -> & Hx & _).
  destruct x as [b|e]; [|by eexists _, _]. specialize (Hx b eq_refl).
  destruct (read_preamble_loop _ b r') as [[r'' y]|] eqn:E; [by eexists _, _|].
  apply read_preamble_loop_finishes in E; [done|]. unfold MAX_PREAMBLE_LEN, len in *. cbn in *. lia.
Qed.

(** A preamble of one byte-counted string, to evaluate the functions on. *)
Module CountedBytes.
Definition decode (bs : list Z) : result (list Z * Z) DecodeError :=
  match bs with
  | [] => Err (UnexpectedEnd 1)
  | n :: bs =>
      if decide (0 <= n <= len bs) then Ok (take (Z.to_nat n) bs, n + 1)
      else if decide (n < 0) then Err (Other "negative") else Err (UnexpectedEnd (n - len bs))
  end.

#[export] Instance codec : BincodePreamble (list Z) := {|
  borrow_decode_from_slice := decode;
  encode_to_vec v := Ok (len v :: v);
  accounted v := len v + 1
|}.

#[export] Instance laws : BincodePreambleLaws (list Z).
Proof.
  constructor; cbn.
  - intros [|b bs] n; cbn; [intros [= <-]; lia|]. repeat case_decide; intros [= <-]; lia.
  - intros [|b bs] v n; cbn; [done|]. repeat case_decide; intros [= <- <-]. len_solve.
  - intros v bs more [= <-] _. cbn. rewrite decide_True by len_solve.
    rewrite take_app_length' by len_solve. do 2 f_equal. len_solve.
  - intros v [|b p] q Heq Hq _; cbn in Heq |- *.
    + exists 1. split; [done|]. destruct q; [done|]. len_solve.
    + injection Heq as Hb Hv. destruct q as [|c q]; [done|]. subst v b. rewrite len_app.
      rewrite decide_False by len_solve. rewrite decide_False by len_solve.
      eexists. split; [done|]. len_solve.
Qed.
End CountedBytes.

(** The two bytes of the preamble arrive with the first bytes of the traffic,
    in pieces that cut across all of them. *)
Lemma preamble_then_traffic_witness :
  exists r' more,
    @read_preamble _ source_read _ CountedBytes.codec
      [Chunk [2]; Stall; Chunk [7; 8; 40]; Chunk [41; 42]] = Some (r', Ok ([7; 8], more)) /\
    read_through [1; 5; 5] (rewind_new more r') = Ok [40; 41; 42].
Proof.
  destruct (@preamble_then_traffic _ _ source_laws _ _ CountedBytes.laws (mk_Sink [] None None) [7; 8] [2; 7; 8] [40; 41; 42]
    [Chunk [2]; Stall; Chunk [7; 8; 40]; Chunk [41; 42]]) as (r' & more & H1 & _ & H2);
    try reflexivity; try (unfold MAX_PREAMBLE_LEN, len; simpl; lia); try discriminate.
  exists r', more. split; [exact H1|]. apply H2; [repeat constructor; lia|reflexivity].
Defined.
