(* ===== verification/FrameCodec.v ===== *)
(** * Codecs: errors, recovery policies and the [FrameCodec] interface

    Models [codec/error.rs], [codec/recovery/], [error.rs] and the trait
    [FrameCodec] of [codec/mod.rs].

    The trait is the class [FrameCodec]; what an application may rely on when
    it puts a codec under a stream is the class [StreamCodec].  That a
    stream survives any cutting into reads is proved once, against that class
    ([feed_spec]); the codecs of the repository discharge it in their own
    files, and [CodecStreams] states it of them. *)

From stdpp Require Import pretty.
From S2P Require Import Prelude.

Local Open Scope Z_scope.

(** ** [codec/recovery/policy.rs], [codec/error.rs] *)

Inductive RecoveryPolicy : Type :=
  | Drop
  | Quarantine
  | Disconnect.

#[export] Instance RecoveryPolicy_eq_dec : EqDecision RecoveryPolicy.
Proof. solve_decision. Defined.

Definition policy_as_str (p : RecoveryPolicy) : string :=
  match p with Drop => "drop" | Quarantine => "quarantine" | Disconnect => "disconnect" end.

Inductive FramingError : Type :=
  | OversizedFrame (size max : Z)
  | InvalidLengthEncoding
  | IncompleteHeader (have need : Z)
  | ChecksumMismatch (expected actual : Z)
  | EmptyFrame.

Inductive ProtocolError : Type :=
  | MissingHeader (field : string)
  | UnsupportedVersion (version : Z)
  | UnknownMessageType (type_id : Z)
  | SequenceViolation (expected actual : Z)
  | InvalidStateTransition (from to : string).

Inductive EofError : Type :=
  | CleanClose
  | MidFrame (bytes_received expected : Z)
  | MidHeader (bytes_received header_size : Z).

Inductive CodecError : Type :=
  | CodecFraming (e : FramingError)
  | CodecProtocol (e : ProtocolError)
  | CodecIo (e : io_error)
  | CodecEof (e : EofError).

#[export] Instance FramingError_eq_dec : EqDecision FramingError.
Proof. solve_decision. Defined.
#[export] Instance ProtocolError_eq_dec : EqDecision ProtocolError.
Proof. solve_decision. Defined.
#[export] Instance EofError_eq_dec : EqDecision EofError.
Proof. solve_decision. Defined.
#[export] Instance CodecError_eq_dec : EqDecision CodecError.
Proof. solve_decision. Defined.

Definition default_recovery_policy (self : CodecError) : RecoveryPolicy :=
  match self with
  | CodecFraming (OversizedFrame _ _) | CodecFraming EmptyFrame | CodecProtocol _ => Drop
  | CodecFraming _ | CodecIo _ | CodecEof _ => Disconnect
  end.

Definition is_clean_close (self : CodecError) : bool :=
  match self with CodecEof CleanClose => true | _ => false end.

Definition should_disconnect (self : CodecError) : bool :=
  bool_decide (default_recovery_policy self = Disconnect).

Definition error_type (self : CodecError) : string :=
  match self with
  | CodecFraming _ => "framing"
  | CodecProtocol _ => "protocol"
  | CodecIo _ => "io"
  | CodecEof _ => "eof"
  end.

(** [Display], as [thiserror] derives it from the attributes. *)
Definition hex_digit (d : Z) : string :=
  default "" (["0"; "1"; "2"; "3"; "4"; "5"; "6"; "7"; "8"; "9"; "a"; "b"; "c"; "d"; "e"; "f"]
    !! Z.to_nat d).

(** Sixteen digits are enough for 64 bits. *)
Fixpoint hex_go (fuel : nat) (v : Z) : string :=
  match fuel with
  | O => ""
  | S fuel => if v <? 16 then hex_digit v else (hex_go fuel (v / 16) +:+ hex_digit (v mod 16))%string
  end.
Definition hex (v : Z) : string := "0x" +:+ hex_go 16 v.

Definition display_framing (e : FramingError) : string :=
  match e with
  | OversizedFrame size max => "frame exceeds max length: " +:+ pretty size +:+ " > " +:+ pretty max
  | InvalidLengthEncoding => "invalid frame length encoding"
  | IncompleteHeader have need =>
      "incomplete frame header: have " +:+ pretty have +:+ ", need " +:+ pretty need
  | ChecksumMismatch expected actual =>
      "frame checksum mismatch: expected " +:+ hex expected +:+ ", got " +:+ hex actual
  | EmptyFrame => "empty frame not permitted"
  end.

Definition display_protocol (e : ProtocolError) : string :=
  match e with
  | MissingHeader field => "missing required header field: " +:+ field
  | UnsupportedVersion version => "unsupported protocol version: " +:+ pretty version
  | UnknownMessageType type_id => "unknown message type: " +:+ pretty type_id
  | SequenceViolation expected actual =>
      "sequence violation: expected " +:+ pretty expected +:+ ", got " +:+ pretty actual
  | InvalidStateTransition from to => "invalid state transition: " +:+ from +:+ " -> " +:+ to
  end.

Definition display_eof (e : EofError) : string :=
  match e with
  | CleanClose => "connection closed cleanly at frame boundary"
  | MidFrame bytes_received expected =>
      "premature EOF: " +:+ pretty bytes_received +:+ " bytes of " +:+ pretty expected
      +:+ " byte frame received"
  | MidHeader bytes_received header_size =>
      "premature EOF during header: " +:+ pretty bytes_received +:+ " of "
      +:+ pretty header_size +:+ " header bytes"
  end.

Definition display_codec (self : CodecError) : string :=
  match self with
  | CodecFraming e => "framing error: " +:+ display_framing e
  | CodecProtocol e => "protocol error: " +:+ display_protocol e
  | CodecIo e => "I/O error: " +:+ message e
  | CodecEof e => "EOF: " +:+ display_eof e
  end.

(** The message of an [io::Error] made from an error is that error's text. *)
Definition into_io_error (self : CodecError) : io_error :=
  match self with
  | CodecIo e => e
  | CodecFraming e => mk_io_error InvalidData (display_codec (CodecFraming e))
  | CodecProtocol e => mk_io_error InvalidData (display_codec (CodecProtocol e))
  | CodecEof e => mk_io_error UnexpectedEof (display_codec (CodecEof e))
  end.

(** ** [codec/recovery/config.rs], [context.rs], [hook.rs]

    Durations are in milliseconds; a socket address is its text. *)

Record RecoveryConfig : Type := mk_RecoveryConfig {
  max_consecutive_drops : Z;
  quarantine_duration : Z;
  log_dropped_frames : bool
}.

Definition recovery_default : RecoveryConfig := mk_RecoveryConfig 10 30000 true.
Definition with_max_consecutive_drops (count : Z) (c : RecoveryConfig) : RecoveryConfig :=
  mk_RecoveryConfig count (quarantine_duration c) (log_dropped_frames c).
Definition with_quarantine_duration (duration : Z) (c : RecoveryConfig) : RecoveryConfig :=
  mk_RecoveryConfig (max_consecutive_drops c) duration (log_dropped_frames c).
Definition with_log_dropped_frames (enabled : bool) (c : RecoveryConfig) : RecoveryConfig :=
  mk_RecoveryConfig (max_consecutive_drops c) (quarantine_duration c) enabled.

Record CodecErrorContext : Type := mk_CodecErrorContext {
  ctx_connection_id : option Z;
  ctx_peer_address : option string;
  ctx_correlation_id : option Z;
  ctx_codec_state : option string
}.

Definition context_new : CodecErrorContext := mk_CodecErrorContext None None None None.
Definition with_connection_id (id : Z) (c : CodecErrorContext) : CodecErrorContext :=
  mk_CodecErrorContext (Some id) (ctx_peer_address c) (ctx_correlation_id c) (ctx_codec_state c).
Definition with_peer_address (addr : string) (c : CodecErrorContext) : CodecErrorContext :=
  mk_CodecErrorContext (ctx_connection_id c) (Some addr) (ctx_correlation_id c) (ctx_codec_state c).
Definition with_correlation_id (id : Z) (c : CodecErrorContext) : CodecErrorContext :=
  mk_CodecErrorContext (ctx_connection_id c) (ctx_peer_address c) (Some id) (ctx_codec_state c).
Definition with_codec_state (state : string) (c : CodecErrorContext) : CodecErrorContext :=
  mk_CodecErrorContext (ctx_connection_id c) (ctx_peer_address c) (ctx_correlation_id c) (Some state).

Class RecoveryPolicyHook : Type := {
  hook_recovery_policy : CodecError -> CodecErrorContext -> RecoveryPolicy;
  hook_quarantine_duration : CodecError -> CodecErrorContext -> Z
}.

(** The trait's default methods. *)
#[export] Instance DefaultRecoveryPolicy : RecoveryPolicyHook := {|
  hook_recovery_policy e _ := default_recovery_policy e;
  hook_quarantine_duration _ _ := 30000
|}.

(** ** [error.rs] *)

Inductive WireframeError (E : Type) : Type :=
  | WfDuplicateRoute (id : Z)
  | WfIo (e : io_error)
  | WfProtocol (e : E)
  | WfCodec (e : CodecError).
Arguments WfDuplicateRoute {E} id.
Arguments WfIo {E} e.
Arguments WfProtocol {E} e.
Arguments WfCodec {E} e.

Definition from_io {E} (e : io_error) : WireframeError E := WfIo e.
Definition from_codec {E} (e : CodecError) : WireframeError E := WfCodec e.

Definition wireframe_is_clean_close {E} (self : WireframeError E) : bool :=
  match self with WfCodec e => is_clean_close e | _ => false end.

Definition display_wireframe {E} (debug : E -> string) (self : WireframeError E) : string :=
  match self with
  | WfDuplicateRoute id => "route id " +:+ pretty id +:+ " was already registered"
  | WfIo e => "transport error: " +:+ message e
  | WfProtocol e => "protocol error: " +:+ debug e
  | WfCodec e => "codec error: " +:+ display_codec e
  end.

(** ** The trait [FrameCodec]

    A decoder may keep state between calls; a call returns the new state, what
    is left in the buffer and the result. *)

Class FrameCodec : Type := {
  Codec : Type;
  Frame : Type;
  Decoder : Type;
  decoder : Codec -> Decoder;
  decode : Codec -> Decoder -> list Z -> Decoder * list Z * result (option Frame) io_error;
  encode : Codec -> Frame -> list Z -> list Z * result unit io_error;
  frame_payload : Frame -> list Z;
  wrap_payload : Codec -> list Z -> Frame;
  correlation_id : Frame -> option Z;
  max_frame_length : Codec -> Z
}.

Definition isize_max : Z := 2 ^ 63 - 1.

(** What a stream needs of a codec: [wire] is what the encoder appends for a
    frame it carries, and [unread st buf p] relates a decoder's state and
    buffer to the bytes of the stream it has not turned into frames yet. *)
Class StreamCodec (F : FrameCodec) : Type := {
  carries : Codec -> Frame -> Prop;
  wire : Codec -> Frame -> list Z;
  unread : Codec -> Decoder -> list Z -> list Z -> Prop;
  wire_nonempty c f : wire c f <> [];
  encode_appends c f dst : carries c f -> encode c f dst = (dst ++ wire c f, Ok tt);
  unread_fresh c p : unread c (decoder c) p p;
  unread_more c st buf p more : unread c st buf p -> unread c st (buf ++ more) (p ++ more);
  decode_idle c st buf :
    unread c st buf [] ->
    exists st' buf', decode c st buf = (st', buf', Ok None) /\ unread c st' buf' [];
  decode_whole c st buf f rest :
    carries c f -> unread c st buf (wire c f ++ rest) -> len (wire c f ++ rest) <= isize_max ->
    exists st' buf', decode c st buf = (st', buf', Ok (Some f)) /\ unread c st' buf' rest;
  decode_part c st buf f p q :
    carries c f -> wire c f = p ++ q -> q <> [] -> unread c st buf p -> len p <= isize_max ->
    exists st' buf', decode c st buf = (st', buf', Ok None) /\ unread c st' buf' p
}.

(** ** Streams

    After each read, frames are decoded until the decoder wants more; every
    frame takes at least one byte, so one round more than there are bytes is
    enough. *)

Section Stream.
Context {F : FrameCodec}.
Variable c : Codec.

Fixpoint drain (fuel : nat) (st : Decoder) (buf : list Z) : Decoder * list Z * list Frame :=
  match fuel with
  | O => (st, buf, [])
  | S fuel =>
      match decode c st buf with
      | (st, buf, Ok (Some f)) => let '(st, buf, fs) := drain fuel st buf in (st, buf, f :: fs)
      | (st, buf, _) => (st, buf, [])
      end
  end.

(** [held] counts the bytes read so far that are not yet decoded frames; it is
    at most what was read. *)
Definition feed (s : nat * Decoder * list Z) (chunk : list Z) : (nat * Decoder * list Z) * list Frame :=
  let '(read, st, buf) := s in
  let read := (read + length chunk)%nat in
  let '(st, buf, fs) := drain (S read) st (buf ++ chunk) in ((read, st, buf), fs).

Fixpoint encode_all (fs : list Frame) (dst : list Z) : list Z * result unit io_error :=
  match fs with
  | [] => (dst, Ok tt)
  | f :: fs =>
      match encode c f dst with
      | (dst, Ok _) => encode_all fs dst
      | (dst, Err e) => (dst, Err e)
      end
  end.

Context {L : StreamCodec F}.

Lemma encode_all_appends fs : forall dst,
  Forall (carries c) fs -> encode_all fs dst = (dst ++ concat (map (wire c) fs), Ok tt).
Proof.
  induction fs as [|f fs IH]; intros dst Hfs; cbn; [by rewrite app_nil_r|].
  apply Forall_cons in Hfs as [Hf Hfs]. rewrite encode_appends by done.
  rewrite IH by done. by rewrite <-app_assoc.
Qed.

Lemma drain_spec gs : forall fuel st buf x y,
  Forall (carries c) gs -> unread c st buf x -> x ++ y = concat (map (wire c) gs) ->
  (length x < fuel)%nat -> len (x ++ y) <= isize_max ->
  exists gs1 gs2 x' st' buf', drain fuel st buf = (st', buf', gs1) /\ gs = gs1 ++ gs2
    /\ unread c st' buf' x' /\ x' ++ y = concat (map (wire c) gs2) /\ (y = [] -> gs2 = []).
Proof.
  induction gs as [|g gs IH]; intros fuel st buf x y Hgs Hu Hxy Hf Hlen;
    (destruct fuel as [|fuel]; [lia|]); cbn [drain].
  { apply app_nil in Hxy as [-> ->]. destruct (decode_idle c st buf Hu) as (st' & buf' & -> & Hu').
    by exists [], [], [], st', buf'. }
  apply Forall_cons in Hgs as [Hg Hgs].
  change (concat (map (wire c) (g :: gs))) with (wire c g ++ concat (map (wire c) gs)) in Hxy.
  destruct (decide (length (wire c g) <= length x)%nat) as [Hle|Hgt].
  - assert (x = wire c g ++ drop (length (wire c g)) x) as Hx.
    { rewrite <-(take_drop (length (wire c g)) x) at 1. f_equal.
      rewrite <-(take_app_le x y) by done. by rewrite Hxy, take_app_length. }
    set (x1 := drop (length (wire c g)) x) in *. clearbody x1. subst x.
    rewrite <-app_assoc in Hxy. apply app_inv_head in Hxy.
    destruct (decode_whole c st buf g x1 Hg Hu) as (st1 & buf1 & -> & Hu1).
    { rewrite len_app in Hlen. pose proof (len_nonneg y). lia. }
    destruct (IH fuel st1 buf1 x1 y Hgs Hu1 Hxy) as (gs1 & gs2 & x' & st' & buf' & Hd & -> & Hu' & Hrest & Hend).
    + rewrite length_app in Hf. destruct (wire c g) eqn:E; [by destruct (wire_nonempty c g)|]. simpl in Hf. lia.
    + rewrite <-app_assoc, len_app in Hlen. pose proof (len_nonneg (wire c g)). lia.
    + rewrite Hd. by exists (g :: gs1), gs2, x', st', buf'.
  - assert (wire c g = x ++ take (length (wire c g) - length x) y) as Hw.
    { rewrite <-(take_app_length (wire c g) (concat (map (wire c) gs))), <-Hxy at 1.
      by rewrite take_app, (take_ge x) by lia. }
    assert (Hy : take (length (wire c g) - length x) y <> []).
    { intros E. rewrite E, app_nil_r in Hw. rewrite Hw in Hgt. lia. }
    destruct (decode_part c st buf g x _ Hg Hw Hy Hu) as (st' & buf' & -> & Hu').
    { rewrite len_app in Hlen. pose proof (len_nonneg y). lia. }
    exists [], (g :: gs), x, st', buf'. split; [done|]. split; [done|]. split; [done|]. split; [done|].
    intros ->. by rewrite take_nil in Hy.
Qed.

Lemma feed_spec gs chunks : forall read st buf x,
  Forall (carries c) gs -> unread c st buf x -> (length x <= read)%nat ->
  x ++ concat chunks = concat (map (wire c) gs) -> (chunks = [] -> gs = []) ->
  len (x ++ concat chunks) <= isize_max ->
  exists outs s, run feed (read, st, buf) chunks = (s, outs) /\ concat outs = gs
    /\ unread c s.1.2 s.2 [].
Proof.
  revert gs. induction chunks as [|ch chunks IH]; intros gs read st buf x Hgs Hu Hread Hx Hnil Hlen.
  { rewrite Hnil in * by done. apply app_nil in Hx as [-> _]. by exists [], (read, st, buf). }
  cbn [concat] in *. rewrite app_assoc in *.
  destruct (drain_spec gs (S (read + length ch)) st (buf ++ ch) (x ++ ch) (concat chunks) Hgs)
    as (gs1 & gs2 & x' & st' & buf' & Hd & -> & Hu' & Hrest & Hend);
    [by apply unread_more|done|rewrite length_app; lia|done|].
  assert (Hle : (length x' <= read + length ch)%nat).
  { pose proof (f_equal length Hx) as E1. pose proof (f_equal length Hrest) as E2.
    rewrite map_app, concat_app in E1. rewrite !length_app in *. lia. }
  apply Forall_app in Hgs as [_ Hgs2].
  destruct (IH gs2 (read + length ch)%nat st' buf' x' Hgs2 Hu' Hle Hrest) as (outs & s & Hrun & Ho & Hfin).
  - intros ->. by apply Hend.
  - rewrite Hrest. rewrite Hx, map_app, concat_app, len_app in Hlen.
    pose proof (len_nonneg (concat (map (wire c) gs1))). lia.
  - exists (gs1 :: outs), s. cbn [run]. unfold feed at 1. rewrite Hd, Hrun. by rewrite <-Ho.
Qed.

End Stream.
