(* ===== verification/ExampleCodecs.v ===== *)
(** * The example codecs of the crate

    Models [codec/examples.rs]: the Hotline codec (a 20-byte big-endian header
    with a transaction id) and the MySQL codec (a 3-byte little-endian length
    and a sequence number), as instances of [FrameCodec] and [StreamCodec]. *)

From S2P Require Import Prelude.
From S2P Require Import FrameCodec.

Local Open Scope Z_scope.

(** [as usize] of a [u32], and the numbers [BufMut::put_u32] writes and
    [Buf::get_u32] reads: big-endian. *)
Definition put_u32 (v : Z) : list Z := be_bytes 4 v.
Definition get_u32 (src : list Z) : Z := be_value (take 4 src).

Lemma get_put_u32 v rest : 0 <= v <= u32_max -> get_u32 (put_u32 v ++ rest) = v.
Proof.
  intros Hv. unfold get_u32, put_u32. rewrite take_app_length' by (by rewrite length_be_bytes).
  apply be_value_bytes. unfold u32_max in Hv. simpl. lia.
Qed.

Lemma drop_put_u32 v rest : drop 4 (put_u32 v ++ rest) = rest.
Proof. unfold put_u32. apply drop_app_length'. by rewrite length_be_bytes. Qed.

(** ** Codecs of a header and a payload

    A decoder that waits for the header and then, as the header says, for the
    payload, reads whole frames and waits on every proper prefix of one. *)

Section HeaderPayload.
Context {A : Type}.
Variable decode1 : list Z -> list Z * result (option A) io_error.
Variables header body : list Z.
Variable frame_of : list Z -> A.

Hypothesis waits_for_header : forall p, len p < len header -> decode1 p = (p, Ok None).
Hypothesis reads_body : forall rest,
  decode1 (header ++ rest)
  = if len rest <? len body then (header ++ rest, Ok None)
    else (drop (length body) rest, Ok (Some (frame_of (take (length body) rest)))).

Lemma reads_whole rest : decode1 ((header ++ body) ++ rest) = (rest, Ok (Some (frame_of body))).
Proof.
  rewrite <-app_assoc, reads_body.
  rewrite (proj2 (Z.ltb_ge _ _)) by (rewrite len_app; pose proof (len_nonneg rest); lia).
  by rewrite drop_app_length, take_app_length.
Qed.

Lemma waits_on_part p q : header ++ body = p ++ q -> q <> [] -> decode1 p = (p, Ok None).
Proof.
  intros Hw Hq.
  assert (Hpq : 0 < len q).
  { pose proof (len_nonneg q). destruct (Z.eq_dec (len q) 0) as [E|]; [by apply len_zero in E|lia]. }
  destruct (Z.lt_ge_cases (len p) (len header)) as [Hlt|Hge]; [by apply waits_for_header|].
  assert (Hp : p = header ++ drop (length header) p).
  { rewrite <-(take_drop (length header) p) at 1. f_equal.
    rewrite <-(take_app_le p q) by (unfold len in *; lia). by rewrite <-Hw, take_app_length. }
  pose proof (f_equal len Hw) as Hl. rewrite Hp, !len_app in Hl.
  rewrite Hp, reads_body. by rewrite (proj2 (Z.ltb_lt _ _)) by lia.
Qed.

End HeaderPayload.

(** ** Hotline *)

Module Hotline.

Record HotlineFrame : Type := mk_HotlineFrame {
  transaction_id : Z;
  payload : list Z
}.

(** The codec and its adapter both hold the limit. *)
Record HotlineFrameCodec : Type := mk_HotlineFrameCodec { limit : Z }.

Definition HEADER_LEN : Z := 20.

Definition hotline_decode (self : HotlineFrameCodec) (src : list Z)
    : list Z * result (option HotlineFrame) io_error :=
  if len src <? HEADER_LEN then (src, Ok None)
  else
    let data_size := get_u32 src in
    let total_size := get_u32 (drop 4 src) in
    let transaction := get_u32 (drop 8 src) in
    if limit self <? data_size then (src, Err (mk_io_error InvalidData "payload too large"))
    else if negb (total_size =? data_size + HEADER_LEN)
    then (src, Err (mk_io_error InvalidData "invalid total size"))
    else if len src <? total_size then (src, Ok None)
    else
      let frame_bytes := take (Z.to_nat total_size) src in
      (drop (Z.to_nat total_size) src,
       Ok (Some (mk_HotlineFrame transaction (drop (Z.to_nat HEADER_LEN) frame_bytes)))).

Definition hotline_encode (self : HotlineFrameCodec) (item : HotlineFrame) (dst : list Z)
    : list Z * result unit io_error :=
  let too_large := mk_io_error InvalidInput "payload too large" in
  let payload_size := len (payload item) in
  if limit self <? payload_size then (dst, Err too_large)
  else
    let frame_size := payload_size + HEADER_LEN in
    match try_into u32_max payload_size with
    | None => (dst, Err too_large)
    | Some wire_payload_size =>
        match try_into u32_max frame_size with
        | None => (dst, Err too_large)
        | Some wire_frame_size =>
            (dst ++ put_u32 wire_payload_size ++ put_u32 wire_frame_size
               ++ put_u32 (transaction_id item) ++ replicate 8 0 ++ payload item, Ok tt)
        end
    end.

Definition hotline_wrap_payload (payload : list Z) : HotlineFrame := mk_HotlineFrame 0 payload.
Definition hotline_correlation_id (frame : HotlineFrame) : option Z := Some (transaction_id frame).

#[export] Instance hotline_codec : FrameCodec := {|
  Codec := HotlineFrameCodec;
  Frame := HotlineFrame;
  Decoder := unit;
  decoder _ := tt;
  decode c _ src := let '(src, r) := hotline_decode c src in (tt, src, r);
  encode := hotline_encode;
  frame_payload := payload;
  wrap_payload _ := hotline_wrap_payload;
  correlation_id := hotline_correlation_id;
  max_frame_length := limit
|}.

(** *** What it carries *)

Definition hotline_carries (c : HotlineFrameCodec) (f : HotlineFrame) : Prop :=
  0 <= transaction_id f <= u32_max /\ len (payload f) <= limit c
  /\ len (payload f) + HEADER_LEN <= u32_max.

#[export] Instance hotline_carries_dec c f : Decision (hotline_carries c f).
Proof. unfold hotline_carries. apply _. Defined.

Definition hotline_header (f : HotlineFrame) : list Z :=
  put_u32 (len (payload f)) ++ put_u32 (len (payload f) + HEADER_LEN)
  ++ put_u32 (transaction_id f) ++ replicate 8 0.

Definition hotline_wire (f : HotlineFrame) : list Z := hotline_header f ++ payload f.

Lemma hotline_header_len f : len (hotline_header f) = HEADER_LEN.
Proof. unfold hotline_header, put_u32, HEADER_LEN. len_solve. Qed.

(** The decoder on a buffer that starts with a frame's header. *)
Lemma hotline_decode_header c f rest :
  hotline_carries c f ->
  hotline_decode c (hotline_header f ++ rest)
  = if len rest <? len (payload f) then (hotline_header f ++ rest, Ok None)
    else (drop (length (payload f)) rest,
          Ok (Some (mk_HotlineFrame (transaction_id f) (take (length (payload f)) rest)))).
Proof.
  intros (Ht & Hl & Hu). pose proof (len_nonneg (payload f)) as Hn. pose proof (len_nonneg rest).
  pose proof (hotline_header_len f) as Hh. unfold hotline_decode.
  rewrite (proj2 (Z.ltb_ge (len (hotline_header f ++ rest)) _)) by (rewrite len_app; lia).
  assert (E1 : get_u32 (hotline_header f ++ rest) = len (payload f)).
  { unfold hotline_header. rewrite <-!app_assoc. apply get_put_u32. unfold HEADER_LEN in *. lia. }
  assert (E2 : get_u32 (drop 4 (hotline_header f ++ rest)) = len (payload f) + HEADER_LEN).
  { unfold hotline_header. rewrite <-!app_assoc, drop_put_u32. apply get_put_u32. unfold HEADER_LEN in *. lia. }
  assert (E3 : get_u32 (drop 8 (hotline_header f ++ rest)) = transaction_id f).
  { unfold hotline_header. rewrite <-!app_assoc.
    change 8%nat with (4 + 4)%nat. rewrite <-drop_drop, !drop_put_u32. by apply get_put_u32. }
  rewrite E1, E2, E3, (proj2 (Z.ltb_ge (limit c) _)) by lia.
  rewrite Z.eqb_refl. cbn [negb]. rewrite len_app, Hh.
  replace (HEADER_LEN + len rest <? len (payload f) + HEADER_LEN) with (len rest <? len (payload f))
    by (destruct (Z.ltb_spec (len rest) (len (payload f))), (Z.ltb_spec (HEADER_LEN + len rest) (len (payload f) + HEADER_LEN)); lia).
  destruct (len rest <? len (payload f)); [done|].
  assert (Hlen : length (hotline_header f) = Z.to_nat HEADER_LEN) by (unfold len in Hh; lia).
  replace (Z.to_nat (len (payload f) + HEADER_LEN)) with (length (hotline_header f) + length (payload f))%nat
    by (unfold len in *; lia).
  by rewrite <-drop_drop, drop_app_length, <-Hlen, take_app_add, drop_app_length.
Qed.

Lemma hotline_decode_short c f p :
  len p < len (hotline_header f) -> hotline_decode c p = (p, Ok None).
Proof. rewrite hotline_header_len. intros Hp. unfold hotline_decode. by rewrite (proj2 (Z.ltb_lt _ _)). Qed.

Lemma hotline_encode_appends c f dst :
  hotline_carries c f -> hotline_encode c f dst = (dst ++ hotline_wire f, Ok tt).
Proof.
  intros (Ht & Hl & Hu). pose proof (len_nonneg (payload f)). unfold hotline_encode.
  rewrite (proj2 (Z.ltb_ge _ _)) by lia.
  rewrite (proj2 (try_into_Some u32_max (len (payload f)) (len (payload f)))) by (unfold HEADER_LEN in *; lia).
  rewrite (proj2 (try_into_Some u32_max (len (payload f) + HEADER_LEN) (len (payload f) + HEADER_LEN)))
    by (unfold HEADER_LEN in *; lia).
  unfold hotline_wire, hotline_header. by rewrite <-!app_assoc.
Qed.

#[export] Instance hotline_stream : StreamCodec hotline_codec.
Proof.
  refine {| carries := hotline_carries : Codec -> Frame -> Prop;
            wire _ := hotline_wire : Frame -> list Z;
            unread _ _ buf p := buf = p |}.
  - intros c f. pose proof (hotline_header_len f). intros E. unfold hotline_wire in E.
    apply app_nil in E as [E _]. rewrite E in H. done.
  - intros. by apply hotline_encode_appends.
  - done.
  - by intros ???? ? ->.
  - intros c [] buf ->. cbn. eauto.
  - intros c [] buf f rest Hc -> _. exists tt, rest. cbn [decode hotline_codec].
    rewrite (reads_whole (hotline_decode c) (hotline_header f) (payload f) (mk_HotlineFrame (transaction_id f)));
      [by destruct f|]. intros. by apply hotline_decode_header.
  - intros c [] buf f p q Hc Hw Hq -> _. exists tt, p. cbn [decode hotline_codec].
    rewrite (waits_on_part (hotline_decode c) (hotline_header f) (payload f) (mk_HotlineFrame (transaction_id f))
      (hotline_decode_short c f)) with (q := q); [done| |done|done]. intros. by apply hotline_decode_header.
Defined.

End Hotline.

(** ** MySQL *)

Module Mysql.

Record MysqlFrame : Type := mk_MysqlFrame {
  sequence_id : Z;
  payload : list Z
}.

Record MysqlFrameCodec : Type := mk_MysqlFrameCodec { limit : Z }.

Definition HEADER_LEN : Z := 4.

(** The three length bytes, combined with [|] and [<<] as the code does. *)
Definition mysql_length (lo mid hi : Z) : Z :=
  Z.lor (Z.lor lo (Z.shiftl mid 8)) (Z.shiftl hi 16).

Definition mysql_decode (self : MysqlFrameCodec) (src : list Z)
    : list Z * result (option MysqlFrame) io_error :=
  match src with
  | lo :: mid :: hi :: sequence :: _ =>
      let n := mysql_length lo mid hi in
      if limit self <? n then (src, Err (mk_io_error InvalidData "payload too large"))
      else if len src <? HEADER_LEN + n then (src, Ok None)
      else
        let frame_bytes := take (Z.to_nat (HEADER_LEN + n)) src in
        (drop (Z.to_nat (HEADER_LEN + n)) src,
         Ok (Some (mk_MysqlFrame sequence (drop (Z.to_nat HEADER_LEN) frame_bytes))))
  | _ => (src, Ok None)
  end.

Definition mysql_encode (self : MysqlFrameCodec) (item : MysqlFrame) (dst : list Z)
    : list Z * result unit io_error :=
  let payload_len := len (payload item) in
  if limit self <? payload_len then (dst, Err (mk_io_error InvalidInput "payload too large"))
  else if 0xffffff <? payload_len then (dst, Err (mk_io_error InvalidInput "payload too long"))
  else
    match try_into u32_max payload_len with
    | None => (dst, Err (mk_io_error InvalidInput "payload too long"))
    | Some v =>
        let len_lo := Z.land v 0xff in
        let len_mid := Z.land (Z.shiftr v 8) 0xff in
        let len_hi := Z.land (Z.shiftr v 16) 0xff in
        (dst ++ [len_lo; len_mid; len_hi; sequence_id item] ++ payload item, Ok tt)
    end.

Definition mysql_wrap_payload (payload : list Z) : MysqlFrame := mk_MysqlFrame 0 payload.
Definition mysql_correlation_id (frame : MysqlFrame) : option Z := Some (sequence_id frame).

#[export] Instance mysql_codec : FrameCodec := {|
  Codec := MysqlFrameCodec;
  Frame := MysqlFrame;
  Decoder := unit;
  decoder _ := tt;
  decode c _ src := let '(src, r) := mysql_decode c src in (tt, src, r);
  encode := mysql_encode;
  frame_payload := payload;
  wrap_payload _ := mysql_wrap_payload;
  correlation_id := mysql_correlation_id;
  max_frame_length := limit
|}.

(** *** What it carries *)

Definition mysql_carries (c : MysqlFrameCodec) (f : MysqlFrame) : Prop :=
  len (payload f) <= limit c /\ len (payload f) <= 0xffffff.

#[export] Instance mysql_carries_dec c f : Decision (mysql_carries c f).
Proof. unfold mysql_carries. apply _. Defined.

Definition mysql_header (f : MysqlFrame) : list Z :=
  let v := len (payload f) in
  [Z.land v 0xff; Z.land (Z.shiftr v 8) 0xff; Z.land (Z.shiftr v 16) 0xff; sequence_id f].

Definition mysql_wire (f : MysqlFrame) : list Z := mysql_header f ++ payload f.

(** Splitting a number below 2^24 into bytes and putting it together again. *)
Lemma mysql_length_split v :
  0 <= v <= 0xffffff ->
  mysql_length (Z.land v 0xff) (Z.land (Z.shiftr v 8) 0xff) (Z.land (Z.shiftr v 16) 0xff) = v.
Proof.
  intros Hv. unfold mysql_length. change 0xff with (Z.ones 8). apply Z.bits_inj'. intros n Hn.
  assert (Hbit : forall k, 0 <= k ->
    Z.testbit (Z.shiftl (Z.land (Z.shiftr v k) (Z.ones 8)) k) n
    = Z.testbit v n && (k <=? n) && (n <? k + 8)).
  { intros k Hk. rewrite Z.shiftl_spec by done.
    destruct (Z.leb_spec k n); [|rewrite (Z.testbit_neg_r _ (n - k)) by lia; by rewrite andb_false_r].
    rewrite Z.land_spec, Z.shiftr_spec, Z.testbit_ones_nonneg by lia.
    replace (n - k + k) with n by lia. rewrite andb_true_r. f_equal.
    destruct (Z.ltb_spec (n - k) 8), (Z.ltb_spec n (k + 8)); lia. }
  pose proof (Hbit 0 ltac:(lia)) as H0. rewrite Z.shiftr_0_r, Z.shiftl_0_r in H0.
  rewrite !Z.lor_spec, H0, !Hbit by lia.
  destruct (Z.lt_ge_cases n 24) as [Hlt|Hge].
  - destruct (Z.testbit v n); [|done]. cbn [andb].
    destruct (Z.leb_spec 0 n), (Z.ltb_spec n (0 + 8)), (Z.leb_spec 8 n), (Z.ltb_spec n (8 + 8)),
      (Z.leb_spec 16 n), (Z.ltb_spec n (16 + 8)); try lia; done.
  - assert (Z.testbit v n = false) as ->; [|done].
    destruct (Z.eq_dec v 0) as [->|]; [apply Z.bits_0|]. apply Z.bits_above_log2; [lia|].
    apply Z.log2_lt_pow2; [lia|]. apply Z.lt_le_trans with (2 ^ 24); [lia|]. apply Z.pow_le_mono_r; lia.
Qed.

Lemma mysql_header_len f : len (mysql_header f) = HEADER_LEN.
Proof. done. Qed.

Lemma mysql_decode_header c f rest :
  mysql_carries c f ->
  mysql_decode c (mysql_header f ++ rest)
  = if len rest <? len (payload f) then (mysql_header f ++ rest, Ok None)
    else (drop (length (payload f)) rest,
          Ok (Some (mk_MysqlFrame (sequence_id f) (take (length (payload f)) rest)))).
Proof.
  intros [Hl Hm]. pose proof (len_nonneg (payload f)) as Hn. pose proof (len_nonneg rest).
  unfold mysql_header at 1. cbn [app mysql_decode]. rewrite mysql_length_split by lia.
  fold (mysql_header f). rewrite (proj2 (Z.ltb_ge (limit c) _)) by lia.
  change (Z.land (len (payload f)) 255 :: Z.land (Z.shiftr (len (payload f)) 8) 255
    :: Z.land (Z.shiftr (len (payload f)) 16) 255 :: sequence_id f :: rest) with (mysql_header f ++ rest).
  rewrite len_app, mysql_header_len.
  replace (HEADER_LEN + len rest <? HEADER_LEN + len (payload f)) with (len rest <? len (payload f))
    by (destruct (Z.ltb_spec (len rest) (len (payload f))), (Z.ltb_spec (HEADER_LEN + len rest) (HEADER_LEN + len (payload f))); lia).
  destruct (len rest <? len (payload f)); [done|].
  replace (Z.to_nat (HEADER_LEN + len (payload f))) with (length (mysql_header f) + length (payload f))%nat
    by (unfold len, HEADER_LEN in *; cbn; lia).
  rewrite <-drop_drop, drop_app_length, take_app_add.
  change (Z.to_nat HEADER_LEN) with (length (mysql_header f)). by rewrite drop_app_length.
Qed.

Lemma mysql_decode_short c f p : len p < len (mysql_header f) -> mysql_decode c p = (p, Ok None).
Proof.
  rewrite mysql_header_len. unfold len, HEADER_LEN, mysql_decode.
  destruct p as [|? [|? [|? [|? ?]]]]; cbn; try done. lia.
Qed.

Lemma mysql_encode_appends c f dst :
  mysql_carries c f -> mysql_encode c f dst = (dst ++ mysql_wire f, Ok tt).
Proof.
  intros [Hl Hm]. pose proof (len_nonneg (payload f)). unfold mysql_encode.
  rewrite (proj2 (Z.ltb_ge (limit c) _)), (proj2 (Z.ltb_ge 0xffffff _)) by lia.
  by rewrite (proj2 (try_into_Some u32_max (len (payload f)) (len (payload f)))) by (unfold u32_max; lia).
Qed.

#[export] Instance mysql_stream : StreamCodec mysql_codec.
Proof.
  refine {| carries := mysql_carries : Codec -> Frame -> Prop;
            wire _ := mysql_wire : Frame -> list Z;
            unread _ _ buf p := buf = p |}.
  - by intros c f.
  - intros. by apply mysql_encode_appends.
  - done.
  - by intros ???? ? ->.
  - intros c [] buf ->. cbn. eauto.
  - intros c [] buf f rest Hc -> _. exists tt, rest. cbn [decode mysql_codec].
    rewrite (reads_whole (mysql_decode c) (mysql_header f) (payload f) (mk_MysqlFrame (sequence_id f)));
      [by destruct f|]. intros. by apply mysql_decode_header.
  - intros c [] buf f p q Hc Hw Hq -> _. exists tt, p. cbn [decode mysql_codec].
    rewrite (waits_on_part (mysql_decode c) (mysql_header f) (payload f) (mk_MysqlFrame (sequence_id f))
      (mysql_decode_short c f)) with (q := q); [done| |done|done]. intros. by apply mysql_decode_header.
Defined.

End Mysql.
