(* ===== verification/LengthDelimited.v ===== *)
(** * The default codec: length-delimited frames

    Models [LengthDelimitedFrameCodec] of [codec/mod.rs] with its decoder,
    encoder and end-of-stream handling, and [app/combined_codec.rs].

    The codec wraps [tokio_util]'s [LengthDelimitedCodec], which is a class
    here, for every width and byte order its [Builder] may be given.  Its laws
    are the documented behaviour: a length field, skipped before the payload; an
    oversized length is [InvalidData]; the head is taken off the buffer as soon
    as it is complete, and the decoder then waits for the payload.  The default
    is a big-endian length of four bytes.  [Decoder::decode_eof] has a
    default in the trait, which is written out. *)

From stdpp Require Import pretty.
From S2P Require Import Prelude.
From S2P Require Import Budgets.
From S2P Require Import LengthPrefix.
From S2P Require Import FrameCodec.
From S2P Require Import ExampleCodecs.

Local Open Scope Z_scope.

Definition LENGTH_HEADER_SIZE : Z := 4.

(** ** [tokio_util::codec::LengthDelimitedCodec] *)

Inductive DecodeState : Type :=
  | Head
  | Data (n : Z).

(** The settings of [length_delimited::Builder] the repository uses: the width
    and the byte order of the length field, and the longest frame. *)
Record Builder : Type := mk_Builder {
  length_field_length : Z;
  length_field_order : Endianness;
  builder_max_frame_length : Z
}.

(** [LengthDelimitedCodec::builder()] with a maximum: four bytes, big-endian. *)
Definition default_builder (max : Z) : Builder := mk_Builder 4 Big max.

(** The number a length field holds, and the field that holds a number. *)
Definition field_value (b : Builder) (src : list Z) : Z :=
  let field := take (Z.to_nat (length_field_length b)) src in
  match length_field_order b with Big => be_value field | Little => le_value field end.
Definition field_bytes (b : Builder) (n : Z) : list Z :=
  match length_field_order b with
  | Big => be_bytes (Z.to_nat (length_field_length b)) n
  | Little => le_bytes (Z.to_nat (length_field_length b)) n
  end.

Class TokioLengthDelimited : Type := {
  codec_decode : Builder -> DecodeState -> list Z
    -> DecodeState * list Z * result (option (list Z)) io_error;
  codec_encode : Builder -> list Z -> list Z -> list Z * result unit io_error
}.

Class TokioLengthDelimitedLaws (T : TokioLengthDelimited) : Prop := {
  codec_head_waits b src :
    len src < length_field_length b -> codec_decode b Head src = (Head, src, Ok None);
  codec_head_oversized b src :
    length_field_length b <= len src -> builder_max_frame_length b < field_value b src ->
    exists m, codec_decode b Head src = (Head, src, Err (mk_io_error InvalidData m));
  codec_head_taken b src :
    length_field_length b <= len src -> field_value b src <= builder_max_frame_length b ->
    codec_decode b Head src
    = codec_decode b (Data (field_value b src)) (drop (Z.to_nat (length_field_length b)) src);
  codec_data_waits b n src : len src < n -> codec_decode b (Data n) src = (Data n, src, Ok None);
  codec_data_ready b n src :
    0 <= n <= len src ->
    codec_decode b (Data n) src = (Head, drop (Z.to_nat n) src, Ok (Some (take (Z.to_nat n) src)));
  codec_encode_appends b item dst :
    len item <= builder_max_frame_length b -> len item < 256 ^ length_field_length b ->
    codec_encode b item dst = (dst ++ field_bytes b (len item) ++ item, Ok tt)
}.

#[export] Instance reference_length_delimited : TokioLengthDelimited := {|
  codec_decode b st src :=
    let data n src :=
      if len src <? n then (Data n, src, Ok None)
      else (Head, drop (Z.to_nat n) src, Ok (Some (take (Z.to_nat n) src))) in
    match st with
    | Data n => data n src
    | Head =>
        if len src <? length_field_length b then (Head, src, Ok None)
        else if builder_max_frame_length b <? field_value b src
        then (Head, src, Err (mk_io_error InvalidData "frame size too big"))
        else data (field_value b src) (drop (Z.to_nat (length_field_length b)) src)
    end;
  codec_encode b item dst :=
    if builder_max_frame_length b <? len item
    then (dst, Err (mk_io_error InvalidInput "frame size too big"))
    else (dst ++ field_bytes b (len item) ++ item, Ok tt)
|}.

#[export] Instance reference_length_delimited_laws : TokioLengthDelimitedLaws reference_length_delimited.
Proof.
  split; cbn; intros.
  - by rewrite (proj2 (Z.ltb_lt _ _)).
  - rewrite (proj2 (Z.ltb_ge _ _)), (proj2 (Z.ltb_lt (builder_max_frame_length b) _)) by done. by eexists.
  - by rewrite (proj2 (Z.ltb_ge (len src) _)), (proj2 (Z.ltb_ge (builder_max_frame_length b) _)).
  - by rewrite (proj2 (Z.ltb_lt _ _)).
  - by rewrite (proj2 (Z.ltb_ge _ _)) by lia.
  - by rewrite (proj2 (Z.ltb_ge _ _)).
Qed.

(** ** Streams in any format *)

Section Formats.
Context {T : TokioLengthDelimited} {TL : TokioLengthDelimitedLaws T}.

(** A codec of fixed settings, used without a wrapper: a frame is its payload. *)
Definition builder_codec (b : Builder) : FrameCodec := {|
  Codec := unit;
  Frame := list Z;
  Decoder := DecodeState;
  decoder _ := Head;
  decode _ := codec_decode b;
  encode _ := codec_encode b;
  frame_payload f := f;
  wrap_payload _ p := p;
  correlation_id _ := None;
  max_frame_length _ := builder_max_frame_length b
|}.

Definition builder_carries (b : Builder) (f : list Z) : Prop :=
  len f <= builder_max_frame_length b /\ len f < 256 ^ length_field_length b.

Definition builder_wire (b : Builder) (f : list Z) : list Z := field_bytes b (len f) ++ f.

Definition builder_unread (b : Builder) (st : DecodeState) (buf p : list Z) : Prop :=
  match st with
  | Head => buf = p
  | Data n => 0 <= n < 256 ^ length_field_length b /\ p = field_bytes b n ++ buf
  end.

Lemma field_bytes_length b n : length (field_bytes b n) = Z.to_nat (length_field_length b).
Proof. unfold field_bytes. destruct (length_field_order b); [apply length_be_bytes|apply length_le_bytes]. Qed.

Lemma field_bytes_len b n : 0 < length_field_length b -> len (field_bytes b n) = length_field_length b.
Proof. intros H. unfold len. rewrite field_bytes_length. lia. Qed.

Lemma field_value_bytes b n rest :
  0 < length_field_length b -> 0 <= n < 256 ^ length_field_length b ->
  field_value b (field_bytes b n ++ rest) = n.
Proof.
  intros Hb Hn. unfold field_value. rewrite take_app_length' by (by rewrite field_bytes_length).
  unfold field_bytes. destruct (length_field_order b); [apply be_value_bytes|apply le_value_bytes];
    by rewrite Z2Nat.id by lia.
Qed.

(** Once the head is there, both states of the decoder are in the same place. *)
Lemma builder_decode_data b st buf f rest :
  0 < length_field_length b -> builder_carries b f ->
  builder_unread b st buf (field_bytes b (len f) ++ rest) ->
  codec_decode b st buf = codec_decode b (Data (len f)) rest.
Proof.
  intros Hb [Hl Hu] Hst. pose proof (len_nonneg f).
  destruct st as [|n]; unfold builder_unread in Hst.
  - subst buf. rewrite codec_head_taken.
    + rewrite field_value_bytes, drop_app_length' by (try lia; by rewrite field_bytes_length). done.
    + rewrite len_app, field_bytes_len by done. pose proof (len_nonneg rest). lia.
    + rewrite field_value_bytes; lia.
  - destruct Hst as [Hn Hp].
    assert (n = len f) as ->.
    { apply (f_equal (field_value b)) in Hp. by rewrite !field_value_bytes in Hp by lia. }
    by apply app_inv_head in Hp as ->.
Qed.

(** A buffer that holds a part of a frame. *)
Lemma builder_decode_part b st buf f p q :
  0 < length_field_length b -> builder_carries b f -> builder_wire b f = p ++ q -> q <> [] ->
  builder_unread b st buf p ->
  exists st' buf', codec_decode b st buf = (st', buf', Ok None) /\ builder_unread b st' buf' p.
Proof.
  intros Hb Hc Hw Hq Hu. unfold builder_wire in Hw.
  assert (Hpq : 0 < len q).
  { pose proof (len_nonneg q). destruct (Z.eq_dec (len q) 0) as [E|]; [by apply len_zero in E|lia]. }
  set (k := Z.to_nat (length_field_length b)).
  destruct (Z.lt_ge_cases (len p) (length_field_length b)) as [Hlt|Hge].
  - destruct st as [|n]; unfold builder_unread in Hu.
    + subst buf. exists Head, p. split; [|done]. by apply codec_head_waits.
    + destruct Hu as [_ ->]. rewrite len_app, field_bytes_len in Hlt by done. pose proof (len_nonneg buf). lia.
  - assert (Hp : p = field_bytes b (len f) ++ drop k p).
    { rewrite <-(take_drop k p) at 1. f_equal. rewrite <-(take_app_le p q) by (unfold len, k in *; lia).
      rewrite <-Hw. apply take_app_length'. by rewrite field_bytes_length. }
    exists (Data (len f)), (drop k p).
    rewrite (builder_decode_data b st buf f (drop k p) Hb Hc ltac:(by rewrite <-Hp)).
    pose proof (f_equal len Hw) as E. rewrite Hp, !len_app in E.
    split; [apply codec_data_waits; lia|]. split; [pose proof (len_nonneg f); destruct Hc; lia|done].
Qed.

Lemma builder_decode_whole b st buf f rest :
  0 < length_field_length b -> builder_carries b f -> builder_unread b st buf (builder_wire b f ++ rest) ->
  codec_decode b st buf = (Head, rest, Ok (Some f)).
Proof.
  intros Hb Hc Hu. unfold builder_wire in Hu. rewrite <-app_assoc in Hu.
  rewrite (builder_decode_data b st buf f (f ++ rest) Hb Hc Hu).
  rewrite codec_data_ready by (rewrite len_app; pose proof (len_nonneg f); pose proof (len_nonneg rest); lia).
  unfold len. by rewrite Nat2Z.id, drop_app_length, take_app_length.
Qed.

Lemma builder_decode_idle b st buf :
  0 < length_field_length b -> builder_unread b st buf [] ->
  codec_decode b st buf = (Head, [], Ok None).
Proof.
  intros Hb. destruct st as [|n]; unfold builder_unread; intros Hu.
  - subst buf. by apply codec_head_waits.
  - destruct Hu as [_ Hu]. apply (f_equal len) in Hu. rewrite len_app, field_bytes_len in Hu by done.
    pose proof (len_nonneg buf). change (len (@nil Z)) with 0 in Hu. lia.
Qed.

Lemma builder_wire_nonempty b f : 0 < length_field_length b -> builder_wire b f <> [].
Proof.
  intros Hb E. apply (f_equal len) in E. unfold builder_wire in E. rewrite len_app, field_bytes_len in E by done.
  pose proof (len_nonneg f). change (len (@nil Z)) with 0 in E. lia.
Qed.

Definition builder_stream b : 0 < length_field_length b -> StreamCodec (builder_codec b).
Proof.
  intros Hb.
  refine {| carries (_ : @Codec (builder_codec b)) (f : @Frame (builder_codec b)) := builder_carries b f;
            wire (_ : @Codec (builder_codec b)) (f : @Frame (builder_codec b)) := builder_wire b f;
            unread _ (st : @Decoder (builder_codec b)) buf p := builder_unread b st buf p |}.
  - intros c f. by apply builder_wire_nonempty.
  - intros c f dst [Hl Hw]. by apply codec_encode_appends.
  - done.
  - intros c [|n] buf p more; unfold builder_unread; [by intros ->|]. intros [? ->]. by rewrite <-app_assoc.
  - intros c st buf Hu. exists Head, []. split; [|done]. by apply builder_decode_idle.
  - intros c st buf f rest Hc Hu ?. exists Head, rest. split; [|done]. by apply builder_decode_whole.
  - intros c st buf f p q Hc Hw Hq Hu ?. by apply (builder_decode_part b st buf f p q).
Defined.
End Formats.

Section LengthDelimited.
Context {T : TokioLengthDelimited}.

(** The wrapper leaves the width and the byte order at their defaults. *)
Definition ld_decode (max : Z) : DecodeState -> list Z
    -> DecodeState * list Z * result (option (list Z)) io_error := codec_decode (default_builder max).
Definition ld_encode (max : Z) : list Z -> list Z -> list Z * result unit io_error :=
  codec_encode (default_builder max).

(** The default [Decoder::decode_eof]. *)
Definition ld_decode_eof (max : Z) (st : DecodeState) (src : list Z)
    : DecodeState * list Z * result (option (list Z)) io_error :=
  match ld_decode max st src with
  | (st, src, Ok None) =>
      if bool_decide (src = []) then (st, src, Ok None)
      else (st, src, Err (mk_io_error ErrorKindOther "bytes remaining on stream"))
  | r => r
  end.

(** ** The wrapper *)

Record LengthDelimitedFrameCodec : Type := mk_LengthDelimitedFrameCodec { ld_max : Z }.

Definition ld_new (max_frame_length : Z) : LengthDelimitedFrameCodec :=
  mk_LengthDelimitedFrameCodec (clamp_frame_length max_frame_length).
Definition ld_default : LengthDelimitedFrameCodec := mk_LengthDelimitedFrameCodec 1024.

Record EofContext : Type := mk_EofContext {
  bytes_received : Z;
  expected : option Z
}.

Definition eof_context_from_buffer (src : list Z) : EofContext :=
  mk_EofContext (len src)
    (match slice_get src 0 LENGTH_HEADER_SIZE with
     | Some bytes => try_into usize_max (be_value bytes)
     | None => None
     end).

Definition build_eof_error (context : EofContext) : io_error :=
  match expected context with
  | None => into_io_error (CodecEof (MidHeader (bytes_received context) LENGTH_HEADER_SIZE))
  | Some n =>
      into_io_error
        (CodecEof (MidFrame (saturating_sub (bytes_received context) LENGTH_HEADER_SIZE) n))
  end.

Definition length_decode (c : LengthDelimitedFrameCodec) (st : DecodeState) (src : list Z)
    : DecodeState * list Z * result (option (list Z)) io_error :=
  ld_decode (ld_max c) st src.

Definition length_decode_eof (c : LengthDelimitedFrameCodec) (st : DecodeState) (src : list Z)
    : DecodeState * list Z * result (option (list Z)) io_error :=
  if bool_decide (src = []) then (st, src, Ok None)
  else
    let eof_context := eof_context_from_buffer src in
    match ld_decode_eof (ld_max c) st src with
    | (st, src, Ok (Some frame)) => (st, src, Ok (Some frame))
    | (st, src, Ok None) => (st, src, Err (build_eof_error eof_context))
    | (st, src, Err e) =>
        if decide (kind e = InvalidData) then (st, src, Err e)
        else (st, src, Err (build_eof_error eof_context))
    end.

Definition length_encode (c : LengthDelimitedFrameCodec) (item dst : list Z)
    : list Z * result unit io_error :=
  if ld_max c <? len item
  then (dst, Err (into_io_error (CodecFraming (OversizedFrame (len item) (ld_max c)))))
  else ld_encode (ld_max c) item dst.

#[export] Instance length_codec : FrameCodec := {|
  Codec := LengthDelimitedFrameCodec;
  Frame := list Z;
  Decoder := DecodeState;
  decoder _ := Head;
  decode := length_decode;
  encode := length_encode;
  frame_payload f := f;
  wrap_payload _ p := p;
  correlation_id _ := None;
  max_frame_length := ld_max
|}.

(** [CombinedCodec] forwards to its halves. *)
Definition combined_decode (c : LengthDelimitedFrameCodec) (st : DecodeState) (src : list Z)
    : DecodeState * list Z * result (option (list Z)) io_error := length_decode c st src.
Definition combined_decode_eof (c : LengthDelimitedFrameCodec) (st : DecodeState) (src : list Z)
    : DecodeState * list Z * result (option (list Z)) io_error := length_decode_eof c st src.

(** ** What it carries *)

Context {TL : TokioLengthDelimitedLaws T}.

Definition length_carries (c : LengthDelimitedFrameCodec) (f : list Z) : Prop :=
  len f <= ld_max c /\ len f <= u32_max.

Definition length_wire (f : list Z) : list Z := put_u32 (len f) ++ f.

Definition length_unread (st : DecodeState) (buf p : list Z) : Prop :=
  match st with
  | Head => buf = p
  | Data n => 0 <= n <= u32_max /\ p = put_u32 n ++ buf
  end.

Lemma put_u32_len v : len (put_u32 v) = 4.
Proof. unfold put_u32. len_solve. Qed.

Lemma ld_head_waits max src : len src < LENGTH_HEADER_SIZE -> ld_decode max Head src = (Head, src, Ok None).
Proof. apply (codec_head_waits (default_builder max)). Qed.

Lemma ld_head_taken max src :
  LENGTH_HEADER_SIZE <= len src -> get_u32 src <= max ->
  ld_decode max Head src = ld_decode max (Data (get_u32 src)) (drop 4 src).
Proof. apply (codec_head_taken (default_builder max)). Qed.

Lemma ld_data_waits max n src : len src < n -> ld_decode max (Data n) src = (Data n, src, Ok None).
Proof. apply codec_data_waits. Qed.

Lemma ld_data_ready max n src :
  0 <= n <= len src ->
  ld_decode max (Data n) src = (Head, drop (Z.to_nat n) src, Ok (Some (take (Z.to_nat n) src))).
Proof. apply codec_data_ready. Qed.

Lemma ld_encode_appends max item dst :
  len item <= max -> len item <= u32_max ->
  ld_encode max item dst = (dst ++ put_u32 (len item) ++ item, Ok tt).
Proof. intros. apply (codec_encode_appends (default_builder max)); [done|]. simpl. unfold u32_max in *. lia. Qed.

(** Its streams are those of the default settings. *)
Lemma length_carries_default c f :
  length_carries c f <-> builder_carries (default_builder (ld_max c)) f.
Proof. unfold length_carries, builder_carries, u32_max. simpl. lia. Qed.

Lemma length_unread_default max st buf p :
  length_unread st buf p <-> builder_unread (default_builder max) st buf p.
Proof.
  destruct st as [|n]; [done|]. cbn. unfold u32_max. change (256 ^ 4) with (2 ^ 32).
  split; intros [H ->]; (split; [lia|done]).
Qed.

Lemma length_decode_data c st buf f rest :
  length_carries c f -> length_unread st buf (put_u32 (len f) ++ rest) ->
  length_decode c st buf = ld_decode (ld_max c) (Data (len f)) rest.
Proof.
  intros Hc%length_carries_default Hu%(length_unread_default (ld_max c)). by apply builder_decode_data.
Qed.

#[export] Instance length_stream : StreamCodec length_codec.
Proof.
  refine {| carries := length_carries : Codec -> Frame -> Prop;
            wire _ := length_wire : Frame -> list Z;
            unread _ := length_unread : Decoder -> list Z -> list Z -> Prop |}.
  - intros c f. by apply (builder_wire_nonempty (default_builder 0)).
  - intros c f dst [Hl Hu]. cbn. unfold length_encode.
    rewrite (proj2 (Z.ltb_ge _ _)) by done. by apply ld_encode_appends.
  - done.
  - intros c [|n] buf p more; unfold length_unread; [by intros ->|]. intros [? ->]. by rewrite <-app_assoc.
  - intros c st buf Hu%(length_unread_default (ld_max c)). exists Head, []. split; [|done].
    by apply builder_decode_idle.
  - intros c st buf f rest Hc%length_carries_default Hu%(length_unread_default (ld_max c)) Hlen.
    exists Head, rest. split; [|done]. by apply builder_decode_whole.
  - intros c st buf f p q Hc%length_carries_default Hw Hq Hu%(length_unread_default (ld_max c)) Hlen.
    destruct (builder_decode_part (default_builder (ld_max c)) st buf f p q) as (st' & buf' & Hd & Hu'); try done.
    exists st', buf'. split; [exact Hd|]. by apply (length_unread_default (ld_max c)).
Defined.

(** ** The end of the stream *)

Lemma eof_context_short p : len p < 4 -> eof_context_from_buffer p = mk_EofContext (len p) None.
Proof.
  intros Hp. unfold eof_context_from_buffer, slice_get, LENGTH_HEADER_SIZE.
  by rewrite decide_False by lia.
Qed.

Lemma eof_context_head n rest :
  0 <= n <= u32_max ->
  eof_context_from_buffer (put_u32 n ++ rest) = mk_EofContext (len (put_u32 n ++ rest)) (Some n).
Proof.
  intros Hn. unfold eof_context_from_buffer, LENGTH_HEADER_SIZE.
  pose proof (put_u32_len n) as Hl. rewrite <-Hl at 1. rewrite slice_get_prefix.
  unfold put_u32. rewrite be_value_bytes by (unfold u32_max in Hn; simpl; lia).
  unfold try_into. rewrite decide_True; [done|]. unfold u32_max, usize_max, u64_max in *. lia.
Qed.

(** At the end of the stream the inner decoder either has a frame or leaves
    what it could not use; the wrapper then reports what [src] held. *)
Lemma length_decode_eof_waiting c st src st' src' :
  src <> [] -> ld_decode (ld_max c) st src = (st', src', Ok None) ->
  length_decode_eof c st src = (st', src', Err (build_eof_error (eof_context_from_buffer src))).
Proof.
  intros Hne Hd. unfold length_decode_eof, ld_decode_eof. rewrite bool_decide_eq_false_2 by done.
  rewrite Hd. by destruct (bool_decide (src' = [])).
Qed.

Lemma length_decode_eof_frame c st src st' src' f :
  src <> [] -> ld_decode (ld_max c) st src = (st', src', Ok (Some f)) ->
  length_decode_eof c st src = (st', src', Ok (Some f)).
Proof.
  intros Hne Hd. unfold length_decode_eof, ld_decode_eof. rewrite bool_decide_eq_false_2 by done.
  by rewrite Hd.
Qed.

End LengthDelimited.

(** What was missing of a frame of [n] bytes after [k] bytes of the stream. *)
Definition missing (k n : Z) : EofError :=
  if k <? LENGTH_HEADER_SIZE then MidHeader k LENGTH_HEADER_SIZE else MidFrame (k - LENGTH_HEADER_SIZE) n.

(** A decoder that meets the end of the stream with a frame cut anywhere in
    its buffer, header included, reports exactly what was received of what; a
    whole frame is still delivered, and an empty buffer is a clean end. *)
Theorem eof_reports_what_is_missing `{T : TokioLengthDelimited} {TL : TokioLengthDelimitedLaws T} c f p q :
  length_carries c f -> length_wire f = p ++ q ->
  (length_decode_eof c Head p).2
  = if bool_decide (p = []) then Ok None
    else if bool_decide (q = []) then Ok (Some f)
    else Err (into_io_error (CodecEof (missing (len p) (len f)))).
Proof.
  intros Hc Hw. case_bool_decide as Hp; [unfold length_decode_eof; by rewrite bool_decide_eq_true_2|].
  pose proof (len_nonneg f). pose proof (put_u32_len (len f)) as Hl4.
  case_bool_decide as Hq.
  - subst q. rewrite app_nil_r in Hw. subst p.
    destruct (@decode_whole _ length_stream c Head (length_wire f) f [] Hc) as (st' & buf' & Hd & _).
    + cbn. by rewrite app_nil_r.
    + change (len (length_wire f ++ []) <= isize_max). rewrite app_nil_r. unfold length_wire.
      rewrite len_app, Hl4. destruct Hc.
      unfold u32_max, isize_max in *. lia.
    + by rewrite (length_decode_eof_frame _ _ _ _ _ _ Hp Hd).
  - assert (Hlen : len p <= isize_max).
    { pose proof (f_equal len Hw) as E. unfold length_wire in E. rewrite !len_app, Hl4 in E.
      pose proof (len_nonneg q). destruct Hc. unfold u32_max, isize_max in *. lia. }
    destruct (@decode_part _ length_stream c Head p f p q Hc Hw Hq eq_refl Hlen) as (st' & buf' & Hd & _).
    rewrite (length_decode_eof_waiting _ _ _ _ _ Hp Hd). cbn [snd]. f_equal. unfold missing, LENGTH_HEADER_SIZE.
    destruct (Z.ltb_spec (len p) 4) as [Hlt|Hge]; [by rewrite eof_context_short|].
    assert (Hsplit : p = put_u32 (len f) ++ drop 4 p).
    { rewrite <-(take_drop 4 p) at 1. f_equal. rewrite <-(take_app_le p q) by (unfold len in *; lia).
      unfold length_wire in Hw. rewrite <-Hw. apply take_app_length'. unfold len in *. lia. }
    rewrite Hsplit, eof_context_head by (destruct Hc; lia). unfold build_eof_error. cbn [expected bytes_received].
    rewrite <-Hsplit. unfold saturating_sub, LENGTH_HEADER_SIZE. by rewrite Z.max_r by lia.
Qed.

Lemma eof_reports_what_is_missing_witness :
  (length_decode_eof (T := reference_length_delimited) (ld_new 128) Head [0; 0; 0; 3; 7]).2
  = Err (into_io_error (CodecEof (MidFrame 1 3))).
Proof.
  exact (eof_reports_what_is_missing (T := reference_length_delimited) (ld_new 128) [7; 8; 9]
    [0; 0; 0; 3; 7] [8; 9] ltac:(split; vm_compute; discriminate) eq_refl).
Defined.

(** C38: in the read loop, [decode] has seen the header before the end of the
    stream is met, and takes it off the buffer.  If the stream ends right
    there the truncated frame is reported as a clean close; if it ends inside
    the payload, the reported numbers are read from the payload's own bytes
    instead of the header's. *)
Theorem eof_after_header_is_misread `{T : TokioLengthDelimited} {TL : TokioLengthDelimitedLaws T} c n p :
  0 < n <= ld_max c -> n <= u32_max -> len p < n -> Forall is_byte p ->
  length_decode c Head (put_u32 n ++ p) = (Data n, p, Ok None)
  /\ length_decode_eof c (Data n) p
     = (Data n, p,
        if bool_decide (p = []) then Ok None
        else if len p <? 4 then Err (into_io_error (CodecEof (MidHeader (len p) 4)))
        else Err (into_io_error (CodecEof (MidFrame (len p - 4) (be_value (take 4 p)))))).
Proof.
  intros Hn Hu Hp Hb.
  assert (Hwait : ld_decode (ld_max c) (Data n) p = (Data n, p, Ok None)) by (by apply ld_data_waits).
  split.
  - unfold length_decode. rewrite ld_head_taken; [by rewrite get_put_u32, drop_put_u32 by lia| |].
    + rewrite len_app, put_u32_len. pose proof (len_nonneg p). unfold LENGTH_HEADER_SIZE. lia.
    + rewrite get_put_u32; lia.
  - case_bool_decide as Hnil; [subst p; unfold length_decode_eof; by rewrite bool_decide_eq_true_2|].
    rewrite (length_decode_eof_waiting _ _ _ _ _ Hnil Hwait).
    destruct (Z.ltb_spec (len p) 4) as [Hlt|Hge]; [by rewrite eof_context_short|].
    unfold eof_context_from_buffer, build_eof_error, slice_get, LENGTH_HEADER_SIZE.
    rewrite decide_True by lia. cbn [expected bytes_received].
    change (Z.to_nat (4 - 0)) with 4%nat. change (drop (Z.to_nat 0) p) with p.
    rewrite (proj2 (try_into_Some usize_max (be_value (take 4 p)) (be_value (take 4 p)))).
    + unfold saturating_sub. by rewrite Z.max_r by lia.
    + split; [done|]. pose proof (be_value_bound (take 4 p) (Forall_take _ _ _ Hb)) as H.
      assert (E : len (take 4 p) = 4) by (unfold len in *; rewrite length_take; lia).
      rewrite E in H. unfold usize_max, u64_max. simpl in H. lia.
Qed.

Lemma eof_after_header_is_misread_witness :
  length_decode (T := reference_length_delimited) (ld_new 128) Head [0; 0; 0; 100] = (Data 100, [], Ok None)
  /\ length_decode_eof (T := reference_length_delimited) (ld_new 128) (Data 100) []
     = (Data 100, [], Ok None).
Proof.
  exact (eof_after_header_is_misread (T := reference_length_delimited) (ld_new 128) 100 []
    ltac:(vm_compute; split; [reflexivity|discriminate]) ltac:(vm_compute; discriminate)
    ltac:(vm_compute; reflexivity) ltac:(constructor)).
Defined.
