(* ===== verification/RespCodec.v ===== *)
(** * The RESP codec of the examples

    Models [examples/resp_codec_impl/]: the frame type ([frame.rs]), the
    recursive measure and encoder ([encode.rs]), the incremental parser
    ([parse.rs]) and the codec with its adapter ([codec.rs]).

    A [String] is the list of its bytes, and [str::from_utf8] is the validity
    check of the standard library.  The decimal printer is the crate [itoa]; it
    is a class, [Itoa], whose law is that it prints what [Display] prints.
    [parse_frame_at] recurses while the depth is at most 64; its fuel is one
    more than the levels left.  [parse_line] looks at each byte of the buffer
    at most once; its fuel is the number of bytes. *)

From S2P Require Import Prelude.

Local Open Scope rust_scope.
Local Open Scope Z_scope.

(** ** Characters of the wire format *)

Definition CR : Z := 13.
Definition LF : Z := 10.
Definition PLUS : Z := 43.
Definition MINUS : Z := 45.
Definition COLON : Z := 58.
Definition DOLLAR : Z := 36.
Definition STAR : Z := 42.
Definition crlf : list Z := [CR; LF].

Definition i64_min : Z := - 2 ^ 63.
Definition i64_max : Z := 2 ^ 63 - 1.

(** ** [std]: UTF-8 validation, decimal printing and parsing *)

Definition between (a b x : Z) : bool := (a <=? x) && (x <=? b).

(** How many bytes the scalar value at the head takes, [None] if the head is
    not a scalar value in UTF-8 (overlong forms, surrogates and values past
    U+10FFFF are refused). *)
Definition utf8_head (bs : list Z) : option nat :=
  match bs with
  | [] => None
  | b0 :: bs =>
      if between 0x00 0x7F b0 then Some 1%nat
      else if between 0xC2 0xDF b0 then
        match bs with
        | b1 :: _ => if between 0x80 0xBF b1 then Some 2%nat else None
        | _ => None
        end
      else if between 0xE0 0xEF b0 then
        match bs with
        | b1 :: b2 :: _ =>
            let low := if b0 =? 0xE0 then 0xA0 else 0x80 in
            let high := if b0 =? 0xED then 0x9F else 0xBF in
            if between low high b1 && between 0x80 0xBF b2 then Some 3%nat else None
        | _ => None
        end
      else if between 0xF0 0xF4 b0 then
        match bs with
        | b1 :: b2 :: b3 :: _ =>
            let low := if b0 =? 0xF0 then 0x90 else 0x80 in
            let high := if b0 =? 0xF4 then 0x8F else 0xBF in
            if between low high b1 && between 0x80 0xBF b2 && between 0x80 0xBF b3
            then Some 4%nat else None
        | _ => None
        end
      else None
  end.

Fixpoint utf8_valid_go (fuel : nat) (bs : list Z) : bool :=
  match bs with
  | [] => true
  | _ =>
      match fuel, utf8_head bs with
      | S fuel, Some n => utf8_valid_go fuel (drop n bs)
      | _, _ => false
      end
  end.
Definition utf8_valid (bs : list Z) : bool := utf8_valid_go (length bs) bs.

Definition from_utf8 (bs : list Z) : option (list Z) :=
  if utf8_valid bs then Some bs else None.

(** Decimal digits of an unsigned number, most significant first; twenty
    digits are enough for 64 bits. *)
Definition digit_fuel : nat := 20.

Fixpoint decimal_go (fuel : nat) (v : Z) : list Z :=
  match fuel with
  | O => []
  | S fuel => if v <? 10 then [48 + v] else (decimal_go fuel (v / 10) ++ [48 + v mod 10])%list
  end.

(** [Display] for the integer types. *)
Definition display (v : Z) : list Z :=
  if v <? 0 then MINUS :: decimal_go digit_fuel (- v) else decimal_go digit_fuel v.

(** [str::parse::<i64>]: an optional sign, then at least one digit, with each
    step checked against the type's range. *)
Definition digit_value (c : Z) : option Z :=
  if between 48 57 c then Some (c - 48) else None.

Definition i64_checked (v : Z) : option Z :=
  if decide (i64_min <= v <= i64_max) then Some v else None.

Fixpoint parse_digits (sign : Z) (acc : Z) (cs : list Z) : option Z :=
  match cs with
  | [] => Some acc
  | c :: cs =>
      match digit_value c with
      | None => None
      | Some d =>
          match i64_checked (acc * 10) with
          | None => None
          | Some m =>
              match i64_checked (m + sign * d) with
              | None => None
              | Some acc => parse_digits sign acc cs
              end
          end
      end
  end.

Definition parse_i64 (text : list Z) : option Z :=
  match text with
  | [] => None
  | c :: cs =>
      if c =? PLUS then match cs with [] => None | _ => parse_digits 1 0 cs end
      else if c =? MINUS then match cs with [] => None | _ => parse_digits (-1) 0 cs end
      else parse_digits 1 0 text
  end.

(** ** [frame.rs] *)

Inductive RespFrame : Type :=
  | SimpleString (text : list Z)
  | RespError (text : list Z)
  | Integer (value : Z)
  | BulkString (data : option (list Z))
  | Array (items : option (list RespFrame)).

(** ** [encode.rs] *)

Class Itoa : Type := {
  itoa_format : Z -> list Z
}.

Class ItoaLaws (I : Itoa) : Prop := {
  itoa_displays v : i64_min <= v <= u64_max -> itoa_format v = display v
}.

#[export] Instance reference_itoa : Itoa := {| itoa_format := display |}.
#[export] Instance reference_itoa_laws : ItoaLaws reference_itoa.
Proof. by constructor. Qed.

Definition MAX_RECURSION_DEPTH : Z := 64.

Definition depth_error : io_error :=
  mk_io_error InvalidData "maximum recursion depth exceeded".

Definition resp_checked_add (lhs rhs : Z) : result Z io_error :=
  ok_or (checked_add usize_max lhs rhs) (mk_io_error InvalidInput "frame too large").

Fixpoint digits_len_go (fuel : nat) (value digits : Z) : Z :=
  match fuel with
  | O => digits
  | S fuel => if 10 <=? value then digits_len_go fuel (value / 10) (digits + 1) else digits
  end.

Definition digits_len_usize (value : Z) : Z := digits_len_go digit_fuel value 1.

Definition digits_len_i64 (value : Z) : Z :=
  let digits := digits_len_go digit_fuel (Z.abs value) 1 in
  if value <? 0 then digits + 1 else digits.

Fixpoint encoded_len_at (frame : RespFrame) (depth : Z) : result Z io_error :=
  if MAX_RECURSION_DEPTH <? depth then Err depth_error
  else
    match frame with
    | SimpleString text | RespError text =>
        let? n := resp_checked_add (len text) 2 in
        resp_checked_add 1 n
    | Integer value =>
        let? n := resp_checked_add (digits_len_i64 value) 2 in
        resp_checked_add 1 n
    | BulkString None | Array None => Ok 5
    | BulkString (Some data) =>
        let? n := resp_checked_add (digits_len_usize (len data)) 2 in
        let? head := resp_checked_add 1 n in
        let? body := resp_checked_add (len data) 2 in
        resp_checked_add head body
    | Array (Some items) =>
        let? n := resp_checked_add (digits_len_usize (len items)) 2 in
        let? total := resp_checked_add 1 n in
        (fix loop (items : list RespFrame) (total : Z) : result Z io_error :=
           match items with
           | [] => Ok total
           | item :: items =>
               let? n := encoded_len_at item (depth + 1) in
               let? total := resp_checked_add total n in
               loop items total
           end) items total
    end.

Definition encoded_len (frame : RespFrame) : result Z io_error := encoded_len_at frame 0.

(** The encoder appends to [dst] as it goes; on an error [dst] keeps what was
    written before it. *)
Section Encode.
Context `{I : Itoa}.

Fixpoint encode_frame_at (frame : RespFrame) (dst : list Z) (depth : Z)
    : list Z * result unit io_error :=
  if MAX_RECURSION_DEPTH <? depth then (dst, Err depth_error)
  else
    match frame with
    | SimpleString text => ((dst ++ [PLUS] ++ text ++ crlf)%list, Ok tt)
    | RespError text => ((dst ++ [MINUS] ++ text ++ crlf)%list, Ok tt)
    | Integer value => ((dst ++ [COLON] ++ itoa_format value ++ crlf)%list, Ok tt)
    | BulkString None => ((dst ++ [DOLLAR; MINUS; 49; CR; LF])%list, Ok tt)
    | BulkString (Some data) =>
        ((dst ++ [DOLLAR] ++ itoa_format (len data) ++ crlf ++ data ++ crlf)%list, Ok tt)
    | Array None => ((dst ++ [STAR; MINUS; 49; CR; LF])%list, Ok tt)
    | Array (Some items) =>
        (fix loop (items : list RespFrame) (dst : list Z) : list Z * result unit io_error :=
           match items with
           | [] => (dst, Ok tt)
           | item :: items =>
               match encode_frame_at item dst (depth + 1) with
               | (dst, Ok _) => loop items dst
               | (dst, Err e) => (dst, Err e)
               end
           end) items (dst ++ [STAR] ++ itoa_format (len items) ++ crlf)%list
    end.

Definition encode_frame (frame : RespFrame) (dst : list Z) : list Z * result unit io_error :=
  encode_frame_at frame dst 0.

End Encode.

(** ** [parse.rs] *)

Definition MAX_ARRAY_ELEMENTS : Z := 1024.

Definition decimal_digits (value : Z) : Z := digits_len_go digit_fuel value 1.

Definition invalid_data (m : string) : io_error := mk_io_error InvalidData m.

Fixpoint parse_line_loop (fuel : nat) (buf : list Z) (start index max_len : Z)
    : result (option (list Z * Z)) io_error :=
  match fuel with
  | O => Ok None
  | S fuel =>
      match index_get buf index with
      | None => Ok None
      | Some byte =>
          if max_len <? saturating_sub index start then Err (invalid_data "line too long")
          else
            let advance :=
              let? index := ok_or (checked_add usize_max index 1) (invalid_data "line too long") in
              parse_line_loop fuel buf start index max_len in
            if byte =? CR then
              match index_get buf (index + 1) with
              | None => Ok None
              | Some next =>
                  if next =? LF then
                    let? line := ok_or (slice_get buf start index) (invalid_data "line bounds") in
                    Ok (Some (line, index + 2))
                  else advance
              end
            else advance
      end
  end.

Definition parse_line (buf : list Z) (start max_len : Z)
    : result (option (list Z * Z)) io_error :=
  parse_line_loop (length buf) buf start start max_len.

Record ParseContext : Type := mk_ParseContext {
  ctx_buf : list Z;
  ctx_start : Z;
  ctx_max_frame_length : Z
}.

Definition parse_text_line (ctx : ParseContext) (error_msg : string)
    : result (option (list Z * Z)) io_error :=
  let? found := parse_line (ctx_buf ctx) (ctx_start ctx + 1) (ctx_max_frame_length ctx) in
  match found with
  | None => Ok None
  | Some (line, next) =>
      let? text := ok_or (from_utf8 line) (invalid_data error_msg) in
      Ok (Some (text, next))
  end.

Definition parsed : Type := result (option (RespFrame * Z)) io_error.

Definition parse_text_frame (ctx : ParseContext) (error_msg : string)
    (constructor : list Z -> RespFrame) : parsed :=
  let start := ctx_start ctx in
  let? found := parse_text_line ctx error_msg in
  match found with
  | None => Ok None
  | Some (text, next) => Ok (Some (constructor text, next - start))
  end.

Definition parse_simple_string (buf : list Z) (start max_frame_length : Z) : parsed :=
  parse_text_frame (mk_ParseContext buf start max_frame_length)
    "invalid simple string" SimpleString.

Definition parse_error (buf : list Z) (start max_frame_length : Z) : parsed :=
  parse_text_frame (mk_ParseContext buf start max_frame_length) "invalid error" RespError.

Definition parse_integer (buf : list Z) (start max_frame_length : Z) : parsed :=
  let ctx := mk_ParseContext buf start max_frame_length in
  let? found := parse_text_line ctx "invalid integer" in
  match found with
  | None => Ok None
  | Some (text, next) =>
      let? value := ok_or (parse_i64 text) (invalid_data "invalid integer") in
      Ok (Some (Integer value, next - start))
  end.

Inductive BulkLength : Type :=
  | Null
  | Sized (n : Z).

Record BulkPayloadSpec : Type := mk_BulkPayloadSpec {
  bp_start : Z;
  bp_payload_start : Z;
  bp_len : Z;
  bp_max_frame_length : Z
}.

Definition parse_bulk_length (buf : list Z) (start max_frame_length : Z)
    : result (option (BulkLength * Z)) io_error :=
  let? found := parse_line buf (start + 1) max_frame_length in
  match found with
  | None => Ok None
  | Some (line, next) =>
      let? text := ok_or (from_utf8 line) (invalid_data "invalid bulk length") in
      let? n := ok_or (parse_i64 text) (invalid_data "invalid bulk length") in
      if n <? -1 then Err (invalid_data "invalid bulk length")
      else if n =? -1 then Ok (Some (Null, next))
      else
        let? payload_length :=
          ok_or (try_into usize_max n) (invalid_data "bulk length too large") in
        Ok (Some (Sized payload_length, next))
  end.

Definition validate_bulk_terminator (buf : list Z) (cursor : Z) : result unit io_error :=
  let? cr := ok_or (index_get buf cursor) (invalid_data "missing terminator") in
  let? lf := ok_or (index_get buf (cursor + 1)) (invalid_data "missing terminator") in
  if negb (cr =? CR) || negb (lf =? LF)
  then Err (invalid_data "bulk string missing terminator")
  else Ok tt.

Definition parse_bulk_payload (buf : list Z) (spec : BulkPayloadSpec) : parsed :=
  let digits := decimal_digits (bp_len spec) in
  let header_len := 1 + digits + 2 in
  let total_frame_size := header_len + bp_len spec + 2 in
  if bp_max_frame_length spec <? total_frame_size
  then Err (invalid_data "bulk frame exceeds max frame length")
  else
    let? e :=
      ok_or (match checked_add usize_max (bp_payload_start spec) (bp_len spec) with
             | Some value => checked_add usize_max value 2
             | None => None
             end) (invalid_data "bulk length too large") in
    if len buf <? e then Ok None
    else
      let? data :=
        ok_or (slice_get buf (bp_payload_start spec) (bp_payload_start spec + bp_len spec))
          (invalid_data "invalid bulk range") in
      let? _ := validate_bulk_terminator buf (bp_payload_start spec + bp_len spec) in
      Ok (Some (BulkString (Some data), e - bp_start spec)).

Definition parse_bulk_string (buf : list Z) (start max_frame_length : Z) : parsed :=
  let? found := parse_bulk_length buf start max_frame_length in
  match found with
  | None => Ok None
  | Some (Null, next) => Ok (Some (BulkString None, next - start))
  | Some (Sized n, next) =>
      parse_bulk_payload buf (mk_BulkPayloadSpec start next n max_frame_length)
  end.

(** The loop over the elements; [element] parses the frame at an offset. *)
Fixpoint parse_elements (element : Z -> parsed) (n : nat) (cursor : Z) (frames : list RespFrame)
    : result (option (list RespFrame * Z)) io_error :=
  match n with
  | O => Ok (Some (frames, cursor))
  | S n =>
      let? found := element cursor in
      match found with
      | None => Ok None
      | Some (frame, consumed) =>
          let? cursor :=
            ok_or (checked_add usize_max cursor consumed) (invalid_data "array too large") in
          parse_elements element n cursor (frames ++ [frame])%list
      end
  end.

Definition checked_sub (a b : Z) : option Z := if decide (b <= a) then Some (a - b) else None.

Definition parse_array (parse_frame_at : list Z -> Z -> Z -> Z -> parsed)
    (buf : list Z) (start max_frame_length depth : Z) : parsed :=
  let? found := parse_line buf (start + 1) max_frame_length in
  match found with
  | None => Ok None
  | Some (line, cursor) =>
      let? text := ok_or (from_utf8 line) (invalid_data "invalid array length") in
      let? count := ok_or (parse_i64 text) (invalid_data "invalid array length") in
      if count =? -1 then Ok (Some (Array None, cursor - start))
      else if count <? -1 then Err (invalid_data "invalid negative array length")
      else
        let? element_count := ok_or (try_into usize_max count) (invalid_data "array too large") in
        if MAX_ARRAY_ELEMENTS <? element_count
        then Err (invalid_data "array element count exceeds limit")
        else
          let? elements :=
            parse_elements (fun cursor => parse_frame_at buf cursor max_frame_length (depth + 1))
              (Z.to_nat element_count) cursor [] in
          match elements with
          | None => Ok None
          | Some (frames, cursor) =>
              let? consumed := ok_or (checked_sub cursor start) (invalid_data "array too large") in
              if max_frame_length <? consumed then Err (invalid_data "frame too large")
              else Ok (Some (Array (Some frames), consumed))
          end
  end.

Fixpoint parse_frame_at (fuel : nat) (buf : list Z) (start max_frame_length depth : Z) : parsed :=
  if MAX_RECURSION_DEPTH <? depth then Err depth_error
  else
    match fuel with
    | O => Err depth_error
    | S fuel =>
        match index_get buf start with
        | None => Ok None
        | Some prefix =>
            if prefix =? PLUS then parse_simple_string buf start max_frame_length
            else if prefix =? MINUS then parse_error buf start max_frame_length
            else if prefix =? COLON then parse_integer buf start max_frame_length
            else if prefix =? DOLLAR then parse_bulk_string buf start max_frame_length
            else if prefix =? STAR then
              parse_array (parse_frame_at fuel) buf start max_frame_length depth
            else Err (invalid_data "unsupported RESP prefix")
        end
    end.

Definition depth_fuel : nat := 66.

Definition parse_frame (buf : list Z) (max_frame_length : Z) : parsed :=
  parse_frame_at depth_fuel buf 0 max_frame_length 0.

(** ** [codec.rs] *)

Record RespFrameCodec : Type := mk_RespFrameCodec { codec_max_frame_length : Z }.
Record RespAdapter : Type := mk_RespAdapter { adapter_max_frame_length : Z }.

Definition decoder (self : RespFrameCodec) : RespAdapter :=
  mk_RespAdapter (codec_max_frame_length self).
Definition encoder (self : RespFrameCodec) : RespAdapter :=
  mk_RespAdapter (codec_max_frame_length self).

(** [decode] returns the rest of [src] with its result. *)
Definition decode (self : RespAdapter) (src : list Z)
    : list Z * result (option RespFrame) io_error :=
  match parse_frame src (adapter_max_frame_length self) with
  | Err e => (src, Err e)
  | Ok None => (src, Ok None)
  | Ok (Some (frame, consumed)) =>
      if adapter_max_frame_length self <? consumed
      then (src, Err (invalid_data "frame too large"))
      else (drop (Z.to_nat consumed) src, Ok (Some frame))
  end.

Definition encode `{I : Itoa} (self : RespAdapter) (item : RespFrame) (dst : list Z)
    : list Z * result unit io_error :=
  match encoded_len item with
  | Err e => (dst, Err e)
  | Ok n =>
      if adapter_max_frame_length self <? n
      then (dst, Err (mk_io_error InvalidInput "frame too large"))
      else encode_frame item dst
  end.

Definition frame_payload (frame : RespFrame) : list Z :=
  match frame with BulkString (Some payload) => payload | _ => [] end.

Definition wrap_payload (payload : list Z) : RespFrame := BulkString (Some payload).
