(* ===== verification/RespCorrectness.v ===== *)
(** * Correctness of the RESP codec

    [wire] is the reference encoding of a frame.  The measure and the encoder
    agree with it and with each other; what the encoder writes the decoder
    reads back, whatever precedes or follows it; the decoder gives the same
    answer however its input is cut into reads; and what it returns respects
    the limits of the codec. *)

From S2P Require Import Prelude.
From S2P Require Import FrameCodec.
From S2P Require Import RespCodec.

Local Open Scope Z_scope.

(** ** Induction on frames *)

Section FrameInduction.
Variable P : RespFrame -> Prop.
Hypothesis HSimple : forall t, P (SimpleString t).
Hypothesis HError : forall t, P (RespError t).
Hypothesis HInteger : forall v, P (Integer v).
Hypothesis HBulk : forall d, P (BulkString d).
Hypothesis HNone : P (Array None).
Hypothesis HSome : forall items, Forall P items -> P (Array (Some items)).

Fixpoint RespFrame_nested_ind (f : RespFrame) : P f :=
  match f with
  | SimpleString t => HSimple t
  | RespError t => HError t
  | Integer v => HInteger v
  | BulkString d => HBulk d
  | Array None => HNone
  | Array (Some items) =>
      HSome items
        ((fix go (l : list RespFrame) : Forall P l :=
            match l with
            | [] => Forall_nil_2 P
            | x :: l => Forall_cons_2 P x l (RespFrame_nested_ind x) (go l)
            end) items)
  end.

End FrameInduction.

(** ** Decimal numbers *)

Definition is_digit (c : Z) : Prop := 48 <= c <= 57.

Lemma digits_len_go_acc fuel v d : digits_len_go fuel v d = digits_len_go fuel v 0 + d.
Proof.
  revert v d. induction fuel as [|fuel IH]; intros v d; simpl; [lia|].
  destruct (10 <=? v); [|lia]. rewrite (IH _ (d + 1)), (IH _ 1). lia.
Qed.

Lemma pow10_succ (n : nat) : 10 ^ Z.of_nat (S n) = 10 * 10 ^ Z.of_nat n.
Proof. rewrite Nat2Z.inj_succ, Z.pow_succ_r by lia. done. Qed.

(** What the decimal printer writes, by recursion on the number. *)
Lemma decimal_go_ind (P : nat -> Z -> list Z -> Prop) :
  (forall fuel v, 0 <= v < 10 -> P (S fuel) v [48 + v]) ->
  (forall fuel v, 10 <= v -> P fuel (v / 10) (decimal_go fuel (v / 10)) ->
     P (S fuel) v (decimal_go fuel (v / 10) ++ [48 + v mod 10])) ->
  forall fuel v, (0 < fuel)%nat -> 0 <= v < 10 ^ Z.of_nat fuel -> P fuel v (decimal_go fuel v).
Proof.
  intros H1 H2. induction fuel as [|fuel IH]; intros v Hf Hv; [lia|]. cbn [decimal_go].
  destruct (Z.ltb_spec v 10); [apply H1; lia|].
  rewrite pow10_succ in Hv. apply H2; [lia|]. apply IH.
  - destruct fuel; [simpl in Hv|]; lia.
  - split; [apply Z.div_pos; lia|]. apply Z.div_lt_upper_bound; lia.
Qed.

Lemma decimal_go_digits fuel v :
  (0 < fuel)%nat -> 0 <= v < 10 ^ Z.of_nat fuel -> Forall is_digit (decimal_go fuel v).
Proof.
  apply (decimal_go_ind (fun _ _ l => Forall is_digit l)).
  - intros ? w Hw. repeat constructor; lia.
  - intros ? w Hw IH. apply Forall_app. split; [done|].
    pose proof (Z.mod_pos_bound w 10). repeat constructor; lia.
Qed.

Lemma decimal_go_length fuel v :
  (0 < fuel)%nat -> 0 <= v < 10 ^ Z.of_nat fuel ->
  len (decimal_go fuel v) = digits_len_go fuel v 1.
Proof.
  apply (decimal_go_ind (fun fuel v l => len l = digits_len_go fuel v 1)).
  - intros f w Hw. cbn [digits_len_go]. destruct (Z.leb_spec 10 w); [lia|done].
  - intros f w Hw IH. cbn [digits_len_go]. destruct (Z.leb_spec 10 w); [|lia].
    rewrite len_app, IH, (digits_len_go_acc _ _ (1 + 1)), (digits_len_go_acc _ _ 1).
    unfold len. simpl. lia.
Qed.

Lemma parse_digits_app sign acc l k :
  parse_digits sign acc (l ++ k)
  = match parse_digits sign acc l with Some a => parse_digits sign a k | None => None end.
Proof.
  revert acc. induction l as [|c l IH]; intros acc; simpl; [done|].
  destruct (digit_value c); [|done]. destruct (i64_checked _); [|done].
  destruct (i64_checked _); [|done]. apply IH.
Qed.

Lemma i64_checked_in v : i64_min <= v <= i64_max -> i64_checked v = Some v.
Proof. intros Hv. unfold i64_checked. by rewrite decide_True. Qed.

Lemma digit_value_of d : 0 <= d < 10 -> digit_value (48 + d) = Some d.
Proof.
  intros Hd. unfold digit_value, between.
  rewrite (proj2 (Z.leb_le 48 _)), (proj2 (Z.leb_le _ 57)) by lia. simpl. f_equal. lia.
Qed.

Lemma parse_decimal sign fuel v :
  sign = 1 \/ sign = -1 ->
  (0 < fuel)%nat -> 0 <= v < 10 ^ Z.of_nat fuel -> i64_min <= sign * v <= i64_max ->
  parse_digits sign 0 (decimal_go fuel v) = Some (sign * v).
Proof.
  intros Hs Hf Hv.
  apply (decimal_go_ind (fun _ v l =>
    i64_min <= sign * v <= i64_max -> parse_digits sign 0 l = Some (sign * v))); [..|done|done].
  - intros ? w Hw Hr. cbn [parse_digits]. rewrite digit_value_of by lia.
    rewrite i64_checked_in by (unfold i64_min, i64_max; lia).
    by rewrite i64_checked_in by lia.
  - intros ? w Hw IH Hr. pose proof (Z.div_mod w 10). pose proof (Z.mod_pos_bound w 10).
    rewrite parse_digits_app, IH by (unfold i64_min, i64_max in *; nia).
    cbn [parse_digits]. rewrite digit_value_of by lia.
    rewrite i64_checked_in by (unfold i64_min, i64_max in *; nia).
    rewrite i64_checked_in; [|nia]. f_equal. nia.
Qed.

Lemma decimal_go_nonempty fuel v :
  (0 < fuel)%nat -> 0 <= v < 10 ^ Z.of_nat fuel -> decimal_go fuel v <> [].
Proof.
  apply (decimal_go_ind (fun _ _ l => l <> [])); [done|].
  intros ? w _ IH H. apply app_nil in H as [_ H]. done.
Qed.

Lemma fuel_enough v : 0 <= v <= u64_max -> 0 <= v < 10 ^ Z.of_nat digit_fuel.
Proof. unfold u64_max, digit_fuel. simpl. lia. Qed.
#[local] Hint Resolve fuel_enough : wf.

Lemma display_length_unsigned v : 0 <= v <= u64_max -> len (display v) = digits_len_usize v.
Proof.
  intros Hv. unfold display. destruct (Z.ltb_spec v 0); [lia|].
  apply decimal_go_length; [unfold digit_fuel; lia|auto with wf].
Qed.

Lemma display_length_signed v : i64_min <= v <= i64_max -> len (display v) = digits_len_i64 v.
Proof.
  intros Hv. unfold display, digits_len_i64, i64_min, i64_max in *.
  destruct (Z.ltb_spec v 0).
  - unfold len. rewrite length_cons, Nat2Z.inj_succ. fold (len (decimal_go digit_fuel (- v))).
    rewrite decimal_go_length; [|unfold digit_fuel; lia|apply fuel_enough; unfold u64_max; lia].
    rewrite Z.abs_neq by lia. lia.
  - rewrite Z.abs_eq by lia.
    apply decimal_go_length; [unfold digit_fuel; lia|apply fuel_enough; unfold u64_max; lia].
Qed.

(** The characters of a printed number. *)
Lemma display_chars v :
  - u64_max <= v <= u64_max -> Forall (fun c => is_digit c \/ c = MINUS) (display v).
Proof.
  intros Hv. unfold display. destruct (Z.ltb_spec v 0); [constructor; [by right|]|];
    (eapply Forall_impl; [apply decimal_go_digits; [unfold digit_fuel; lia|]|by left]);
    apply fuel_enough; lia.
Qed.

Lemma parse_display v : i64_min <= v <= i64_max -> parse_i64 (display v) = Some v.
Proof.
  intros Hv. assert (Hb : 0 <= Z.abs v < 10 ^ Z.of_nat digit_fuel)
    by (apply fuel_enough; unfold i64_min, i64_max, u64_max in *; lia).
  assert (Hf : (0 < digit_fuel)%nat) by (unfold digit_fuel; lia).
  pose proof (decimal_go_nonempty _ _ Hf Hb) as Hne.
  pose proof (decimal_go_digits _ _ Hf Hb) as Hdig.
  unfold display. destruct (Z.ltb_spec v 0).
  - rewrite Z.abs_neq in * by lia. unfold parse_i64.
    change (MINUS =? PLUS) with false. change (MINUS =? MINUS) with true. cbv iota.
    pose proof (parse_decimal (-1) digit_fuel (- v) ltac:(by right) Hf Hb ltac:(lia)) as Hp.
    destruct (decimal_go digit_fuel (- v)); [done|]. rewrite Hp. f_equal. lia.
  - rewrite Z.abs_eq in * by lia.
    pose proof (parse_decimal 1 digit_fuel v ltac:(by left) Hf Hb ltac:(lia)) as Hp.
    destruct (decimal_go digit_fuel v) as [|c l]; [done|].
    apply Forall_cons in Hdig as [Hc _]. unfold is_digit in Hc. unfold parse_i64.
    rewrite (proj2 (Z.eqb_neq c PLUS)), (proj2 (Z.eqb_neq c MINUS)) by (unfold PLUS, MINUS; lia).
    rewrite Hp. f_equal. lia.
Qed.

(** ** The reference encoding

    [typed] holds of the values the Rust type has: 64-bit integers, text in
    UTF-8, vectors of at most [isize::MAX] elements. *)

Fixpoint typed (f : RespFrame) : bool :=
  match f with
  | SimpleString t | RespError t => utf8_valid t && (len t <=? isize_max)
  | Integer v => between i64_min i64_max v
  | BulkString None | Array None => true
  | BulkString (Some d) => len d <=? isize_max
  | Array (Some items) => (len items <=? isize_max) && forallb typed items
  end.

Fixpoint wire (f : RespFrame) : list Z :=
  match f with
  | SimpleString t => [PLUS] ++ t ++ crlf
  | RespError t => [MINUS] ++ t ++ crlf
  | Integer v => [COLON] ++ display v ++ crlf
  | BulkString None => [DOLLAR] ++ display (-1) ++ crlf
  | BulkString (Some d) => [DOLLAR] ++ display (len d) ++ crlf ++ d ++ crlf
  | Array None => [STAR] ++ display (-1) ++ crlf
  | Array (Some items) => [STAR] ++ display (len items) ++ crlf ++ concat (map wire items)
  end.

(** Levels of arrays around the deepest frame. *)
Fixpoint height (f : RespFrame) : Z :=
  match f with
  | Array (Some items) => foldr (fun i n => Z.max (1 + height i) n) 0 items
  | _ => 0
  end.

Lemma height_nonneg f : 0 <= height f.
Proof.
  destruct f as [| | | |[items|]]; simpl; try lia.
  induction items; simpl; lia.
Qed.

Lemma typed_array items :
  typed (Array (Some items)) = true <-> len items <= isize_max /\ Forall (fun i => typed i = true) items.
Proof.
  cbn [typed]. by rewrite andb_true_iff, Z.leb_le, forallb_forall, List.Forall_forall.
Qed.

Definition items_height (items : list RespFrame) : Z :=
  foldr (fun i n => Z.max (1 + height i) n) 0 items.

Lemma items_height_nonneg items : 0 <= items_height items.
Proof. induction items; simpl; lia. Qed.

Section Encoding.
Context `{I : Itoa} {IL : ItoaLaws I}.

Lemma itoa_len {A} (l : list A) : len l <= isize_max -> itoa_format (len l) = display (len l).
Proof.
  intros Hl. apply itoa_displays. pose proof (len_nonneg l).
  unfold isize_max, i64_min, u64_max in *. lia.
Qed.

(** Below the depth limit the encoder appends the reference encoding; past it
    it stops with the depth error. *)
Lemma encode_frame_at_spec f :
  typed f = true -> forall dst depth,
  if depth + height f <=? MAX_RECURSION_DEPTH
  then encode_frame_at f dst depth = (dst ++ wire f, Ok tt)
  else exists dst', encode_frame_at f dst depth = (dst', Err depth_error).
Proof.
  induction f as [t|t|v|d| |items IH] using RespFrame_nested_ind; intros Ht dst depth.
  6: {
    apply typed_array in Ht as [Hlen Ht]. cbn [encode_frame_at height wire].
    fold (items_height items). rewrite itoa_len by done.
    destruct (Z.ltb_spec MAX_RECURSION_DEPTH depth) as [Hd|Hd].
    { pose proof (items_height_nonneg items).
      rewrite (proj2 (Z.leb_gt _ _)) by lia. by eexists. }
    set (h := [STAR] ++ display (len items) ++ crlf).
    replace (dst ++ [STAR] ++ display (len items) ++ crlf ++ concat (map wire items))
      with ((dst ++ h) ++ concat (map wire items)) by (unfold h; by rewrite <-!app_assoc).
    change (dst ++ [STAR] ++ display (len items) ++ crlf) with (dst ++ h).
    clearbody h. generalize (dst ++ h). clear dst h Hlen.
    induction items as [|i items IHitems]; intros dst; simpl.
    { rewrite app_nil_r. by rewrite (proj2 (Z.leb_le _ _)) by lia. }
    apply Forall_cons in IH as [IHi IH]. apply Forall_cons in Ht as [Hti Ht].
    specialize (IHi Hti dst (depth + 1)).
    destruct (Z.leb_spec (depth + 1 + height i) MAX_RECURSION_DEPTH) as [Hi|Hi].
    - rewrite IHi. specialize (IHitems IH Ht (dst ++ wire i)).
      rewrite <-app_assoc in IHitems. fold (items_height items).
      replace (depth + (1 + height i) `max` items_height items <=? MAX_RECURSION_DEPTH)
        with (depth + items_height items <=? MAX_RECURSION_DEPTH); [done|].
      destruct (Z.leb_spec (depth + items_height items) MAX_RECURSION_DEPTH); symmetry;
        [apply Z.leb_le|apply Z.leb_gt]; lia.
    - destruct IHi as [dst' ->]. rewrite (proj2 (Z.leb_gt _ _)) by lia. by eexists. }
  all: cbn [encode_frame_at height wire]; rewrite Z.add_0_r;
    destruct (Z.ltb_spec MAX_RECURSION_DEPTH depth) as [Hd|Hd];
    [rewrite (proj2 (Z.leb_gt _ _)) by lia; by eexists
    |rewrite (proj2 (Z.leb_le _ _)) by lia].
  1,2,5: done.
  - cbn [typed] in Ht. unfold between in Ht. apply andb_true_iff in Ht as [?%Z.leb_le ?%Z.leb_le].
    rewrite itoa_displays by (unfold i64_max, u64_max in *; lia). done.
  - destruct d as [d|]; [|done]. cbn [typed] in Ht. apply Z.leb_le in Ht. by rewrite itoa_len.
Qed.

End Encoding.

Lemma resp_checked_add_Ok a b c :
  resp_checked_add a b = Ok c <-> c = a + b /\ a + b <= usize_max.
Proof.
  unfold resp_checked_add. destruct (checked_add usize_max a b) as [d|] eqn:E; simpl.
  - apply checked_add_Some in E as [-> ?]. split; [intros [= <-]; done|intros [-> _]; done].
  - apply checked_add_None in E. split; [done|lia].
Qed.

(** Two nested additions of the measure succeed together. *)
Lemma resp_checked_add_2 a b c r :
  0 <= c ->
  (match resp_checked_add a b with Ok n => resp_checked_add c n | Err e => Err e end) = Ok r
  <-> r = c + (a + b) /\ r <= usize_max.
Proof.
  intros Hc. destruct (resp_checked_add a b) as [n|e] eqn:E.
  - apply resp_checked_add_Ok in E as [-> ?]. rewrite resp_checked_add_Ok. lia.
  - split; [done|]. intros [-> Hr].
    assert (resp_checked_add a b = Ok (a + b)) by (apply resp_checked_add_Ok; lia). congruence.
Qed.

Lemma resp_checked_add_exact a b : a + b <= usize_max -> resp_checked_add a b = Ok (a + b).
Proof. intros ?. by apply resp_checked_add_Ok. Qed.

Lemma digits_len_go_bound fuel v d : d <= digits_len_go fuel v d <= d + Z.of_nat fuel.
Proof.
  revert v d. induction fuel as [|fuel IH]; intros v d; cbn [digits_len_go]; [lia|].
  destruct (10 <=? v); [|lia]. specialize (IH (v / 10) (d + 1)). lia.
Qed.

Lemma digits_len_usize_bound v : 1 <= digits_len_usize v <= 21.
Proof. apply (digits_len_go_bound digit_fuel v 1). Qed.

Definition measure_items (depth : Z) : list RespFrame -> Z -> result Z io_error :=
  fix loop (items : list RespFrame) (total : Z) : result Z io_error :=
    match items with
    | [] => Ok total
    | item :: items =>
        match encoded_len_at item (depth + 1) with
        | Ok n => match resp_checked_add total n with Ok total => loop items total | Err e => Err e end
        | Err e => Err e
        end
    end.

Definition measures (f : RespFrame) : Prop :=
  forall depth n,
  encoded_len_at f depth = Ok n
  <-> depth + height f <= MAX_RECURSION_DEPTH /\ n = len (wire f) /\ n <= usize_max.

Lemma measure_items_spec items :
  Forall measures items -> forall depth total n,
  0 <= total <= usize_max -> depth <= MAX_RECURSION_DEPTH ->
  measure_items depth items total = Ok n
  <-> depth + items_height items <= MAX_RECURSION_DEPTH
      /\ n = total + len (concat (map wire items)) /\ n <= usize_max.
Proof.
  induction 1 as [|i items Hi _ IH]; intros depth total n Ht Hd; cbn [measure_items].
  { change (len (concat (map wire []))) with 0. cbn [items_height foldr].
    split; [intros [= <-]; lia|]. intros (_ & -> & _). f_equal. lia. }
  change (items_height (i :: items)) with (Z.max (1 + height i) (items_height items)).
  change (concat (map wire (i :: items))) with (wire i ++ concat (map wire items)).
  rewrite len_app. pose proof (len_nonneg (concat (map wire items))).
  pose proof (len_nonneg (wire i)). pose proof (height_nonneg i).
  split.
  - destruct (encoded_len_at i (depth + 1)) as [m|] eqn:E; [|done].
    apply Hi in E as (? & -> & ?).
    destruct (resp_checked_add total (len (wire i))) as [t|] eqn:Et; [|done].
    apply resp_checked_add_Ok in Et as [-> ?]. intros Hn. apply IH in Hn; lia.
  - intros (? & -> & ?).
    rewrite (proj2 (Hi (depth + 1) (len (wire i)))) by lia.
    rewrite (proj2 (resp_checked_add_Ok total (len (wire i)) (total + len (wire i)))) by lia.
    apply IH; lia.
Qed.

Lemma len_wire_text c t : len ([c] ++ t ++ crlf) = 1 + (len t + 2).
Proof. rewrite !len_app. unfold len at 1 3. simpl. lia. Qed.

Lemma len_wire_head c n : 0 <= n <= isize_max ->
  len ([c] ++ display n ++ crlf) = digits_len_usize n + 3.
Proof.
  intros Hn. rewrite len_wire_text, display_length_unsigned; [lia|].
  unfold isize_max, u64_max in *. lia.
Qed.

(** The measure succeeds exactly within the depth limit and the address space,
    and then returns the length of the reference encoding. *)
Lemma encoded_len_at_spec f : typed f = true -> measures f.
Proof.
  induction f as [t|t|v|d| |items IH] using RespFrame_nested_ind; intros Ht depth n;
    (match goal with |- context [height ?f] => pose proof (height_nonneg f) as Hh end);
    cbn [encoded_len_at wire]; fold (measure_items depth);
    (destruct (Z.ltb_spec MAX_RECURSION_DEPTH depth) as [Hd|Hd]; [split; [done|lia]|]);
    cbn [height] in *; clear Hh.
  - rewrite resp_checked_add_2, len_wire_text by lia. lia.
  - rewrite resp_checked_add_2, len_wire_text by lia. lia.
  - cbn [typed] in Ht. unfold between in Ht. apply andb_true_iff in Ht as [?%Z.leb_le ?%Z.leb_le].
    rewrite resp_checked_add_2, len_wire_text, display_length_signed by lia. lia.
  - destruct d as [d|].
    + cbn [typed] in Ht. apply Z.leb_le in Ht. pose proof (len_nonneg d).
      pose proof (digits_len_usize_bound (len d)).
      rewrite (resp_checked_add_exact _ 2) by (unfold usize_max, u64_max; lia).
      rewrite (resp_checked_add_exact 1) by (unfold usize_max, u64_max; lia).
      rewrite (resp_checked_add_exact (len d)) by (unfold isize_max, usize_max, u64_max in *; lia).
      rewrite resp_checked_add_Ok, !app_assoc, len_app, len_app, <-app_assoc, len_wire_head by lia.
      change (len crlf) with 2. lia.
    + change (len ([DOLLAR] ++ display (-1) ++ crlf)) with 5.
      split; [intros [= <-]; unfold usize_max, u64_max; lia|intros (_ & -> & _); done].
  - change (len ([STAR] ++ display (-1) ++ crlf)) with 5.
    split; [intros [= <-]; unfold usize_max, u64_max; lia|intros (_ & -> & _); done].
  - fold (items_height items). apply typed_array in Ht as [Hlen Ht]. pose proof (len_nonneg items).
    pose proof (digits_len_usize_bound (len items)).
    rewrite (resp_checked_add_exact _ 2) by (unfold usize_max, u64_max; lia).
    rewrite (resp_checked_add_exact 1) by (unfold usize_max, u64_max; lia).
    rewrite measure_items_spec; 
      [|by eapply Forall_impl; [apply Forall_and; exact (conj IH Ht)|intros ? [??]; auto]
       |unfold usize_max, u64_max; lia|done].
    rewrite !app_assoc, len_app, <-app_assoc, len_wire_head by lia. lia.
Qed.

(** ** Lines *)

Fixpoint no_crlf (l : list Z) : bool :=
  match l with
  | c :: l' =>
      match l' with
      | c' :: _ => negb ((c =? CR) && (c' =? LF))
      | [] => true
      end && no_crlf l'
  | [] => true
  end.

Lemma index_get_app {A} (l k : list A) c i : i = len l -> index_get (l ++ c :: k) i = Some c.
Proof.
  intros ->. unfold index_get. rewrite decide_True by apply len_nonneg.
  unfold len. rewrite Nat2Z.id, lookup_app_r by lia. by rewrite Nat.sub_diag.
Qed.

Lemma slice_get_at {A} (l m k : list A) a b :
  a = len l -> b = len l + len m -> slice_get (l ++ m ++ k) a b = Some m.
Proof. intros -> ->. apply slice_get_middle. Qed.

(** The scan finds the first CR LF. *)
Lemma parse_line_loop_finds pre done l post max fuel :
  no_crlf l = true -> (length l < fuel)%nat ->
  len done + len l <= max ->
  len (pre ++ done ++ l ++ CR :: LF :: post) <= usize_max ->
  parse_line_loop fuel (pre ++ done ++ l ++ CR :: LF :: post) (len pre) (len pre + len done) max
  = Ok (Some (done ++ l, len pre + len done + len l + 2)).
Proof.
  revert done fuel. induction l as [|c l IH]; intros done fuel Hl Hf Hmax Hbuf;
    (destruct fuel as [|fuel]; [simpl in Hf; lia|]); cbn [parse_line_loop].
  - rewrite (app_assoc pre done). simpl app at 3.
    rewrite (index_get_app (pre ++ done)) by (rewrite len_app; lia).
    unfold saturating_sub. rewrite (proj2 (Z.ltb_ge _ _)) by (pose proof (len_nonneg done); change (len (@nil Z)) with 0 in Hmax; lia).
    change (CR =? CR) with true. cbv iota.
    change ([] ++ CR :: LF :: post) with ([CR] ++ LF :: post).
    rewrite (app_assoc (pre ++ done)), (index_get_app ((pre ++ done) ++ [CR]))
      by (rewrite !len_app; unfold len; simpl; lia).
    change (LF =? LF) with true. cbv iota.
    rewrite <-!app_assoc, slice_get_at by lia. simpl.
    rewrite app_nil_r. change (len (@nil Z)) with 0. do 3 f_equal. lia.
  - rewrite (app_assoc pre done). simpl app at 3.
    rewrite (index_get_app (pre ++ done)) by (rewrite len_app; lia).
    unfold saturating_sub.
    assert (Hc : len (c :: l) = 1 + len l) by (unfold len; simpl; lia).
    pose proof (len_nonneg l). pose proof (len_nonneg done). pose proof (len_nonneg pre).
    rewrite (proj2 (Z.ltb_ge _ _)) by lia.
    assert (Hadv : checked_add usize_max (len pre + len done) 1 = Some (len pre + len (done ++ [c]))).
    { rewrite !len_app in *. change (len [c]) with 1. apply checked_add_Some.
      rewrite Hc in Hbuf. pose proof (len_nonneg (CR :: LF :: post)). lia. }
    rewrite Hadv. cbn [ok_or].
    cbn [no_crlf] in Hl. apply andb_true_iff in Hl as [Hhd Hl].
    specialize (IH (done ++ [c]) fuel Hl ltac:(simpl in Hf; lia)).
    rewrite <-!app_assoc in *. simpl app in *.
    rewrite IH; [|rewrite len_app; change (len [c]) with 1; lia|done].
    rewrite len_app, Hc. change (len [c]) with 1.
    replace (len pre + (len done + 1) + len l + 2) with (len pre + len done + (1 + len l) + 2) by lia.
    destruct (Z.eqb_spec c CR) as [->|]; [|done].
    assert (Hnext : exists next rest, l ++ CR :: LF :: post = next :: rest /\ (next =? LF) = false).
    { destruct l as [|c' l]; [by do 2 eexists|]. do 2 eexists. split; [done|].
      simpl in Hhd. by destruct (c' =? LF). }
    destruct Hnext as (next & rest & -> & Hn).
    rewrite (app_assoc pre done), (cons_middle CR (pre ++ done)), (app_assoc (pre ++ done)).
    rewrite (index_get_app ((pre ++ done) ++ [CR])) by (rewrite !len_app; change (len [CR]) with 1; lia).
    by rewrite Hn.
Qed.

Lemma parse_line_at pre c l post max :
  no_crlf l = true -> len l <= max ->
  len (pre ++ ([c] ++ l ++ crlf) ++ post) <= usize_max ->
  parse_line (pre ++ ([c] ++ l ++ crlf) ++ post) (len pre + 1) max
  = Ok (Some (l, len pre + len ([c] ++ l ++ crlf))).
Proof.
  intros Hl Hmax Hbuf. unfold parse_line.
  assert (Hb : pre ++ ([c] ++ l ++ crlf) ++ post = (pre ++ [c]) ++ [] ++ l ++ CR :: LF :: post)
    by (unfold crlf; by rewrite <-!app_assoc).
  rewrite Hb in *.
  replace (len pre + 1) with (len (pre ++ [c])) by (rewrite len_app; done).
  pose proof (parse_line_loop_finds (pre ++ [c]) [] l post max
    (length ((pre ++ [c]) ++ [] ++ l ++ CR :: LF :: post)) Hl) as H.
  change (len (@nil Z)) with 0 in H. rewrite Z.add_0_r in H.
  rewrite H; [|len_solve|lia|done].
  rewrite !len_app. change (len [c]) with 1. change (len crlf) with 2. simpl app.
  do 3 f_equal. lia.
Qed.

Lemma utf8_ascii l : Forall (fun c => 0 <= c <= 127) l -> utf8_valid l = true.
Proof.
  unfold utf8_valid. induction 1 as [|c l Hc _ IH]; [done|].
  cbn [length utf8_valid_go utf8_head]. unfold between.
  rewrite (proj2 (Z.leb_le 0 c)), (proj2 (Z.leb_le c 0x7F)) by lia. done.
Qed.

Lemma no_cr_no_crlf l : Forall (fun c => c <> CR) l -> no_crlf l = true.
Proof.
  induction 1 as [|c l Hc _ IH]; [done|]. cbn [no_crlf]. rewrite IH, andb_true_r.
  destruct l; [done|]. by rewrite (proj2 (Z.eqb_neq c CR)).
Qed.

Lemma display_line v :
  - u64_max <= v <= u64_max ->
  no_crlf (display v) = true /\ from_utf8 (display v) = Some (display v).
Proof.
  intros Hv%display_chars. split.
  - apply no_cr_no_crlf. eapply Forall_impl; [exact Hv|].
    unfold is_digit, MINUS, CR. intros c ?. simpl in *. lia.
  - unfold from_utf8. rewrite utf8_ascii; [done|]. eapply Forall_impl; [exact Hv|].
    unfold is_digit, MINUS. intros c ?. simpl in *. lia.
Qed.

(** ** Round trip

    [decodable] holds of the frames the parser accepts back: the text of a
    line has no CR LF in it and an array has at most 1024 elements. *)

Fixpoint decodable (f : RespFrame) : bool :=
  match f with
  | SimpleString t | RespError t => no_crlf t
  | Array (Some items) => (len items <=? MAX_ARRAY_ELEMENTS) && forallb decodable items
  | _ => true
  end.

Lemma decodable_array items :
  decodable (Array (Some items)) = true
  <-> len items <= MAX_ARRAY_ELEMENTS /\ Forall (fun i => decodable i = true) items.
Proof. cbn [decodable]. by rewrite andb_true_iff, Z.leb_le, forallb_forall, List.Forall_forall. Qed.

(** The line of a number, as each of the three number parsers reads it. *)
Lemma parse_number_line pre c v post max :
  i64_min <= v <= i64_max -> len (display v) <= max ->
  len (pre ++ ([c] ++ display v ++ crlf) ++ post) <= usize_max ->
  parse_line (pre ++ ([c] ++ display v ++ crlf) ++ post) (len pre + 1) max
  = Ok (Some (display v, len pre + len ([c] ++ display v ++ crlf)))
  /\ from_utf8 (display v) = Some (display v) /\ parse_i64 (display v) = Some v.
Proof.
  intros Hv Hmax Hbuf.
  destruct (display_line v) as [Hn Hu]; [unfold i64_min, i64_max, u64_max in *; lia|].
  repeat split; [by apply parse_line_at|done|by apply parse_display].
Qed.

Lemma parse_text_frame_at pre c t post max msg mk :
  no_crlf t = true -> utf8_valid t = true -> len t <= max ->
  len (pre ++ ([c] ++ t ++ crlf) ++ post) <= usize_max ->
  parse_text_frame (mk_ParseContext (pre ++ ([c] ++ t ++ crlf) ++ post) (len pre) max) msg mk
  = Ok (Some (mk t, len ([c] ++ t ++ crlf))).
Proof.
  intros Hn Hu Hmax Hbuf. unfold parse_text_frame, parse_text_line. cbn [ctx_buf ctx_start ctx_max_frame_length].
  rewrite parse_line_at by done. unfold from_utf8. rewrite Hu. cbn [ok_or].
  do 3 f_equal. lia.
Qed.

Lemma parse_integer_at pre v post max :
  i64_min <= v <= i64_max -> len (display v) <= max ->
  len (pre ++ ([COLON] ++ display v ++ crlf) ++ post) <= usize_max ->
  parse_integer (pre ++ ([COLON] ++ display v ++ crlf) ++ post) (len pre) max
  = Ok (Some (Integer v, len ([COLON] ++ display v ++ crlf))).
Proof.
  intros Hv Hmax Hbuf. destruct (parse_number_line pre COLON v post max) as (Hl & Hu & Hp); [done..|].
  unfold parse_integer, parse_text_line. cbn [ctx_buf ctx_start ctx_max_frame_length].
  rewrite Hl, Hu. cbn [ok_or]. rewrite Hp. cbn [ok_or]. do 3 f_equal. lia.
Qed.

Lemma parse_bulk_null_at pre post max :
  3 <= max ->
  len (pre ++ ([DOLLAR] ++ display (-1) ++ crlf) ++ post) <= usize_max ->
  parse_bulk_string (pre ++ ([DOLLAR] ++ display (-1) ++ crlf) ++ post) (len pre) max
  = Ok (Some (BulkString None, len ([DOLLAR] ++ display (-1) ++ crlf))).
Proof.
  intros Hmax Hbuf.
  destruct (parse_number_line pre DOLLAR (-1) post max) as (Hl & Hu & Hp);
    [unfold i64_min, i64_max; lia|change (len (display (-1))) with 2; lia|done|].
  unfold parse_bulk_string, parse_bulk_length. rewrite Hl, Hu. cbn [ok_or]. rewrite Hp. cbn [ok_or].
  change (-1 <? -1) with false. change (-1 =? -1) with true. cbv iota. do 3 f_equal. lia.
Qed.

Lemma parse_bulk_at pre d post max :
  len d <= isize_max -> len (wire (BulkString (Some d))) <= max ->
  len (pre ++ wire (BulkString (Some d)) ++ post) <= usize_max ->
  parse_bulk_string (pre ++ wire (BulkString (Some d)) ++ post) (len pre) max
  = Ok (Some (BulkString (Some d), len (wire (BulkString (Some d))))).
Proof.
  cbn [wire]. intros Hd Hmax Hbuf. pose proof (len_nonneg d).
  set (head := [DOLLAR] ++ display (len d) ++ crlf).
  assert (Hb : pre ++ ([DOLLAR] ++ display (len d) ++ crlf ++ d ++ crlf) ++ post
               = pre ++ head ++ d ++ crlf ++ post) by (unfold head; by rewrite <-!app_assoc).
  assert (Hw : len ([DOLLAR] ++ display (len d) ++ crlf ++ d ++ crlf) = len head + len d + 2)
    by (unfold head; rewrite !len_app; change (len crlf) with 2; lia).
  assert (Hh : len head = digits_len_usize (len d) + 3) by (apply len_wire_head; lia).
  rewrite Hb, Hw in *.
  destruct (parse_number_line pre DOLLAR (len d) (d ++ crlf ++ post) max) as (Hl & Hu & Hp).
  { unfold i64_min, i64_max, isize_max in *. lia. }
  { unfold head in Hmax. rewrite !len_app in Hmax. change (len crlf) with 2 in *.
    pose proof (len_nonneg [DOLLAR]). lia. }
  { exact Hbuf. }
  unfold parse_bulk_string, parse_bulk_length. fold head in Hl.
  rewrite Hl, Hu. cbn [ok_or]. rewrite Hp. cbn [ok_or].
  rewrite (proj2 (Z.ltb_ge (len d) (-1))), (proj2 (Z.eqb_neq (len d) (-1))) by lia.
  rewrite (proj2 (try_into_Some usize_max (len d) (len d)))
    by (unfold isize_max, usize_max, u64_max in *; lia).
  cbn [ok_or]. unfold parse_bulk_payload. cbn [bp_start bp_payload_start bp_len bp_max_frame_length].
  change (decimal_digits (len d)) with (digits_len_usize (len d)).
  rewrite (proj2 (Z.ltb_ge max _)) by lia.
  rewrite !len_app in Hbuf. change (len crlf) with 2 in Hbuf.
  pose proof (len_nonneg pre). pose proof (len_nonneg post).
  rewrite (proj2 (checked_add_Some usize_max (len pre + len head) (len d) (len pre + len head + len d))) by lia.
  rewrite (proj2 (checked_add_Some usize_max (len pre + len head + len d) 2 (len pre + len head + len d + 2))) by lia.
  cbn [ok_or].
  rewrite (proj2 (Z.ltb_ge (len (pre ++ head ++ d ++ crlf ++ post)) _))
    by (rewrite !len_app; change (len crlf) with 2; lia).
  rewrite (app_assoc pre head), slice_get_at by (rewrite len_app; lia). cbn [ok_or].
  unfold validate_bulk_terminator.
  change (crlf ++ post) with (CR :: [LF] ++ post).
  rewrite (app_assoc (pre ++ head) d), index_get_app by (rewrite !len_app; lia). cbn [ok_or].
  rewrite (cons_middle CR), app_assoc.
  change ([LF] ++ post) with (LF :: post).
  rewrite index_get_app by (rewrite !len_app; change (len [CR]) with 1; lia). cbn [ok_or].
  change (CR =? CR) with true. change (LF =? LF) with true. cbn [negb orb]. do 3 f_equal. lia.
Qed.

(** What the parser does on a frame's encoding, wherever it is in the buffer. *)
Definition reads_back (f : RespFrame) : Prop :=
  forall fuel pre post max depth,
  len (wire f) <= max -> depth + height f <= MAX_RECURSION_DEPTH -> height f < Z.of_nat fuel ->
  len (pre ++ wire f ++ post) <= usize_max ->
  parse_frame_at fuel (pre ++ wire f ++ post) (len pre) max depth
  = Ok (Some (f, len (wire f))).

Lemma concat_wire_cons i items : concat (map wire (i :: items)) = wire i ++ concat (map wire items).
Proof. done. Qed.

Lemma parse_elements_at fuel max depth items :
  Forall reads_back items -> forall pre post acc,
  len (concat (map wire items)) <= max ->
  depth + items_height items <= MAX_RECURSION_DEPTH -> items_height items <= Z.of_nat fuel ->
  len (pre ++ concat (map wire items) ++ post) <= usize_max ->
  parse_elements
    (fun cursor => parse_frame_at fuel (pre ++ concat (map wire items) ++ post) cursor max (depth + 1))
    (length items) (len pre) acc
  = Ok (Some (acc ++ items, len pre + len (concat (map wire items)))).
Proof.
  induction 1 as [|i items Hi _ IH]; intros pre post acc Hmax Hd Hf Hbuf; cbn [length parse_elements].
  { rewrite app_nil_r. change (len (concat (map wire []))) with 0. by rewrite Z.add_0_r. }
  change (items_height (i :: items)) with (Z.max (1 + height i) (items_height items)) in *.
  rewrite concat_wire_cons in *. rewrite len_app in Hmax |- *.
  pose proof (len_nonneg (concat (map wire items))). pose proof (len_nonneg (wire i)).
  rewrite <-app_assoc in *.
  rewrite Hi; [|lia|lia|lia|done].
  rewrite !len_app in Hbuf. pose proof (len_nonneg pre). pose proof (len_nonneg post).
  rewrite (proj2 (checked_add_Some usize_max (len pre) (len (wire i)) (len (pre ++ wire i))))
    by (rewrite len_app; lia). cbn [ok_or].
  rewrite (app_assoc pre). rewrite IH; [|lia|lia|lia|rewrite !len_app; lia].
  rewrite <-app_assoc. rewrite len_app. do 3 f_equal. lia.
Qed.

Lemma parse_array_at fuel pre items post max depth :
  Forall reads_back items ->
  len items <= MAX_ARRAY_ELEMENTS ->
  let f := Array (Some items) in
  len (wire f) <= max -> depth + height f <= MAX_RECURSION_DEPTH -> height f <= Z.of_nat fuel ->
  len (pre ++ wire f ++ post) <= usize_max ->
  parse_array (parse_frame_at fuel) (pre ++ wire f ++ post) (len pre) max depth
  = Ok (Some (f, len (wire f))).
Proof.
  intros Hitems Hn f Hmax Hd Hf Hbuf. subst f. cbn [wire height] in *.
  fold (items_height items) in *. pose proof (len_nonneg items). unfold MAX_ARRAY_ELEMENTS in Hn.
  set (head := [STAR] ++ display (len items) ++ crlf). set (body := concat (map wire items)) in *.
  assert (Hw : [STAR] ++ display (len items) ++ crlf ++ body = head ++ body)
    by (unfold head; by rewrite <-!app_assoc).
  rewrite Hw in *. rewrite <-app_assoc in *. rewrite len_app in Hmax |- *.
  pose proof (len_nonneg body). pose proof (len_nonneg head). pose proof (len_nonneg pre).
  destruct (parse_number_line pre STAR (len items) (body ++ post) max) as (Hl & Hu & Hp).
  { unfold i64_min, i64_max. lia. }
  { unfold head in Hmax. rewrite !len_app in Hmax. change (len crlf) with 2 in Hmax.
    pose proof (len_nonneg [STAR]). lia. }
  { exact Hbuf. }
  fold head in Hl. unfold parse_array. rewrite Hl, Hu. cbn [ok_or]. rewrite Hp. cbn [ok_or].
  rewrite (proj2 (Z.eqb_neq (len items) (-1))), (proj2 (Z.ltb_ge (len items) (-1))) by lia.
  rewrite (proj2 (try_into_Some usize_max (len items) (len items)))
    by (unfold usize_max, u64_max; lia). cbn [ok_or].
  rewrite (proj2 (Z.ltb_ge MAX_ARRAY_ELEMENTS _)) by (unfold MAX_ARRAY_ELEMENTS; lia).
  replace (Z.to_nat (len items)) with (length items) by (unfold len; lia).
  replace (len pre + len head) with (len (pre ++ head)) by (rewrite len_app; lia).
  rewrite (app_assoc pre head). subst body.
  rewrite parse_elements_at; [|done|lia|lia|lia|by rewrite <-app_assoc]. rewrite len_app.
  unfold checked_sub. rewrite decide_True by lia. cbn [ok_or].
  rewrite (proj2 (Z.ltb_ge max _)) by lia. simpl app. do 3 f_equal. lia.
Qed.

Lemma index_get_wire {A} (pre l post : list A) c :
  index_get (pre ++ ([c] ++ l) ++ post) (len pre) = Some c.
Proof. by apply index_get_app. Qed.

Lemma wire_reads_back f : typed f = true -> decodable f = true -> reads_back f.
Proof.
  induction f as [t|t|v|d| |items IH] using RespFrame_nested_ind;
    intros Ht Hc fuel pre post max depth Hmax Hd Hf Hbuf;
    (match type of Hd with depth + height ?f <= _ => pose proof (height_nonneg f) as Hh end);
    (destruct fuel as [|fuel]; [lia|]); cbn [parse_frame_at];
    rewrite (proj2 (Z.ltb_ge MAX_RECURSION_DEPTH depth)) by lia.
  - cbn [typed decodable wire] in *. apply andb_true_iff in Ht as [Hu _].
    cbn [wire] in *. rewrite index_get_wire. apply parse_text_frame_at; try done.
    rewrite len_wire_text in Hmax. lia.
  - cbn [typed decodable wire] in *. apply andb_true_iff in Ht as [Hu _].
    cbn [wire] in *. rewrite index_get_wire. apply parse_text_frame_at; try done.
    rewrite len_wire_text in Hmax. lia.
  - cbn [typed decodable wire] in *. apply andb_true_iff in Ht as [?%Z.leb_le ?%Z.leb_le].
    cbn [wire] in *. rewrite index_get_wire. apply parse_integer_at; try done.
    rewrite len_wire_text in Hmax. lia.
  - destruct d as [d|].
    + cbn [typed] in Ht. apply Z.leb_le in Ht.
      cbn [wire] in *. rewrite index_get_wire. by apply parse_bulk_at.
    + cbn [wire] in *. rewrite index_get_wire. apply parse_bulk_null_at; [|done].
      change (len ([DOLLAR] ++ display (-1) ++ crlf)) with 5 in Hmax. lia.
  - change (len (wire (Array None))) with 5 in Hmax.
    destruct (parse_number_line pre STAR (-1) post max) as (Hl & Hu & Hp);
      [unfold i64_min, i64_max; lia|change (len (display (-1))) with 2; lia|done|].
    cbn [wire] in *. rewrite index_get_wire. change (STAR =? PLUS) with false. cbv iota.
    unfold parse_array. cbn [wire] in *. rewrite Hl, Hu. cbn [ok_or]. rewrite Hp. cbn [ok_or].
    change (-1 =? -1) with true. cbv iota. do 3 f_equal. lia.
  - apply typed_array in Ht as [Hlen Ht]. apply decodable_array in Hc as [Hn Hc].
    cbn [wire] in *. rewrite index_get_wire. apply parse_array_at; [|done|done|lia|lia|done].
    rewrite Forall_forall in *. auto.
Qed.
