(* ===== verification/RespIncremental.v ===== *)
(** * The RESP parser on partial and arbitrary input

    Two facts about the parser on any buffer, not only on what the encoder
    wrote: its answer does not change when more bytes arrive ([stable]), and a
    frame it returns is one the encoder can write again, in no more bytes than
    the parser consumed ([sound]). *)

From S2P Require Import Prelude.
From S2P Require Import FrameCodec.
From S2P Require Import RespCodec.
From S2P Require Import RespCorrectness.

Local Open Scope Z_scope.

(** ** More input does not change an answer *)

Definition stable {A} (r r' : result (option A) io_error) : Prop := r = Ok None \/ r' = r.

Lemma stable_refl {A} (r : result (option A) io_error) : stable r r.
Proof. by right. Qed.
#[local] Hint Resolve stable_refl : core.

(** What follows an incremental step is decided by that step's answer. *)
Lemma stable_bind {A B} (r r' : result (option A) io_error)
    (k k' : A -> result (option B) io_error) :
  stable r r' -> (forall a, r = Ok (Some a) -> stable (k a) (k' a)) ->
  stable
    (match r with Ok (Some a) => k a | Ok None => Ok None | Err e => Err e end)
    (match r' with Ok (Some a) => k' a | Ok None => Ok None | Err e => Err e end).
Proof.
  intros [->| ->] Hk; [by left|]. destruct r as [[a|]|e]; [by apply Hk|by left|done].
Qed.

Section Stable.
Variables buf ext : list Z.

Lemma index_get_extend i c : index_get buf i = Some c -> index_get (buf ++ ext) i = Some c.
Proof. unfold index_get. case_decide; [|done]. apply lookup_app_l_Some. Qed.

Lemma slice_get_extend a b l : slice_get buf a b = Some l -> slice_get (buf ++ ext) a b = Some l.
Proof.
  unfold slice_get. case_decide as Hd; [|done]. rewrite decide_True by len_solve.
  intros <-. f_equal. rewrite drop_app_le by len_solve. rewrite take_app_le; [done|]. len_solve.
Qed.

Lemma parse_line_loop_stable fuel fuel' start index max :
  (fuel <= fuel')%nat -> 0 <= start <= index ->
  stable (parse_line_loop fuel buf start index max) (parse_line_loop fuel' (buf ++ ext) start index max).
Proof.
  revert fuel' index. induction fuel as [|fuel IH]; intros fuel' index Hf Hi; [by left|].
  destruct fuel' as [|fuel']; [lia|]. cbn [parse_line_loop].
  destruct (index_get buf index) as [c|] eqn:Ec; [|by left]. rewrite (index_get_extend _ _ Ec).
  destruct (max <? saturating_sub index start); [done|].
  assert (Hadv : stable
    (match ok_or (checked_add usize_max index 1) (invalid_data "line too long") with
     | Ok index => parse_line_loop fuel buf start index max | Err e => Err e end)
    (match ok_or (checked_add usize_max index 1) (invalid_data "line too long") with
     | Ok index => parse_line_loop fuel' (buf ++ ext) start index max | Err e => Err e end)).
  { destruct (checked_add usize_max index 1) as [j|] eqn:Ej; [|done].
    apply checked_add_Some in Ej as [-> _]. apply IH; lia. }
  destruct (c =? CR); [|exact Hadv].
  destruct (index_get buf (index + 1)) as [d|] eqn:Ed; [|by left].
  rewrite (index_get_extend _ _ Ed). destruct (d =? LF); [|exact Hadv].
  destruct (slice_get buf start index) as [l|] eqn:El.
  - by rewrite (slice_get_extend _ _ _ El).
  - unfold slice_get in El. case_decide as Hd; [done|]. destruct Hd.
    unfold index_get in Ec. case_decide; [|done]. apply lookup_lt_Some in Ec. unfold len. lia.
Qed.

Lemma parse_line_stable start max :
  0 <= start -> stable (parse_line buf start max) (parse_line (buf ++ ext) start max).
Proof. intros ?. apply parse_line_loop_stable; [rewrite length_app|]; lia. Qed.

End Stable.

(** ** What the scan returns *)

Lemma no_crlf_snoc l c :
  no_crlf l = true -> (last l = Some CR -> c <> LF) -> no_crlf (l ++ [c]) = true.
Proof.
  induction l as [|a l IH]; [done|]. cbn [no_crlf app]. intros [Ha Hl]%andb_true_iff Hc.
  rewrite IH; [|done|by destruct l]. rewrite andb_true_r.
  destruct l as [|b l]; [|done]. simpl in Hc |- *.
  destruct (Z.eqb_spec a CR) as [->|]; [|done]. by rewrite (proj2 (Z.eqb_neq c LF)) by auto.
Qed.

Lemma index_get_lookup {A} (l : list A) i c :
  index_get l i = Some c <-> 0 <= i /\ l !! Z.to_nat i = Some c.
Proof. unfold index_get. case_decide; naive_solver. Qed.

Definition scanned (buf : list Z) (start index : Z) : list Z :=
  take (Z.to_nat (index - start)) (drop (Z.to_nat start) buf).

Lemma scanned_snoc buf start index c :
  0 <= start <= index -> index_get buf index = Some c ->
  scanned buf start (index + 1) = scanned buf start index ++ [c].
Proof.
  intros Hi [_ Hc]%index_get_lookup. unfold scanned.
  replace (Z.to_nat (index + 1 - start)) with (S (Z.to_nat (index - start))) by lia.
  apply take_S_r. rewrite lookup_drop.
  by replace (Z.to_nat start + Z.to_nat (index - start))%nat with (Z.to_nat index) by lia.
Qed.

Lemma parse_line_loop_sound fuel buf start index max line next :
  parse_line_loop fuel buf start index max = Ok (Some (line, next)) ->
  0 <= start <= index ->
  no_crlf (scanned buf start index) = true ->
  (last (scanned buf start index) = Some CR -> index_get buf index <> Some LF) ->
  no_crlf line = true /\ slice_get buf start (next - 2) = Some line
  /\ next <= len buf /\ len line <= max.
Proof.
  revert index. induction fuel as [|fuel IH]; intros index; [done|]. cbn [parse_line_loop].
  destruct (index_get buf index) as [c|] eqn:Ec; [|done].
  destruct (Z.ltb_spec max (saturating_sub index start)) as [|Hm]; [done|].
  intros Hp Hi Hn Hl.
  assert (Hadv : (match ok_or (checked_add usize_max index 1) (invalid_data "line too long") with
     | Ok index => parse_line_loop fuel buf start index max | Err e => Err e end)
     = Ok (Some (line, next)) -> (c = CR -> index_get buf (index + 1) <> Some LF) ->
     no_crlf line = true /\ slice_get buf start (next - 2) = Some line
     /\ next <= len buf /\ len line <= max).
  { destruct (checked_add usize_max index 1) as [j|] eqn:Ej; [|done].
    apply checked_add_Some in Ej as [-> _]. cbn [ok_or]. intros H Hc.
    apply (IH (index + 1)); [done|lia|..]; rewrite (scanned_snoc _ _ _ c) by done.
    - apply no_crlf_snoc; [done|]. intros Hcr Hlf. apply (Hl Hcr). by rewrite Hlf.
    - rewrite last_snoc. intros [= ->]. by apply Hc. }
  destruct (Z.eqb_spec c CR) as [->|]; [|by apply Hadv].
  destruct (index_get buf (index + 1)) as [d|] eqn:Ed; [|done].
  destruct (Z.eqb_spec d LF) as [->|]; [|apply Hadv; [done|congruence]].
  destruct (slice_get buf start index) as [l|] eqn:El; [|done].
  injection Hp as <- <-. pose proof (slice_get_Some_length _ _ _ _ El).
  apply index_get_lookup in Ed as [_ Ed]. apply lookup_lt_Some in Ed.
  unfold saturating_sub in Hm.
  replace (index + 2 - 2) with index by lia. repeat split; [|done|unfold len in *; lia|lia].
  unfold scanned in Hn. unfold slice_get in El. case_decide; [|done]. by injection El as <-.
Qed.

Lemma parse_line_sound buf start max line next :
  parse_line buf start max = Ok (Some (line, next)) -> 0 <= start ->
  no_crlf line = true /\ next = start + len line + 2 /\ next <= len buf /\ len line <= max.
Proof.
  intros H Hs. assert (E : scanned buf start start = []) by (unfold scanned; by rewrite Z.sub_diag).
  apply parse_line_loop_sound in H as (Hn & Hl & ? & ?); [|lia|by rewrite E..].
  apply slice_get_Some_length in Hl. repeat split; [done|lia|done|done].
Qed.

(** ** Numbers: the printed form is never longer than what was parsed *)

Lemma parse_digits_bound sign cs : forall acc v k,
  sign = 1 \/ sign = -1 ->
  parse_digits sign acc cs = Some v -> 0 <= sign * acc < 10 ^ k -> 0 <= k ->
  i64_min <= acc <= i64_max ->
  0 <= sign * v < 10 ^ (k + len cs) /\ i64_min <= v <= i64_max.
Proof.
  induction cs as [|c cs IH]; intros acc v k Hs; cbn [parse_digits].
  { intros [= <-] ???. change (len (@nil Z)) with 0. by rewrite Z.add_0_r. }
  unfold digit_value, between. destruct (Z.leb_spec 48 c); [|done].
  destruct (Z.leb_spec c 57); [|done]. simpl. unfold i64_checked. case_decide as Hm; [|done].
  case_decide as Hm'; [|done]. intros Hp Ha Hk _.
  assert (len (c :: cs) = 1 + len cs) as -> by (unfold len; simpl; lia).
  rewrite Z.add_assoc. eapply IH; [done|exact Hp| |lia|done].
  rewrite Z.pow_add_r by lia. destruct Hs as [-> | ->]; lia.
Qed.

Lemma digits_len_go_le fuel v k : 0 <= v < 10 ^ k -> 1 <= k -> digits_len_go fuel v 1 <= k.
Proof.
  revert v k. induction fuel as [|fuel IH]; intros v k Hv Hk; cbn [digits_len_go]; [lia|].
  destruct (Z.leb_spec 10 v); [|lia]. rewrite digits_len_go_acc.
  assert (2 <= k).
  { destruct (Z.eq_dec k 1) as [->|]; [change (10 ^ 1) with 10 in Hv|]; lia. }
  assert (Hp : 10 ^ k = 10 * 10 ^ (k - 1)).
  { replace k with (Z.succ (k - 1)) at 1 by lia. apply Z.pow_succ_r. lia. }
  specialize (IH (v / 10) (k - 1)). rewrite digits_len_go_acc in IH.
  assert (0 <= v / 10 < 10 ^ (k - 1))
    by (split; [apply Z.div_pos; lia|apply Z.div_lt_upper_bound; lia]). lia.
Qed.

Lemma parse_i64_sound text v :
  parse_i64 text = Some v -> i64_min <= v <= i64_max /\ len (display v) <= len text.
Proof.
  assert (Hgen : forall sign cs w, sign = 1 \/ sign = -1 -> cs <> [] ->
    parse_digits sign 0 cs = Some w ->
    i64_min <= w <= i64_max /\ 0 <= sign * w /\ digits_len_go digit_fuel (Z.abs w) 1 <= len cs).
  { intros sign cs w Hs Hne Hp.
    apply (parse_digits_bound sign cs 0 w 0) in Hp as [Hb Hr]; [|done|lia|lia|by unfold i64_min, i64_max].
    split; [done|]. split; [lia|]. apply digits_len_go_le.
    - rewrite Z.add_0_l in Hb. destruct Hs as [-> | ->]; lia.
    - destruct cs; [done|]. unfold len. simpl. lia. }
  intros Hp. assert (Hc : forall c (cs : list Z), len (c :: cs) = 1 + len cs) by (intros; unfold len; simpl; lia).
  destruct text as [|c cs]; [done|]. unfold parse_i64 in Hp.
  destruct (c =? PLUS); [|destruct (c =? MINUS)].
  - destruct cs as [|c' cs]; [done|]. apply Hgen in Hp as (Hr & Hv & Hl); [|by left|done].
    split; [done|]. rewrite display_length_signed by done. unfold digits_len_i64.
    rewrite (proj2 (Z.ltb_ge v 0)) by lia. rewrite Hc. lia.
  - destruct cs as [|c' cs]; [done|]. apply Hgen in Hp as (Hr & Hv & Hl); [|by right|done].
    split; [done|]. rewrite display_length_signed by done. unfold digits_len_i64.
    rewrite Hc. destruct (v <? 0); lia.
  - apply Hgen in Hp as (Hr & Hv & Hl); [|by left|done].
    split; [done|]. rewrite display_length_signed by done. unfold digits_len_i64.
    rewrite (proj2 (Z.ltb_ge v 0)) by lia. done.
Qed.

(** ** Frames: stable and sound *)

(** What a returned frame satisfies. *)
Definition accepted (buf : list Z) (start depth : Z) (found : RespFrame * Z) : Prop :=
  let '(f, n) := found in
  typed f = true /\ decodable f = true /\ len (wire f) <= n
  /\ depth + height f <= MAX_RECURSION_DEPTH /\ 0 < n /\ start + n <= len buf.

Definition sound (buf : list Z) (start depth : Z) (r : parsed) : Prop :=
  forall found, r = Ok (Some found) -> accepted buf start depth found.

Section Frames.
Variables buf ext : list Z.
Hypothesis Hbuf : len buf <= isize_max.

Lemma parse_text_frame_ok start max depth msg mk :
  0 <= start -> depth <= MAX_RECURSION_DEPTH ->
  (forall t, typed (mk t) = utf8_valid t && (len t <=? isize_max)
             /\ decodable (mk t) = no_crlf t /\ len (wire (mk t)) = 1 + (len t + 2) /\ height (mk t) = 0) ->
  sound buf start depth (parse_text_frame (mk_ParseContext buf start max) msg mk)
  /\ stable (parse_text_frame (mk_ParseContext buf start max) msg mk)
       (parse_text_frame (mk_ParseContext (buf ++ ext) start max) msg mk).
Proof.
  intros Hs Hd Hmk. unfold parse_text_frame, parse_text_line.
  cbn [ctx_buf ctx_start ctx_max_frame_length].
  destruct (parse_line_stable buf ext (start + 1) max ltac:(lia)) as [Hnone | ->].
  { rewrite Hnone. split; [by intros ? [=]|by left]. }
  split; [|done].
  destruct (parse_line buf (start + 1) max) as [[[l next]|]|e] eqn:El; try by intros ? [=].
  apply parse_line_sound in El as (Hn & Hnext & Hle & _); [|lia].
  unfold from_utf8. destruct (utf8_valid l) eqn:Hu; [|by intros ? [=]]. intros ? [= <-].
  pose proof (len_nonneg l). destruct (Hmk l) as (Ht & Hc & Hw & Hh). unfold accepted.
  rewrite Ht, Hc, Hw, Hh, Hu, Hn. repeat split; lia.
Qed.

(** A line that holds a number, as the parsers of integers, bulk strings and
    arrays read it; [k] is what each does with the number. *)
Lemma parse_number_ok {A} start max msg1 msg2 (k k' : Z -> Z -> result (option A) io_error)
    (P : result (option A) io_error -> Prop) :
  0 <= start ->
  P (Ok None) -> (forall e, P (Err e)) ->
  (forall v next, i64_min <= v <= i64_max -> start + 3 + len (display v) <= next -> next <= len buf ->
     P (k v next) /\ stable (k v next) (k' v next)) ->
  let number b (k : Z -> Z -> result (option A) io_error) :=
    match parse_line b (start + 1) max with
    | Err e => Err e
    | Ok None => Ok None
    | Ok (Some (line, next)) =>
        match ok_or (from_utf8 line) msg1 with
        | Ok text => match ok_or (parse_i64 text) msg2 with Ok v => k v next | Err e => Err e end
        | Err e => Err e
        end
    end in
  P (number buf k) /\ stable (number buf k) (number (buf ++ ext) k').
Proof.
  intros Hs HN HE Hk number. unfold number.
  destruct (parse_line_stable buf ext (start + 1) max ltac:(lia)) as [Hnone | ->].
  { rewrite Hnone. split; [done|by left]. }
  destruct (parse_line buf (start + 1) max) as [[[l next]|]|e] eqn:El; [|by auto..].
  apply parse_line_sound in El as (Hn & Hnext & Hle & _); [|lia].
  unfold from_utf8. destruct (utf8_valid l); [|split; [apply HE|by right]]. cbn [ok_or].
  destruct (parse_i64 l) as [v|] eqn:Ev; [|split; [apply HE|by right]]. cbn [ok_or].
  apply parse_i64_sound in Ev as [Hv Hl]. apply Hk; [done|lia|done].
Qed.

Lemma parse_integer_ok start max depth :
  0 <= start -> depth <= MAX_RECURSION_DEPTH ->
  sound buf start depth (parse_integer buf start max)
  /\ stable (parse_integer buf start max) (parse_integer (buf ++ ext) start max).
Proof.
  intros Hs Hd.
  assert (Hunf : forall b, parse_integer b start max
    = match parse_line b (start + 1) max with
      | Err e => Err e
      | Ok None => Ok None
      | Ok (Some (line, next)) =>
          match ok_or (from_utf8 line) (invalid_data "invalid integer") with
          | Ok text =>
              match ok_or (parse_i64 text) (invalid_data "invalid integer") with
              | Ok v => Ok (Some (Integer v, next - start)) | Err e => Err e end
          | Err e => Err e
          end
      end).
  { intros b. unfold parse_integer, parse_text_line. cbn [ctx_buf ctx_start ctx_max_frame_length].
    destruct (parse_line b (start + 1) max) as [[[l n]|]|]; [|done..].
    by destruct (ok_or (from_utf8 l) _). }
  rewrite !Hunf.
  apply (parse_number_ok start max _ _ (fun v next => Ok (Some (Integer v, next - start))) _
           (sound buf start depth)); [done|by intros ? [=]|by intros ? ? [=]|].
  intros v next Hv Hnext Hle. split; [|done]. intros ? [= <-]. unfold accepted.
  cbn [wire]. rewrite len_wire_text. cbn [typed decodable height]. unfold between.
  pose proof (len_nonneg (display v)). repeat split; lia.
Qed.

Lemma validate_terminator_stable cursor :
  0 <= cursor -> cursor + 2 <= len buf ->
  validate_bulk_terminator (buf ++ ext) cursor = validate_bulk_terminator buf cursor.
Proof.
  intros Hc Hl. unfold validate_bulk_terminator.
  assert (Hget : forall i, 0 <= i < len buf -> index_get (buf ++ ext) i = index_get buf i).
  { intros i Hi. unfold index_get. rewrite !decide_True by lia. apply lookup_app_l. unfold len in *. lia. }
  by rewrite !Hget by lia.
Qed.

Lemma parse_bulk_payload_ok start next n max depth :
  0 <= start -> depth <= MAX_RECURSION_DEPTH -> 0 <= n <= i64_max ->
  start + 3 + len (display n) <= next -> next <= len buf ->
  let spec := mk_BulkPayloadSpec start next n max in
  sound buf start depth (parse_bulk_payload buf spec)
  /\ stable (parse_bulk_payload buf spec) (parse_bulk_payload (buf ++ ext) spec).
Proof.
  intros Hs Hd Hn Hnext Hle spec. subst spec. unfold parse_bulk_payload.
  cbn [bp_start bp_payload_start bp_len bp_max_frame_length].
  destruct (max <? _); [split; [by intros ? [=]|done]|].
  destruct (ok_or _ _) as [e|] eqn:Ee; [|split; [by intros ? [=]|done]].
  assert (e = next + n + 2) as ->.
  { destruct (checked_add usize_max next n) as [m|] eqn:Em; [|done].
    apply checked_add_Some in Em as [-> _].
    destruct (checked_add usize_max (next + n) 2) as [m|] eqn:Em; [|done].
    apply checked_add_Some in Em as [-> _]. by injection Ee. }
  pose proof (len_nonneg (display n)).
  destruct (Z.ltb_spec (len buf) (next + n + 2)) as [|Hl]; [split; [by intros ? [=]|by left]|].
  rewrite (proj2 (Z.ltb_ge (len (buf ++ ext)) _)) by (rewrite len_app; pose proof (len_nonneg ext); lia).
  destruct (slice_get buf next (next + n)) as [d|] eqn:Esl.
  2: { unfold slice_get in Esl. rewrite decide_True in Esl; [done|lia]. }
  rewrite (slice_get_extend _ _ _ _ _ Esl). cbn [ok_or].
  apply slice_get_Some_length in Esl as [Hdl _].
  rewrite validate_terminator_stable by lia. split; [|done].
  destruct (validate_bulk_terminator buf (next + n)); [|by intros ? [=]].
  intros ? [= <-]. unfold accepted. cbn [typed decodable height wire].
  rewrite !len_app. change (len [DOLLAR]) with 1. change (len crlf) with 2.
  replace (len d) with n by lia. unfold isize_max, i64_max in *. repeat split; lia.
Qed.

Lemma parse_bulk_string_ok start max depth :
  0 <= start -> depth <= MAX_RECURSION_DEPTH ->
  sound buf start depth (parse_bulk_string buf start max)
  /\ stable (parse_bulk_string buf start max) (parse_bulk_string (buf ++ ext) start max).
Proof.
  intros Hs Hd.
  set (k b v next := if v <? -1 then Err (invalid_data "invalid bulk length")
        else if v =? -1 then Ok (Some (BulkString None, next - start))
        else match ok_or (try_into usize_max v) (invalid_data "bulk length too large") with
             | Ok n => parse_bulk_payload b (mk_BulkPayloadSpec start next n max)
             | Err e => Err e end).
  assert (Hunf : forall b, parse_bulk_string b start max
    = match parse_line b (start + 1) max with
      | Err e => Err e
      | Ok None => Ok None
      | Ok (Some (line, next)) =>
          match ok_or (from_utf8 line) (invalid_data "invalid bulk length") with
          | Ok text =>
              match ok_or (parse_i64 text) (invalid_data "invalid bulk length") with
              | Ok v => k b v next | Err e => Err e end
          | Err e => Err e
          end
      end).
  { intros b. unfold parse_bulk_string, parse_bulk_length, k.
    destruct (parse_line b (start + 1) max) as [[[l n]|]|]; [|done..].
    destruct (ok_or (from_utf8 l) _) as [t|]; [|done]. destruct (ok_or (parse_i64 t) _) as [v|]; [|done].
    destruct (v <? -1); [done|]. destruct (v =? -1); [done|]. by destruct (ok_or (try_into _ _) _). }
  rewrite !Hunf.
  apply (parse_number_ok start max _ _ (k buf) (k (buf ++ ext)) (sound buf start depth));
    [done|by intros ? [=]|by intros ? ? [=]|].
  intros v next Hv Hnext Hle. unfold k. pose proof (len_nonneg (display v)).
  destruct (Z.ltb_spec v (-1)); [split; [by intros ? [=]|done]|].
  destruct (Z.eqb_spec v (-1)) as [->|Hv1].
  - split; [|done]. intros ? [= <-]. change (len (display (-1))) with 2 in *.
    unfold accepted. cbn [typed decodable height]. change (len (wire (BulkString None))) with 5.
    repeat split; lia.
  - destruct (try_into usize_max v) as [n|] eqn:En; [|split; [by intros ? [=]|done]]. cbn [ok_or].
    apply try_into_Some in En as [-> ?]. apply parse_bulk_payload_ok; try done. lia.
Qed.

(** The loop over an array's elements, for an element parser that is stable and
    sound. *)
Lemma parse_elements_ok (element element' : Z -> parsed) start depth :
  (forall cursor, 0 <= cursor ->
     sound buf cursor depth (element cursor) /\ stable (element cursor) (element' cursor)) ->
  forall n cursor frames,
  0 <= start <= cursor ->
  (forall found,
     parse_elements element n cursor frames = Ok (Some found) ->
     exists items, found.1 = frames ++ items /\ length items = n
       /\ Forall (fun f => typed f = true /\ decodable f = true /\ depth + height f <= MAX_RECURSION_DEPTH) items
       /\ cursor + len (concat (map wire items)) <= found.2
       /\ (cursor <= len buf -> found.2 <= len buf))
  /\ stable (parse_elements element n cursor frames) (parse_elements element' n cursor frames).
Proof.
  intros Hel. induction n as [|n IH]; intros cursor frames Hc; cbn [parse_elements].
  { split; [|done]. intros ? [= <-]. exists []. cbn. rewrite app_nil_r.
    change (len (@nil Z)) with 0. repeat split; [constructor|lia|done]. }
  destruct (Hel cursor ltac:(lia)) as [Hsound [Hnone | ->]].
  { rewrite Hnone. split; [by intros ? [=]|by left]. }
  destruct (element cursor) as [[[f m]|]|e] eqn:Ef; [|split; [by intros ? [=]|done]..].
  specialize (Hsound _ eq_refl) as (Ht & Hd & Hw & Hh & Hm & Hle).
  destruct (checked_add usize_max cursor m) as [c|] eqn:Ec; [|split; [by intros ? [=]|done]].
  apply checked_add_Some in Ec as [-> _]. cbn [ok_or].
  destruct (IH (cursor + m) (frames ++ [f]) ltac:(lia)) as [IHs IHt]. split; [|done].
  intros found Hf. apply IHs in Hf as (items & -> & Hlen & Hall & Hsum & Hend).
  exists (f :: items). rewrite concat_wire_cons, len_app, <-app_assoc.
  split; [done|]. split; [by cbn; rewrite Hlen|]. split; [by constructor|].
  split; [lia|]. intros _. lia.
Qed.

Lemma items_height_bound depth items :
  depth <= MAX_RECURSION_DEPTH ->
  Forall (fun f => depth + 1 + height f <= MAX_RECURSION_DEPTH) items ->
  depth + items_height items <= MAX_RECURSION_DEPTH.
Proof. intros Hd. induction 1 as [|f items Hf _ IH]; cbn; unfold items_height in *; lia. Qed.

Lemma parse_array_ok rec rec' start max depth :
  (forall cursor, 0 <= cursor ->
     sound buf cursor (depth + 1) (rec buf cursor max (depth + 1))
     /\ stable (rec buf cursor max (depth + 1)) (rec' (buf ++ ext) cursor max (depth + 1))) ->
  0 <= start -> depth <= MAX_RECURSION_DEPTH ->
  sound buf start depth (parse_array rec buf start max depth)
  /\ stable (parse_array rec buf start max depth) (parse_array rec' (buf ++ ext) start max depth).
Proof.
  intros Hrec Hs Hd. unfold parse_array.
  apply (parse_number_ok start max _ _
    (fun count cursor => _) (fun count cursor => _) (sound buf start depth));
    [done|by intros ? [=]|by intros ? ? [=]|].
  intros v next Hv Hnext Hle. cbn beta. pose proof (len_nonneg (display v)).
  destruct (Z.eqb_spec v (-1)) as [->|Hv1].
  { split; [|done]. intros ? [= <-]. change (len (display (-1))) with 2 in *.
    unfold accepted. cbn [typed decodable height]. change (len (wire (Array None))) with 5.
    repeat split; lia. }
  destruct (Z.ltb_spec v (-1)); [split; [by intros ? [=]|done]|].
  destruct (try_into usize_max v) as [n|] eqn:En; [|split; [by intros ? [=]|done]]. cbn [ok_or].
  apply try_into_Some in En as [-> ?].
  destruct (Z.ltb_spec MAX_ARRAY_ELEMENTS v) as [|Hmaxn]; [split; [by intros ? [=]|done]|].
  destruct (parse_elements_ok _ _ start (depth + 1) Hrec (Z.to_nat v) next [] ltac:(lia)) as [Hsound Hst].
  destruct Hst as [Hnone | ->]; [rewrite Hnone; split; [by intros ? [=]|by left]|].
  split; [|done].
  destruct (parse_elements _ _ _ _) as [[[frames cursor]|]|e] eqn:Eel; [|by intros ? [=]..].
  specialize (Hsound _ eq_refl) as (items & Hfr & Hlen & Hall & Hsum & Hend).
  cbn [fst snd app] in *. subst frames.
  unfold checked_sub. case_decide; [|by intros ? [=]]. cbn [ok_or].
  destruct (max <? cursor - start); [by intros ? [=]|]. intros ? [= <-].
  assert (Hi : len items = v) by (unfold len; lia). unfold accepted.
  rewrite typed_array, decodable_array, Hi. cbn [height]. fold (items_height items).
  pose proof (len_nonneg (concat (map wire items))).
  repeat split; [unfold MAX_ARRAY_ELEMENTS, isize_max in *; lia
    |eapply Forall_impl; [exact Hall|]; tauto|done|eapply Forall_impl; [exact Hall|]; tauto
    | | |lia|].
  - cbn [wire]. rewrite !len_app, Hi. change (len [STAR]) with 1. change (len crlf) with 2. lia.
  - apply items_height_bound; [done|]. eapply Forall_impl; [exact Hall|]. tauto.
  - specialize (Hend Hle). lia.
Qed.

Lemma parse_frame_at_ok fuel start max depth :
  0 <= start ->
  sound buf start depth (parse_frame_at fuel buf start max depth)
  /\ stable (parse_frame_at fuel buf start max depth) (parse_frame_at fuel (buf ++ ext) start max depth).
Proof.
  revert start depth. induction fuel as [|fuel IH]; intros start depth Hs; cbn [parse_frame_at].
  { split; [|done]. destruct (_ <? depth); by intros ? [=]. }
  destruct (Z.ltb_spec MAX_RECURSION_DEPTH depth) as [|Hd]; [split; [by intros ? [=]|done]|].
  destruct (index_get buf start) as [c|] eqn:Ec; [|split; [by intros ? [=]|by left]].
  rewrite (index_get_extend _ _ _ _ Ec).
  destruct (c =? PLUS).
  { apply parse_text_frame_ok; [done..|]. intros t. repeat split. cbn [wire]. by rewrite len_wire_text. }
  destruct (c =? MINUS).
  { apply parse_text_frame_ok; [done..|]. intros t. repeat split. cbn [wire]. by rewrite len_wire_text. }
  destruct (c =? COLON); [by apply parse_integer_ok|].
  destruct (c =? DOLLAR); [by apply parse_bulk_string_ok|].
  destruct (c =? STAR); [|split; [by intros ? [=]|done]].
  apply parse_array_ok; [|done|done]. intros cursor Hc. by apply IH.
Qed.

End Frames.
