(* ===== verification/RespStream.v ===== *)
(** * The RESP codec as a stream transport

    The theorems about the codec as a whole: measure against emission, round
    trip, arbitrary cuts of the stream, what a decoded frame is worth, and the
    two kinds of frame the encoder writes but the decoder does not read back. *)

From S2P Require Import Prelude.
From S2P Require Import FrameCodec.
From S2P Require Import RespCodec.
From S2P Require Import RespCorrectness.
From S2P Require Import RespIncremental.

Local Open Scope Z_scope.

(** A frame the codec [a] can carry. *)
Definition carries (a : RespAdapter) (f : RespFrame) : Prop :=
  typed f = true /\ decodable f = true /\ height f <= MAX_RECURSION_DEPTH
  /\ len (wire f) <= adapter_max_frame_length a.

#[export] Instance carries_dec a f : Decision (carries a f).
Proof. unfold carries. apply _. Defined.

Section Codec.
Context `{I : Itoa} {IL : ItoaLaws I}.

Lemma encoded_len_Ok f n :
  typed f = true ->
  encoded_len f = Ok n <-> height f <= MAX_RECURSION_DEPTH /\ n = len (wire f) /\ n <= usize_max.
Proof. intros Ht. exact (encoded_len_at_spec f Ht 0 n). Qed.

Lemma encode_frame_Ok f dst :
  typed f = true -> height f <= MAX_RECURSION_DEPTH -> encode_frame f dst = (dst ++ wire f, Ok tt).
Proof.
  intros Ht Hh. pose proof (encode_frame_at_spec f Ht dst 0) as H.
  by rewrite Z.add_0_l, (proj2 (Z.leb_le _ _)) in H by lia.
Qed.

(** The adapter's encoder writes the reference encoding or nothing. *)
Lemma encode_Ok a f dst dst' :
  typed f = true ->
  encode a f dst = (dst', Ok tt)
  <-> dst' = dst ++ wire f /\ height f <= MAX_RECURSION_DEPTH
      /\ len (wire f) <= adapter_max_frame_length a /\ len (wire f) <= usize_max.
Proof.
  intros Ht. unfold encode. destruct (encoded_len f) as [n|e] eqn:El.
  - apply encoded_len_Ok in El as (Hh & -> & Hu); [|done].
    destruct (Z.ltb_spec (adapter_max_frame_length a) (len (wire f))).
    + split; [done|lia].
    + rewrite encode_frame_Ok by done. split; [by intros [= <-]|by intros (-> & _)].
  - split; [done|]. intros (_ & Hh & _ & Hu).
    assert (encoded_len f = Ok (len (wire f))) by (by apply encoded_len_Ok). congruence.
Qed.

End Codec.

Lemma decode_wire a f rest :
  carries a f -> len (wire f ++ rest) <= usize_max ->
  decode a (wire f ++ rest) = (rest, Ok (Some f)).
Proof.
  intros (Ht & Hd & Hh & Hmax) Hlen. unfold decode, parse_frame.
  pose proof (wire_reads_back f Ht Hd depth_fuel [] rest (adapter_max_frame_length a) 0 Hmax) as H.
  change (len (@nil Z)) with 0 in H. cbn [app] in H.
  rewrite H; [|lia|unfold MAX_RECURSION_DEPTH, depth_fuel in *; lia|done].
  rewrite (proj2 (Z.ltb_ge _ _)) by lia. unfold len. by rewrite Nat2Z.id, drop_app_length.
Qed.

(** Cutting a frame's encoding anywhere leaves the decoder waiting. *)
Lemma decode_prefix a f p q :
  carries a f -> wire f = p ++ q -> q <> [] -> len p <= isize_max -> len (wire f) <= usize_max ->
  decode a p = (p, Ok None).
Proof.
  intros (Ht & Hd & Hh & Hmax) Hw Hq Hlen Hu. unfold decode, parse_frame.
  destruct (parse_frame_at_ok p q Hlen depth_fuel 0 (adapter_max_frame_length a) 0 ltac:(lia))
    as [Hsound [-> | Heq]]; [done|].
  pose proof (wire_reads_back f Ht Hd depth_fuel [] [] (adapter_max_frame_length a) 0 Hmax) as H.
  change (len (@nil Z)) with 0 in H. rewrite app_nil_r in H. cbn [app] in H.
  rewrite Hw, Heq in H. specialize (H ltac:(lia) ltac:(unfold MAX_RECURSION_DEPTH, depth_fuel in *; lia) ltac:(by rewrite <-Hw)).
  apply Hsound in H as (_ & _ & _ & _ & _ & Hle). rewrite len_app in Hle.
  destruct Hq. apply len_zero. pose proof (len_nonneg q). lia.
Qed.

Lemma wire_nonempty f : wire f <> [].
Proof. by destruct f as [| | |[]|[]]. Qed.

(** ** The codec as an instance of the interface *)

#[export] Instance resp_codec `{I : Itoa} : FrameCodec := {|
  FrameCodec.Codec := RespFrameCodec;
  FrameCodec.Frame := RespFrame;
  FrameCodec.Decoder := unit;
  FrameCodec.decoder _ := tt;
  FrameCodec.decode c _ src := let '(src, r) := decode (decoder c) src in (tt, src, r);
  FrameCodec.encode c := encode (encoder c);
  FrameCodec.frame_payload := frame_payload;
  FrameCodec.wrap_payload _ := wrap_payload;
  FrameCodec.correlation_id _ := None;
  FrameCodec.max_frame_length := codec_max_frame_length
|}.

#[export] Instance resp_stream `{I : Itoa} {IL : ItoaLaws I} : StreamCodec resp_codec.
Proof.
  refine {| FrameCodec.carries (c : @FrameCodec.Codec resp_codec) (f : @FrameCodec.Frame resp_codec) :=
              carries (encoder c) f /\ len (wire f) <= isize_max;
            FrameCodec.wire (_ : @FrameCodec.Codec resp_codec) (f : @FrameCodec.Frame resp_codec) := wire f;
            FrameCodec.unread _ _ buf p := buf = p |}.
  - intros _ f. apply wire_nonempty.
  - intros c f dst [(Ht & Hd & Hh & Hmax) Hlen]. cbn.
    apply encode_Ok; [done|]. split; [done|]. split; [done|]. split; [done|].
    unfold isize_max, usize_max, u64_max in *. lia.
  - done.
  - by intros ???? ? ->.
  - intros c [] buf ->. exists tt, []. by split.
  - intros c [] buf f rest [Hc _] -> Hlen. exists tt, rest. cbn [FrameCodec.decode resp_codec].
    rewrite (decode_wire (decoder c) f rest); [done|exact Hc|unfold isize_max, usize_max, u64_max in *; lia].
  - intros c [] buf f p q [Hc Hl] Hw Hq -> Hlen. exists tt, p. cbn [FrameCodec.decode resp_codec].
    rewrite (decode_prefix (decoder c) f p q); [done|exact Hc|exact Hw|done|done|].
    unfold isize_max, usize_max, u64_max in *. lia.
Defined.

(** ** Frames that cross the codec one way only *)

Definition text_of (s : string) : list Z := map (fun b => Z.of_N (Byte.to_N b)) (String.list_byte_of_string s).

(** ** Properties *)

(** Measuring a frame and writing it agree: the measure returns [n] exactly
    when the encoder succeeds on every destination, appending the same [n]
    bytes, and [n] fits a [usize].  Both refuse the same frames (nested deeper
    than 64 levels), the encoder never writes more than was reserved. *)
Theorem measure_matches_emission `{I : Itoa} {IL : ItoaLaws I} f n :
  typed f = true ->
  encoded_len f = Ok n
  <-> n <= usize_max /\ exists bytes, len bytes = n
      /\ forall dst, encode_frame f dst = (dst ++ bytes, Ok tt).
Proof.
  intros Ht. rewrite encoded_len_Ok by done. split.
  - intros (Hh & -> & Hu). split; [done|]. exists (wire f). split; [done|].
    intros dst. by apply encode_frame_Ok.
  - intros (Hu & bytes & <- & Hd). pose proof (encode_frame_at_spec f Ht [] 0) as H.
    unfold encode_frame in Hd. rewrite Z.add_0_l, Hd in H.
    destruct (Z.leb_spec (height f) MAX_RECURSION_DEPTH); [|by destruct H].
    injection H as ->. done.
Qed.

Lemma measure_matches_emission_witness :
  let f := Array (Some [Integer (-99); BulkString (Some [1; 2; 3]); Array None]) in
  encoded_len f = Ok 24
  <-> 24 <= usize_max /\ exists bytes, len bytes = 24
      /\ forall dst, encode_frame f dst = (dst ++ bytes, Ok tt).
Proof. apply (measure_matches_emission (I := reference_itoa)). reflexivity. Defined.

(** C7: what the codec's encoder accepts its decoder reads back: the encoder
    appends to whatever is in the buffer, and a decoder with the same limit
    returns the frame and leaves exactly the bytes that follow it.  The two
    side conditions are the frames the decoder refuses by design: a CR LF
    inside a line and arrays of more than 1024 elements. *)
Theorem resp_round_trip `{I : Itoa} {IL : ItoaLaws I} codec f dst dst' rest :
  typed f = true -> decodable f = true ->
  encode (encoder codec) f dst = (dst', Ok tt) ->
  len (dst' ++ rest) <= usize_max ->
  exists bytes, dst' = dst ++ bytes /\ decode (decoder codec) (bytes ++ rest) = (rest, Ok (Some f)).
Proof.
  intros Ht Hd He Hlen. apply encode_Ok in He as (-> & Hh & Hmax & _); [|done].
  exists (wire f). split; [done|]. apply decode_wire; [done|].
  rewrite <-app_assoc, len_app in Hlen. pose proof (len_nonneg dst). lia.
Qed.

Lemma resp_round_trip_witness :
  let f := Array (Some [SimpleString (text_of "OK"); Integer (-99); BulkString (Some [13; 10; 0])]) in
  let codec := mk_RespFrameCodec 64 in
  let out := encode (I := reference_itoa) (encoder codec) f [7] in
  exists bytes, out.1 = [7] ++ bytes
    /\ decode (decoder codec) (bytes ++ [43]) = ([43], Ok (Some f)).
Proof.
  apply (resp_round_trip (I := reference_itoa)); [reflexivity..|].
  vm_compute. discriminate.
Defined.

(** The decoder's answer is final: unless it asks for more, reading more
    first would have given the same answer, frame or error, and left the
    additional bytes behind it. *)
Theorem decode_is_incremental a src more :
  len src <= isize_max ->
  decode a src = (src, Ok None)
  \/ decode a (src ++ more) = ((decode a src).1 ++ more, (decode a src).2).
Proof.
  intros Hlen. unfold decode, parse_frame.
  destruct (parse_frame_at_ok src more Hlen depth_fuel 0 (adapter_max_frame_length a) 0 ltac:(lia))
    as [Hsound [-> | ->]]; [by left|]. right.
  destruct (parse_frame_at depth_fuel src 0 _ 0) as [[[f n]|]|e]; [|done..].
  specialize (Hsound _ eq_refl) as (_ & _ & _ & _ & Hn & Hle).
  destruct (_ <? n); [done|]. cbn. f_equal. apply drop_app_le. unfold len in *. lia.
Qed.

Lemma decode_is_incremental_witness :
  let a := mk_RespAdapter 16 in
  decode a (text_of ":7") = (text_of ":7", Ok None)
  \/ decode a (text_of ":7" ++ [13; 10]) = ((decode a (text_of ":7")).1 ++ [13; 10], (decode a (text_of ":7")).2).
Proof. apply decode_is_incremental. vm_compute. discriminate. Defined.

(** Whatever the peer sends, a frame the decoder returns is well formed (64
    bit integers, UTF-8 text without line breaks, at most 1024 elements, at
    most 64 levels), was consumed within the frame limit, and is accepted by
    the same codec's encoder, which writes it in no more bytes than it came
    in; decoding that gives the frame again. *)
Theorem decoded_frame_reencodes `{I : Itoa} {IL : ItoaLaws I} a src rest f :
  len src <= isize_max ->
  decode a src = (rest, Ok (Some f)) ->
  typed f = true /\ decodable f = true
  /\ exists used bytes, src = used ++ rest
      /\ 0 < len used <= adapter_max_frame_length a
      /\ encode a f [] = (bytes, Ok tt) /\ len bytes <= len used
      /\ decode a bytes = ([], Ok (Some f)).
Proof.
  intros Hlen. unfold decode at 1, parse_frame.
  destruct (parse_frame_at_ok src [] Hlen depth_fuel 0 (adapter_max_frame_length a) 0 ltac:(lia))
    as [Hsound _].
  destruct (parse_frame_at depth_fuel src 0 _ 0) as [[[g n]|]|e]; [|done..].
  specialize (Hsound _ eq_refl) as (Ht & Hd & Hw & Hh & Hn & Hle).
  destruct (Z.ltb_spec (adapter_max_frame_length a) n); [done|]. intros [= <- <-].
  split; [done|]. split; [done|].
  assert (Hu : len (take (Z.to_nat n) src) = n) by (unfold len in *; rewrite length_take; lia).
  exists (take (Z.to_nat n) src), (wire g). rewrite take_drop, Hu.
  assert (Hwu : len (wire g) <= usize_max) by (unfold isize_max, usize_max, u64_max in *; lia).
  repeat split; [lia|lia| |done|].
  - apply (encode_Ok a g []); [done|]. repeat split; [lia|lia|done].
  - rewrite <-(app_nil_r (wire g)) at 1. apply decode_wire; [|by rewrite app_nil_r].
    repeat split; [done|done|lia|lia].
Qed.

Lemma decoded_frame_reencodes_witness :
  let a := mk_RespAdapter 16 in
  let src := text_of "$+002" ++ [13; 10; 1; 2; 13; 10; 43] in
  let f := BulkString (Some [1; 2]) in
  typed f = true /\ decodable f = true
  /\ exists used bytes, src = used ++ [43]
      /\ 0 < len used <= adapter_max_frame_length a
      /\ encode (I := reference_itoa) a f [] = (bytes, Ok tt) /\ len bytes <= len used
      /\ decode a bytes = ([], Ok (Some f)).
Proof.
  apply (decoded_frame_reencodes (I := reference_itoa)); [vm_compute; discriminate|reflexivity].
Defined.

(** The encoder does not check the text of simple strings (nor of errors)
    for line breaks: text with a CR LF in it is accepted, and the peer reads a
    shorter string followed by whatever the rest of the text spells. *)
Theorem line_break_splits_frame `{I : Itoa} {IL : ItoaLaws I} a t1 t2 bytes :
  typed (SimpleString (t1 ++ crlf ++ t2)) = true ->
  typed (SimpleString t1) = true -> no_crlf t1 = true ->
  encode a (SimpleString (t1 ++ crlf ++ t2)) [] = (bytes, Ok tt) ->
  decode a bytes = (t2 ++ crlf, Ok (Some (SimpleString t1))).
Proof.
  intros Ht Ht1 Hn He. apply encode_Ok in He as (-> & _ & Hmax & Hu); [|done].
  assert (Hw : [] ++ wire (SimpleString (t1 ++ crlf ++ t2)) = wire (SimpleString t1) ++ t2 ++ crlf)
    by (cbn [wire app]; by rewrite <-!app_assoc).
  cbn [app] in Hw |- *. rewrite Hw in *. rewrite len_app in *.
  pose proof (len_nonneg (t2 ++ crlf)). apply decode_wire.
  - repeat split; [done|done|by unfold MAX_RECURSION_DEPTH; cbn|lia].
  - rewrite len_app. lia.
Qed.

Lemma line_break_splits_frame_witness :
  decode (mk_RespAdapter 32) (encode (I := reference_itoa) (mk_RespAdapter 32)
    (SimpleString (text_of "OK" ++ crlf ++ text_of ":1")) []).1
  = (text_of ":1" ++ crlf, Ok (Some (SimpleString (text_of "OK")))).
Proof. apply (line_break_splits_frame (I := reference_itoa)); reflexivity. Defined.

(** The encoder has no element limit: an array of more than 1024 elements
    within the frame limit is written, and every decoder with that limit
    answers it with an error, leaving it in the buffer. *)
Theorem large_array_is_written_but_refused `{I : Itoa} {IL : ItoaLaws I} a items bytes :
  typed (Array (Some items)) = true -> MAX_ARRAY_ELEMENTS < len items ->
  encode a (Array (Some items)) [] = (bytes, Ok tt) ->
  decode a bytes = (bytes, Err (invalid_data "array element count exceeds limit")).
Proof.
  intros Ht Hn He. apply encode_Ok in He as (-> & _ & Hmax & Hu); [|done].
  apply typed_array in Ht as [Hlen _]. cbn [wire app] in *.
  set (body := concat (map wire items)) in *. pose proof (len_nonneg body).
  assert (Hw : STAR :: display (len items) ++ crlf ++ body
    = [] ++ ([STAR] ++ display (len items) ++ crlf) ++ body) by (cbn; by rewrite <-!app_assoc).
  destruct (parse_number_line [] STAR (len items) body (adapter_max_frame_length a)) as (Hl & Hut & Hp).
  { unfold i64_min, i64_max, isize_max, MAX_ARRAY_ELEMENTS in *. lia. }
  { rewrite Hw in Hmax. cbn [app] in Hmax. unfold len in *. rewrite !length_cons, !length_app in Hmax. lia. }
  { by rewrite <-Hw. }
  rewrite <-Hw in Hl. change (len (@nil Z) + 1) with (0 + 1) in Hl.
  unfold decode, parse_frame, depth_fuel. cbn [parse_frame_at].
  change (index_get (STAR :: _) 0) with (Some STAR).
  change (MAX_RECURSION_DEPTH <? 0) with false. cbv iota.
  change (STAR =? PLUS) with false. change (STAR =? MINUS) with false.
  change (STAR =? COLON) with false. change (STAR =? DOLLAR) with false.
  change (STAR =? STAR) with true. cbv iota.
  unfold parse_array. rewrite Hl, Hut. cbn [ok_or]. rewrite Hp. cbn [ok_or].
  unfold MAX_ARRAY_ELEMENTS in *.
  rewrite (proj2 (Z.eqb_neq (len items) (-1))), (proj2 (Z.ltb_ge (len items) (-1))) by lia.
  rewrite (proj2 (try_into_Some usize_max (len items) (len items)))
    by (unfold isize_max, usize_max, u64_max in *; lia). cbn [ok_or].
  by rewrite (proj2 (Z.ltb_lt 1024 (len items))).
Qed.

Lemma large_array_is_written_but_refused_witness :
  let a := mk_RespAdapter 8192 in
  let f := Array (Some (replicate 1025 (Integer 0))) in
  let bytes := (encode (I := reference_itoa) a f []).1 in
  decode a bytes = (bytes, Err (invalid_data "array element count exceeds limit")).
Proof.
  apply (large_array_is_written_but_refused (I := reference_itoa) _ (replicate 1025 (Integer 0)));
    vm_compute; reflexivity.
Defined.

(** The byte limit of an array is checked when its last element is there: until
    then the decoder asks for more, here with 402 bytes of a frame limited to
    16. *)
Lemma incomplete_array_exceeds_limit :
  let src := text_of "*100" ++ crlf ++ concat (replicate 99 (text_of ":1" ++ crlf)) in
  len src = 402 /\ decode (mk_RespAdapter 16) src = (src, Ok None).
Proof. split; vm_compute; reflexivity. Qed.
