(* ===== verification/ClientError.v ===== *)
(** * Client errors

    Models [client/error.rs].  The boxed causes of [Serialize] and
    [Deserialize] are their messages. *)

From S2P Require Import Prelude.
From S2P Require Import FrameCodec.
From S2P Require Import Preamble.

Local Open Scope Z_scope.

Inductive ClientProtocolError : Type :=
  | Deserialize (source : string).

Abbreviation ClientWireframeError := (WireframeError ClientProtocolError) (only parsing).

Inductive ClientError : Type :=
  | Wireframe (e : ClientWireframeError)
  | Serialize (source : string)
  | PreambleEncode (source : EncodeError)
  | PreambleWrite (source : io_error)
  | PreambleRead (source : io_error)
  | PreambleTimeout
  | CorrelationMismatch (expected received : option Z)
  | StreamCorrelationMismatch (expected received : option Z)
  | PoolSaturated (limit : Z)
  | PoolClosed
  | SchedulerFailed.

Definition client_from_io (value : io_error) : ClientError := Wireframe (from_io value).

Definition decode_error (source : string) : ClientError :=
  Wireframe (WfProtocol (Deserialize source)).

Definition disconnected : ClientError :=
  client_from_io (mk_io_error UnexpectedEof "connection closed by peer").

Definition should_recycle_connection (self : ClientError) : bool :=
  match self with
  | Wireframe _ | PreambleWrite _ | PreambleRead _ | PreambleTimeout
  | CorrelationMismatch _ _ | StreamCorrelationMismatch _ _ => true
  | Serialize _ | PreambleEncode _ | PoolSaturated _ | PoolClosed | SchedulerFailed => false
  end.

#[export] Instance ClientProtocolError_eq_dec : EqDecision ClientProtocolError.
Proof. solve_decision. Defined.
#[export] Instance WireframeError_eq_dec {E} `{EqDecision E} : EqDecision (WireframeError E).
Proof. solve_decision. Defined.
#[export] Instance EncodeError_eq_dec : EqDecision EncodeError.
Proof. solve_decision. Defined.
#[export] Instance ClientError_eq_dec : EqDecision ClientError.
Proof. solve_decision. Defined.
