(* ===== verification/Client.v ===== *)
(** * The client

    Models [client/]: [codec_config.rs], [hooks.rs], [runtime.rs],
    [send_pipeline.rs], [messaging.rs], [streaming.rs], [response_stream.rs],
    [streaming_helpers.rs], [send_streaming.rs], [preamble_exchange.rs] and
    [connect_parts.rs].

    The framed transport is known by what its calls answer: [incoming] are the
    answers of the coming polls (its end is the end of the stream), [outcomes]
    those of the coming sends (a send beyond them succeeds), [sent] the frames
    it accepted.  A message type comes with what the configured serializer does
    to it.  A hook is a function; calls of the error hook and of the teardown
    hook are recorded in the client in the order in which they happen.  Spans
    and timings are left out. *)

From S2P Require Import Prelude.
From S2P Require Import LengthPrefix.
From S2P Require Import Envelope.
From S2P Require Import AsyncIo.
From S2P Require Import Preamble.
From S2P Require Import ClientError.

Local Open Scope Z_scope.

(** ** [codec_config.rs] *)

Definition MIN_FRAME_LENGTH : Z := 64.
Definition MAX_FRAME_LENGTH : Z := 16 * 1024 * 1024.
Definition DEFAULT_MAX_FRAME_LENGTH : Z := 1024.

Record ClientCodecConfig : Type := mk_ClientCodecConfig {
  cc_length_format : LengthFormat;
  cc_max_frame_length : Z
}.

(** [LengthFormat_default] goes through a constructor that can panic. *)
Definition client_codec_default : option ClientCodecConfig :=
  option_map (fun f => mk_ClientCodecConfig f DEFAULT_MAX_FRAME_LENGTH) LengthFormat_default.

Definition max_frame_length (n : Z) (c : ClientCodecConfig) : ClientCodecConfig :=
  mk_ClientCodecConfig (cc_length_format c) (Z.min (Z.max n MIN_FRAME_LENGTH) MAX_FRAME_LENGTH).
Definition length_format (f : LengthFormat) (c : ClientCodecConfig) : ClientCodecConfig :=
  mk_ClientCodecConfig f (cc_max_frame_length c).

(** ** The transport *)

Inductive FramedEvent : Type :=
  | NotYet
  | Frame (bytes : list Z)
  | Broken (e : io_error).

Record Framed : Type := mk_Framed {
  incoming : list FramedEvent;
  outcomes : list (option io_error);
  sent : list (list Z);
  write_closed : bool
}.

Definition framed_send (bytes : list Z) (f : Framed) : Framed * result unit io_error :=
  match outcomes f with
  | Some e :: os => (mk_Framed (incoming f) os (sent f) (write_closed f), Err e)
  | None :: os => (mk_Framed (incoming f) os (sent f ++ [bytes]) (write_closed f), Ok tt)
  | [] => (mk_Framed (incoming f) [] (sent f ++ [bytes]) (write_closed f), Ok tt)
  end.

Definition set_incoming (i : list FramedEvent) (f : Framed) : Framed :=
  mk_Framed i (outcomes f) (sent f) (write_closed f).
Definition close_write (f : Framed) : Framed :=
  mk_Framed (incoming f) (outcomes f) (sent f) true.

Definition framed_poll_next (f : Framed) : Framed * poll (option (result (list Z) io_error)) :=
  match incoming f with
  | [] => (f, Ready None)
  | NotYet :: i => (set_incoming i f, Pending)
  | Frame b :: i => (set_incoming i f, Ready (Some (Ok b)))
  | Broken e :: i => (set_incoming i f, Ready (Some (Err e)))
  end.

(** [framed.next().await] *)
Fixpoint next_event (i : list FramedEvent) : list FramedEvent * option (result (list Z) io_error) :=
  match i with
  | [] => ([], None)
  | NotYet :: i => next_event i
  | Frame b :: i => (i, Some (Ok b))
  | Broken e :: i => (i, Some (Err e))
  end.
Definition framed_next (f : Framed) : Framed * option (result (list Z) io_error) :=
  let '(i, x) := next_event (incoming f) in (set_incoming i f, x).

(** ** [hooks.rs] *)

Record RequestHooks : Type := mk_RequestHooks {
  before_send : list (list Z -> list Z);
  after_receive : list (list Z -> list Z)
}.

Definition dispatch_before_send (hooks : list (list Z -> list Z)) (bytes : list Z) : list Z :=
  fold_left (fun bytes hook => hook bytes) hooks bytes.

(** ** [runtime.rs] *)

Record WireframeClient (C : Type) : Type := mk_WireframeClient {
  framed : Framed;
  codec_config : ClientCodecConfig;
  connection_state : option C;
  on_disconnect : bool;
  on_error : bool;
  request_hooks : RequestHooks;
  correlation_counter : Z;
  error_calls : list ClientError;
  teardown_calls : list C
}.
Arguments mk_WireframeClient {C}.
Arguments framed {C} w.
Arguments codec_config {C} w.
Arguments connection_state {C} w.
Arguments on_disconnect {C} w.
Arguments on_error {C} w.
Arguments request_hooks {C} w.
Arguments correlation_counter {C} w.
Arguments error_calls {C} w.
Arguments teardown_calls {C} w.

(** What [serializer.serialize] and [serializer.deserialize] do to a message. *)
Class Serializable (M : Type) : Type := {
  serialize : M -> result (list Z) string;
  deserialize : list Z -> result (M * Z) string
}.

Section Operations.
Context {C : Type}.

Definition set_framed (f : Framed) (self : WireframeClient C) : WireframeClient C :=
  mk_WireframeClient f (codec_config self) (connection_state self) (on_disconnect self)
    (on_error self) (request_hooks self) (correlation_counter self) (error_calls self)
    (teardown_calls self).
Definition set_counter (n : Z) (self : WireframeClient C) : WireframeClient C :=
  mk_WireframeClient (framed self) (codec_config self) (connection_state self) (on_disconnect self)
    (on_error self) (request_hooks self) n (error_calls self) (teardown_calls self).

Definition invoke_error_hook (e : ClientError) (self : WireframeClient C) : WireframeClient C :=
  if on_error self then
    mk_WireframeClient (framed self) (codec_config self) (connection_state self)
      (on_disconnect self) (on_error self) (request_hooks self) (correlation_counter self)
      (error_calls self ++ [e]) (teardown_calls self)
  else self.

(** The early return of an operation that reports its error to the hook. *)
Definition traced_error {A} (e : ClientError) (self : WireframeClient C)
    : WireframeClient C * result A ClientError :=
  (invoke_error_hook e self, Err e).

Definition invoke_before_send_hooks (self : WireframeClient C) (bytes : list Z) : list Z :=
  dispatch_before_send (before_send (request_hooks self)) bytes.
Definition invoke_after_receive_hooks (self : WireframeClient C) (bytes : list Z) : list Z :=
  fold_left (fun bytes hook => hook bytes) (after_receive (request_hooks self)) bytes.

(** ** [send_pipeline.rs] *)

Definition serialize_and_send {M} `{Serializable M} (value : M) (self : WireframeClient C)
    : WireframeClient C * result unit ClientError :=
  match serialize value with
  | Err e => traced_error (Serialize e) self
  | Ok bytes =>
      let bytes := invoke_before_send_hooks self bytes in
      let '(f, send_result) := framed_send bytes (framed self) in
      match send_result with
      | Err e => traced_error (client_from_io e) (set_framed f self)
      | Ok _ => (set_framed f self, Ok tt)
      end
  end.

(** ** [messaging.rs] *)

Definition next_correlation_id (self : WireframeClient C) : WireframeClient C * Z :=
  (set_counter (wrapping_add u64_max (correlation_counter self) 1) self, correlation_counter self).

Definition receive_frame {R} `{Serializable R} (self : WireframeClient C)
    : WireframeClient C * result R ClientError :=
  let '(f, frame) := framed_next (framed self) in
  let self := set_framed f self in
  match frame with
  | None => traced_error disconnected self
  | Some (Err e) => traced_error (client_from_io e) self
  | Some (Ok bytes) =>
      match deserialize (invoke_after_receive_hooks self bytes) with
      | Ok (message, _) => (self, Ok message)
      | Err e => traced_error (decode_error e) self
      end
  end.

Definition client_send {M} `{Serializable M} (message : M) (self : WireframeClient C)
    : WireframeClient C * result unit ClientError :=
  serialize_and_send message self.
Definition client_receive {M} `{Serializable M} (self : WireframeClient C)
    : WireframeClient C * result M ClientError :=
  receive_frame self.

Definition call {Req Resp} `{Serializable Req} `{Serializable Resp} (request : Req)
    (self : WireframeClient C) : WireframeClient C * result Resp ClientError :=
  let '(self, x) := client_send request self in
  match x with
  | Err e => (self, Err e)
  | Ok _ => client_receive self
  end.

(** The stamping [send_envelope] and [call_streaming] share. *)
Definition stamp_correlation {P} `{Packet P} (envelope : P) (self : WireframeClient C)
    : WireframeClient C * P * Z :=
  match correlation_id envelope with
  | Some id => (self, envelope, id)
  | None =>
      let '(self, id) := next_correlation_id self in
      (self, set_correlation_id envelope (Some id), id)
  end.

Definition send_envelope {P} `{Packet P} `{Serializable P} (envelope : P) (self : WireframeClient C)
    : WireframeClient C * result Z ClientError :=
  let '(self, envelope, id) := stamp_correlation envelope self in
  let '(self, x) := serialize_and_send envelope self in
  match x with
  | Err e => (self, Err e)
  | Ok _ => (self, Ok id)
  end.

Definition receive_envelope {P} `{Packet P} `{Serializable P} (self : WireframeClient C)
    : WireframeClient C * result P ClientError :=
  receive_frame self.

Definition call_correlated {P} `{Packet P} `{Serializable P} (request : P) (self : WireframeClient C)
    : WireframeClient C * result P ClientError :=
  let '(self, x) := send_envelope request self in
  match x with
  | Err e => (self, Err e)
  | Ok id =>
      let '(self, y) := receive_envelope self in
      match y with
      | Err e => (self, Err e)
      | Ok response =>
          if decide (correlation_id response = Some id) then (self, Ok response)
          else traced_error (CorrelationMismatch (Some id) (correlation_id response)) self
      end
  end.

(** [close]: flush and end the write side, then run the teardown hook. *)
Definition close (self : WireframeClient C) : WireframeClient C :=
  let self := set_framed (close_write (framed self)) self in
  match connection_state self, on_disconnect self with
  | Some state, true =>
      mk_WireframeClient (framed self) (codec_config self) None (on_disconnect self)
        (on_error self) (request_hooks self) (correlation_counter self) (error_calls self)
        (teardown_calls self ++ [state])
  | _, _ =>
      mk_WireframeClient (framed self) (codec_config self) None (on_disconnect self)
        (on_error self) (request_hooks self) (correlation_counter self) (error_calls self)
        (teardown_calls self)
  end.

(** ** [response_stream.rs], [streaming.rs] *)

Record ResponseStream : Type := mk_ResponseStream {
  rs_client : WireframeClient C;
  rs_correlation_id : Z;
  rs_terminated : bool;
  frame_count : Z
}.

Definition response_stream_new (client : WireframeClient C) (id : Z) : ResponseStream :=
  mk_ResponseStream client id false 0.

Definition set_terminated (s : ResponseStream) : ResponseStream :=
  mk_ResponseStream (rs_client s) (rs_correlation_id s) true (frame_count s).
Definition set_rs_client (c : WireframeClient C) (s : ResponseStream) : ResponseStream :=
  mk_ResponseStream c (rs_correlation_id s) (rs_terminated s) (frame_count s).

Section Streams.
Context {P : Type} `{Packet P} `{Serializable P}.

Definition process_frame (bytes : list Z) (s : ResponseStream)
    : ResponseStream * option (result P ClientError) :=
  match deserialize bytes with
  | Err e => (set_terminated s, Some (Err (decode_error e)))
  | Ok (packet, _) =>
      if is_stream_terminator packet then (set_terminated s, None)
      else if decide (correlation_id packet = Some (rs_correlation_id s)) then (s, Some (Ok packet))
      else (set_terminated s,
            Some (Err (StreamCorrelationMismatch (Some (rs_correlation_id s))
                         (correlation_id packet))))
  end.

Definition on_frame_received (x : option (result P ClientError)) (s : ResponseStream)
    : ResponseStream :=
  match x with
  | Some (Ok _) =>
      mk_ResponseStream (rs_client s) (rs_correlation_id s) (rs_terminated s)
        (saturating_add usize_max (frame_count s) 1)
  | _ => s
  end.

Definition rs_poll_next (s : ResponseStream)
    : ResponseStream * poll (option (result P ClientError)) :=
  if rs_terminated s then (s, Ready None)
  else
    let '(f, x) := framed_poll_next (framed (rs_client s)) in
    let s := set_rs_client (set_framed f (rs_client s)) s in
    match x with
    | Pending => (s, Pending)
    | Ready None => (set_terminated s, Ready (Some (Err disconnected)))
    | Ready (Some (Err e)) => (set_terminated s, Ready (Some (Err (client_from_io e))))
    | Ready (Some (Ok bytes)) =>
        let '(s, x) := process_frame (invoke_after_receive_hooks (rs_client s) bytes) s in
        (on_frame_received x s, Ready x)
    end.

Definition call_streaming (request : P) (self : WireframeClient C)
    : WireframeClient C * result ResponseStream ClientError :=
  let '(self, request, id) := stamp_correlation request self in
  let '(self, x) := serialize_and_send request self in
  match x with
  | Err e => (self, Err e)
  | Ok _ => (self, Ok (response_stream_new self id))
  end.
End Streams.
End Operations.
Arguments ResponseStream C : clear implicits.

(** ** [streaming_helpers.rs]

    The inner stream is any stream of results, the mapper an [FnMut] with its
    state.  The loop polls until an item, the end or [Pending]; its fuel bounds
    the frames the mapper may skip. *)

Section Typed.
Context {S MS P Item : Type}.
Context (poll_next : S -> S * poll (option (result P ClientError))).
Context (mapper : P -> MS -> MS * result (option Item) ClientError).

Record TypedResponseStream : Type := mk_TypedResponseStream {
  ts_inner : S;
  ts_mapper : MS;
  ts_terminated : bool
}.

Definition typed_with (inner : S) (m : MS) : TypedResponseStream :=
  mk_TypedResponseStream inner m false.

(** [None]: out of fuel. *)
Fixpoint typed_loop (fuel : nat) (t : TypedResponseStream)
    : option (TypedResponseStream * poll (option (result Item ClientError))) :=
  match fuel with
  | O => None
  | Datatypes.S fuel =>
      let '(i, x) := poll_next (ts_inner t) in
      match x with
      | Pending => Some (mk_TypedResponseStream i (ts_mapper t) (ts_terminated t), Pending)
      | Ready (Some (Ok frame)) =>
          let '(m, y) := mapper frame (ts_mapper t) in
          match y with
          | Ok (Some item) =>
              Some (mk_TypedResponseStream i m (ts_terminated t), Ready (Some (Ok item)))
          | Ok None => typed_loop fuel (mk_TypedResponseStream i m (ts_terminated t))
          | Err e => Some (mk_TypedResponseStream i m true, Ready (Some (Err e)))
          end
      | Ready (Some (Err e)) =>
          Some (mk_TypedResponseStream i (ts_mapper t) true, Ready (Some (Err e)))
      | Ready None => Some (mk_TypedResponseStream i (ts_mapper t) true, Ready None)
      end
  end.

Definition typed_poll_next (fuel : nat) (t : TypedResponseStream)
    : option (TypedResponseStream * poll (option (result Item ClientError))) :=
  if ts_terminated t then Some (t, Ready None) else typed_loop fuel t.
End Typed.

(** ** [send_streaming.rs] *)

Record SendStreamingConfig : Type := mk_SendStreamingConfig {
  ss_chunk_size : option Z;
  ss_timeout : option Z
}.

Definition effective_chunk_size (header_len max_frame_length : Z) (config : SendStreamingConfig)
    : result Z ClientError :=
  if decide (max_frame_length <= header_len) then
    Err (client_from_io (mk_io_error InvalidInput
      "frame header length meets or exceeds max frame length; no room for body data"))
  else
    let available := max_frame_length - header_len in
    let size :=
      match ss_chunk_size config with
      | None => available
      | Some requested => Z.min requested available
      end in
    if decide (size = 0) then
      Err (client_from_io (mk_io_error InvalidInput "chunk size must be greater than zero"))
    else Ok size.

Inductive ReadChunk : Type :=
  | Eof
  | Bytes (bytes : list Z)
  | ReadErr (e : ClientError).

Section SendStreaming.
Context {C R : Type} `{AsyncRead R}.

Definition read_chunk (reader : R) (room : Z) : R * ReadChunk :=
  let '(reader, x) := read room reader in
  (reader, match x with
           | Ok [] => Eof
           | Ok bs => Bytes bs
           | Err e => ReadErr (client_from_io e)
           end).

(** [None]: the future is still running after [rounds] rounds of its loop. *)
Fixpoint send_streaming_inner (rounds : nat) (frame_header : list Z) (chunk_size : Z)
    (body_reader : R) (frames_sent : Z) (self : WireframeClient C)
    : WireframeClient C * option (result Z ClientError) :=
  match rounds with
  | O => (self, None)
  | S rounds =>
      let '(body_reader, c) := read_chunk body_reader chunk_size in
      match c with
      | Eof => (self, Some (Ok frames_sent))
      | ReadErr e => (invoke_error_hook e self, Some (Err e))
      | Bytes chunk =>
          if decide (chunk_size < len chunk) then
            (self, Some (Err (client_from_io
               (mk_io_error InvalidData "read returned more bytes than buffer length"))))
          else
            let '(f, x) := framed_send (frame_header ++ chunk) (framed self) in
            let self := set_framed f self in
            match x with
            | Err e => (invoke_error_hook (client_from_io e) self, Some (Err (client_from_io e)))
            | Ok _ =>
                send_streaming_inner rounds frame_header chunk_size body_reader
                  (frames_sent + 1) self
            end
      end
  end.

(** [rounds]: how far the transfer gets before the timer of the configured
    timeout fires.  Without a timeout the operation is [None] until it is given
    rounds enough. *)
Definition send_streaming (rounds : nat) (frame_header : list Z) (body_reader : R)
    (config : SendStreamingConfig) (self : WireframeClient C)
    : WireframeClient C * option (result Z ClientError) :=
  match effective_chunk_size (len frame_header) (cc_max_frame_length (codec_config self)) config with
  | Err e => (invoke_error_hook e self, Some (Err e))
  | Ok chunk_size =>
      let '(self, x) := send_streaming_inner rounds frame_header chunk_size body_reader 0 self in
      match x, ss_timeout config with
      | Some r, _ => (self, Some r)
      | None, None => (self, None)
      | None, Some _ =>
          let self := set_framed (close_write (framed self)) self in
          let e := client_from_io (mk_io_error TimedOut "streaming send timed out") in
          (invoke_error_hook e self, Some (Err e))
      end
  end.
End SendStreaming.

(** ** [preamble_exchange.rs], [connect_parts.rs]

    [St] is the TCP stream: [write] writes and flushes the preamble on it, the
    two handlers are the user's.  [cut] is the stream as a timer that fired left
    it. *)

Section Connect.
Context {C P St : Type}.

Record PreambleConfig : Type := mk_PreambleConfig {
  preamble : P;
  on_success : option (P -> St -> St * result (list Z) io_error);
  on_failure : option (ClientError -> St -> St * result unit io_error);
  preamble_timeout : option Z
}.

Context (write : P -> St -> St * result unit EncodeError).

Definition run_preamble_exchange (cut : option St) (config : PreambleConfig) (stream : St)
    : St * result (list Z) ClientError :=
  match preamble_timeout config, cut with
  | Some _, Some s => (s, Err PreambleTimeout)
  | _, _ =>
      let '(stream, w) := write (preamble config) stream in
      match w with
      | Err e => (stream, Err (PreambleEncode e))
      | Ok _ =>
          match on_success config with
          | Some handler =>
              let '(stream, x) := handler (preamble config) stream in
              (stream, map_err PreambleRead x)
          | None => (stream, Ok [])
          end
      end
  end.

Definition invoke_failure_handler (config : PreambleConfig) (e : ClientError) (stream : St) : St :=
  match on_failure config with
  | Some handler => (handler e stream).1
  | None => stream
  end.

Definition perform_preamble_exchange (cut : option St) (config : PreambleConfig) (stream : St)
    : St * result (list Z) ClientError :=
  let '(stream, x) := run_preamble_exchange cut config stream in
  match x with
  | Err e => (invoke_failure_handler config e stream, Err e)
  | Ok _ => (stream, x)
  end.

Record ClientBuildParts : Type := mk_ClientBuildParts {
  bp_codec_config : ClientCodecConfig;
  bp_preamble_config : option PreambleConfig;
  bp_setup : option C;
  bp_disconnect : bool;
  bp_error : bool;
  bp_request_hooks : RequestHooks
}.

(** [socket] is what opening the socket, setting its options and connecting it
    gave; [open] frames a stream with the configured codec. *)
Definition connect (open : ClientCodecConfig -> RewindStream St -> Framed)
    (socket : result St io_error) (cut : option St) (parts : ClientBuildParts)
    : result (WireframeClient C) ClientError :=
  match socket with
  | Err e => Err (client_from_io e)
  | Ok stream =>
      let '(stream, leftover) :=
        match bp_preamble_config parts with
        | Some config => perform_preamble_exchange cut config stream
        | None => (stream, Ok [])
        end in
      match leftover with
      | Err e => Err e
      | Ok leftover =>
          Ok (mk_WireframeClient
                (open (bp_codec_config parts) (rewind_new leftover stream))
                (bp_codec_config parts) (bp_setup parts) (bp_disconnect parts) (bp_error parts)
                (bp_request_hooks parts) 1 [] [])
      end
  end.
End Connect.
