(* ===== verification/ClientCorrectness.v ===== *)
(** * Correctness of the client

    What a call sends and accepts, whom its errors reach, what a response
    stream and its typed view yield, and how a streamed body is cut. *)

From S2P Require Import Prelude.
From S2P Require Import LengthPrefix.
From S2P Require Import Envelope.
From S2P Require Import AsyncIo.
From S2P Require Import Preamble.
From S2P Require Import ClientError.
From S2P Require Import Client.

Local Open Scope Z_scope.

(** ** Errors reach the error hook once *)

Section Reports.
Context {C : Type}.

(** An operation that fails has called the hook with its error, once; one that
    succeeds has not called it. *)
Definition reports {A} (self : WireframeClient C) (o : WireframeClient C * result A ClientError) : Prop :=
  on_error o.1 = on_error self /\
  error_calls o.1 =
    error_calls self ++
      match o.2 with Err e => if on_error self then [e] else [] | Ok _ => [] end.

Lemma reports_error {A} (e : ClientError) (self : WireframeClient C) :
  reports (A := A) self (traced_error e self).
Proof.
  unfold reports, traced_error, invoke_error_hook. cbn. destruct (on_error self) eqn:E; cbn;
    [done|]. by rewrite app_nil_r.
Qed.

Lemma reports_ok {A} (a : A) (self self' : WireframeClient C) :
  on_error self' = on_error self -> error_calls self' = error_calls self ->
  reports self (self', Ok a).
Proof. intros H1 H2. split; [done|]. cbn. by rewrite app_nil_r. Qed.

(** A silent change of the client before an operation that reports. *)
Lemma reports_after {A} (self self1 : WireframeClient C) (o : WireframeClient C * result A ClientError) :
  on_error self1 = on_error self -> error_calls self1 = error_calls self ->
  reports self1 o -> reports self o.
Proof. unfold reports. intros -> -> [-> ->]. done. Qed.

(** [?] passes the error on without another report. *)
Lemma reports_then {A B} (self : WireframeClient C) (o : WireframeClient C * result A ClientError)
    (k : WireframeClient C -> A -> WireframeClient C * result B ClientError) :
  reports self o -> (forall a s, reports s (k s a)) ->
  reports self (match o.2 with Err e => (o.1, Err e) | Ok a => k o.1 a end).
Proof.
  destruct o as [s [a|e]]; intros [H1 H2] Hk; cbn in *; [|done].
  rewrite app_nil_r in H2. by apply (reports_after _ s).
Qed.

Lemma serialize_and_send_reports {M} `{Serializable M} (m : M) (self : WireframeClient C) :
  reports self (serialize_and_send m self).
Proof.
  unfold serialize_and_send. destruct (serialize m); [|apply reports_error].
  destruct (framed_send _ _) as [f [[]|e]]; [by apply reports_ok|].
  by apply (reports_after self (set_framed f self)), reports_error.
Qed.

Lemma receive_frame_reports {M} `{Serializable M} (self : WireframeClient C) :
  reports self (receive_frame (R := M) self).
Proof.
  unfold receive_frame. destruct (framed_next _) as [f [[b|e]|]];
    try (by apply (reports_after self (set_framed f self)), reports_error).
  destruct (deserialize _) as [[m n]|e]; [by apply reports_ok|].
  by apply (reports_after self (set_framed f self)), reports_error.
Qed.

Lemma stamp_correlation_silent {P} `{Packet P} (p : P) (self : WireframeClient C) :
  on_error (stamp_correlation p self).1.1 = on_error self /\
  error_calls (stamp_correlation p self).1.1 = error_calls self.
Proof. unfold stamp_correlation. by destruct (correlation_id p). Qed.

Lemma send_envelope_reports {P} `{Packet P} `{Serializable P} (p : P) (self : WireframeClient C) :
  reports self (send_envelope p self).
Proof.
  unfold send_envelope. pose proof (stamp_correlation_silent p self) as [H1 H2].
  destruct (stamp_correlation p self) as [[s q] id]. cbn in H1, H2.
  apply (reports_after self s); [done|done|].
  pose proof (serialize_and_send_reports q s) as Hr.
  destruct (serialize_and_send q s) as [s' [u|e]]; done.
Qed.

(** A reader that gives no more bytes than there is room for. *)
Definition keeps_to_room (R : Type) `{AsyncRead R} : Prop :=
  forall room (r : R) got, (read room r).2 = Ok got -> len got <= room.

Lemma send_streaming_inner_reports {R} `{AsyncRead R} rounds header size : keeps_to_room R ->
  forall (r : R) n (self : WireframeClient C),
  match send_streaming_inner rounds header size r n self with
  | (self', Some x) => reports self (self', x)
  | (self', None) => on_error self' = on_error self /\ error_calls self' = error_calls self
  end.
Proof.
  intros Hroom. induction rounds as [|rounds IH]; intros r n self; [done|].
  cbn [send_streaming_inner]. unfold read_chunk. specialize (Hroom size r).
  destruct (read size r) as [r' [[|b bs]|e]].
  - by apply reports_ok.
  - rewrite decide_False by (specialize (Hroom _ eq_refl); lia).
    destruct (framed_send _ _) as [f [[]|e]].
    + specialize (IH r' (n + 1) (set_framed f self)).
      destruct (send_streaming_inner _ _ _ _ _ _) as [self' [x|]]; [|done].
      by apply (reports_after self (set_framed f self)).
    + by apply (reports_after self (set_framed f self)), reports_error.
  - apply reports_error.
Qed.

Lemma send_streaming_reports {R} `{AsyncRead R} rounds header (r : R) config (self : WireframeClient C) :
  keeps_to_room R ->
  match send_streaming rounds header r config self with
  | (self', Some x) => reports self (self', x)
  | (self', None) => error_calls self' = error_calls self
  end.
Proof.
  intros Hroom. unfold send_streaming. destruct (effective_chunk_size _ _ _) as [size|e]; [|apply reports_error].
  pose proof (send_streaming_inner_reports rounds header size Hroom r 0 self) as Hi.
  destruct (send_streaming_inner _ _ _ _ _ _) as [self' [x|]]; [done|]. destruct Hi as [H1 H2].
  destruct (ss_timeout config); [|done].
  apply (reports_after self (set_framed (close_write (framed self')) self')); [done|done|apply reports_error].
Qed.

(** A response stream keeps its errors to itself. *)
Lemma stream_errors_unreported {P} `{Packet P} `{Serializable P} (s : ResponseStream C) :
  error_calls (rs_client (rs_poll_next (P := P) s).1) = error_calls (rs_client s).
Proof.
  unfold rs_poll_next. destruct (rs_terminated s); [done|].
  destruct (framed_poll_next _) as [f [|[[bs|e]|]]]; [done| |done..].
  unfold process_frame. destruct (deserialize _) as [[p n]|e]; [|done].
  destruct (is_stream_terminator p); [done|]. by case_decide.
Qed.

(** C32: a failure of a request operation reaches the registered error hook
    exactly once, with the error the caller gets, and a successful operation
    never calls it, however the operations are nested: sending and receiving a
    message, a call, sending an envelope, a correlated call, starting a
    streamed response, and sending a streamed body once it returns (whose
    reader keeps to its buffer).  The errors a response stream yields while it
    is polled, on the contrary, never reach the hook. *)
Theorem errors_reach_the_hook_once {Req Resp P} `{Serializable Req} `{Serializable Resp}
    `{Packet P} `{Serializable P} {R} `{AsyncRead R} (self : WireframeClient C) (req : Req) (p : P) :
  reports self (client_send req self) /\
  reports self (client_receive (M := Resp) self) /\
  reports self (call (Resp := Resp) req self) /\
  reports self (send_envelope p self) /\
  reports self (call_correlated p self) /\
  reports self (call_streaming p self) /\
  (keeps_to_room R -> forall rounds header (r : R) config,
     match send_streaming rounds header r config self with
     | (self', Some x) => reports self (self', x)
     | (self', None) => error_calls self' = error_calls self
     end) /\
  (forall s : ResponseStream C,
     error_calls (rs_client (rs_poll_next (P := P) s).1) = error_calls (rs_client s)).
Proof.
  split; [apply serialize_and_send_reports|]. split; [apply receive_frame_reports|].
  split; [|split; [apply send_envelope_reports|split; [|split;
    [|split; [intros; by apply send_streaming_reports|apply stream_errors_unreported]]]]].
  - unfold call. pose proof (reports_then self (client_send req self)
      (fun s _ => client_receive (M := Resp) s) (serialize_and_send_reports req self)
      (fun _ s => receive_frame_reports s)) as Hr.
    by destruct (client_send req self) as [s [u|e]].
  - unfold call_correlated.
    pose proof (reports_then self (send_envelope p self)
      (fun s id => let '(self, y) := receive_envelope s in
        match y with
        | Err e => (self, Err e)
        | Ok response =>
            if decide (correlation_id response = Some id) then (self, Ok response)
            else traced_error (CorrelationMismatch (Some id) (correlation_id response)) self
        end) (send_envelope_reports p self)) as Hr.
    destruct (send_envelope p self) as [s [id|e]]; apply Hr; clear Hr; intros id' s';
      pose proof (reports_then s' (receive_envelope (P := P) s') (fun s response =>
        if decide (correlation_id response = Some id') then (s, Ok response)
        else traced_error (CorrelationMismatch (Some id') (correlation_id response)) s)
        (receive_frame_reports s')) as Hr;
      destruct (receive_envelope s') as [s'' [r|e']]; apply Hr; intros r' s3;
      (case_decide; [by apply reports_ok|apply reports_error]).
  - unfold call_streaming. pose proof (stamp_correlation_silent p self) as [Hs1 Hs2].
    destruct (stamp_correlation p self) as [[s q] id]. cbn in Hs1, Hs2.
    apply (reports_after self s); [done|done|].
    pose proof (serialize_and_send_reports q s) as Hr.
    destruct (serialize_and_send q s) as [s' [u|e]]; done.
Qed.
End Reports.

(** ** Which errors leave the connection usable

    The pool keeps a connection whose operation failed only if
    [should_recycle_connection] says no; that is the case for a request that
    could not be serialized, and then nothing was sent. *)

Lemma send_error_class {C M} `{Serializable M} (m : M) (self self' : WireframeClient C) e :
  serialize_and_send m self = (self', Err e) ->
  (exists msg, e = Serialize msg) /\ framed self' = framed self \/ should_recycle_connection e = true.
Proof.
  unfold serialize_and_send, traced_error, invoke_error_hook. destruct (serialize m) as [b|msg].
  - destruct (framed_send _ _) as [f [u|io]]; [done|]. intros [= _ <-]. by right.
  - intros [= <- <-]. left. split; [by exists msg|]. by destruct (on_error self).
Qed.

Lemma receive_error_class {C M} `{Serializable M} (self self' : WireframeClient C) e :
  receive_frame (R := M) self = (self', Err e) -> should_recycle_connection e = true.
Proof.
  unfold receive_frame, traced_error. destruct (framed_next _) as [f [[b|io]|]];
    try (by intros [= _ <-]). destruct (deserialize _) as [[m n]|msg]; [done|]. by intros [= _ <-].
Qed.

(** ** A correlated call *)

(** The frame a message becomes on its way to the transport. *)
Definition frame_of {C M} `{Serializable M} (self : WireframeClient C) (m : M) (frame : list Z) : Prop :=
  exists bytes, serialize m = Ok bytes /\ frame = invoke_before_send_hooks self bytes.

Section Correlated.
Context {C P : Type} `{Packet P} `{Serializable P} {PL : CorrelatableFrameLaws P}.

Lemma stamp_correlation_spec (p : P) (self : WireframeClient C) :
  exists self' q id, stamp_correlation p self = (self', q, id) /\
    correlation_id q = Some id /\ framed self' = framed self /\
    request_hooks self' = request_hooks self /\
    (forall id', correlation_id p = Some id' -> q = p /\ id = id').
Proof.
  unfold stamp_correlation. destruct (correlation_id p) as [id|] eqn:E.
  - eexists _, _, _. split; [done|]. repeat split; try done. congruence.
  - eexists _, _, _. split; [done|]. repeat split; try done. apply correlation_id_set.
Qed.

Lemma serialize_and_send_sent (q : P) (self self' : WireframeClient C) :
  serialize_and_send q self = (self', Ok tt) ->
  exists frame, frame_of self q frame /\ sent (framed self') = sent (framed self) ++ [frame] /\
    incoming (framed self') = incoming (framed self) /\ request_hooks self' = request_hooks self.
Proof.
  unfold serialize_and_send. destruct (serialize q) as [b|e] eqn:Es; [|done].
  unfold framed_send. destruct (outcomes (framed self)) as [|[o|] os]; intros [= <-];
    (exists (invoke_before_send_hooks self b); split; [by exists b|done]).
Qed.

(** A correlated call that succeeds has sent one frame, the request with
    its own correlation id or a fresh one, and has taken one answer off the
    connection, whose id is the request's.  An answer with another id is
    refused with both ids, whatever it contains. *)
Theorem call_correlated_matches (p : P) (self : WireframeClient C) :
  exists q id, correlation_id q = Some id /\
    (forall id', correlation_id p = Some id' -> q = p) /\
    (forall self' resp, call_correlated p self = (self', Ok resp) ->
       correlation_id resp = Some id /\
       exists frame answer n,
         frame_of self q frame /\ sent (framed self') = sent (framed self) ++ [frame] /\
         next_event (incoming (framed self)) = (incoming (framed self'), Some (Ok answer)) /\
         deserialize (invoke_after_receive_hooks self answer) = Ok (resp, n)) /\
    (forall self1 rest answer resp n,
       serialize_and_send q (stamp_correlation p self).1.1 = (self1, Ok tt) ->
       next_event (incoming (framed self)) = (rest, Some (Ok answer)) ->
       deserialize (invoke_after_receive_hooks self answer) = Ok (resp, n) ->
       correlation_id resp <> Some id ->
       (call_correlated p self).2 = Err (CorrelationMismatch (Some id) (correlation_id resp))).
Proof.
  destruct (stamp_correlation_spec p self) as (s & q & id & E & Hq & Hf & Hh & Hp).
  exists q, id. split; [done|]. split; [intros id' Hid; by apply Hp in Hid as [-> _]|].
  unfold call_correlated, send_envelope. rewrite E. cbn [fst snd].
  destruct (serialize_and_send q s) as [s1 [[]|e]] eqn:Es; [|split; intros; done].
  apply serialize_and_send_sent in Es as (frame & (b & Hb & ->) & Hsent & Hin & Hh1).
  unfold receive_envelope, receive_frame, framed_next.
  rewrite Hf in Hsent, Hin. rewrite Hin. unfold invoke_after_receive_hooks, traced_error.
  cbn [set_framed request_hooks]. rewrite Hh1, Hh.
  assert (Hfr : frame_of self q (invoke_before_send_hooks s b)).
  { exists b. split; [done|]. unfold invoke_before_send_hooks. by rewrite Hh. }
  destruct (next_event (incoming (framed self))) as [rest [[a|e]|]] eqn:En;
    [|split; intros; done|split; intros; done].
  destruct (deserialize _) as [[r n]|e] eqn:Ed; [|split; [intros; done|]].
  - split.
    + intros self' resp. case_decide as Hd; intros [= <- <-]. split; [done|].
      exists (invoke_before_send_hooks s b), a, n. cbn. by rewrite Hsent.
    + intros self1 rest' answer resp n' _ [= <- <-] Hr Hne. rewrite Ed in Hr. injection Hr as <- <-.
      by rewrite decide_False.
  - intros self1 rest' answer resp n' _ [= <- <-] Hr. congruence.
Qed.
End Correlated.

(** ** What a stream yields

    [yields poll_next s items s']: polling [s] until it ends gives [items], in
    order, and leaves [s'], whatever polls are [Pending] in between. *)

Inductive yields {S A : Type} (poll_next : S -> S * poll (option A)) : S -> list A -> S -> Prop :=
  | yields_end s s' : poll_next s = (s', Ready None) -> yields poll_next s [] s'
  | yields_wait s s1 l s' :
      poll_next s = (s1, Pending) -> yields poll_next s1 l s' -> yields poll_next s l s'
  | yields_item s s1 x l s' :
      poll_next s = (s1, Ready (Some x)) -> yields poll_next s1 l s' -> yields poll_next s (x :: l) s'.

Lemma yields_same_poll {S A} (poll_next : S -> S * poll (option A)) s s1 l s' :
  poll_next s = poll_next s1 -> yields poll_next s1 l s' -> yields poll_next s l s'.
Proof.
  intros E Hy. inversion Hy; subst.
  - apply yields_end. congruence.
  - eapply yields_wait; [|done]. congruence.
  - eapply yields_item; [|done]. congruence.
Qed.

Section ResponseStreams.
Context {C P : Type} `{Packet P} `{Serializable P}.

(** The reference: what is to be read from the coming events by a stream of
    correlation [id], and the events left for others. *)
Fixpoint stream_spec (hooks : list Z -> list Z) (id : Z) (evs : list FramedEvent)
    : list (result P ClientError) * list FramedEvent :=
  match evs with
  | [] => ([Err disconnected], [])
  | NotYet :: evs => stream_spec hooks id evs
  | Broken e :: evs => ([Err (client_from_io e)], evs)
  | Frame b :: evs =>
      match deserialize (hooks b) with
      | Err e => ([Err (decode_error e)], evs)
      | Ok (p, _) =>
          if is_stream_terminator p then ([], evs)
          else if decide (correlation_id p = Some id) then
            let '(items, rest) := stream_spec hooks id evs in (Ok p :: items, rest)
          else ([Err (StreamCorrelationMismatch (Some id) (correlation_id p))], evs)
      end
  end.

Fixpoint count_ok {A} (items : list (result A ClientError)) : Z :=
  match items with
  | [] => 0
  | Ok _ :: items => 1 + count_ok items
  | Err _ :: items => count_ok items
  end.

Lemma terminated_ends (s : ResponseStream C) :
  rs_terminated s = true -> rs_poll_next (P := P) s = (s, Ready None).
Proof. unfold rs_poll_next. by intros ->. Qed.

Lemma error_then_end (s s' : ResponseStream C) (e : ClientError) :
  rs_poll_next (P := P) s = (s', Ready (Some (Err e))) -> rs_terminated s' = true ->
  yields rs_poll_next s [Err e : result P ClientError] s'.
Proof.
  intros E Ht. eapply yields_item; [done|]. apply yields_end. by apply terminated_ends.
Qed.

(** The stream's own bookkeeping, apart from the items. *)
Definition stream_left (s s' : ResponseStream C) (items : list (result P ClientError))
    (rest : list FramedEvent) : Prop :=
  rs_terminated s' = true /\ incoming (framed (rs_client s')) = rest /\
  sent (framed (rs_client s')) = sent (framed (rs_client s)) /\
  frame_count s' = Z.min usize_max (frame_count s + count_ok items).

Lemma response_stream_runs evs (s : ResponseStream C) :
  incoming (framed (rs_client s)) = evs -> rs_terminated s = false ->
  0 <= frame_count s <= usize_max ->
  let spec := stream_spec (invoke_after_receive_hooks (rs_client s)) (rs_correlation_id s) evs in
  exists s', yields rs_poll_next s spec.1 s' /\ stream_left s s' spec.1 spec.2.
Proof.
  revert s. induction evs as [|[|b|e] evs IH]; intros s Hin Ht Hc; cbn [stream_spec].
  - eexists. split.
    + apply error_then_end; [unfold rs_poll_next, framed_poll_next; rewrite Ht, Hin; done|done].
    + unfold stream_left. cbn. rewrite Hin. repeat split. lia.
  - set (s1 := set_rs_client (set_framed (set_incoming evs (framed (rs_client s))) (rs_client s)) s).
    destruct (IH s1) as (s' & Hy & Hl); [done|done|done|]. exists s'. split; [|exact Hl].
    eapply yields_wait; [|exact Hy]. unfold rs_poll_next, framed_poll_next. by rewrite Ht, Hin.
  - set (s1 := set_rs_client (set_framed (set_incoming evs (framed (rs_client s))) (rs_client s)) s).
    assert (Hpoll : rs_poll_next (P := P) s =
      let '(s2, x) := process_frame (invoke_after_receive_hooks (rs_client s) b) s1 in
      (on_frame_received x s2, Ready x)).
    { unfold rs_poll_next, framed_poll_next. by rewrite Ht, Hin. }
    unfold process_frame in Hpoll. destruct (deserialize _) as [[p n]|e] eqn:Ed.
    + destruct (is_stream_terminator p) eqn:Eterm.
      * eexists. split; [by eapply yields_end|]. unfold stream_left. cbn. repeat split. lia.
      * change (rs_correlation_id s1) with (rs_correlation_id s) in Hpoll.
        destruct (decide (correlation_id p = Some (rs_correlation_id s))) as [Hid|Hid].
        -- destruct (IH (on_frame_received (Some (Ok p)) s1)) as (s' & Hy & Hl);
             [done|done|cbn; unfold saturating_add; lia|].
           cbn [fst snd] in Hy, Hl |- *.
           change (invoke_after_receive_hooks (rs_client (on_frame_received (Some (Ok p)) s1)))
             with (invoke_after_receive_hooks (rs_client s)) in Hy, Hl.
           change (rs_correlation_id (on_frame_received (Some (Ok p)) s1))
             with (rs_correlation_id s) in Hy, Hl.
           destruct (stream_spec _ _ evs) as [items rest]. cbn [fst snd] in *. exists s'.
           split; [by eapply yields_item|]. destruct Hl as (L1 & L2 & L3 & L4).
           repeat split; [done|done|done|]. rewrite L4. cbn. unfold saturating_add.
           assert (0 <= count_ok items) by (clear; induction items as [|[]]; cbn; lia). lia.
        -- eexists. split; [by eapply error_then_end|]. unfold stream_left. cbn. repeat split. lia.
    + eexists. split; [by eapply error_then_end|]. unfold stream_left. cbn. repeat split. lia.
  - eexists. split.
    + apply error_then_end; [unfold rs_poll_next, framed_poll_next; rewrite Ht, Hin; done|done].
    + unfold stream_left. cbn. repeat split. lia.
Qed.
End ResponseStreams.

(** ** The typed view *)

Section TypedStreams.
Context {S MS P Item : Type}.
Context (inner_poll : S -> S * poll (option (result P ClientError))).
Context (mapper : P -> MS -> MS * result (option Item) ClientError).

Fixpoint typed_spec (m : MS) (items : list (result P ClientError)) : list (result Item ClientError) :=
  match items with
  | [] => []
  | Err e :: _ => [Err e]
  | Ok p :: items =>
      let '(m, y) := mapper p m in
      match y with
      | Ok (Some item) => Ok item :: typed_spec m items
      | Ok None => typed_spec m items
      | Err e => [Err e]
      end
  end.

(** [poll_next] with [fuel] rounds of its loop; it is [Pending] where the model
    runs out. *)
Definition typed_poll (fuel : nat) (t : TypedResponseStream (S := S) (MS := MS))
    : TypedResponseStream * poll (option (result Item ClientError)) :=
  default (t, Pending) (typed_poll_next inner_poll mapper fuel t).

Lemma typed_terminated fuel t :
  ts_terminated t = true -> typed_poll fuel t = (t, Ready None).
Proof. unfold typed_poll, typed_poll_next. by intros ->. Qed.

(** Once the loop has an answer, more fuel does not change it. *)
Lemma typed_loop_more fuel fuel' t x :
  typed_loop inner_poll mapper fuel t = Some x -> (fuel <= fuel')%nat ->
  typed_loop inner_poll mapper fuel' t = Some x.
Proof.
  revert fuel' t. induction fuel as [|fuel IH]; intros fuel' t E Hle; [done|].
  destruct fuel' as [|fuel']; [lia|]. cbn [typed_loop] in E |- *.
  destruct (inner_poll (ts_inner t)) as [i [|[[p|e]|]]]; try done.
  destruct (mapper p (ts_mapper t)) as [m [[it|]|e]]; try done.
  apply IH; [done|lia].
Qed.

(** The loop answers within one round per item that is left. *)
Lemma typed_loop_answers fuel (i i' : S) (m : MS) items :
  yields inner_poll i items i' -> (length items < fuel)%nat ->
  is_Some (typed_loop inner_poll mapper fuel (typed_with i m)).
Proof.
  intros Hy. revert m fuel. induction Hy as [i i' E|i i1 l i' E Hy IH|i i1 [p|e] l i' E Hy IH];
    intros m fuel Hf; (destruct fuel as [|fuel]; [lia|]); cbn [length] in Hf;
    cbn [typed_loop typed_with ts_inner ts_mapper]; rewrite E; try done.
  destruct (mapper p m) as [m1 [[it|]|e]]; try done. apply IH. lia.
Qed.

Lemma typed_yields fuel (i i' : S) (m : MS) items :
  yields inner_poll i items i' -> (length items < fuel)%nat ->
  exists t', yields (typed_poll fuel) (typed_with i m) (typed_spec m items) t'.
Proof.
  intros Hy. revert m fuel. induction Hy as [i i' E|i i1 l i' E Hy IH|i i1 x l i' E Hy IH]; intros m fuel Hf.
  - destruct fuel as [|fuel]; [cbn in Hf; lia|]. eexists. apply yields_end.
    unfold typed_poll, typed_poll_next. cbn [typed_loop typed_with ts_inner ts_terminated]. by rewrite E.
  - destruct (IH m fuel Hf) as [t' Ht]. exists t'. eapply yields_wait; [|exact Ht].
    destruct fuel as [|fuel]; [lia|].
    unfold typed_poll, typed_poll_next. cbn [typed_loop typed_with ts_inner ts_terminated]. by rewrite E.
  - destruct fuel as [|fuel]; [cbn in Hf; lia|]. cbn [length] in Hf. destruct x as [p|e].
    + cbn [typed_spec]. destruct (mapper p m) as [m1 y] eqn:Em.
      assert (Hpoll : typed_poll (Datatypes.S fuel) (typed_with i m) =
        match y with
        | Ok (Some item) => (typed_with i1 m1, Ready (Some (Ok item)))
        | Ok None => default (typed_with i m, Pending) (typed_loop inner_poll mapper fuel (typed_with i1 m1))
        | Err e => (mk_TypedResponseStream i1 m1 true, Ready (Some (Err e)))
        end).
      { unfold typed_poll, typed_poll_next. cbn [typed_loop typed_with ts_inner ts_terminated ts_mapper].
        rewrite E, Em. by destruct y as [[it|]|e]. }
      destruct y as [[it|]|e].
      * destruct (IH m1 (Datatypes.S fuel) ltac:(lia)) as [t' Ht]. exists t'. by eapply yields_item.
      * destruct (IH m1 (Datatypes.S fuel) ltac:(lia)) as [t' Ht]. exists t'.
        destruct (typed_loop_answers fuel i1 i' m1 l Hy ltac:(lia)) as [x Hx].
        refine (yields_same_poll _ _ (typed_with i1 m1) _ _ _ Ht). rewrite Hpoll, Hx.
        unfold typed_poll, typed_poll_next. cbn [typed_with ts_terminated].
        by rewrite (typed_loop_more fuel (Datatypes.S fuel) _ x Hx ltac:(lia)).
      * eexists. eapply yields_item; [exact Hpoll|]. apply yields_end. by apply typed_terminated.
    + eexists. eapply yields_item.
      * unfold typed_poll, typed_poll_next. cbn [typed_loop typed_with ts_inner ts_terminated].
        rewrite E. reflexivity.
      * apply yields_end. by apply typed_terminated.
Qed.
End TypedStreams.

(** C10: a streaming response yields, to a caller that polls it to its end, the
    packets up to the terminator and nothing after it; the first undecodable,
    foreign or failed frame is its last item; frames behind the end stay on the
    connection.  The typed view of it yields what its mapper makes of those
    packets, without the ones it skips, up to the first error. *)
Theorem streaming_response_matches_spec {C P MS Item} `{Packet P} `{Serializable P}
    (mapper : P -> MS -> MS * result (option Item) ClientError) (m : MS)
    (client : WireframeClient C) (id : Z) (fuel : nat) :
  let s := response_stream_new client id in
  let spec := stream_spec (P := P) (invoke_after_receive_hooks client) id (incoming (framed client)) in
  (length spec.1 < fuel)%nat ->
  (exists s', yields rs_poll_next s spec.1 s' /\ stream_left s s' spec.1 spec.2) /\
  (exists t', yields (typed_poll rs_poll_next mapper fuel) (typed_with s m)
                (typed_spec mapper m spec.1) t').
Proof.
  intros s spec Hf.
  destruct (response_stream_runs (P := P) (incoming (framed client)) s) as (s' & Hy & Hl);
    [done|done|cbn; unfold usize_max, u64_max; lia|].
  split; [by exists s'|]. exact (typed_yields rs_poll_next mapper fuel s s' m spec.1 Hy Hf).
Qed.

(** ** Streaming a body *)

Section Streaming.
Context {C R : Type} `{RL : ReadLaws R}.

(** The transport takes the next [n] frames. *)
Definition accepts (n : nat) (f : Framed) : Prop := Forall (fun o => o = None) (take n (outcomes f)).

Lemma accepts_fewer m n f : accepts n f -> (m <= n)%nat -> accepts m f.
Proof.
  unfold accepts. intros Hf Hle. replace m with (m `min` n)%nat by lia.
  rewrite <- take_take. by apply Forall_take.
Qed.

Lemma framed_send_accepted n b (f : Framed) :
  accepts (S n) f ->
  exists f', framed_send b f = (f', Ok tt) /\ accepts n f' /\
    sent f' = sent f ++ [b] /\ incoming f' = incoming f /\ write_closed f' = write_closed f.
Proof.
  unfold accepts, framed_send. destruct (outcomes f) as [|[e|] os]; cbn [take]; intros Hf.
  - eexists. split; [done|]. cbn. rewrite take_nil. done.
  - by inv_clear Hf.
  - inv_clear Hf. eexists. split; [done|]. done.
Qed.

Lemma send_streaming_inner_spec rounds header size (r : R) body n (self : WireframeClient C) :
  0 < size -> unread r = Some body -> (length body < rounds)%nat ->
  accepts (length body) (framed self) ->
  exists chunks self',
    send_streaming_inner rounds header size r n self = (self', Some (Ok (n + len chunks))) /\
    mjoin chunks = body /\ Forall (fun c => c <> [] /\ len c <= size) chunks /\
    sent (framed self') = sent (framed self) ++ map (app header) chunks /\
    incoming (framed self') = incoming (framed self) /\
    write_closed (framed self') = write_closed (framed self) /\
    error_calls self' = error_calls self.
Proof.
  intros Hs. revert r body n self. induction rounds as [|rounds IH]; intros r body n self Hu Hr Ha; [lia|].
  destruct (read_exact r size body Hu Hs) as (got & rest & E & -> & Hu' & Hlen & Hne).
  cbn [send_streaming_inner]. unfold read_chunk. destruct (read size r) as [r' x].
  cbn in E, Hu'. subst x. destruct got as [|g got].
  - destruct rest as [|b rest]; [|by destruct Hne].
    exists [], self. cbn. unfold len. cbn. rewrite app_nil_r, Z.add_0_r. done.
  - rewrite decide_False by lia. rewrite length_app in Hr, Ha. cbn [length] in Hr, Ha.
    destruct (framed_send_accepted (length got + length rest)%nat (header ++ g :: got) (framed self))
      as (f' & -> & Ha' & Hs' & Hi' & Hw'); [exact Ha|].
    destruct (IH r' rest (n + 1) (set_framed f' self)) as (chunks & self' & E & Hj & Hc & Hsent & Hin & Hw & He);
      [done|lia|apply (accepts_fewer _ (length got + length rest)); [exact Ha'|lia]|].
    exists ((g :: got) :: chunks), self'. rewrite E.
    replace (n + len ((g :: got) :: chunks)) with (n + 1 + len chunks) by len_solve. split; [done|].
    split; [change (mjoin ((g :: got) :: chunks)) with ((g :: got) ++ mjoin chunks); by rewrite Hj|]. split; [constructor; done|].
    rewrite Hsent, Hin, Hw, He. cbn. rewrite Hs', <- app_assoc. done.
Qed.

Lemma effective_chunk_size_spec header_len max config size :
  0 <= header_len -> (forall n, ss_chunk_size config = Some n -> 0 <= n) ->
  effective_chunk_size header_len max config = Ok size ->
  0 < size /\ header_len + size <= max /\
  (forall n, ss_chunk_size config = Some n -> size <= n).
Proof.
  intros Hh Hc. unfold effective_chunk_size. case_decide as Hd; [done|].
  destruct (ss_chunk_size config) as [n|]; case_decide as Hz; intros [= <-].
  - specialize (Hc n eq_refl). split; [lia|]. split; [lia|]. intros n' [= <-]. lia.
  - split; [lia|]. split; [lia|]. done.
Qed.

(** [send_streaming] over a transport that takes the frames sends the whole
    body, in order, each byte once: every frame is the header and a non-empty
    piece of the body, none is longer than the codec's [max_frame_length] or
    carries more than the configured chunk size, and the outcome counts them. *)
Theorem send_streaming_cuts_body (rounds : nat) (header body : list Z) (r : R)
    (config : SendStreamingConfig) (size : Z) (self : WireframeClient C) :
  (forall n, ss_chunk_size config = Some n -> 0 <= n) ->
  effective_chunk_size (len header) (cc_max_frame_length (codec_config self)) config = Ok size ->
  unread r = Some body -> accepts (length body) (framed self) -> (length body < rounds)%nat ->
  exists chunks self',
    send_streaming rounds header r config self = (self', Some (Ok (len chunks))) /\
    mjoin chunks = body /\
    sent (framed self') = sent (framed self) ++ map (app header) chunks /\
    Forall (fun frame => len header < len frame <= cc_max_frame_length (codec_config self))
      (map (app header) chunks) /\
    Forall (fun c => forall n, ss_chunk_size config = Some n -> len c <= n) chunks /\
    write_closed (framed self') = write_closed (framed self) /\
    error_calls self' = error_calls self.
Proof.
  intros Hpos Hsize Hu Ha Hr.
  destruct (effective_chunk_size_spec _ _ _ _ (len_nonneg header) Hpos Hsize) as (S1 & S2 & S3).
  destruct (send_streaming_inner_spec rounds header size r body 0 self S1 Hu Hr Ha)
    as (chunks & self' & E & Hj & Hc & Hs & _ & Hw & He).
  exists chunks, self'. unfold send_streaming. rewrite Hsize, E.
  split; [done|]. split; [done|]. split; [done|]. split.
  - apply Forall_map. eapply Forall_impl; [exact Hc|]. intros c [Hne Hl]. cbn. rewrite len_app.
    destruct c as [|b c]; [done|]. len_solve.
  - split; [|done]. eapply Forall_impl; [exact Hc|]. intros c [_ Hl] n Hn. specialize (S3 n Hn). lia.
Qed.
End Streaming.

(** ** Concrete clients *)

Module Demo.
(** Packets of three bytes and a payload: id, correlation (0: none), a mark. *)
Definition envelope_bytes (e : Envelope) : list Z :=
  envelope_id e :: default 0 (envelope_correlation_id e) :: envelope_payload e.
#[export] Instance demo_serializable : Serializable Envelope := {|
  serialize e := Ok (envelope_bytes e);
  deserialize bs :=
    match bs with
    | i :: c :: p => Ok (mk_Envelope i (if decide (c = 0) then None else Some c) p, len bs)
    | _ => Err "short"
    end
|}.

Definition client (evs : list FramedEvent) : WireframeClient unit :=
  mk_WireframeClient (mk_Framed evs [] [] false)
    (mk_ClientCodecConfig (mk_LengthFormat 4 Big) 64) None false true
    (mk_RequestHooks [] []) 1 [] [].

Example call_ok :
  (call_correlated (mk_Envelope 7 None [5]) (client [NotYet; Frame [7; 1; 6]])).2
  = Ok (mk_Envelope 7 (Some 1) [6]).
Proof. vm_compute. reflexivity. Qed.

Example call_foreign :
  (call_correlated (mk_Envelope 7 None [5]) (client [Frame [7; 2; 6]])).2
  = Err (CorrelationMismatch (Some 1) (Some 2)).
Proof. vm_compute. reflexivity. Qed.
End Demo.
Import Demo.

Lemma call_correlated_matches_witness :
  (call_correlated (mk_Envelope 7 (Some 1) [5]) (Demo.client [Frame [7; 2; 6]])).2
  = Err (CorrelationMismatch (Some 1) (Some 2)).
Proof.
  destruct (@call_correlated_matches unit Envelope _ Demo.demo_serializable _ (mk_Envelope 7 (Some 1) [5])
    (Demo.client [Frame [7; 2; 6]])) as (q & id & Hq & Hp & _ & Hm).
  specialize (Hp 1 eq_refl). subst q. injection Hq as <-.
  eapply (Hm _ [] [7; 2; 6] (mk_Envelope 7 (Some 2) [6]) 3); [reflexivity|reflexivity|reflexivity|discriminate].
Defined.

Lemma streaming_response_matches_spec_witness :
  exists t', yields (typed_poll (rs_poll_next (P := Envelope) (C := unit))
      (fun (p : Envelope) (m : Z) => (m + 1, Ok (if decide (envelope_id p = 0) then None else Some m))) 4)
    (typed_with (response_stream_new (Demo.client [Frame [1; 9; 4]; NotYet; Frame [0; 9; 4]; Frame [2; 8]]) 9) 0)
    [Ok 0; Err (StreamCorrelationMismatch (Some 9) (Some 8))] t'.
Proof.
  destruct (@streaming_response_matches_spec unit Envelope Z Z _ Demo.demo_serializable
    (fun p m => (m + 1, Ok (if decide (envelope_id p = 0) then None else Some m))) 0
    (Demo.client [Frame [1; 9; 4]; NotYet; Frame [0; 9; 4]; Frame [2; 8]]) 9 4) as [_ H];
    [vm_compute; lia|]. exact H.
Defined.

Lemma send_streaming_cuts_body_witness :
  exists chunks self',
    send_streaming 5 [1; 2] [Chunk [10; 11; 12]; Stall; Chunk [13]]
      (mk_SendStreamingConfig (Some 2) None) (Demo.client []) = (self', Some (Ok (len chunks))) /\
    mjoin chunks = [10; 11; 12; 13].
Proof.
  destruct (@send_streaming_cuts_body unit _ _ source_laws 5 [1; 2] [10; 11; 12; 13]
    [Chunk [10; 11; 12]; Stall; Chunk [13]] (mk_SendStreamingConfig (Some 2) None) 2 (Demo.client []))
    as (chunks & self' & H1 & H2 & _); try reflexivity.
  - cbn. intros n [= <-]. lia.
  - unfold accepts. cbn. constructor.
  - cbn. lia.
  - by exists chunks, self'.
Defined.
