(* ===== verification/PoolScheduler.v ===== *)
(** * The client pool's scheduler and slot selection

    Models [client/pool/]: [config.rs], [policy.rs], [core.rs] (the rotating
    probe of the slots' admission permits), [scheduler/state.rs] (the fairness
    queues), [scheduler/actor.rs] (the task), [scheduler/handle.rs] (lifecycle
    and handles) and [churn.rs].

    A waiter is the identity of its one-shot reply channel.  Other threads
    decide when a caller goes away and when shutdown is published, so the
    operations take what they observe: [closed] is what [is_closed] answers,
    [gone] what a [send] finds, [late] whether shutdown was published between
    the two checks of [try_acquire_permit_inner].  A permit is counted in the
    slot it was taken from.  Answers are collected in [replies], in order.  The
    while loops that take waiters get one unit of fuel more than there are
    waiters. *)

From S2P Require Import Prelude.
From S2P Require Import ClientError.

Local Open Scope Z_scope.

(** ** [policy.rs], [config.rs] *)

Inductive PoolFairnessPolicy : Type :=
  | RoundRobin
  | Fifo.

#[export] Instance PoolFairnessPolicy_eq_dec : EqDecision PoolFairnessPolicy.
Proof. solve_decision. Defined.

Definition DEFAULT_POOL_SIZE : Z := 4.
Definition DEFAULT_MAX_WAITERS : Z := 64.
Definition DEFAULT_MAX_IN_FLIGHT_PER_SOCKET : Z := 1.
Definition DEFAULT_IDLE_TIMEOUT : Z := 600 * 1000.

(** Durations are in milliseconds. *)
Record ClientPoolConfig : Type := mk_ClientPoolConfig {
  cfg_pool_size : Z;
  cfg_max_waiters : Z;
  cfg_max_in_flight_per_socket : Z;
  cfg_idle_timeout : Z;
  cfg_fairness_policy : PoolFairnessPolicy
}.

Definition config_default : ClientPoolConfig :=
  mk_ClientPoolConfig DEFAULT_POOL_SIZE DEFAULT_MAX_WAITERS DEFAULT_MAX_IN_FLIGHT_PER_SOCKET
    DEFAULT_IDLE_TIMEOUT RoundRobin.

Definition set_pool_size (size : Z) (c : ClientPoolConfig) : ClientPoolConfig :=
  mk_ClientPoolConfig (Z.max size 1) (cfg_max_waiters c) (cfg_max_in_flight_per_socket c)
    (cfg_idle_timeout c) (cfg_fairness_policy c).
Definition set_max_waiters (limit : Z) (c : ClientPoolConfig) : ClientPoolConfig :=
  mk_ClientPoolConfig (cfg_pool_size c) (Z.max limit 1) (cfg_max_in_flight_per_socket c)
    (cfg_idle_timeout c) (cfg_fairness_policy c).
Definition set_max_in_flight_per_socket (limit : Z) (c : ClientPoolConfig) : ClientPoolConfig :=
  mk_ClientPoolConfig (cfg_pool_size c) (cfg_max_waiters c) (Z.max limit 1)
    (cfg_idle_timeout c) (cfg_fairness_policy c).
Definition set_idle_timeout (timeout : Z) (c : ClientPoolConfig) : ClientPoolConfig :=
  mk_ClientPoolConfig (cfg_pool_size c) (cfg_max_waiters c) (cfg_max_in_flight_per_socket c)
    (Z.max timeout 1) (cfg_fairness_policy c).
Definition set_fairness_policy (p : PoolFairnessPolicy) (c : ClientPoolConfig) : ClientPoolConfig :=
  mk_ClientPoolConfig (cfg_pool_size c) (cfg_max_waiters c) (cfg_max_in_flight_per_socket c)
    (cfg_idle_timeout c) p.

(** ** [core.rs]

    [slot_permits] are the permits each slot's admission semaphore has left. *)

Record PoolCore : Type := mk_PoolCore {
  slot_permits : list Z;
  next_slot : Z;
  shutdown : bool
}.

Definition core_new (n : nat) (max_in_flight : Z) : PoolCore :=
  mk_PoolCore (replicate n max_in_flight) 0 false.

Definition set_shutdown (c : PoolCore) : PoolCore :=
  mk_PoolCore (slot_permits c) (next_slot c) true.

(** [PoolSlot::try_acquire_permit] of the slot at an index, and the release a
    dropped permit makes. *)
Definition slot_try_acquire (c : PoolCore) (i : Z) : option PoolCore :=
  match index_get (slot_permits c) i with
  | Some n =>
      if 0 <? n
      then Some (mk_PoolCore (<[Z.to_nat i := n - 1]> (slot_permits c)) (next_slot c) (shutdown c))
      else None
  | None => None
  end.

Definition release_permit (c : PoolCore) (i : Z) : PoolCore :=
  mk_PoolCore (alter (Z.add 1) (Z.to_nat i) (slot_permits c)) (next_slot c) (shutdown c).

Definition rotation_start (n cursor : Z) : Z := if n =? 0 then 0 else cursor mod n.

Definition rotation_indices (n start : Z) : list Z :=
  map (fun offset => wrapping_add usize_max start offset mod Z.max n 1)
    (seqZ 0 n).

(** [next_slot.fetch_add(1)] wraps. *)
Definition ordered_slot_indices (c : PoolCore) : PoolCore * list Z :=
  let n := len (slot_permits c) in
  if n =? 0 then (c, rotation_indices n 0)
  else
    (mk_PoolCore (slot_permits c) (wrapping_add usize_max (next_slot c) 1) (shutdown c),
     rotation_indices n (rotation_start n (next_slot c))).

Fixpoint find_permit (c : PoolCore) (indices : list Z) : option (PoolCore * Z) :=
  match indices with
  | [] => None
  | i :: indices =>
      match slot_try_acquire c i with
      | Some c' => Some (c', i)
      | None => find_permit c indices
      end
  end.

(** [late]: shutdown is published between the two checks. *)
Definition try_acquire_permit_inner (c : PoolCore) (late : bool) : PoolCore * option Z :=
  if shutdown c then (c, None)
  else
    let '(c, indices) := ordered_slot_indices c in
    let selected := find_permit c indices in
    if late
    then (set_shutdown c, None)
    else
      match selected with
      | Some (c', i) => (c', Some i)
      | None => (c, None)
      end.

Definition try_acquire_permit (c : PoolCore) (late : bool) : PoolCore * option Z :=
  try_acquire_permit_inner c late.

(** The permit race.  Its first poll probes the slots in rotated order; if none
    is free it waits on all of them at once, and [won] is the slot whose
    semaphore answers first.  [None] is a pending poll. *)
Definition race_settle (late : bool) (c : PoolCore) (i : Z)
    : PoolCore * option (result Z ClientError) :=
  if late || shutdown c then (set_shutdown (release_permit c i), Some (Err disconnected))
  else (c, Some (Ok i)).

Definition race_start (late : bool) (c : PoolCore) : PoolCore * option (result Z ClientError) :=
  if shutdown c || bool_decide (slot_permits c = []) then (c, Some (Err disconnected))
  else
    let '(c, indices) := ordered_slot_indices c in
    match find_permit c indices with
    | Some (c, i) => race_settle late c i
    | None => (c, None)
    end.

Definition race_poll (late : bool) (won : Z) (c : PoolCore)
    : PoolCore * option (result Z ClientError) :=
  match slot_try_acquire c won with
  | Some c => race_settle late c won
  | None => (c, None)
  end.

(** ** [scheduler/state.rs] *)

Abbreviation waiter := Z (only parsing).

Record SchedulerState : Type := mk_SchedulerState {
  fifo_queue : list (Z * waiter);
  round_robin_order : list Z;
  handle_waiters : gmap Z (list waiter)
}.

Record WaiterAdmission : Type := mk_WaiterAdmission {
  fairness_policy : PoolFairnessPolicy;
  max_waiters : Z
}.

Inductive WaiterEnqueueResult : Type :=
  | Enqueued
  | Saturated (rejected : waiter).

Definition state_new : SchedulerState := mk_SchedulerState [] [] ∅.

Definition register_handle (s : SchedulerState) (handle_id : Z) : SchedulerState :=
  match handle_waiters s !! handle_id with
  | Some _ => s
  | None =>
      mk_SchedulerState (fifo_queue s) (round_robin_order s ++ [handle_id])
        (<[handle_id := []]> (handle_waiters s))
  end.

Definition deregister_handle (s : SchedulerState) (handle_id : Z) : SchedulerState :=
  mk_SchedulerState
    (base.filter (fun e => e.1 <> handle_id) (fifo_queue s))
    (base.filter (fun h => h <> handle_id) (round_robin_order s))
    (delete handle_id (handle_waiters s)).

Definition waiter_count (s : SchedulerState) : Z :=
  len (fifo_queue s) + map_sum len (handle_waiters s).

Definition has_queued_waiter (s : SchedulerState) (handle_id : Z) : bool :=
  match handle_waiters s !! handle_id with
  | Some queue => negb (bool_decide (queue = []))
  | None => false
  end || existsb (fun e => e.1 =? handle_id) (fifo_queue s).

Section Queues.
Variable closed : waiter -> bool.

Definition live (w : waiter) : Prop := closed w = false.

#[export] Instance live_dec w : Decision (live w).
Proof. unfold live. apply _. Defined.

Definition prune_cancelled_waiters (s : SchedulerState) : SchedulerState :=
  mk_SchedulerState
    (base.filter (fun e => live e.2) (fifo_queue s))
    (round_robin_order s)
    (base.filter live <$> handle_waiters s).

Definition has_live_waiters (s : SchedulerState) : bool :=
  existsb (fun e => negb (closed e.2)) (fifo_queue s)
  || existsb (fun q => existsb (fun w => negb (closed w)) q) (map_to_list (handle_waiters s)).*2.

Definition enqueue_waiter (s : SchedulerState) (handle_id : Z) (sender : waiter)
    (admission : WaiterAdmission) : SchedulerState * WaiterEnqueueResult :=
  let s := prune_cancelled_waiters s in
  let s := register_handle s handle_id in
  if max_waiters admission <=? waiter_count s then (s, Saturated sender)
  else
    match fairness_policy admission with
    | Fifo =>
        (mk_SchedulerState (fifo_queue s ++ [(handle_id, sender)]) (round_robin_order s)
           (handle_waiters s), Enqueued)
    | RoundRobin =>
        match handle_waiters s !! handle_id with
        | Some queue =>
            (mk_SchedulerState (fifo_queue s) (round_robin_order s)
               (<[handle_id := queue ++ [sender]]> (handle_waiters s)), Enqueued)
        | None => (s, Saturated sender)
        end
    end.

Fixpoint pop_live_waiter (queue : list waiter) : list waiter * option waiter :=
  match queue with
  | [] => ([], None)
  | sender :: queue => if closed sender then pop_live_waiter queue else (queue, Some sender)
  end.

Fixpoint pop_fifo (registered : gmap Z (list waiter)) (queue : list (Z * waiter))
    : list (Z * waiter) * option waiter :=
  match queue with
  | [] => ([], None)
  | (handle_id, sender) :: queue =>
      if closed sender || negb (bool_decide (is_Some (registered !! handle_id)))
      then pop_fifo registered queue
      else (queue, Some sender)
  end.

Definition take_next_fifo_waiter (s : SchedulerState) : SchedulerState * option waiter :=
  let '(queue, r) := pop_fifo (handle_waiters s) (fifo_queue s) in
  (mk_SchedulerState queue (round_robin_order s) (handle_waiters s), r).

Fixpoint round_robin_loop (n : nat) (s : SchedulerState) : SchedulerState * option waiter :=
  match n with
  | O => (s, None)
  | S n =>
      match round_robin_order s with
      | [] => (s, None)
      | handle_id :: order =>
          let order := order ++ [handle_id] in
          match handle_waiters s !! handle_id with
          | None => round_robin_loop n (mk_SchedulerState (fifo_queue s) order (handle_waiters s))
          | Some queue =>
              let '(queue, r) := pop_live_waiter queue in
              let s :=
                mk_SchedulerState (fifo_queue s) order (<[handle_id := queue]> (handle_waiters s)) in
              match r with
              | Some sender => (s, Some sender)
              | None => round_robin_loop n s
              end
          end
      end
  end.

Definition take_next_round_robin_waiter (s : SchedulerState) : SchedulerState * option waiter :=
  round_robin_loop (length (round_robin_order s)) s.

Definition take_next_waiter (s : SchedulerState) (policy : PoolFairnessPolicy)
    : SchedulerState * option waiter :=
  match policy with
  | RoundRobin => take_next_round_robin_waiter s
  | Fifo => take_next_fifo_waiter s
  end.

End Queues.

(** ** [scheduler/handle.rs] *)

Inductive SchedulerLifecycle : Type :=
  | Running
  | Closed
  | Failed.

#[export] Instance SchedulerLifecycle_eq_dec : EqDecision SchedulerLifecycle.
Proof. solve_decision. Defined.

Definition from_raw (raw : Z) : SchedulerLifecycle :=
  if raw =? 0 then Running else if raw =? 1 then Closed else Failed.

(** The discriminants of the enumeration, as [lifecycle] stores them. *)
Definition to_raw (l : SchedulerLifecycle) : Z :=
  match l with Running => 0 | Closed => 1 | Failed => 2 end.

Record PoolTaskChurn : Type := mk_PoolTaskChurn {
  scheduler_spawns : Z;
  capacity_waits : Z
}.

Definition churn_since (self before : PoolTaskChurn) : PoolTaskChurn :=
  mk_PoolTaskChurn
    (saturating_sub (scheduler_spawns self) (scheduler_spawns before))
    (saturating_sub (capacity_waits self) (capacity_waits before)).

Definition churn_saturating_add (self other : PoolTaskChurn) : PoolTaskChurn :=
  mk_PoolTaskChurn
    (saturating_add u64_max (scheduler_spawns self) (scheduler_spawns other))
    (saturating_add u64_max (capacity_waits self) (capacity_waits other)).

Definition record_scheduler_spawn (c : PoolTaskChurn) : PoolTaskChurn :=
  mk_PoolTaskChurn (wrapping_add u64_max (scheduler_spawns c) 1) (capacity_waits c).
Definition record_capacity_wait (c : PoolTaskChurn) : PoolTaskChurn :=
  mk_PoolTaskChurn (scheduler_spawns c) (wrapping_add u64_max (capacity_waits c) 1).

Record SchedulerStatus : Type := mk_SchedulerStatus {
  next_handle_id : Z;
  lifecycle_raw : Z;
  churn : PoolTaskChurn
}.

Definition status_new : SchedulerStatus :=
  mk_SchedulerStatus 1 (to_raw Running) (mk_PoolTaskChurn 0 0).

Definition allocate_handle_id (st : SchedulerStatus) : SchedulerStatus * Z :=
  (mk_SchedulerStatus (wrapping_add u64_max (next_handle_id st) 1) (lifecycle_raw st) (churn st),
   next_handle_id st).

Definition lifecycle (st : SchedulerStatus) : SchedulerLifecycle := from_raw (lifecycle_raw st).
Definition is_running (st : SchedulerStatus) : bool := bool_decide (lifecycle st = Running).

(** [compare_exchange(Running, Closed)] *)
Definition mark_closed (st : SchedulerStatus) : SchedulerStatus :=
  if lifecycle_raw st =? to_raw Running
  then mk_SchedulerStatus (next_handle_id st) (to_raw Closed) (churn st)
  else st.

Definition mark_failed (st : SchedulerStatus) : SchedulerStatus :=
  mk_SchedulerStatus (next_handle_id st) (to_raw Failed) (churn st).

Definition close_error (st : SchedulerStatus) : ClientError :=
  match lifecycle st with
  | Failed => SchedulerFailed
  | Running | Closed => PoolClosed
  end.

Definition set_churn (st : SchedulerStatus) (c : PoolTaskChurn) : SchedulerStatus :=
  mk_SchedulerStatus (next_handle_id st) (lifecycle_raw st) c.

(** ** [scheduler/command.rs], [scheduler/actor.rs] *)

Inductive SchedulerCommand : Type :=
  | Acquire (handle_id : Z) (reply : waiter)
  | DeregisterHandle (handle_id : Z).

(** What a caller is answered: the slot of its lease, or an error. *)
Abbreviation answer := (result Z ClientError) (only parsing).

Record SchedulerTask : Type := mk_SchedulerTask {
  core : PoolCore;
  status : SchedulerStatus;
  state : SchedulerState;
  receiver : list SchedulerCommand;
  receiver_closed : bool;
  admission : WaiterAdmission;
  replies : list (waiter * answer)
}.

Definition task_new (c : PoolCore) (st : SchedulerStatus) (a : WaiterAdmission) : SchedulerTask :=
  mk_SchedulerTask c st state_new [] false a [].

(** [scheduler::start]: one task per pool, its spawn counted once. *)
Definition start (c : PoolCore) (policy : PoolFairnessPolicy) (limit : Z) : SchedulerTask :=
  let st := set_churn status_new (record_scheduler_spawn (churn status_new)) in
  task_new c st (mk_WaiterAdmission policy limit).

Definition set_core (t : SchedulerTask) (c : PoolCore) : SchedulerTask :=
  mk_SchedulerTask c (status t) (state t) (receiver t) (receiver_closed t) (admission t) (replies t).
Definition set_status (t : SchedulerTask) (st : SchedulerStatus) : SchedulerTask :=
  mk_SchedulerTask (core t) st (state t) (receiver t) (receiver_closed t) (admission t) (replies t).
Definition set_state (t : SchedulerTask) (s : SchedulerState) : SchedulerTask :=
  mk_SchedulerTask (core t) (status t) s (receiver t) (receiver_closed t) (admission t) (replies t).
Definition set_receiver (t : SchedulerTask) (r : list SchedulerCommand) (c : bool) : SchedulerTask :=
  mk_SchedulerTask (core t) (status t) (state t) r c (admission t) (replies t).

(** [waiter.send(answer)]; nothing is recorded when the caller is gone. *)
Definition send (gone : waiter -> bool) (t : SchedulerTask) (w : waiter) (a : answer) : SchedulerTask :=
  if gone w then t
  else
    mk_SchedulerTask (core t) (status t) (state t) (receiver t) (receiver_closed t) (admission t)
      (replies t ++ [(w, a)]).

Section Actor.
Variables closed gone : waiter -> bool.

(** [deliver]: a lease that its caller no longer takes is dropped, which
    returns its permit; an index without a slot is answered with a failure,
    and the permit is dropped with the lease that was not built. *)
Definition deliver (t : SchedulerTask) (w : waiter) (slot_index : Z) : SchedulerTask :=
  match index_get (slot_permits (core t)) slot_index with
  | Some _ =>
      if gone w then set_core t (release_permit (core t) slot_index)
      else send gone t w (Ok slot_index)
  | None => send gone (set_core t (release_permit (core t) slot_index)) w (Err SchedulerFailed)
  end.

Fixpoint grant_sweep_loop (fuel : nat) (late : bool) (t : SchedulerTask) : SchedulerTask :=
  match fuel with
  | O => t
  | S fuel =>
      if has_live_waiters closed (state t) then
        match try_acquire_permit (core t) late with
        | (c, None) => set_core t c
        | (c, Some slot_index) =>
            match take_next_waiter closed (state t) (fairness_policy (admission t)) with
            | (s, None) => set_state (set_core t (release_permit c slot_index)) s
            | (s, Some w) =>
                grant_sweep_loop fuel late (deliver (set_state (set_core t c) s) w slot_index)
            end
        end
      else t
  end.

Definition sweep_fuel (t : SchedulerTask) : nat := S (Z.to_nat (waiter_count (state t))).

Definition grant_sweep (late : bool) (t : SchedulerTask) : SchedulerTask :=
  grant_sweep_loop (sweep_fuel t) late t.

Definition handle_acquire (late : bool) (t : SchedulerTask) (handle_id : Z) (reply : waiter)
    : SchedulerTask :=
  if negb (is_running (status t)) then send gone t reply (Err (close_error (status t)))
  else
    match enqueue_waiter closed (state t) handle_id reply (admission t) with
    | (s, Saturated rejected) =>
        send gone (set_state t s) rejected (Err (PoolSaturated (max_waiters (admission t))))
    | (s, Enqueued) =>
        let t := grant_sweep late (set_state t s) in
        if has_queued_waiter (state t) handle_id
        then set_status t (set_churn (status t) (record_capacity_wait (churn (status t))))
        else t
    end.

Definition handle_command (late : bool) (t : SchedulerTask) (command : SchedulerCommand)
    : SchedulerTask :=
  match command with
  | Acquire handle_id reply => handle_acquire late t handle_id reply
  | DeregisterHandle handle_id => set_state t (deregister_handle (state t) handle_id)
  end.

(** The permit is already taken from its slot. *)
Definition on_permit_won (t : SchedulerTask) (slot_index : Z) : SchedulerTask :=
  match take_next_waiter closed (state t) (fairness_policy (admission t)) with
  | (s, None) => set_state (set_core t (release_permit (core t) slot_index)) s
  | (s, Some w) => deliver (set_state t s) w slot_index
  end.

(** [while let Some(waiter) = take_next_waiter { waiter.send(Err(error)) }] *)
Fixpoint refuse_waiters (fuel : nat) (t : SchedulerTask) (e : ClientError) : SchedulerTask :=
  match fuel with
  | O => t
  | S fuel =>
      match take_next_waiter closed (state t) (fairness_policy (admission t)) with
      | (s, None) => set_state t s
      | (s, Some w) => refuse_waiters fuel (send gone (set_state t s) w (Err e)) e
      end
  end.

Definition fail_on_race_error (t : SchedulerTask) : SchedulerTask :=
  let t := if is_running (status t) then set_status t (mark_failed (status t)) else t in
  let t := refuse_waiters (sweep_fuel t) t (close_error (status t)) in
  set_receiver t (receiver t) true.

Definition handle_permit_outcome (late : bool) (t : SchedulerTask)
    (outcome : option (result Z ClientError)) : SchedulerTask :=
  match outcome with
  | Some (Ok slot_index) => grant_sweep late (on_permit_won t slot_index)
  | Some (Err _) => fail_on_race_error t
  | None => t
  end.

Fixpoint refuse_buffered (commands : list SchedulerCommand) (t : SchedulerTask) : SchedulerTask :=
  match commands with
  | [] => t
  | Acquire _ reply :: commands => refuse_buffered commands (send gone t reply (Err PoolClosed))
  | DeregisterHandle _ :: commands => refuse_buffered commands t
  end.

Definition drain_for_shutdown (t : SchedulerTask) : SchedulerTask :=
  let t := set_status t (mark_closed (status t)) in
  let t := refuse_waiters (sweep_fuel t) t PoolClosed in
  refuse_buffered (receiver t) (set_receiver t [] true).

(** [recv] on the mailbox: [None] while it is empty and a sender is left. *)
Definition recv (senders : bool) (t : SchedulerTask)
    : SchedulerTask * option (option SchedulerCommand) :=
  match receiver t with
  | command :: rest => (set_receiver t rest (receiver_closed t), Some (Some command))
  | [] => (t, if receiver_closed t || negb senders then Some None else None)
  end.

(** The permit race the loop holds: none, created, or waiting on the slots. *)
Inductive PendingGrant : Type :=
  | NoGrant
  | Created
  | Racing.

Inductive Progress : Type :=
  | Continue (t : SchedulerTask) (pending : PendingGrant)
  | Parked (t : SchedulerTask) (pending : PendingGrant)
  | Finished (t : SchedulerTask).

Definition poll_pending_permit (late : bool) (won : Z) (t : SchedulerTask) (pending : PendingGrant)
    : SchedulerTask * PendingGrant * option (option (result Z ClientError)) :=
  match pending with
  | NoGrant => (t, NoGrant, None)
  | Created =>
      let '(c, r) := race_start late (core t) in
      (set_core t c, Racing, match r with Some r => Some (Some r) | None => None end)
  | Racing =>
      let '(c, r) := race_poll late won (core t) in
      (set_core t c, Racing, match r with Some r => Some (Some r) | None => None end)
  end.

(** One turn of [run]'s loop: the biased [select!] looks at shutdown, the race
    and the mailbox, in this order. *)
Definition run_step (late senders : bool) (won : Z) (t : SchedulerTask) (pending : PendingGrant)
    : Progress :=
  let pending :=
    match pending with
    | NoGrant => if has_live_waiters closed (state t) then Created else NoGrant
    | p => p
    end in
  if shutdown (core t) then Finished (drain_for_shutdown t)
  else
    match poll_pending_permit late won t pending with
    | (t, _, Some outcome) => Continue (handle_permit_outcome late t outcome) NoGrant
    | (t, pending, None) =>
        match recv senders t with
        | (t, Some (Some command)) => Continue (handle_command late t command) pending
        | (t, Some None) => Finished (set_status t (mark_closed (status t)))
        | (t, None) => Parked t pending
        end
    end.

End Actor.

(** ** [SchedulerHandle] and the pool

    [acquire] sends a command unless the scheduler is known to have stopped;
    [reply_of] is what awaiting the reply gives once the channel is settled:
    the recorded answer, or the error that the status names when the channel
    was dropped without one. *)

Definition acquire (t : SchedulerTask) (handle_id : Z) (reply : waiter)
    : SchedulerTask * result unit ClientError :=
  if negb (is_running (status t)) then (t, Err (close_error (status t)))
  else if receiver_closed t then (t, Err (close_error (status t)))
  else (set_receiver t (receiver t ++ [Acquire handle_id reply]) false, Ok tt).

Definition deregister (t : SchedulerTask) (handle_id : Z) : SchedulerTask :=
  if receiver_closed t then t
  else set_receiver t (receiver t ++ [DeregisterHandle handle_id]) false.

Definition reply_of (t : SchedulerTask) (reply : waiter) : answer :=
  match List.find (fun e => e.1 =? reply) (replies t) with
  | Some (_, a) => a
  | None => Err (close_error (status t))
  end.

(** [WireframeClientPool::close]: publish the closure, then shutdown. *)
Definition pool_close (t : SchedulerTask) : SchedulerTask :=
  set_core (set_status t (mark_closed (status t))) (set_shutdown (core t)).
