(* ===== verification/PoolFairness.v ===== *)
(** * Fairness and accounting of the pool's scheduler queues

    The invariant of [SchedulerState], what selecting a waiter does under each
    policy, and where every waiter goes. *)

From S2P Require Import Prelude.
From S2P Require Import ClientError.
From S2P Require Import PoolScheduler.

Local Open Scope Z_scope.

(** ** The waiters a state holds *)

Definition queued (m : gmap Z (list Z)) : list Z := concat (map_to_list m).*2.

Definition waiters (s : SchedulerState) : list Z :=
  (fifo_queue s).*2 ++ queued (handle_waiters s).

Lemma queued_empty : queued ∅ = [].
Proof. unfold queued. by rewrite map_to_list_empty. Qed.

Lemma queued_insert_fresh m h q : m !! h = None -> queued (<[h := q]> m) ≡ₚ q ++ queued m.
Proof. intros Hh. unfold queued. by rewrite (map_to_list_insert m h q Hh). Qed.

Lemma queued_delete m h q : m !! h = Some q -> queued m ≡ₚ q ++ queued (delete h m).
Proof.
  intros Hh. rewrite <-(insert_delete_id m h q Hh) at 1.
  apply queued_insert_fresh, lookup_delete_eq.
Qed.

Lemma queued_update m h q : queued (<[h := q]> m) ≡ₚ q ++ queued (delete h m).
Proof.
  rewrite <-insert_delete_eq. apply queued_insert_fresh, lookup_delete_eq.
Qed.

#[export] Instance len_Permutation {A} : Proper (Permutation ==> eq) (@len A).
Proof. intros l k H. unfold len. by rewrite H. Qed.

Lemma queued_len m : map_sum len m = len (queued m).
Proof.
  induction m as [|h q m Hh IH] using map_ind.
  - by rewrite map_sum_empty, queued_empty.
  - by rewrite map_sum_insert, (queued_insert_fresh m h q Hh), len_app, IH.
Qed.

Lemma waiter_count_len s : waiter_count s = len (waiters s).
Proof.
  unfold waiter_count, waiters. rewrite queued_len, len_app. unfold len at 3.
  by rewrite length_fmap.
Qed.

Lemma queued_filter (P : Z -> Prop) `{!forall x, Decision (P x)} m :
  queued (base.filter P <$> m) ≡ₚ base.filter P (queued m).
Proof.
  induction m as [|h q m Hh IH] using map_ind.
  - by rewrite fmap_empty, queued_empty.
  - rewrite fmap_insert, queued_insert_fresh by (by rewrite lookup_fmap, Hh).
    by rewrite (queued_insert_fresh m h q Hh), filter_app, IH.
Qed.

Lemma queued_elem m w : w ∈ queued m <-> exists h q, m !! h = Some q /\ w ∈ q.
Proof.
  unfold queued. rewrite list_elem_of_In, in_concat. setoid_rewrite <-list_elem_of_In. split.
  - intros (q & Hq & Hw). apply list_elem_of_fmap in Hq as ([h q'] & -> & Hq).
    apply elem_of_map_to_list in Hq. eauto.
  - intros (h & q & Hq & Hw). exists q. split; [|done].
    apply list_elem_of_fmap. exists (h, q). split; [done|]. by apply elem_of_map_to_list.
Qed.

(** ** The invariant

    The rotation lists each registered session once, and only the policy's own
    queues hold waiters. *)

Record wf (p : PoolFairnessPolicy) (s : SchedulerState) : Prop := {
  wf_nodup : NoDup (round_robin_order s);
  wf_order h : h ∈ round_robin_order s <-> is_Some (handle_waiters s !! h);
  wf_fifo : Forall (fun e => is_Some (handle_waiters s !! e.1)) (fifo_queue s);
  wf_policy :
    match p with
    | RoundRobin => fifo_queue s = []
    | Fifo => forall h q, handle_waiters s !! h = Some q -> q = []
    end
}.

Lemma wf_new p : wf p state_new.
Proof.
  split; cbn.
  - constructor.
  - intros h. rewrite lookup_empty, elem_of_nil. split; [done|by intros []].
  - done.
  - destruct p; [done|]. intros h q. by rewrite lookup_empty.
Qed.

Lemma wf_register p s h : wf p s -> wf p (register_handle s h).
Proof.
  intros [Hn Ho Hf Hp]. unfold register_handle.
  destruct (handle_waiters s !! h) eqn:E; [done|]. split; cbn.
  - apply NoDup_app. split; [done|]. split; [|apply NoDup_singleton].
    intros x Hx ->%list_elem_of_singleton. apply Ho in Hx. rewrite E in Hx. by destruct Hx.
  - intros x. rewrite elem_of_app, list_elem_of_singleton, Ho, lookup_insert_is_Some'.
    split; (intros [|]; [auto|subst; auto]).
  - eapply Forall_impl; [exact Hf|]. intros e He. rewrite lookup_insert_is_Some'. by right.
  - destruct p; [done|]. intros x q. rewrite lookup_insert_Some. intros [[_ <-]|[_ Hx]]; [done|eauto].
Qed.

Lemma wf_deregister p s h : wf p s -> wf p (deregister_handle s h).
Proof.
  intros [Hn Ho Hf Hp]. split; cbn.
  - by apply NoDup_filter.
  - intros x. rewrite list_elem_of_filter, Ho, lookup_delete_is_Some. split; intros []; auto.
  - apply Forall_forall. intros e [He Hin]%list_elem_of_filter.
    rewrite lookup_delete_is_Some. split; [by apply not_eq_sym|]. by eapply Forall_forall in Hf.
  - destruct p; [by rewrite Hp|]. intros x q. rewrite lookup_delete_Some. intros [_ Hx]. eauto.
Qed.

Section Closed.
Variable closed : Z -> bool.

Lemma wf_prune p s : wf p s -> wf p (prune_cancelled_waiters closed s).
Proof.
  intros [Hn Ho Hf Hp]. split; cbn.
  - done.
  - intros x. rewrite Ho, lookup_fmap. by rewrite fmap_is_Some.
  - apply Forall_forall. intros e [_ Hin]%list_elem_of_filter.
    rewrite lookup_fmap, fmap_is_Some. by eapply Forall_forall in Hf.
  - destruct p; [by rewrite Hp|]. intros x q. rewrite lookup_fmap.
    destruct (handle_waiters s !! x) as [q'|] eqn:E; [|done]. intros [= <-].
    by rewrite (Hp _ _ E).
Qed.

Lemma waiters_prune s :
  waiters (prune_cancelled_waiters closed s) ≡ₚ base.filter (live closed) (waiters s).
Proof.
  unfold waiters. cbn [prune_cancelled_waiters fifo_queue handle_waiters].
  rewrite queued_filter, filter_app. apply Permutation_app; [|done].
  induction (fifo_queue s) as [|e l IH]; [done|]. rewrite fmap_cons, !filter_cons.
  case_decide; [by rewrite fmap_cons, IH|done].
Qed.

Lemma waiters_register s h : waiters (register_handle s h) ≡ₚ waiters s.
Proof.
  unfold register_handle. destruct (handle_waiters s !! h) eqn:E; [done|].
  unfold waiters. cbn. by rewrite queued_insert_fresh.
Qed.

Lemma register_lookup s h : is_Some (handle_waiters (register_handle s h) !! h).
Proof.
  unfold register_handle. destruct (handle_waiters s !! h) eqn:E; cbn; [by rewrite E|].
  by rewrite lookup_insert_eq.
Qed.

(** Admission: cancelled waiters leave, the new one is queued or handed back. *)
Lemma enqueue_spec p s h w limit :
  let '(s', r) := enqueue_waiter closed s h w (mk_WaiterAdmission p limit) in
  wf p s ->
  wf p s' /\ is_Some (handle_waiters s' !! h)
  /\ match r with
     | Enqueued =>
         waiters s' ≡ₚ base.filter (live closed) (waiters s) ++ [w]
         /\ len (waiters s') <= limit
     | Saturated w' =>
         w' = w /\ waiters s' ≡ₚ base.filter (live closed) (waiters s) /\ limit <= len (waiters s')
     end.
Proof.
  unfold enqueue_waiter. cbn [fairness_policy max_waiters].
  set (s1 := register_handle (prune_cancelled_waiters closed s) h).
  assert (Hw1 : waiters s1 ≡ₚ base.filter (live closed) (waiters s))
    by (unfold s1; by rewrite waiters_register, waiters_prune).
  assert (Hreg : is_Some (handle_waiters s1 !! h)) by apply register_lookup.
  assert (Hwf : wf p s -> wf p s1) by (intros ?; by apply wf_register, wf_prune).
  clearbody s1. rewrite waiter_count_len.
  destruct (Z.leb_spec limit (len (waiters s1))) as [Hl|Hl].
  { intros H. split; [by apply Hwf|]. split; [done|]. by split. }
  assert (Hsnoc : forall s', waiters s' ≡ₚ waiters s1 ++ [w] ->
    waiters s' ≡ₚ base.filter (live closed) (waiters s) ++ [w] /\ len (waiters s') <= limit).
  { intros s' H'. split; [by rewrite H', Hw1|]. rewrite H', len_app. change (len [w]) with 1. lia. }
  destruct p.
  - destruct Hreg as [q Hq]. rewrite Hq. intros H. destruct (Hwf H) as [Hn Ho Hf Hp].
    split; [split; cbn|split; [cbn; by rewrite lookup_insert_eq|]].
    + done.
    + intros x. rewrite Ho, lookup_insert_is_Some'. split; [by right|]. intros [<-|]; [by exists q|done].
    + cbn in Hp. rewrite Hp. done.
    + done.
    + apply Hsnoc. unfold waiters. cbn. rewrite (queued_update _ h), (queued_delete _ _ _ Hq).
      rewrite <-!app_assoc, (Permutation_app_comm [w]), !app_assoc. done.
  - intros H. destruct (Hwf H) as [Hn Ho Hf Hp]. split; [split; cbn|split; [done|]].
    + done.
    + done.
    + apply Forall_app. split; [done|]. by constructor.
    + done.
    + apply Hsnoc. unfold waiters. cbn. rewrite fmap_app. cbn.
      rewrite <-!app_assoc, (Permutation_app_comm [w]). done.
Qed.

(** ** Selecting a waiter *)

Definition found (r : option Z) : list Z := match r with Some w => [w] | None => [] end.

Lemma pop_live_spec q :
  let '(q', r) := pop_live_waiter closed q in
  exists dropped, q = dropped ++ found r ++ q' /\ Forall (fun w => closed w = true) dropped
    /\ match r with Some w => closed w = false | None => q' = [] end.
Proof.
  induction q as [|w q IH]; cbn; [by exists []|].
  destruct (closed w) eqn:E.
  - destruct (pop_live_waiter closed q) as [q' r]. destruct IH as (d & -> & Hd & Hr).
    exists (w :: d). by repeat constructor.
  - exists []. by repeat constructor.
Qed.

Lemma pop_live_none q q' :
  pop_live_waiter closed q = (q', None) <-> q' = [] /\ Forall (fun w => closed w = true) q.
Proof.
  split.
  - intros H. pose proof (pop_live_spec q) as Hs. rewrite H in Hs. destruct Hs as (d & -> & Hd & ->).
    cbn. by rewrite app_nil_r.
  - intros [-> H]. induction H as [|w q Hw _ IH]; cbn; [done|]. by rewrite Hw.
Qed.

(** FIFO: the first live waiter in order of arrival; all before it had gone. *)
Lemma pop_fifo_spec m l :
  Forall (fun e => is_Some (m !! e.1)) l ->
  let '(l', r) := pop_fifo closed m l in
  exists dropped, l.*2 = dropped ++ found r ++ l'.*2 /\ Forall (fun w => closed w = true) dropped
    /\ l' `suffix_of` l
    /\ match r with Some w => closed w = false | None => l' = [] end.
Proof.
  induction 1 as [|[h w] l Hh _ IH]; cbn; [by exists []|].
  rewrite (bool_decide_eq_true_2 _ Hh). cbn. rewrite orb_false_r. destruct (closed w) eqn:E.
  - destruct (pop_fifo closed m l) as [l' r]. destruct IH as (d & Hl & Hd & Hs & Hr).
    exists (w :: d). cbn. rewrite Hl. repeat split; [by constructor|by apply suffix_cons_r|done].
  - exists []. cbn. repeat split; [done|by apply suffix_cons_r|done].
Qed.

(** Round robin: the first session in rotation with a live waiter has its turn
    and goes to the back, behind those that were skipped for having none. *)
Record turn (m m' : gmap Z (list Z)) (skipped : list Z) (g w : Z) : Prop := {
  turn_none h q : h ∈ skipped -> m !! h = Some q -> Forall (fun w => closed w = true) q;
  turn_emptied h : h ∈ skipped -> m' !! h = Some [];
  turn_queue : exists q q', m !! g = Some q
    /\ pop_live_waiter closed q = (q', Some w) /\ m' !! g = Some q';
  turn_other h : h ∉ skipped -> h <> g -> m' !! h = m !! h
}.

(** A step of the loop past a session without live waiters. *)
Lemma round_robin_skip n s h order q :
  round_robin_order s = h :: order -> handle_waiters s !! h = Some q ->
  Forall (fun w => closed w = true) q ->
  round_robin_loop closed (S n) s
  = round_robin_loop closed n
      (mk_SchedulerState (fifo_queue s) (order ++ [h]) (<[h := []]> (handle_waiters s))).
Proof.
  intros Ho Hq Hc. cbn. rewrite Ho, Hq.
  by rewrite (proj2 (pop_live_none q []) (conj eq_refl Hc)).
Qed.

Lemma queued_replace m h q q' :
  m !! h = Some q -> queued m ++ q' ≡ₚ q ++ queued (<[h := q']> m).
Proof.
  intros Hq. rewrite (queued_delete _ _ _ Hq), (queued_update m h q'), <-app_assoc.
  by rewrite (Permutation_app_comm q').
Qed.

(** A session skipped before a turn is skipped in it. *)
Lemma turn_skip m m' h q skipped g w :
  m !! h = Some q -> Forall (fun w => closed w = true) q -> h ∉ skipped -> h <> g ->
  turn (<[h := []]> m) m' skipped g w -> turn m m' (h :: skipped) g w.
Proof.
  intros Hq Hc Hhs Hhg [Hnone Hemptied Hqueue Hother]. split.
  - intros x y [->|Hx]%elem_of_cons Hy; [congruence|].
    apply (Hnone x y Hx). rewrite lookup_insert_ne; [done|]. by intros ->.
  - intros x [->|Hx]%elem_of_cons; [|by apply Hemptied].
    rewrite Hother by auto. by rewrite lookup_insert_eq.
  - destruct Hqueue as (y & y' & Hy & Hpop & Hy'). exists y, y'. split; [|done].
    by rewrite lookup_insert_ne in Hy.
  - intros x [Hxh Hxs]%not_elem_of_cons Hxg. rewrite Hother by done. by rewrite lookup_insert_ne.
Qed.

Lemma round_robin_loop_spec todo : forall seen s,
  round_robin_order s = todo ++ seen ->
  NoDup todo -> (forall h, h ∈ todo -> is_Some (handle_waiters s !! h)) ->
  let '(s', r) := round_robin_loop closed (length todo) s in
  fifo_queue s' = fifo_queue s
  /\ (forall h, is_Some (handle_waiters s' !! h) <-> is_Some (handle_waiters s !! h))
  /\ (exists dropped, Forall (fun w => closed w = true) dropped
      /\ queued (handle_waiters s) ≡ₚ dropped ++ found r ++ queued (handle_waiters s'))
  /\ match r with
     | Some w => exists skipped g rest, todo = skipped ++ g :: rest
         /\ round_robin_order s' = rest ++ seen ++ skipped ++ [g]
         /\ turn (handle_waiters s) (handle_waiters s') skipped g w
     | None => round_robin_order s' = seen ++ todo
         /\ (forall h, h ∈ todo -> handle_waiters s' !! h = Some [])
         /\ (forall h, h ∉ todo -> handle_waiters s' !! h = handle_waiters s !! h)
     end.
Proof.
  induction todo as [|h todo IH]; intros seen s Ho Hn Hreg.
  { cbn. split; [done|]. split; [done|]. split; [by exists []|].
    split; [by rewrite Ho, app_nil_r|]. split; [by intros ? ?%elem_of_nil|done]. }
  apply NoDup_cons in Hn as [Hh Hn].
  destruct (Hreg h ltac:(by left)) as [q Hq].
  destruct (pop_live_waiter closed q) as [q' r] eqn:Ep.
  pose proof (pop_live_spec q) as Hs. rewrite Ep in Hs. destruct Hs as (d & Hqd & Hd & Hr).
  destruct r as [w|].
  - cbn [length round_robin_loop]. rewrite Ho. cbn [app]. rewrite Hq, Ep.
    cbn [fifo_queue handle_waiters round_robin_order]. split; [done|]. split; [|split].
    + intros x. rewrite lookup_insert_is_Some'. split; [intros [<-|]; [by exists q|done]|by right].
    + exists d. split; [done|]. apply (Permutation_app_inv_r q').
      rewrite (queued_replace _ _ _ q' Hq), Hqd. cbn.
      rewrite <-!app_assoc. cbn. by rewrite (Permutation_app_comm q').
    + exists [], h, todo. split; [done|]. split; [by rewrite <-app_assoc|].
      split; [by intros ? ? ?%elem_of_nil|by intros ? ?%elem_of_nil| |].
      * exists q, q'. by rewrite lookup_insert_eq.
      * intros x _ Hx. by rewrite lookup_insert_ne.
  - subst q'. apply pop_live_none in Ep as [_ Hc].
    cbn [length]. rewrite (round_robin_skip _ s h (todo ++ seen) q Ho Hq Hc).
    set (s1 := mk_SchedulerState _ _ _).
    specialize (IH (seen ++ [h]) s1 ltac:(cbn; by rewrite app_assoc) Hn).
    destruct (round_robin_loop closed (length todo) s1) as [s' r].
    destruct IH as (Hf & Hdom & (d' & Hd' & Hperm) & Hcase).
    { intros x Hx. cbn. rewrite lookup_insert_is_Some'. right. apply Hreg. by right. }
    split; [done|]. split; [|split].
    + intros x. rewrite Hdom. cbn. rewrite lookup_insert_is_Some'.
      split; [intros [<-|]; [by exists q|done]|by right].
    + exists (q ++ d'). split; [by apply Forall_app|]. rewrite <-app_assoc, <-Hperm. cbn.
      rewrite <-(queued_replace _ _ _ [] Hq). by rewrite app_nil_r.
    + destruct r as [w|].
      * destruct Hcase as (skipped & g & rest & -> & Hord & Ht).
        apply not_elem_of_app in Hh as [Hhs [Hhg Hhr]%not_elem_of_cons].
        exists (h :: skipped), g, rest. split; [done|]. split; [rewrite Hord; by rewrite <-!app_assoc|].
        by apply (turn_skip _ _ _ q).
      * destruct Hcase as (Hord & Hempty & Hother). split; [rewrite Hord; by rewrite <-app_assoc|]. split.
        -- intros x [->|Hx]%elem_of_cons; [|by apply Hempty]. rewrite Hother by done. cbn. by rewrite lookup_insert_eq.
        -- intros x [Hxh Hxt]%not_elem_of_cons. rewrite Hother by done. cbn. by rewrite lookup_insert_ne.
Qed.

Lemma queued_nil m : (forall h q, m !! h = Some q -> q = []) -> queued m = [].
Proof.
  intros H. destruct (queued m) as [|w l] eqn:E; [done|].
  assert (Hw : w ∈ queued m) by (rewrite E; left).
  apply queued_elem in Hw as (h & q & Hq & Hw). rewrite (H _ _ Hq) in Hw. by apply elem_of_nil in Hw.
Qed.

(** Selecting, under either policy: waiters that left are dropped on the way,
    the one returned still listens, and nothing is left when none is returned. *)
Lemma take_next_spec p s :
  wf p s ->
  let '(s', r) := take_next_waiter closed s p in
  wf p s'
  /\ (exists dropped, Forall (fun w => closed w = true) dropped
      /\ waiters s ≡ₚ dropped ++ found r ++ waiters s')
  /\ match r with Some w => closed w = false | None => waiters s' = [] end.
Proof.
  intros [Hn Ho Hf Hp]. destruct p; cbn [take_next_waiter].
  - unfold take_next_round_robin_waiter.
    pose proof (round_robin_loop_spec (round_robin_order s) [] s ltac:(by rewrite app_nil_r) Hn
      (fun h => proj1 (Ho h))) as H.
    destruct (round_robin_loop closed _ s) as [s' r].
    destruct H as (Hfifo & Hdom & (d & Hd & Hperm) & Hcase).
    assert (Hord : round_robin_order s' ≡ₚ round_robin_order s).
    { destruct r as [w|].
      - destruct Hcase as (sk & g & rest & -> & -> & _). cbn.
        rewrite (Permutation_app_comm rest), <-app_assoc. done.
      - by destruct Hcase as (-> & _). }
    split; [|split].
    + split; [by rewrite Hord| |by rewrite Hfifo, Hp|by rewrite Hfifo].
      intros h. rewrite Hord, Ho. by rewrite Hdom.
    + exists d. split; [done|]. unfold waiters. by rewrite Hfifo, Hp.
    + destruct r as [w|].
      * destruct Hcase as (sk & g & rest & _ & _ & [_ _ (q & q' & _ & Hpop & _) _]).
        pose proof (pop_live_spec q) as Hs. rewrite Hpop in Hs. by destruct Hs as (? & _ & _ & ?).
      * unfold waiters. rewrite Hfifo, Hp. cbn. apply queued_nil. intros h q Hq.
        destruct Hcase as (_ & Hempty & _). rewrite Hempty in Hq; [by injection Hq|].
        apply Ho, Hdom. by exists q.
  - unfold take_next_fifo_waiter. pose proof (pop_fifo_spec _ _ Hf) as H.
    destruct (pop_fifo closed _ _) as [l r]. destruct H as (d & Hl & Hd & Hs & Hr).
    split; [|split].
    + split; [done|done| |done]. cbn. destruct Hs as [k Hk]. rewrite Hk in Hf.
      by apply Forall_app in Hf as [_ ?].
    + exists d. split; [done|]. unfold waiters. cbn. rewrite Hl. by rewrite <-!app_assoc.
    + destruct r; [done|]. unfold waiters. cbn. rewrite Hr. by apply queued_nil.
Qed.

Lemma has_live_iff s :
  has_live_waiters closed s = true <-> exists w, w ∈ waiters s /\ closed w = false.
Proof.
  unfold has_live_waiters, waiters. rewrite orb_true_iff, !existsb_exists.
  setoid_rewrite elem_of_app. split.
  - intros [([h w] & Hin%list_elem_of_In & Hc)|(q & Hin%list_elem_of_In & Hc)].
    + exists w. cbn in Hc. split; [|by destruct (closed w)]. left. apply list_elem_of_fmap. by exists (h, w).
    + apply existsb_exists in Hc as (w & Hw%list_elem_of_In & Hc). exists w.
      split; [|by destruct (closed w)]. right. apply queued_elem.
      apply list_elem_of_fmap in Hin as ([h q'] & -> & Hin). apply elem_of_map_to_list in Hin. eauto.
  - intros (w & [Hin|Hin] & Hc).
    + left. apply list_elem_of_fmap in Hin as ([h w'] & -> & Hin). exists (h, w').
      rewrite <-list_elem_of_In. cbn in *. by rewrite Hc.
    + right. apply queued_elem in Hin as (h & q & Hq & Hw). exists q. split.
      * apply list_elem_of_In, list_elem_of_fmap. exists (h, q). split; [done|]. by apply elem_of_map_to_list.
      * apply existsb_exists. exists w. rewrite <-list_elem_of_In. by rewrite Hc.
Qed.

(** A live waiter is always found. *)
Lemma take_next_found p s :
  wf p s -> has_live_waiters closed s = true ->
  exists s' w, take_next_waiter closed s p = (s', Some w).
Proof.
  intros Hwf (w & Hw & Hc)%has_live_iff. pose proof (take_next_spec p s Hwf) as H.
  destruct (take_next_waiter closed s p) as [s' [v|]]; [eauto|].
  destruct H as (_ & (d & Hd & Hperm) & Hnil). rewrite Hnil in Hperm. cbn in Hperm.
  rewrite app_nil_r in Hperm. rewrite Hperm in Hw.
  eapply Forall_forall in Hd; [|exact Hw]. cbn in Hd. congruence.
Qed.

End Closed.

(** ** Bounded waiting under round robin *)

(** The sessions that are ahead of [h] in the rotation. *)
Fixpoint ahead (h : Z) (order : list Z) : nat :=
  match order with
  | [] => O
  | x :: order => if decide (x = h) then O else S (ahead h order)
  end.

Lemma ahead_app_l h l k : h ∈ l -> ahead h (l ++ k) = ahead h l.
Proof.
  induction l as [|x l IH]; [by intros ?%elem_of_nil|]. intros Hh. cbn. case_decide; [done|].
  f_equal. apply IH. by apply elem_of_cons in Hh as [->|].
Qed.

Lemma ahead_app_r h l k : h ∉ l -> ahead h (l ++ k) = (length l + ahead h k)%nat.
Proof.
  induction l as [|x l IH]; [done|]. intros [Hx Hl]%not_elem_of_cons. cbn.
  rewrite decide_False by done. by rewrite IH.
Qed.

Lemma ahead_filter h g l : h <> g -> (ahead h (base.filter (fun x => x <> g) l) <= ahead h l)%nat.
Proof.
  intros Hg. induction l as [|x l IH]; [done|]. rewrite filter_cons. cbn.
  case_decide; cbn; case_decide; lia.
Qed.

Lemma ahead_lt h l : h ∈ l -> (ahead h l < length l)%nat.
Proof.
  induction l as [|x l IH]; [by intros ?%elem_of_nil|]. intros [->|Hh]%elem_of_cons; cbn.
  - rewrite decide_True by done. lia.
  - case_decide; [|specialize (IH Hh)]; lia.
Qed.

(** What happens to the queues between two turns of a session, with the
    senders each operation finds closed. *)
Inductive sched_op : Type :=
  | OpAcquire (closed : Z -> bool) (limit handle_id w : Z)
  | OpDeregister (handle_id : Z)
  | OpTake (closed : Z -> bool).

Definition sched_step (p : PoolFairnessPolicy) (s : SchedulerState) (op : sched_op)
    : SchedulerState * option Z :=
  match op with
  | OpAcquire closed limit h w =>
      ((enqueue_waiter closed s h w (mk_WaiterAdmission p limit)).1, None)
  | OpDeregister h => (deregister_handle s h, None)
  | OpTake closed => take_next_waiter closed s p
  end.

Definition is_take (op : sched_op) : Prop :=
  match op with OpTake _ => True | _ => False end.
#[export] Instance is_take_dec op : Decision (is_take op).
Proof. destruct op; apply _. Defined.

Section BoundedWait.
(** [owner] names the session a waiter belongs to; [h] is the session whose
    turn is awaited and [w0] a request of it that is not cancelled. *)
Variable owner : Z -> Z.
Variables h w0 : Z.

Definition owned (s : SchedulerState) : Prop :=
  forall g q, handle_waiters s !! g = Some q -> Forall (fun w => owner w = g) q.

Definition op_fair (op : sched_op) : Prop :=
  match op with
  | OpAcquire closed _ g w => owner w = g /\ closed w0 = false
  | OpDeregister g => g <> h
  | OpTake closed => closed w0 = false
  end.

(** The session still waits. *)
Record waiting (s : SchedulerState) : Prop := {
  waiting_wf : wf RoundRobin s;
  waiting_owned : owned s;
  waiting_queued : exists q, handle_waiters s !! h = Some q /\ w0 ∈ q
}.

Lemma waiting_in_order s : waiting s -> h ∈ round_robin_order s.
Proof. intros [Hwf _ (q & Hq & _)]. apply (wf_order _ _ Hwf). by exists q. Qed.

Lemma prune_keeps_waiting closed s :
  closed w0 = false -> waiting s -> waiting (prune_cancelled_waiters closed s).
Proof.
  intros Hc [Hwf Ho (q & Hq & Hin)]. split; [by apply wf_prune| |].
  - intros x l. cbn. rewrite lookup_fmap. destruct (handle_waiters s !! x) as [y|] eqn:Ex; [|done].
    intros [= <-]. specialize (Ho x y Ex). rewrite Forall_forall in *.
    intros w [_ Hw]%list_elem_of_filter. by apply Ho.
  - exists (base.filter (live closed) q). cbn. rewrite lookup_fmap, Hq.
    split; [done|]. by apply list_elem_of_filter.
Qed.

Lemma register_keeps_waiting g s :
  waiting s ->
  waiting (register_handle s g)
  /\ ahead h (round_robin_order (register_handle s g)) = ahead h (round_robin_order s).
Proof.
  intros Hs. pose proof (waiting_in_order _ Hs) as Hin. destruct Hs as [Hwf Ho (q & Hq & Hin0)].
  pose proof (wf_register _ s g Hwf) as Hwf'. unfold register_handle in *.
  destruct (handle_waiters s !! g) eqn:Eg; [split; [split; eauto|done]|]. cbn.
  split; [|by apply ahead_app_l]. split; [done| |].
  - intros x l. cbn. rewrite lookup_insert_Some. intros [[_ <-]|[_ Hx]]; [done|by apply Ho].
  - exists q. cbn. rewrite lookup_insert_ne; [done|]. intros ->. congruence.
Qed.

Lemma acquire_keeps_waiting closed limit g w s :
  owner w = g -> closed w0 = false -> waiting s ->
  let s' := (enqueue_waiter closed s g w (mk_WaiterAdmission RoundRobin limit)).1 in
  waiting s' /\ ahead h (round_robin_order s') = ahead h (round_robin_order s).
Proof.
  intros Hw Hc Hs. cbv zeta. pose proof (enqueue_spec closed RoundRobin s g w limit) as Hspec.
  destruct (register_keeps_waiting g _ (prune_keeps_waiting closed s Hc Hs)) as [Hs1 Hord].
  unfold enqueue_waiter in *. cbn [fairness_policy max_waiters] in *.
  set (s1 := register_handle (prune_cancelled_waiters closed s) g) in *. clearbody s1.
  destruct (_ <=? _); [done|].
  destruct (handle_waiters s1 !! g) as [l|] eqn:Eg; [|done]. cbn [fst].
  destruct Hspec as [Hwf' _]; [apply Hs|]. destruct Hs1 as [_ Howned (y & Hy & Hwy)].
  split; [|done]. split; [done| |].
  - intros x z. cbn. rewrite lookup_insert_Some. intros [[<- <-]|[_ Hx]]; [|by apply Howned].
    apply Forall_app. split; [by apply Howned|]. by constructor.
  - cbn. destruct (decide (g = h)) as [->|Hg].
    + exists (l ++ [w]). rewrite lookup_insert_eq. split; [done|]. apply elem_of_app. left. congruence.
    + exists y. by rewrite lookup_insert_ne.
Qed.

Lemma deregister_keeps_waiting g s :
  g <> h -> waiting s ->
  waiting (deregister_handle s g)
  /\ (ahead h (round_robin_order (deregister_handle s g)) <= ahead h (round_robin_order s))%nat.
Proof.
  intros Hg [Hwf Ho (q & Hq & Hin)]. split; [|by apply ahead_filter].
  split; [by apply wf_deregister| |].
  - intros x y. cbn. rewrite lookup_delete_Some. intros [_ Hx]. by apply Ho.
  - exists q. cbn. by rewrite lookup_delete_ne.
Qed.

(** A turn is either the session's own or brings it forward. *)
Lemma take_brings_forward closed s :
  closed w0 = false -> waiting s ->
  exists s' w, take_next_waiter closed s RoundRobin = (s', Some w)
    /\ (owner w = h
        \/ waiting s' /\ (ahead h (round_robin_order s') < ahead h (round_robin_order s))%nat).
Proof.
  intros Hc Hs. pose proof (waiting_in_order _ Hs) as Hin. destruct Hs as [Hwf Ho (q & Hq & Hin0)].
  destruct (take_next_found closed RoundRobin s Hwf) as (s' & w & Htake).
  { apply has_live_iff. exists w0. split; [|done]. unfold waiters. apply elem_of_app. right.
    apply queued_elem. eauto. }
  exists s', w. split; [done|].
  pose proof (take_next_spec closed RoundRobin s Hwf) as Hspec. rewrite Htake in Hspec.
  destruct Hspec as [Hwf' _].
  pose proof (round_robin_loop_spec closed (round_robin_order s) [] s ltac:(by rewrite app_nil_r)
    (wf_nodup _ _ Hwf) (fun x => proj1 (wf_order _ _ Hwf x))) as H.
  cbn in Htake. unfold take_next_round_robin_waiter in Htake. rewrite Htake in H.
  destruct H as (_ & _ & _ & skipped & g & rest & Hord & Hord' & [Hnone Hemptied (y & y' & Hy & Hpop & Hy') Hother]).
  pose proof (pop_live_spec closed y) as Hs. rewrite Hpop in Hs. destruct Hs as (d & Hyd & _ & _).
  pose proof (Ho g y Hy) as Hoy. rewrite Hyd in Hoy.
  apply Forall_app in Hoy as [_ Hoy]. apply Forall_cons in Hoy as [Hw Hoy'].
  destruct (decide (g = h)) as [->|Hg]; [by left|]. right.
  assert (Hns : h ∉ skipped).
  { intros Hsk. pose proof (Hnone h q Hsk Hq) as Hall.
    eapply Forall_forall in Hall; [|exact Hin0]. cbn in Hall. congruence. }
  assert (Hr : h ∈ rest).
  { rewrite Hord in Hin. apply elem_of_app in Hin as [|[->|]%elem_of_cons]; done. }
  split; [split; [done| |]|].
  - intros x z Hx. destruct (decide (x = g)) as [->|Hxg].
    + rewrite Hy' in Hx. by injection Hx as <-.
    + destruct (decide (x ∈ skipped)) as [Hxs|Hxs]; [|rewrite Hother in Hx by done; by apply Ho].
      rewrite Hemptied in Hx by done. by injection Hx as <-.
  - exists q. rewrite Hother by auto. done.
  - rewrite Hord, Hord', (ahead_app_r h skipped) by done. rewrite (ahead_app_l h rest) by done. cbn.
    rewrite decide_False by done. lia.
Qed.

Lemma turn_comes ops : forall s,
  waiting s -> Forall op_fair ops ->
  (ahead h (round_robin_order s) < length (base.filter is_take ops))%nat ->
  exists w, Some w ∈ (run (sched_step RoundRobin) s ops).2 /\ owner w = h.
Proof.
  induction ops as [|op ops IH]; intros s Hs Hops Hlt; [cbn in Hlt; lia|].
  apply Forall_cons in Hops as [Hop Hops]. cbn [run]. rewrite filter_cons in Hlt.
  assert (Hgo : forall s' o, sched_step RoundRobin s op = (s', o) -> waiting s' ->
    (ahead h (round_robin_order s') < length (base.filter is_take ops))%nat ->
    exists w, Some w ∈ (let '(s1, o) := sched_step RoundRobin s op in
      let '(s2, os) := run (sched_step RoundRobin) s1 ops in (s2, o :: os)).2 /\ owner w = h).
  { intros s' o -> Hs' Hl. destruct (IH s' Hs' Hops Hl) as (w & Hw & Ho). exists w.
    destruct (run (sched_step RoundRobin) s' ops) as [s2 os]. cbn [snd] in *. split; [by apply elem_of_cons; right|done]. }
  destruct op as [closed limit g w|g|closed].
  - rewrite decide_False in Hlt by (by intros []). destruct Hop as [Hw Hc].
    destruct (acquire_keeps_waiting closed limit g w s Hw Hc Hs) as [Hs' Ha].
    eapply Hgo; [done|done|]. by rewrite Ha.
  - rewrite decide_False in Hlt by (by intros []).
    destruct (deregister_keeps_waiting g s Hop Hs) as [Hs' Ha].
    eapply Hgo; [done|done|]. lia.
  - rewrite decide_True in Hlt by done. cbn [length] in Hlt.
    destruct (take_brings_forward closed s Hop Hs) as (s' & w & Htake & [Ho|[Hs' Ha]]).
    + exists w. cbn [sched_step]. rewrite Htake. destruct (run (sched_step RoundRobin) s' ops) as [s2 os].
      split; [by apply elem_of_cons; left|done].
    + eapply Hgo; [exact Htake|done|]. lia.
Qed.

End BoundedWait.

(** ** Order under FIFO *)

Definition arrivals (ops : list sched_op) : list Z :=
  omap (fun op => match op with OpAcquire _ _ _ w => Some w | _ => None end) ops.

Definition fifo_waiters (s : SchedulerState) : list Z := (fifo_queue s).*2.

Lemma fmap_snd_filter_sublist (P : Z * Z -> Prop) `{!forall x, Decision (P x)} l :
  (base.filter P l).*2 `sublist_of` l.*2.
Proof.
  induction l as [|e l IH]; [done|]. rewrite filter_cons, fmap_cons.
  case_decide; [rewrite fmap_cons; by apply sublist_skip|by apply sublist_cons].
Qed.

Lemma fifo_step s op :
  wf Fifo s ->
  let '(s', o) := sched_step Fifo s op in
  wf Fifo s' /\ found o ++ fifo_waiters s' `sublist_of` fifo_waiters s ++ arrivals [op].
Proof.
  intros Hwf. destruct op as [closed limit h w|h|closed]; cbn [sched_step].
  - pose proof (enqueue_spec closed Fifo s h w limit) as Hs.
    unfold enqueue_waiter in *. cbn [fairness_policy max_waiters] in *.
    set (s1 := register_handle (prune_cancelled_waiters closed s) h) in *.
    assert (Hq : fifo_queue s1 = base.filter (fun e => live closed e.2) (fifo_queue s))
      by (unfold s1, register_handle; by destruct (handle_waiters (prune_cancelled_waiters closed s) !! h)).
    destruct (_ <=? _); (split; [by apply Hs|]); unfold fifo_waiters; cbn; rewrite Hq.
    + etrans; [apply fmap_snd_filter_sublist|]. by apply sublist_inserts_r.
    + rewrite fmap_app. apply sublist_app; [apply fmap_snd_filter_sublist|done].
  - split; [by apply wf_deregister|]. cbn. rewrite app_nil_r. apply fmap_snd_filter_sublist.
  - pose proof (take_next_spec closed Fifo s Hwf) as Hs. cbn [take_next_waiter] in *.
    unfold take_next_fifo_waiter in *. pose proof (pop_fifo_spec closed _ _ (wf_fifo _ _ Hwf)) as Hp.
    destruct (pop_fifo closed _ _) as [l r]. destruct Hs as [Hwf' _]. destruct Hp as (d & Hl & _).
    split; [done|]. unfold fifo_waiters. cbn. rewrite Hl, app_nil_r. by apply sublist_inserts_l.
Qed.

Lemma fifo_run ops : forall s,
  wf Fifo s ->
  let '(s', outs) := run (sched_step Fifo) s ops in
  omap id outs ++ fifo_waiters s' `sublist_of` fifo_waiters s ++ arrivals ops.
Proof.
  induction ops as [|op ops IH]; intros s Hwf; cbn [run]; [cbn; by rewrite app_nil_r|].
  pose proof (fifo_step s op Hwf) as Hstep. destruct (sched_step Fifo s op) as [s1 o].
  destruct Hstep as [Hwf1 H1]. specialize (IH s1 Hwf1). destruct (run (sched_step Fifo) s1 ops) as [s2 outs].
  assert (Ho : omap id (o :: outs) = found o ++ omap id outs) by (by destruct o).
  assert (Ha : arrivals (op :: ops) = arrivals [op] ++ arrivals ops) by (by destruct op).
  rewrite Ho, Ha, <-app_assoc, (app_assoc (fifo_waiters s)). etrans; [|apply sublist_app; [exact H1|done]].
  rewrite <-app_assoc. by apply sublist_app.
Qed.
