(* ===== verification/PoolTask.v ===== *)
(** * The pool's scheduler task

    Where waiters and permits go in every handler of [SchedulerTask], that a
    sweep leaves no capacity idle while someone waits, that a slot is never
    leased beyond its limit, and how the task ends. *)

From S2P Require Import Prelude.
From S2P Require Import ClientError.
From S2P Require Import PoolScheduler.
From S2P Require Import PoolFairness.

Local Open Scope Z_scope.

(** [perm_lia] proves permutations of concatenations from permutations of
    concatenations, by counting. *)
Ltac perm_lia :=
  let x := fresh "x" in
  apply (Permutation_count_occ Z.eq_dec); intros x;
  repeat match goal with
  | H : Permutation _ _ |- _ =>
      let H' := fresh in
      pose proof (proj1 (Permutation_count_occ Z.eq_dec _ _) H x) as H'; clear H
  end;
  rewrite ?fmap_app, ?count_occ_app in *; cbn [count_occ] in *;
  repeat match goal with
  | H : context [Z.eq_dec ?a ?b] |- _ => destruct (Z.eq_dec a b)
  | |- context [Z.eq_dec ?a ?b] => destruct (Z.eq_dec a b)
  end; lia.

(** ** Slot selection *)

(** The probe order is a rotation: whatever the cursor, also after it wrapped,
    every slot is probed exactly once.  (A slice has fewer than 2^63 slots.) *)
Lemma rotation_indices_perm n cursor :
  0 < n <= 2 ^ 63 -> 0 <= cursor ->
  rotation_indices n (rotation_start n cursor) ≡ₚ seqZ 0 n.
Proof.
  intros Hn Hc. unfold rotation_indices, rotation_start.
  rewrite (proj2 (Z.eqb_neq n 0)), Z.max_l by lia.
  pose proof (Z.mod_pos_bound cursor n ltac:(lia)) as Hm. set (start := cursor mod n) in *. clearbody start.
  assert (Hw : forall o, 0 <= o < n -> wrapping_add usize_max start o = start + o).
  { intros o Ho. unfold wrapping_add, usize_max, u64_max. apply Z.mod_small. lia. }
  apply NoDup_Permutation.
  - apply NoDup_fmap_2_strong; [|apply NoDup_seqZ].
    intros x y Hx%elem_of_seqZ Hy%elem_of_seqZ. cbn. rewrite !Hw by lia. intros E.
    pose proof (Z.div_mod (start + x) n). pose proof (Z.div_mod (start + y) n).
    pose proof (Z.mod_pos_bound (start + x) n).
    assert ((start + x) / n = (start + y) / n \/ (start + x) / n < (start + y) / n
            \/ (start + y) / n < (start + x) / n) by lia. nia.
  - apply NoDup_seqZ.
  - intros x. rewrite list_elem_of_fmap. setoid_rewrite elem_of_seqZ. split.
    + intros (o & -> & Ho). rewrite Hw by lia. pose proof (Z.mod_pos_bound (start + o) n). lia.
    + intros Hx. exists ((x - start) mod n). pose proof (Z.mod_pos_bound (x - start) n ltac:(lia)).
      rewrite Hw by lia. split; [|lia].
      rewrite Zplus_mod_idemp_r. replace (start + (x - start)) with x by lia. rewrite Z.mod_small; lia.
Qed.

(** The permits slot [i] has left. *)
Definition permits_at (c : PoolCore) (i : Z) : Z :=
  from_option id 0 (slot_permits c !! Z.to_nat i).

Definition in_range (c : PoolCore) (i : Z) : Prop := 0 <= i < len (slot_permits c).

(** One at [i], nothing elsewhere. *)
Definition at_slot (i j : Z) : Z := if decide (i = j) then 1 else 0.

Definition core_ok (c : PoolCore) : Prop :=
  len (slot_permits c) <= 2 ^ 63 /\ 0 <= next_slot c /\ forall j, 0 <= permits_at c j.

Lemma slot_try_acquire_Some c i c' :
  slot_try_acquire c i = Some c' ->
  in_range c i /\ len (slot_permits c') = len (slot_permits c)
  /\ (core_ok c -> core_ok c') /\ shutdown c' = shutdown c
  /\ forall j, in_range c j -> permits_at c' j + at_slot i j = permits_at c j.
Proof.
  unfold slot_try_acquire, index_get. case_decide; [|done].
  destruct (slot_permits c !! Z.to_nat i) as [n|] eqn:E; [|done].
  destruct (Z.ltb_spec 0 n); [|done]. intros [= <-]. cbn.
  pose proof (lookup_lt_Some _ _ _ E). split; [split; unfold len; lia|].
  split; [unfold len; by rewrite length_insert|]. split; [|split; [done|]].
  { intros (Hl & Hn & Hp). split; [cbn; unfold len in *; by rewrite length_insert|].
    split; [done|]. intros j. specialize (Hp j). unfold permits_at in *. cbn.
    destruct (decide (Z.to_nat i = Z.to_nat j)) as [<-|Hne].
    - rewrite list_lookup_insert_eq by done. cbn. unfold id. lia.
    - by rewrite list_lookup_insert_ne. }
  intros j [Hj _]. unfold permits_at, at_slot. cbn. case_decide as Hij.
  - subst j. rewrite list_lookup_insert_eq by done. rewrite E. cbn. lia.
  - rewrite list_lookup_insert_ne by lia. lia.
Qed.

Lemma slot_try_acquire_None c i :
  in_range c i -> slot_try_acquire c i = None -> permits_at c i <= 0.
Proof.
  intros [Hi Hl]. unfold slot_try_acquire, index_get, permits_at. rewrite decide_True by done.
  destruct (slot_permits c !! Z.to_nat i) as [n|] eqn:E; [|done]. cbn.
  destruct (Z.ltb_spec 0 n); [done|]. unfold id. lia.
Qed.

Lemma release_permit_spec c i :
  in_range c i ->
  len (slot_permits (release_permit c i)) = len (slot_permits c)
  /\ (core_ok c -> core_ok (release_permit c i))
  /\ forall j, in_range c j -> permits_at (release_permit c i) j = permits_at c j + at_slot i j.
Proof.
  intros [Hi Hl]. split; [unfold len; cbn; by rewrite length_alter|]. split.
  { intros (Hlen & Hn & Hp). split; [cbn; unfold len in *; by rewrite length_alter|].
    split; [done|]. intros j. specialize (Hp j). unfold permits_at in *. cbn.
    rewrite list_lookup_alter. destruct (decide _) as [->|]; [|done].
    destruct (slot_permits c !! Z.to_nat j); cbn in *; unfold id in *; lia. }
  intros j [Hj Hjl]. unfold permits_at, at_slot. cbn. case_decide as Hij.
  - subst j. rewrite list_lookup_alter_eq.
    destruct (lookup_lt_is_Some_2 (slot_permits c) (Z.to_nat i)) as [n ->]; [unfold len in Hl; lia|].
    cbn. unfold id. lia.
  - rewrite list_lookup_alter_ne by lia. lia.
Qed.

Lemma find_permit_spec c l :
  match find_permit c l with
  | Some (c', i) => slot_try_acquire c i = Some c'
  | None => forall i, i ∈ l -> slot_try_acquire c i = None
  end.
Proof.
  induction l as [|i l IH]; cbn; [by intros i ?%elem_of_nil|].
  destruct (slot_try_acquire c i) as [c'|] eqn:E; [done|].
  destruct (find_permit c l) as [[c' j]|]; [done|].
  intros j [->|Hj]%elem_of_cons; [done|by apply IH].
Qed.

(** Advancing the cursor touches no permit. *)
Lemma ordered_slot_indices_spec c c' l :
  ordered_slot_indices c = (c', l) -> core_ok c ->
  slot_permits c' = slot_permits c /\ shutdown c' = shutdown c /\ core_ok c'
  /\ (forall i, in_range c i -> i ∈ l).
Proof.
  unfold ordered_slot_indices. intros H (Hl & Hn & Hnn'). pose proof (len_nonneg (slot_permits c)) as Hnn.
  destruct (Z.eqb_spec (len (slot_permits c)) 0) as [E|E]; injection H as <- <-.
  - split; [done|]. split; [done|]. split; [done|]. intros i [??]. lia.
  - split; [done|]. split; [done|]. split.
    + split; [done|]. split; [|done]. cbn. unfold wrapping_add, usize_max, u64_max. apply Z.mod_pos_bound. lia.
    + intros i [??]. rewrite rotation_indices_perm by lia. apply elem_of_seqZ. lia.
Qed.

(** The immediate probe: a permit of some slot, or no slot had one. *)
Lemma try_acquire_permit_spec c late c' r :
  try_acquire_permit c late = (c', r) -> core_ok c ->
  core_ok c' /\ len (slot_permits c') = len (slot_permits c)
  /\ match r with
     | Some i => in_range c i /\ shutdown c = false /\ late = false /\ shutdown c' = false
         /\ forall j, in_range c j -> permits_at c' j + at_slot i j = permits_at c j
     | None => slot_permits c' = slot_permits c
         /\ (shutdown c' = true \/ forall j, in_range c j -> permits_at c j <= 0)
     end.
Proof.
  unfold try_acquire_permit, try_acquire_permit_inner. intros H Hok.
  destruct (shutdown c) eqn:Es; [injection H as <- <-; by auto|].
  destruct (ordered_slot_indices c) as [c1 l] eqn:Eo.
  destruct (ordered_slot_indices_spec _ _ _ Eo Hok) as (Hp & Hs & Hok1 & Hall).
  assert (Hr : forall j, in_range c1 j <-> in_range c j) by (unfold in_range; by rewrite Hp).
  assert (Hat : forall j, permits_at c1 j = permits_at c j) by (intros; unfold permits_at; by rewrite Hp).
  destruct late; [injection H as <- <-; cbn; rewrite Hp; by auto|].
  pose proof (find_permit_spec c1 l) as Hf. destruct (find_permit c1 l) as [[c2 i]|].
  - injection H as <- <-. apply slot_try_acquire_Some in Hf as (Hi & Hlen & Hok2 & Hs2 & Hj).
    split; [by apply Hok2|]. split; [by rewrite Hlen, Hp|].
    split; [by apply Hr|]. split; [done|]. split; [done|]. split; [congruence|].
    intros j Hjr. rewrite Hj by (by apply Hr). apply Hat.
  - injection H as <- <-. split; [done|]. split; [by rewrite Hp|]. split; [done|]. right.
    intros j Hjr. rewrite <-Hat. apply slot_try_acquire_None; [by apply Hr|]. apply Hf, Hall, Hjr.
Qed.

(** ** Where waiters and permits go

    [effect Q t t' inn taken ans lost]: from [t] to [t'], the callers [inn]
    arrived, [ans] were answered (with answers satisfying [Q]), [lost] went
    away unanswered, and of each slot the permits spent on leases are those
    that [t] had and the ones [taken] before. *)

Definition policy (t : SchedulerTask) : PoolFairnessPolicy := fairness_policy (admission t).

Definition leases_of (ans : list (Z * result Z ClientError)) (i : Z) : Z :=
  zsum (fun e => match e.2 with Ok j => at_slot j i | Err _ => 0 end) ans.

Lemma leases_of_app a b i : leases_of (a ++ b) i = leases_of a i + leases_of b i.
Proof. unfold leases_of, zsum. induction a as [|x a IH]; cbn in *; lia. Qed.

(** A lease is of one of [n] slots. *)
Definition leased_in (n : Z) (a : result Z ClientError) : Prop :=
  match a with Ok i => 0 <= i < n | Err _ => True end.

(** The requests of one session. *)
Definition waiters_of (s : SchedulerState) (h : Z) : list Z :=
  (base.filter (fun e => e.1 = h) (fifo_queue s)).*2 ++ default [] (handle_waiters s !! h).

Lemma waiters_deregister s h : waiters s ≡ₚ waiters (deregister_handle s h) ++ waiters_of s h.
Proof.
  unfold waiters, waiters_of. cbn [deregister_handle fifo_queue handle_waiters].
  pose proof (filter_app_complement (fun e : Z * Z => e.1 = h) (fifo_queue s)) as Hf.
  apply (fmap_Permutation snd) in Hf. rewrite fmap_app in Hf.
  assert (Hq : queued (handle_waiters s)
    ≡ₚ queued (delete h (handle_waiters s)) ++ default [] (handle_waiters s !! h)).
  { destruct (handle_waiters s !! h) as [q|] eqn:E; cbn.
    - rewrite (queued_delete _ _ _ E). apply Permutation_app_comm.
    - by rewrite delete_id, app_nil_r. }
  cbn [fmap] in *. perm_lia.
Qed.

Section Task.
Variables closed gone : Z -> bool.
(** The callers whose session was deregistered. *)
Variable retired : Z -> Prop.

Definition absent (w : Z) : Prop := closed w = true \/ gone w = true \/ retired w.

Record effect (Q : result Z ClientError -> Prop) (t t' : SchedulerTask)
    (inn : list Z) (taken : Z -> Z) (ans : list (Z * result Z ClientError)) (lost : list Z) : Prop := {
  ef_admission : admission t' = admission t;
  ef_wf : wf (policy t) (state t');
  ef_core : core_ok (core t');
  ef_slots : len (slot_permits (core t')) = len (slot_permits (core t));
  ef_replies : replies t' = replies t ++ ans;
  ef_answers : Forall (fun e => Q e.2) ans;
  ef_waiters : waiters (state t) ++ inn ≡ₚ waiters (state t') ++ ans.*1 ++ lost;
  ef_lost : Forall absent lost;
  ef_range : Forall (fun e => leased_in (len (slot_permits (core t))) e.2) ans;
  ef_permits j : in_range (core t) j ->
    permits_at (core t') j + leases_of ans j = permits_at (core t) j + taken j
}.

Definition none_taken (_ : Z) : Z := 0.

Definition task_ok (t : SchedulerTask) : Prop := wf (policy t) (state t) /\ core_ok (core t).

Lemma effect_ok Q t t' inn taken ans lost : effect Q t t' inn taken ans lost -> task_ok t'.
Proof. intros H. split; [|apply (ef_core _ _ _ _ _ _ _ H)]. unfold policy. rewrite (ef_admission _ _ _ _ _ _ _ H). apply (ef_wf _ _ _ _ _ _ _ H). Qed.

Lemma effect_refl Q t : task_ok t -> effect Q t t [] none_taken [] [].
Proof.
  intros [Hwf Hc]. split; [done|done|done|done|by rewrite app_nil_r|done|done|done|done|done].
Qed.

Lemma effect_trans Q t1 t2 t3 inn1 inn2 taken1 taken2 ans1 ans2 lost1 lost2 :
  effect Q t1 t2 inn1 taken1 ans1 lost1 -> effect Q t2 t3 inn2 taken2 ans2 lost2 ->
  effect Q t1 t3 (inn1 ++ inn2) (fun j => taken1 j + taken2 j) (ans1 ++ ans2) (lost1 ++ lost2).
Proof.
  intros [A1 W1 C1 S1 R1 Q1 P1 L1 G1 M1] [A2 W2 C2 S2 R2 Q2 P2 L2 G2 M2]. split.
  - congruence.
  - unfold policy in *. congruence.
  - done.
  - congruence.
  - by rewrite R2, R1, app_assoc.
  - by apply Forall_app.
  - perm_lia.
  - by apply Forall_app.
  - rewrite S1 in G2. by apply Forall_app.
  - intros j Hj. specialize (M1 j Hj). rewrite leases_of_app.
    assert (Hj2 : in_range (core t2) j) by (unfold in_range in *; by rewrite S1).
    specialize (M2 j Hj2). lia.
Qed.

(** The same effect, described differently. *)
Lemma effect_conv Q t t' inn taken ans lost inn' taken' ans' lost' :
  effect Q t t' inn taken ans lost ->
  inn = inn' -> (forall j, taken j = taken' j) -> ans = ans' -> lost = lost' ->
  effect Q t t' inn' taken' ans' lost'.
Proof. intros [] <- Ht <- <-. split; try done. intros j Hj. rewrite <-Ht. auto. Qed.

Lemma effect_weaken (Q Q' : result Z ClientError -> Prop) t t' inn taken ans lost :
  (forall a, Q a -> Q' a) -> effect Q t t' inn taken ans lost -> effect Q' t t' inn taken ans lost.
Proof. intros HQ [A W C S R H P L G M]. split; try done. eapply Forall_impl; [exact H|]. intros e. apply HQ. Qed.

Lemma send_effect (Q : result Z ClientError -> Prop) t w a :
  task_ok t -> Q a -> (forall i, a <> Ok i) ->
  exists ans lost, effect Q t (send gone t w a) [w] none_taken ans lost.
Proof.
  intros [Hwf Hc] Ha Hi. unfold send. destruct (gone w) eqn:Eg.
  - exists [], [w]. split; try done; [by rewrite app_nil_r|]. constructor; [by right; left|done].
  - exists [(w, a)], []. split; try done; [by repeat constructor| |].
    { repeat constructor. by destruct a as [i|]; [destruct (Hi i)|]. }
    intros j Hj. cbn. destruct a as [i|]; [by destruct (Hi i)|]. unfold none_taken. lia.
Qed.

Lemma deliver_effect t w i :
  task_ok t -> in_range (core t) i ->
  exists ans lost, effect (fun a => exists i, a = Ok i) t (deliver gone t w i) [w] (at_slot i) ans lost.
Proof.
  intros [Hwf Hc] Hi. unfold deliver, index_get. rewrite decide_True by apply Hi.
  destruct (lookup_lt_is_Some_2 (slot_permits (core t)) (Z.to_nat i)) as [n ->].
  { destruct Hi. unfold len in *. lia. }
  destruct (release_permit_spec (core t) i Hi) as (Hlen & Hok' & Hat).
  destruct (gone w) eqn:Eg.
  - exists [], [w]. split; try done; cbn.
    + by apply Hok'.
    + by rewrite app_nil_r.
    + constructor; [by right; left|done].
    + intros j Hj. rewrite Hat by done. unfold leases_of. cbn. lia.
  - exists [(w, Ok i)], []. unfold send. rewrite Eg. split; try done; cbn.
    + constructor; [by exists i|done].
    + by constructor.
    + intros j Hj. unfold leases_of. cbn. lia.
Qed.

(** A change of the queues, seen together with what is then done: the callers
    [inn] came in, [out] were taken out, [d] were dropped. *)
Lemma state_then Q t s t' inn out d taken ans lost :
  task_ok t -> wf (policy t) s ->
  waiters (state t) ++ inn ≡ₚ d ++ out ++ waiters s -> Forall absent d ->
  effect Q (set_state t s) t' out taken ans lost ->
  effect Q t t' inn taken ans (d ++ lost).
Proof.
  intros [Hwf Hc] Hwf' Hperm Hd [A W C S R HQ P L G M]. split; try done; cbn in *.
  - perm_lia.
  - by apply Forall_app.
Qed.

Lemma closed_absent d : Forall (fun w => closed w = true) d -> Forall absent d.
Proof. intros Hd. eapply Forall_impl; [exact Hd|]. intros x Hx. by left. Qed.

Lemma take_then Q t s w t' taken ans lost :
  task_ok t -> take_next_waiter closed (state t) (policy t) = (s, Some w) ->
  effect Q (set_state t s) t' [w] taken ans lost ->
  exists dropped, effect Q t t' [] taken ans (dropped ++ lost).
Proof.
  intros Hok Htake He. pose proof (take_next_spec closed (policy t) (state t) (proj1 Hok)) as Hs.
  rewrite Htake in Hs. destruct Hs as (Hwf' & (d & Hd & Hperm) & _). exists d.
  eapply state_then; [done|done| |by apply closed_absent|done]. by rewrite app_nil_r.
Qed.

(** The same for permits taken out of the core. *)
Lemma core_then Q t c t' inn taken d ans lost :
  task_ok t -> core_ok c -> len (slot_permits c) = len (slot_permits (core t)) ->
  (forall j, in_range (core t) j -> permits_at c j + d j = permits_at (core t) j) ->
  effect Q (set_core t c) t' inn taken ans lost ->
  effect Q t t' inn (fun j => taken j - d j) ans lost.
Proof.
  intros [Hwf Hc] Hc' Hlen Hd [A W C S R HQ P L G M]. cbn in *. split; try done; cbn in *.
  - congruence.
  - by rewrite Hlen in G.
  - intros j Hj. specialize (Hd j Hj).
    assert (Hj' : in_range c j) by (unfold in_range in *; by rewrite Hlen).
    specialize (M j Hj'). lia.
Qed.

Definition is_lease (a : result Z ClientError) : Prop := exists i, a = Ok i.

(** One grant of a sweep. *)
Lemma grant_effect t late c i s w :
  task_ok t -> try_acquire_permit (core t) late = (c, Some i) ->
  take_next_waiter closed (state t) (policy t) = (s, Some w) ->
  exists ans lost,
    effect is_lease t (deliver gone (set_state (set_core t c) s) w i) [] none_taken ans lost.
Proof.
  intros Hok Htry Htake. pose proof Hok as [Hwf Hc].
  destruct (try_acquire_permit_spec _ _ _ _ Htry Hc) as (Hc' & Hlen & Hi & _ & _ & _ & Hd).
  assert (Hok1 : task_ok (set_core t c)) by (by split).
  assert (Hi' : in_range c i) by (unfold in_range in *; by rewrite Hlen).
  assert (Hok2 : task_ok (set_state (set_core t c) s)).
  { split; [|done]. pose proof (take_next_spec closed (policy t) (state t) Hwf) as Hs.
    rewrite Htake in Hs. by destruct Hs. }
  destruct (deliver_effect (set_state (set_core t c) s) w i Hok2 Hi') as (ans & lost & He).
  destruct (take_then _ (set_core t c) s w _ _ _ _ Hok1 Htake He) as (d & He').
  exists ans, (d ++ lost).
  eapply effect_conv; [eapply core_then; [exact Hok|exact Hc'|exact Hlen|exact Hd|exact He']|done| |done|done].
  intros j. unfold none_taken. lia.
Qed.

Lemma core_only_effect Q t c :
  task_ok t -> core_ok c -> slot_permits c = slot_permits (core t) ->
  effect Q t (set_core t c) [] none_taken [] [].
Proof.
  intros Hok Hc Hp. pose proof Hok as [Hwf _].
  assert (Hok' : task_ok (set_core t c)) by (by split).
  eapply effect_conv; [eapply (core_then _ t c _ _ _ (fun _ => 0)); [done|done|by rewrite Hp| |by apply effect_refl]|done| |done|done].
  - intros j Hj. unfold permits_at. rewrite Hp. lia.
  - intros j. unfold none_taken. lia.
Qed.

Lemma sweep_effect fuel late : forall t,
  task_ok t ->
  exists ans lost,
    effect is_lease t (grant_sweep_loop closed gone fuel late t) [] none_taken ans lost.
Proof.
  induction fuel as [|fuel IH]; intros t Hok; cbn [grant_sweep_loop].
  { exists [], []. by apply effect_refl. }
  destruct (has_live_waiters closed (state t)) eqn:Hlive; [|exists [], []; by apply effect_refl].
  destruct (try_acquire_permit (core t) late) as [c [i|]] eqn:Htry.
  - destruct (take_next_found closed (policy t) (state t) (proj1 Hok) Hlive) as (s & w & Htake).
    unfold policy in Htake. rewrite Htake.
    destruct (grant_effect t late c i s w Hok Htry Htake) as (a1 & l1 & He1).
    destruct (IH _ (effect_ok _ _ _ _ _ _ _ He1)) as (a2 & l2 & He2).
    exists (a1 ++ a2), (l1 ++ l2).
    eapply effect_conv; [exact (effect_trans _ _ _ _ _ _ _ _ _ _ _ _ He1 He2)|done| |done|done].
    intros j. unfold none_taken. lia.
  - destruct (try_acquire_permit_spec _ _ _ _ Htry (proj2 Hok)) as (Hc' & _ & Hp & _).
    exists [], []. by apply core_only_effect.
Qed.

(** No idle capacity: a sweep stops because nobody listens any more, because no
    slot has a permit, or because the pool is shutting down. *)
Lemma sweep_exhausts fuel late : forall t,
  task_ok t -> len (waiters (state t)) < Z.of_nat fuel ->
  let t' := grant_sweep_loop closed gone fuel late t in
  has_live_waiters closed (state t') = false
  \/ shutdown (core t') = true
  \/ forall j, in_range (core t') j -> permits_at (core t') j <= 0.
Proof.
  induction fuel as [|fuel IH]; intros t Hok Hf; cbn [grant_sweep_loop].
  { pose proof (len_nonneg (waiters (state t))). lia. }
  destruct (has_live_waiters closed (state t)) eqn:Hlive; [|by left].
  destruct (try_acquire_permit (core t) late) as [c [i|]] eqn:Htry.
  - destruct (take_next_found closed (policy t) (state t) (proj1 Hok) Hlive) as (s & w & Htake).
    unfold policy in Htake. rewrite Htake.
    destruct (grant_effect t late c i s w Hok Htry Htake) as (a1 & l1 & He1).
    apply IH; [exact (effect_ok _ _ _ _ _ _ _ He1)|].
    assert (Hst : state (deliver gone (set_state (set_core t c) s) w i) = s).
    { unfold deliver, send. by destruct (index_get _ _), (gone w). }
    rewrite Hst. pose proof (take_next_spec closed (policy t) (state t) (proj1 Hok)) as Hs.
    unfold policy in Hs. rewrite Htake in Hs. destruct Hs as (_ & (d & _ & Hperm) & _).
    rewrite Hperm, !len_app in Hf. pose proof (len_nonneg d). change (len (found (Some w))) with 1 in Hf. lia.
  - destruct (try_acquire_permit_spec _ _ _ _ Htry (proj2 Hok)) as (Hc' & Hlen & Hp & [Hs|Hs]).
    + right. left. done.
    + right. right. intros j Hj. cbn in *. unfold in_range, permits_at in *. rewrite Hp in *. by apply Hs.
Qed.

Lemma sweep_fuel_enough t : len (waiters (state t)) < Z.of_nat (sweep_fuel t).
Proof. unfold sweep_fuel. rewrite waiter_count_len. pose proof (len_nonneg (waiters (state t))). lia. Qed.

Definition is_refusal (e : ClientError) (a : result Z ClientError) : Prop := a = Err e.

(** Refusing everyone: all who listen get the error, and the queues are empty. *)
Lemma refuse_effect e fuel : forall t,
  task_ok t -> len (waiters (state t)) < Z.of_nat fuel ->
  exists ans lost,
    effect (is_refusal e) t (refuse_waiters closed gone fuel t e) [] none_taken ans lost
    /\ waiters (state (refuse_waiters closed gone fuel t e)) = [].
Proof.
  induction fuel as [|fuel IH]; intros t Hok Hf; cbn [refuse_waiters].
  { pose proof (len_nonneg (waiters (state t))). lia. }
  pose proof (take_next_spec closed (policy t) (state t) (proj1 Hok)) as Hs.
  destruct (take_next_waiter closed (state t) (policy t)) as [s [w|]] eqn:Htake;
    unfold policy in Htake; rewrite Htake; destruct Hs as (Hwf' & (d & Hd & Hperm) & Hr).
  - assert (Hok1 : task_ok (set_state t s)) by (split; [done|apply Hok]).
    destruct (send_effect (is_refusal e) (set_state t s) w (Err e) Hok1 eq_refl) as (a1 & l1 & He1); [done|].
    destruct (take_then _ _ _ _ _ _ _ _ Hok Htake He1) as (d1 & He1').
    destruct (IH _ (effect_ok _ _ _ _ _ _ _ He1)) as (a2 & l2 & He2 & Hnil).
    + assert (Hst : state (send gone (set_state t s) w (Err e)) = s) by (unfold send; by destruct (gone w)).
      rewrite Hst. rewrite Hperm, !len_app in Hf. pose proof (len_nonneg d).
      change (len (found (Some w))) with 1 in Hf. lia.
    + exists (a1 ++ a2), ((d1 ++ l1) ++ l2). split; [|done].
      eapply effect_conv; [exact (effect_trans _ _ _ _ _ _ _ _ _ _ _ _ He1' He2)|done| |done|done].
      intros j. unfold none_taken. lia.
  - exists [], d. split; [|done]. destruct Hok as [Hwf Hc]. split; try done; cbn.
    + by rewrite app_nil_r.
    + rewrite Hr in *. cbn in *. rewrite !app_nil_r in *. done.
    + eapply Forall_impl; [exact Hd|]. intros x Hx. by left.
Qed.

Lemma effect_status Q t t' st inn taken ans lost :
  effect Q t t' inn taken ans lost -> effect Q t (set_status t' st) inn taken ans lost.
Proof. by intros []. Qed.

Lemma effect_receiver Q t t' r b inn taken ans lost :
  effect Q t t' inn taken ans lost -> effect Q t (set_receiver t' r b) inn taken ans lost.
Proof. by intros []. Qed.

Lemma effect_from_status Q t t' st inn taken ans lost :
  effect Q (set_status t st) t' inn taken ans lost -> effect Q t t' inn taken ans lost.
Proof. by intros []. Qed.

Lemma effect_from_receiver Q t t' r b inn taken ans lost :
  effect Q (set_receiver t r b) t' inn taken ans lost -> effect Q t t' inn taken ans lost.
Proof. by intros []. Qed.

Definition any_answer (_ : result Z ClientError) : Prop := True.

Lemma handle_acquire_effect late t h w :
  task_ok t ->
  exists ans lost,
    effect any_answer t (handle_acquire closed gone late t h w) [w] none_taken ans lost.
Proof.
  intros Hok. unfold handle_acquire.
  destruct (is_running (status t)); cbn [negb]; [|by apply send_effect].
  pose proof (enqueue_spec closed (policy t) (state t) h w (max_waiters (admission t))) as Hs.
  replace (mk_WaiterAdmission (policy t) (max_waiters (admission t))) with (admission t) in Hs
    by (unfold policy; by destruct (admission t)).
  destruct (enqueue_waiter closed (state t) h w (admission t)) as [s r].
  destruct (Hs (proj1 Hok)) as (Hwf' & _ & Hr).
  set (d := base.filter (fun x => ~ live closed x) (waiters (state t))).
  assert (Hd : Forall absent d).
  { apply closed_absent. apply Forall_forall. intros x [Hx _]%list_elem_of_filter.
    unfold live in Hx. by destruct (closed x). }
  pose proof (filter_app_complement (live closed) (waiters (state t))) as Hsplit. fold d in Hsplit.
  assert (Hok' : task_ok (set_state t s)) by (split; [done|apply Hok]).
  destruct r as [|w'].
  - destruct Hr as [Hperm _].
    destruct (sweep_effect (sweep_fuel (set_state t s)) late _ Hok') as (ans & lost & He).
    exists ans, (d ++ lost).
    assert (He' : effect any_answer t (grant_sweep closed gone late (set_state t s)) [w] none_taken ans (d ++ lost)).
    { eapply state_then; [done|done| |done|eapply effect_weaken; [done|exact He]]. perm_lia. }
    destruct (has_queued_waiter _ h); [by apply effect_status|done].
  - destruct Hr as (-> & Hperm & _).
    destruct (send_effect any_answer (set_state t s) w (Err (PoolSaturated (max_waiters (admission t)))) Hok')
      as (ans & lost & He); [done|done|].
    exists ans, (d ++ lost). eapply state_then; [done|done| |done|exact He]. perm_lia.
Qed.

Lemma deregister_effect t h :
  task_ok t -> (forall w, w ∈ waiters_of (state t) h -> retired w) ->
  effect any_answer t (set_state t (deregister_handle (state t) h)) [] none_taken []
    (waiters_of (state t) h).
Proof.
  intros [Hwf Hc] Hret. split; try done; cbn.
  - by apply wf_deregister.
  - by rewrite app_nil_r.
  - rewrite app_nil_r. apply waiters_deregister.
  - apply Forall_forall. intros w Hw. right. right. by apply Hret.
Qed.

Lemma on_permit_won_effect t i :
  task_ok t -> in_range (core t) i ->
  exists ans lost, effect is_lease t (on_permit_won closed gone t i) [] (at_slot i) ans lost.
Proof.
  intros Hok Hi. unfold on_permit_won. fold (policy t).
  pose proof (take_next_spec closed (policy t) (state t) (proj1 Hok)) as Hs.
  destruct (take_next_waiter closed (state t) (policy t)) as [s [w|]] eqn:Htake;
    destruct Hs as (Hwf' & (d & Hd & Hperm) & Hr).
  - assert (Hok1 : task_ok (set_state t s)) by (split; [done|apply Hok]).
    destruct (deliver_effect (set_state t s) w i Hok1 Hi) as (ans & lost & He).
    destruct (take_then _ _ _ _ _ _ _ _ Hok Htake He) as (d' & He'). by exists ans, (d' ++ lost).
  - exists [], (d ++ []). destruct (release_permit_spec (core t) i Hi) as (Hlen & Hok' & Hat).
    eapply state_then; [done|done|by rewrite app_nil_r|by apply closed_absent|].
    destruct Hok as [Hwf Hc]. split; try done; cbn; [by apply Hok'|by rewrite app_nil_r|].
    intros j Hj. rewrite Hat by done. unfold leases_of. cbn. lia.
Qed.

Lemma fail_effect t :
  task_ok t ->
  exists ans lost, effect any_answer t (fail_on_race_error closed gone t) [] none_taken ans lost
    /\ waiters (state (fail_on_race_error closed gone t)) = [].
Proof.
  intros Hok. unfold fail_on_race_error.
  set (t1 := if is_running (status t) then _ else t).
  assert (Ht1 : exists st, t1 = set_status t st).
  { unfold t1. destruct (is_running (status t)); [by eexists|]. exists (status t). by destruct t. }
  clearbody t1. destruct Ht1 as [st ->].
  destruct (refuse_effect (close_error (status (set_status t st))) (sweep_fuel (set_status t st)) (set_status t st) Hok (sweep_fuel_enough _))
    as (ans & lost & He & Hnil).
  exists ans, lost. split; [|done]. apply effect_receiver, (effect_from_status _ t _ st).
  by eapply effect_weaken; [|exact He].
Qed.

(** ** The permit race *)

Lemma race_settle_spec late c i c' r :
  race_settle late c i = (c', r) -> in_range c i -> core_ok c ->
  core_ok c' /\ len (slot_permits c') = len (slot_permits c)
  /\ match r with
     | Some (Ok j) => j = i /\ c' = c
     | Some (Err _) => forall j, in_range c j -> permits_at c' j = permits_at c j + at_slot i j
     | None => False
     end.
Proof.
  unfold race_settle. intros H Hi Hc.
  destruct (release_permit_spec c i Hi) as (Hlen & Hok & Hat).
  destruct (late || shutdown c); injection H as <- <-; [|done].
  split; [by apply Hok|]. split; [done|]. exact Hat.
Qed.

(** Whatever the race does, only a won permit is missing afterwards. *)
Definition race_spec (c c' : PoolCore) (r : option (result Z ClientError)) : Prop :=
  core_ok c' /\ len (slot_permits c') = len (slot_permits c)
  /\ match r with
     | Some (Ok i) => in_range c i /\ forall j, in_range c j -> permits_at c' j + at_slot i j = permits_at c j
     | _ => forall j, in_range c j -> permits_at c' j = permits_at c j
     end.

Lemma race_poll_spec late won c c' r : race_poll late won c = (c', r) -> core_ok c -> race_spec c c' r.
Proof.
  unfold race_poll. intros H Hc. destruct (slot_try_acquire c won) as [c1|] eqn:E.
  - apply slot_try_acquire_Some in E as (Hi & Hlen & Hok & _ & Hat).
    assert (Hr : forall j, in_range c1 j <-> in_range c j) by (intros; unfold in_range; by rewrite Hlen).
    destruct (race_settle_spec _ _ _ _ _ H (proj2 (Hr won) Hi) (Hok Hc)) as (Hc' & Hlen' & Hcase).
    split; [done|]. split; [by rewrite Hlen', Hlen|]. destruct r as [[j|e]|]; [| |done].
    + by destruct Hcase as [-> ->].
    + intros j Hj. rewrite Hcase, <-(Hat j Hj) by (by apply Hr). done.
  - injection H as <- <-. by split.
Qed.

Lemma race_start_spec late c c' r : race_start late c = (c', r) -> core_ok c -> race_spec c c' r.
Proof.
  unfold race_start. intros H Hc. destruct (_ || _); [injection H as <- <-; by split|].
  destruct (ordered_slot_indices c) as [c1 l] eqn:Eo.
  destruct (ordered_slot_indices_spec _ _ _ Eo Hc) as (Hp & _ & Hc1 & _).
  assert (Hlen1 : len (slot_permits c1) = len (slot_permits c)) by (by rewrite Hp).
  assert (Hat1 : forall j, permits_at c1 j = permits_at c j) by (intros; unfold permits_at; by rewrite Hp).
  assert (Hr : forall j, in_range c1 j <-> in_range c j) by (intros; unfold in_range; by rewrite Hlen1).
  pose proof (find_permit_spec c1 l) as Hf. destruct (find_permit c1 l) as [[c2 i]|].
  - assert (Hpoll : race_poll late i c1 = (c', r)) by (unfold race_poll; by rewrite Hf).
    destruct (race_poll_spec _ _ _ _ _ Hpoll Hc1) as (Hc' & Hlen' & Hcase).
    split; [done|]. split; [congruence|]. destruct r as [[j|e]|].
    + destruct Hcase as [Hj Hall]. split; [by apply Hr|]. intros x Hx. rewrite <-Hat1. by apply Hall, Hr.
    + intros x Hx. rewrite <-Hat1. by apply Hcase, Hr.
    + intros x Hx. rewrite <-Hat1. by apply Hcase, Hr.
  - injection H as <- <-. split; [done|]. split; [done|]. intros x _. apply Hat1.
Qed.

Lemma handle_permit_outcome_effect late t c outcome :
  task_ok t -> race_spec (core t) c outcome ->
  exists ans lost,
    effect any_answer t (handle_permit_outcome closed gone late (set_core t c) outcome) [] none_taken ans lost.
Proof.
  intros Hok (Hc & Hlen & Hcase).
  assert (Hok1 : task_ok (set_core t c)) by (split; [apply Hok|done]).
  destruct outcome as [[i|e]|]; cbn [handle_permit_outcome].
  - destruct Hcase as [Hi Hat].
    destruct (on_permit_won_effect (set_core t c) i Hok1) as (a1 & l1 & He1).
    { unfold in_range in *. cbn. by rewrite Hlen. }
    destruct (sweep_effect (sweep_fuel (on_permit_won closed gone (set_core t c) i)) late _
      (effect_ok _ _ _ _ _ _ _ He1)) as (a2 & l2 & He2).
    exists (a1 ++ a2), (l1 ++ l2).
    pose proof (core_then _ _ _ _ _ _ _ _ _ Hok Hc Hlen Hat (effect_trans _ _ _ _ _ _ _ _ _ _ _ _ He1 He2)) as He.
    eapply effect_weaken; [done|]. eapply effect_conv; [exact He|done| |done|done].
    intros j. unfold none_taken. lia.
  - destruct (fail_effect _ Hok1) as (ans & lost & He & _). exists ans, lost.
    eapply effect_conv; [eapply (core_then _ t c _ _ _ (fun _ => 0)); [done|done|done| |exact He]|done| |done|done].
    + intros j Hj. rewrite Hcase by done. lia.
    + intros j. unfold none_taken. lia.
  - exists [], [].
    eapply effect_conv; [eapply (core_then _ t c _ _ _ (fun _ => 0)); [done|done|done| |by apply effect_refl]|done| |done|done].
    + intros j Hj. rewrite Hcase by done. lia.
    + intros j. unfold none_taken. lia.
Qed.

(** ** Shutdown *)

Definition callers (cs : list SchedulerCommand) : list Z :=
  omap (fun c => match c with Acquire _ w => Some w | DeregisterHandle _ => None end) cs.

Lemma refuse_buffered_effect cs : forall t,
  task_ok t ->
  exists ans lost,
    effect (is_refusal PoolClosed) t (refuse_buffered gone cs t) (callers cs) none_taken ans lost.
Proof.
  induction cs as [|[h w|h] cs IH]; intros t Hok; cbn [refuse_buffered].
  - exists [], []. by apply effect_refl.
  - destruct (send_effect (is_refusal PoolClosed) t w (Err PoolClosed) Hok eq_refl) as (a1 & l1 & He1); [done|].
    destruct (IH _ (effect_ok _ _ _ _ _ _ _ He1)) as (a2 & l2 & He2).
    exists (a1 ++ a2), (l1 ++ l2).
    eapply effect_conv; [exact (effect_trans _ _ _ _ _ _ _ _ _ _ _ _ He1 He2)|done| |done|done].
    intros j. unfold none_taken. lia.
  - apply IH, Hok.
Qed.

(** What refusing callers leaves alone. *)
Lemma refuse_waiters_frame fuel e : forall t,
  let t' := refuse_waiters closed gone fuel t e in
  receiver t' = receiver t /\ receiver_closed t' = receiver_closed t /\ status t' = status t.
Proof.
  induction fuel as [|fuel IH]; intros t; cbn [refuse_waiters]; [done|].
  destruct (take_next_waiter closed (state t) _) as [s [w|]]; [|done].
  destruct (IH (send gone (set_state t s) w (Err e))) as (-> & -> & ->).
  unfold send. by destruct (gone w).
Qed.

Lemma refuse_buffered_frame cs : forall t,
  let t' := refuse_buffered gone cs t in
  state t' = state t /\ receiver t' = receiver t
  /\ receiver_closed t' = receiver_closed t /\ status t' = status t.
Proof.
  induction cs as [|[h w|h] cs IH]; intros t; cbn [refuse_buffered]; [done| |apply IH].
  destruct (IH (send gone t w (Err PoolClosed))) as (-> & -> & -> & ->).
  unfold send. by destruct (gone w).
Qed.

Lemma drain_effect t :
  task_ok t ->
  let t' := drain_for_shutdown closed gone t in
  (exists ans lost, effect (is_refusal PoolClosed) t t' (callers (receiver t)) none_taken ans lost)
  /\ waiters (state t') = [] /\ receiver t' = [] /\ receiver_closed t' = true
  /\ status t' = mark_closed (status t).
Proof.
  intros Hok t'. unfold t', drain_for_shutdown. set (t1 := set_status t (mark_closed (status t))).
  destruct (refuse_effect PoolClosed (sweep_fuel t1) t1 Hok (sweep_fuel_enough _)) as (a1 & l1 & He1 & Hnil).
  pose proof (refuse_waiters_frame (sweep_fuel t1) PoolClosed t1) as (Hr & Hrc & Hst).
  set (t2 := refuse_waiters closed gone (sweep_fuel t1) t1 PoolClosed) in *.
  destruct (refuse_buffered_effect (receiver t2) (set_receiver t2 [] true) (effect_ok _ _ _ _ _ _ _ He1))
    as (a2 & l2 & He2).
  destruct (refuse_buffered_frame (receiver t2) (set_receiver t2 [] true)) as (-> & -> & -> & ->).
  cbn [set_receiver state receiver receiver_closed status]. rewrite Hst.
  split; [|done]. exists (a1 ++ a2), (l1 ++ l2). apply (effect_from_status _ _ _ (mark_closed (status t))).
  eapply effect_conv; [exact (effect_trans _ _ _ _ _ _ _ _ _ _ _ _ He1 (effect_from_receiver _ _ _ _ _ _ _ _ _ He2))
    |by rewrite Hr| |done|done].
  intros j. unfold none_taken. lia.
Qed.

End Task.
