(* ===== verification/PoolWorld.v ===== *)
(** * The client pool at work

    Runs of the pool: turns of the scheduler task, requests and deregistrations
    sent by handles, leases returned by callers and the closing of the pool, in
    any order.  The theorems are the promises of the pool to its users. *)

From S2P Require Import Prelude.
From S2P Require Import ClientError.
From S2P Require Import PoolScheduler.
From S2P Require Import PoolFairness.
From S2P Require Import PoolTask.

Local Open Scope Z_scope.

(** ** What a turn leaves alone *)

Section Frame.
Variables closed gone : Z -> bool.

Definition same_mailbox (t t' : SchedulerTask) : Prop :=
  receiver t' = receiver t /\ status t' = status t /\ admission t' = admission t.

Lemma deliver_frame t w i : same_mailbox t (deliver gone t w i).
Proof. unfold deliver, send. by destruct (index_get _ _), (gone w). Qed.

Lemma sweep_frame late fuel : forall t, same_mailbox t (grant_sweep_loop closed gone fuel late t).
Proof.
  induction fuel as [|fuel IH]; intros t; cbn [grant_sweep_loop]; [done|].
  destruct (has_live_waiters closed (state t)); [|done].
  destruct (try_acquire_permit (core t) late) as [c [i|]]; [|done].
  destruct (take_next_waiter closed (state t) _) as [s [w|]]; [|done].
  destruct (IH (deliver gone (set_state (set_core t c) s) w i)) as (H1 & H2 & H3).
  destruct (deliver_frame (set_state (set_core t c) s) w i) as (D1 & D2 & D3).
  unfold same_mailbox. by rewrite H1, H2, H3, D1, D2, D3.
Qed.

Lemma handle_acquire_mailbox late t h w : receiver (handle_acquire closed gone late t h w) = receiver t.
Proof.
  unfold handle_acquire. destruct (negb _); [unfold send; by destruct (gone w)|].
  destruct (enqueue_waiter closed (state t) h w (admission t)) as [s [|w']].
  - destruct (sweep_frame late (sweep_fuel (set_state t s)) (set_state t s)) as (Hr & _ & _).
    destruct (has_queued_waiter _ h); exact Hr.
  - unfold send. by destruct (gone w').
Qed.

Lemma handle_command_mailbox late t c : receiver (handle_command closed gone late t c) = receiver t.
Proof. destruct c; cbn; [apply handle_acquire_mailbox|done]. Qed.

Lemma handle_permit_outcome_mailbox late t o :
  receiver (handle_permit_outcome closed gone late t o) = receiver t.
Proof.
  destruct o as [[i|e]|]; cbn [handle_permit_outcome]; [| |done].
  - unfold grant_sweep. destruct (sweep_frame late (sweep_fuel (on_permit_won closed gone t i))
      (on_permit_won closed gone t i)) as (-> & _ & _).
    unfold on_permit_won. destruct (take_next_waiter closed (state t) _) as [s [w|]]; [|done].
    by destruct (deliver_frame (set_state t s) w i) as (-> & _ & _).
  - unfold fail_on_race_error. set (t1 := if is_running _ then _ else _). cbn [receiver set_receiver].
    destruct (refuse_waiters_frame closed gone (sweep_fuel t1) (close_error (status t1)) t1) as (-> & _ & _).
    unfold t1. by destruct (is_running (status t)).
Qed.

(** ** One turn of the loop *)

Definition task_of (p : Progress) : SchedulerTask :=
  match p with Continue t _ | Parked t _ | Finished t => t end.

Definition pending_of (p : Progress) : PendingGrant :=
  match p with Continue _ g | Parked _ g => g | Finished _ => NoGrant end.

(** The requests of the session that the next command deregisters. *)
Definition retired_next (t : SchedulerTask) (w : Z) : Prop :=
  exists h rest, receiver t = DeregisterHandle h :: rest /\ w ∈ waiters_of (state t) h.

Lemma handle_command_effect late t command rest :
  receiver t = command :: rest -> task_ok t ->
  exists ans lost,
    effect closed gone (retired_next t) any_answer t
      (handle_command closed gone late (set_receiver t rest (receiver_closed t)) command)
      (callers [command]) none_taken ans lost.
Proof.
  intros Hr Hok. destruct command as [h w|h]; cbn [handle_command].
  - destruct (handle_acquire_effect closed gone (retired_next t) late
      (set_receiver t rest (receiver_closed t)) h w Hok) as (ans & lost & He).
    exists ans, lost. by eapply effect_from_receiver.
  - exists [], (waiters_of (state t) h).
    eapply effect_from_receiver, (deregister_effect closed gone (retired_next t) (set_receiver t rest (receiver_closed t)) h Hok).
    intros w Hw. by exists h, rest.
Qed.

Lemma poll_pending_permit_spec late won t pending t1 pending1 r :
  poll_pending_permit late won t pending = (t1, pending1, r) -> task_ok t ->
  exists c, t1 = set_core t c
    /\ race_spec (core t) c (match r with Some (Some o) => Some o | _ => None end)
    /\ match r with Some None => False | _ => True end.
Proof.
  intros H Hok. destruct pending; cbn in H.
  - injection H as <- <- <-. exists (core t). split; [by destruct t|]. split; [|done].
    split; [apply Hok|done].
  - destruct (race_start late (core t)) as [c o] eqn:E. injection H as <- <- <-.
    exists c. split; [done|]. pose proof (race_start_spec _ _ _ _ E (proj2 Hok)) as Hs.
    by destruct o as [o|].
  - destruct (race_poll late won (core t)) as [c o] eqn:E. injection H as <- <- <-.
    exists c. split; [done|]. pose proof (race_poll_spec _ _ _ _ _ E (proj2 Hok)) as Hs.
    by destruct o as [o|].
Qed.

Lemma effect_from_race Q retired t c t' inn ans lost :
  task_ok t -> race_spec (core t) c None ->
  effect closed gone retired Q (set_core t c) t' inn none_taken ans lost ->
  effect closed gone retired Q t t' inn none_taken ans lost.
Proof.
  intros Hok (Hc & Hlen & Hat) He.
  eapply effect_conv; [eapply (core_then closed gone retired Q t c _ _ _ (fun _ => 0)); [done|done|done| |exact He]|done| |done|done].
  - intros j Hj. rewrite Hat by done. lia.
  - intros j. unfold none_taken. lia.
Qed.

Lemma turn_effect late senders won t pending :
  task_ok t ->
  let t' := task_of (run_step closed gone late senders won t pending) in
  exists inn ans lost,
    effect closed gone (retired_next t) any_answer t t' inn none_taken ans lost
    /\ callers (receiver t) = inn ++ callers (receiver t').
Proof.
  intros Hok. unfold run_step. set (p1 := match pending with NoGrant => _ | p => p end). clearbody p1.
  destruct (shutdown (core t)) eqn:Es; cbn [task_of].
  { destruct (drain_effect closed gone (retired_next t) t Hok) as ((ans & lost & He) & _ & Hr & _).
    exists (callers (receiver t)), ans, lost. split; [by eapply effect_weaken|]. by rewrite Hr, app_nil_r. }
  destruct (poll_pending_permit late won t p1) as [[t1 p2] r] eqn:Ep.
  destruct (poll_pending_permit_spec _ _ _ _ _ _ _ Ep Hok) as (c & -> & Hrace & Hr).
  assert (Hok1 : task_ok (set_core t c)) by (split; [apply Hok|apply Hrace]).
  destruct r as [[o|]|]; [|done|].
  - destruct (handle_permit_outcome_effect closed gone (retired_next t) late t c (Some o) Hok Hrace)
      as (ans & lost & He).
    exists [], ans, lost. cbn [task_of]. by rewrite handle_permit_outcome_mailbox.
  - unfold recv. destruct (receiver (set_core t c)) as [|command rest] eqn:Erecv.
    + exists [], [], []. destruct (receiver_closed (set_core t c) || negb senders); cbn [task_of];
        (split; [|done]); [apply effect_status|];
        apply (effect_from_race _ _ t c); try done; by apply effect_refl.
    + destruct (handle_command_effect late (set_core t c) command rest Erecv Hok1) as (ans & lost & He).
      exists (callers [command]), ans, lost. cbn [task_of]. split.
      * by apply (effect_from_race _ _ t c).
      * rewrite handle_command_mailbox. cbn in Erecv |- *. rewrite Erecv. by destruct command.
Qed.

End Frame.

(** ** Runs *)

(** [leased] are the slots of the leases callers hold. *)
Record world : Type := mk_world {
  task : SchedulerTask;
  grant : PendingGrant;
  leased : list Z
}.

Definition lease_slots (ans : list (Z * result Z ClientError)) : list Z :=
  omap (fun e => match e.2 with Ok i => Some i | Err _ => None end) ans.

Inductive world_step : world -> world -> Prop :=
  | step_turn w closed gone late senders won :
      let p := run_step closed gone late senders won (task w) (grant w) in
      world_step w (mk_world (task_of p) (pending_of p)
        (leased w ++ lease_slots (drop (length (replies (task w))) (replies (task_of p)))))
  | step_acquire w h reply t :
      acquire (task w) h reply = (t, Ok tt) ->
      world_step w (mk_world t (grant w) (leased w))
  | step_deregister w h : world_step w (mk_world (deregister (task w) h) (grant w) (leased w))
  | step_release w l1 i l2 :
      leased w = l1 ++ i :: l2 ->
      world_step w (mk_world (set_core (task w) (release_permit (core (task w)) i)) (grant w) (l1 ++ l2))
  | step_close w : world_step w (mk_world (pool_close (task w)) (grant w) (leased w)).

Definition world_init (cfg : ClientPoolConfig) : world :=
  mk_world
    (start (core_new (Z.to_nat (cfg_pool_size cfg)) (cfg_max_in_flight_per_socket cfg))
       (cfg_fairness_policy cfg) (cfg_max_waiters cfg))
    NoGrant [].

Definition reachable (cfg : ClientPoolConfig) (w : world) : Prop := rtc world_step (world_init cfg) w.

Definition leases_on (w : world) (i : Z) : Z := zsum (fun j => at_slot j i) (leased w).

(** The configuration's setters keep every size at least one; a pool has fewer
    than 2^63 slots. *)
Definition cfg_ok (cfg : ClientPoolConfig) : Prop :=
  1 <= cfg_pool_size cfg <= 2 ^ 63 /\ 1 <= cfg_max_waiters cfg /\ 1 <= cfg_max_in_flight_per_socket cfg.

Record world_ok (cfg : ClientPoolConfig) (w : world) : Prop := {
  wo_task : task_ok (task w);
  wo_slots : len (slot_permits (core (task w))) = cfg_pool_size cfg;
  wo_admission : admission (task w) = mk_WaiterAdmission (cfg_fairness_policy cfg) (cfg_max_waiters cfg);
  wo_waiters : len (waiters (state (task w))) <= cfg_max_waiters cfg;
  wo_leased : Forall (fun i => 0 <= i < cfg_pool_size cfg) (leased w);
  wo_permits i : 0 <= i < cfg_pool_size cfg ->
    permits_at (core (task w)) i + leases_on w i = cfg_max_in_flight_per_socket cfg
}.

Lemma at_slot_bound i j : 0 <= at_slot i j <= 1.
Proof. unfold at_slot. case_decide; lia. Qed.

Lemma leases_of_slots ans i : zsum (fun j => at_slot j i) (lease_slots ans) = leases_of ans i.
Proof.
  unfold leases_of, zsum, lease_slots. induction ans as [|[w [j|e]] ans IH]; cbn in *; [done|lia|lia].
Qed.

Lemma world_init_ok cfg : cfg_ok cfg -> world_ok cfg (world_init cfg).
Proof.
  intros (Hs & Hm & Hp).
  assert (Hat : forall j, 0 <= j < cfg_pool_size cfg ->
    replicate (Z.to_nat (cfg_pool_size cfg)) (cfg_max_in_flight_per_socket cfg) !! Z.to_nat j
    = Some (cfg_max_in_flight_per_socket cfg)) by (intros; apply lookup_replicate_2; lia).
  split; cbn.
  - split; [apply wf_new|]. split; [cbn; unfold len; rewrite length_replicate; lia|]. split; [done|].
    intros j. unfold permits_at. cbn. destruct (replicate _ _ !! _) as [n|] eqn:E; [|done].
    apply lookup_replicate in E as [-> _]. cbn. unfold id. lia.
  - unfold len. rewrite length_replicate. lia.
  - done.
  - change (len (waiters state_new) <= cfg_max_waiters cfg).
    assert (waiters state_new = []) as -> by apply queued_empty. change (len (@nil Z)) with 0. lia.
  - done.
  - intros i Hi. unfold permits_at, leases_on. cbn. rewrite Hat by done. cbn. unfold id. lia.
Qed.

Lemma lease_slots_in_range n ans :
  Forall (fun e => leased_in n e.2) ans -> Forall (fun i => 0 <= i < n) (lease_slots ans).
Proof.
  induction 1 as [|[w [j|e]] ans H _ IH]; cbn; [done|by constructor|done].
Qed.

(** A turn keeps the pool's books. *)
Lemma world_turn_ok cfg w closed gone retired Q t' g inn ans lost :
  world_ok cfg w ->
  effect closed gone retired Q (task w) t' inn none_taken ans lost ->
  len (waiters (state t')) <= cfg_max_waiters cfg ->
  world_ok cfg (mk_world t' g
    (leased w ++ lease_slots (drop (length (replies (task w))) (replies t')))).
Proof.
  intros [Ht Hs Ha Hw Hl Hp] He Hb. pose proof (effect_ok _ _ _ _ _ _ _ _ _ _ He) as Ht'.
  destruct He as [A W C S R HQ P L G M].
  assert (Hd : drop (length (replies (task w))) (replies t') = ans) by (rewrite R; apply drop_app_length).
  rewrite Hd. split; cbn [task leased].
  - done.
  - congruence.
  - congruence.
  - done.
  - apply Forall_app. split; [done|]. rewrite Hs in G. by apply lease_slots_in_range.
  - intros i Hi. specialize (Hp i Hi). unfold leases_on in *. cbn [leased]. rewrite zsum_app, leases_of_slots.
    specialize (M i ltac:(unfold in_range; lia)). unfold none_taken in M. lia.
Qed.

Lemma effect_bound closed gone retired Q t t' taken ans lost :
  effect closed gone retired Q t t' [] taken ans lost ->
  len (waiters (state t')) <= len (waiters (state t)).
Proof.
  intros He. pose proof (ef_waiters _ _ _ _ _ _ _ _ _ _ He) as P. rewrite app_nil_r in P.
  rewrite P, len_app. pose proof (len_nonneg (ans.*1 ++ lost)). lia.
Qed.

(** Admission keeps the bound: the queue is checked after the cancelled have
    left, and the sweep only takes from it. *)
Lemma handle_acquire_bound closed gone late t h w :
  task_ok t -> len (waiters (state t)) <= max_waiters (admission t) ->
  len (waiters (state (handle_acquire closed gone late t h w))) <= max_waiters (admission t).
Proof.
  intros Hok Hb. unfold handle_acquire.
  destruct (negb _); [unfold send; by destruct (gone w)|].
  pose proof (enqueue_spec closed (policy t) (state t) h w (max_waiters (admission t))) as Hs.
  replace (mk_WaiterAdmission (policy t) (max_waiters (admission t))) with (admission t) in Hs
    by (unfold policy; by destruct (admission t)).
  destruct (enqueue_waiter closed (state t) h w (admission t)) as [s r].
  destruct (Hs (proj1 Hok)) as (Hwf' & _ & Hr). destruct r as [|w'].
  - assert (Hok' : task_ok (set_state t s)) by (split; [done|apply Hok]).
    destruct (sweep_effect closed gone (fun _ => False) (sweep_fuel (set_state t s)) late _ Hok') as (ans & lost & He).
    pose proof (effect_bound _ _ _ _ _ _ _ _ _ He) as Hle. cbn in Hle.
    change (grant_sweep_loop closed gone (sweep_fuel (set_state t s)) late (set_state t s))
      with (grant_sweep closed gone late (set_state t s)) in Hle.
    destruct Hr as [_ Hr]. destruct (has_queued_waiter _ h); cbn; lia.
  - destruct Hr as (-> & Hperm & _).
    assert (Hst : state (send gone (set_state t s) w (Err (PoolSaturated (max_waiters (admission t))))) = s)
      by (unfold send; by destruct (gone w)).
    rewrite Hst, Hperm. pose proof (length_filter (live closed) (waiters (state t))).
    unfold len in *. lia.
Qed.

Lemma turn_bound closed gone late senders won t pending :
  task_ok t -> 0 <= max_waiters (admission t) ->
  len (waiters (state t)) <= max_waiters (admission t) ->
  len (waiters (state (task_of (run_step closed gone late senders won t pending))))
  <= max_waiters (admission t).
Proof.
  intros Hok H0 Hb. unfold run_step. set (p1 := match pending with NoGrant => _ | p => p end). clearbody p1.
  destruct (shutdown (core t)) eqn:Es; cbn [task_of].
  { destruct (drain_effect closed gone (fun _ => False) t Hok) as (_ & -> & _). done. }
  destruct (poll_pending_permit late won t p1) as [[t1 p2] r] eqn:Ep.
  destruct (poll_pending_permit_spec _ _ _ _ _ _ _ Ep Hok) as (c & -> & Hrace & Hr).
  assert (Hok1 : task_ok (set_core t c)) by (split; [apply Hok|apply Hrace]).
  destruct r as [[o|]|]; [|done|].
  - destruct (handle_permit_outcome_effect closed gone (fun _ => False) late t c (Some o) Hok Hrace)
      as (ans & lost & He). apply effect_bound in He. cbn [task_of]. lia.
  - unfold recv. destruct (receiver (set_core t c)) as [|command rest].
    + by destruct (receiver_closed (set_core t c) || negb senders).
    + destruct command as [h w|h]; cbn [task_of handle_command].
      * by apply (handle_acquire_bound closed gone late (set_receiver (set_core t c) rest _)).
      * change (len (waiters (deregister_handle (state t) h)) <= max_waiters (admission t)).
        rewrite (waiters_deregister (state t) h), len_app in Hb.
        pose proof (len_nonneg (waiters_of (state t) h)). lia.
Qed.

Lemma world_step_ok cfg w w' : cfg_ok cfg -> world_step w w' -> world_ok cfg w -> world_ok cfg w'.
Proof.
  intros Hcfg Hstep Hok. pose proof Hok as [Ht Hs Ha Hw Hl Hp].
  destruct Hstep as [w closed gone late senders won p|w h reply t Hacq|w h|w l1 i l2 Hleased|w].
  - destruct (turn_effect closed gone late senders won (task w) (grant w) Ht) as (inn & ans & lost & He & _).
    eapply world_turn_ok; [done|exact He|].
    pose proof (turn_bound closed gone late senders won (task w) (grant w) Ht) as Hbound.
    rewrite Ha in Hbound. apply Hbound; [destruct Hcfg; cbn; lia|done].
  - unfold acquire in Hacq. destruct (negb _); [done|]. destruct (receiver_closed _); [done|].
    injection Hacq as <-. by split.
  - unfold deregister. destruct (receiver_closed _); by split.
  - assert (Hi : 0 <= i < cfg_pool_size cfg) by (eapply Forall_forall in Hl; [exact Hl|]; rewrite Hleased; set_solver).
    destruct (release_permit_spec (core (task w)) i) as (Hlen & Hok' & Hat); [unfold in_range; lia|].
    split; cbn [task leased].
    + split; [apply Ht|]. apply Hok', Ht.
    + exact (eq_trans Hlen Hs).
    + done.
    + done.
    + rewrite Hleased in Hl. apply Forall_app in Hl as [Hl1 Hl2]. apply Forall_cons in Hl2 as [_ Hl2].
      by apply Forall_app.
    + intros j Hj. specialize (Hp j Hj). unfold leases_on in *. cbn [leased]. rewrite Hleased in Hp.
      rewrite zsum_app in *. cbn [core set_core]. rewrite Hat by (unfold in_range; lia).
      change (zsum (fun x => at_slot x j) (i :: l2)) with (at_slot i j + zsum (fun x => at_slot x j) l2) in Hp. lia.
  - by split.
Qed.

Lemma reachable_ok cfg w : cfg_ok cfg -> reachable cfg w -> world_ok cfg w.
Proof.
  intros Hcfg Hr. revert w Hr. apply rtc_ind_r; [by apply world_init_ok|].
  intros w w' _ Hstep Hok. by eapply world_step_ok.
Qed.

(** ** Properties *)

(** Everyone who asked and has no answer yet: queued, or still in the mailbox. *)
Definition unanswered (t : SchedulerTask) : list Z := waiters (state t) ++ callers (receiver t).

(** A pool of two slots with one request in flight each, for the witnesses. *)
Definition small_pool : ClientPoolConfig :=
  set_pool_size 2 (set_max_waiters 3 config_default).

Definition nobody (_ : Z) : bool := false.

(** The request [reply] of session [h], sent and served by one turn. *)
Definition served (w : world) (h reply : Z) : world :=
  let t := (acquire (task w) h reply).1 in
  let p := run_step nobody nobody false true 0 t (grant w) in
  mk_world (task_of p) (pending_of p)
    (leased w ++ lease_slots (drop (length (replies t)) (replies (task_of p)))).

Lemma served_reachable cfg w h reply :
  reachable cfg w -> (acquire (task w) h reply).2 = Ok tt -> reachable cfg (served w h reply).
Proof.
  intros Hr Ha. eapply rtc_r; [eapply rtc_r; [exact Hr|]|].
  - apply (step_acquire w h reply (acquire (task w) h reply).1). rewrite <-Ha. apply surjective_pairing.
  - exact (step_turn (mk_world (acquire (task w) h reply).1 (grant w) (leased w)) nobody nobody false true 0).
Qed.

(** C19: whatever its users do, the pool keeps its limits: no slot has more
    leases out than requests may be in flight on a socket, every lease is of a
    slot of the pool, the permits not leased are in the slots, and at most
    [max_waiters] callers are queued. *)
Theorem pool_keeps_its_limits cfg w :
  cfg_ok cfg -> reachable cfg w ->
  Forall (fun i => 0 <= i < cfg_pool_size cfg) (leased w)
  /\ (forall i, 0 <= i < cfg_pool_size cfg ->
        leases_on w i <= cfg_max_in_flight_per_socket cfg
        /\ permits_at (core (task w)) i = cfg_max_in_flight_per_socket cfg - leases_on w i)
  /\ waiter_count (state (task w)) <= cfg_max_waiters cfg.
Proof.
  intros Hcfg Hr. destruct (reachable_ok cfg w Hcfg Hr) as [Ht Hs Ha Hw Hl Hp].
  split; [done|]. split; [|by rewrite waiter_count_len].
  intros i Hi. specialize (Hp i Hi). destruct Ht as [_ (_ & _ & Hnn)]. specialize (Hnn i). lia.
Qed.

Lemma pool_keeps_its_limits_witness :
  let w := served (served (served (world_init small_pool) 1 10) 2 20) 3 30 in
  leased w = [0; 1] /\ waiters (state (task w)) = [30]
  /\ Forall (fun i => 0 <= i < 2) (leased w)
  /\ (forall i, 0 <= i < 2 -> leases_on w i <= 1
        /\ permits_at (core (task w)) i = 1 - leases_on w i)
  /\ waiter_count (state (task w)) <= 3.
Proof.
  split; [vm_compute; reflexivity|]. split; [vm_compute; reflexivity|].
  apply (pool_keeps_its_limits small_pool).
  - repeat split; vm_compute; discriminate.
  - repeat (apply served_reachable; [|vm_compute; reflexivity]). apply rtc_refl.
Defined.

(** C6: no caller is lost or answered twice: in every turn of the scheduler,
    whatever the other threads do meanwhile, the callers that were unanswered
    before it are, one by one, unanswered after it, answered once in it, gone
    (their receiver was dropped), or of the session that the turn
    deregistered. *)
Theorem every_caller_is_accounted_for cfg w closed gone late senders won :
  cfg_ok cfg -> reachable cfg w ->
  let t := task w in
  let t' := task_of (run_step closed gone late senders won t (grant w)) in
  exists ans lost,
    replies t' = replies t ++ ans
    /\ unanswered t ≡ₚ unanswered t' ++ ans.*1 ++ lost
    /\ Forall (fun x => closed x = true \/ gone x = true \/ retired_next t x) lost.
Proof.
  intros Hcfg Hr t t'. destruct (reachable_ok cfg w Hcfg Hr) as [Ht _ _ _ _ _].
  destruct (turn_effect closed gone late senders won (task w) (grant w) Ht)
    as (inn & ans & lost & [A W C S R HQ P L G M] & Hin).
  exists ans, lost. split; [done|]. split; [|done]. unfold unanswered, t. rewrite Hin.
  subst t t'. perm_lia.
Qed.

Lemma every_caller_is_accounted_for_witness :
  let w := served (served (world_init small_pool) 1 10) 2 20 in
  let t := (acquire (task w) 3 30).1 in
  let w' := mk_world t (grant w) (leased w) in
  unanswered t = [30]
  /\ exists ans lost,
    replies (task_of (run_step nobody nobody false true 0 t (grant w))) = replies t ++ ans
    /\ unanswered t ≡ₚ unanswered (task_of (run_step nobody nobody false true 0 t (grant w))) ++ ans.*1 ++ lost
    /\ Forall (fun x => nobody x = true \/ nobody x = true \/ retired_next t x) lost.
Proof.
  intros w t w'. split; [vm_compute; reflexivity|].
  apply (every_caller_is_accounted_for small_pool w' nobody nobody false true 0).
  - repeat split; vm_compute; discriminate.
  - eapply rtc_r; [|apply (step_acquire w 3 30); vm_compute; reflexivity].
    repeat (apply served_reachable; [|vm_compute; reflexivity]). apply rtc_refl.
Defined.

(** The scheduler leaves no capacity idle: after it has admitted a request
    or received a permit it won, nobody who still listens is queued, or no slot
    has a permit left, or the pool is shutting down. *)
Theorem no_capacity_is_left_idle cfg w closed gone late h reply :
  cfg_ok cfg -> reachable cfg w ->
  let settled t :=
    has_live_waiters closed (state t) = false
    \/ shutdown (core t) = true
    \/ forall i, 0 <= i < cfg_pool_size cfg -> permits_at (core t) i = 0 in
  settled (grant_sweep closed gone late (task w))
  /\ (is_running (status (task w)) = true ->
      (enqueue_waiter closed (state (task w)) h reply (admission (task w))).2 = Enqueued ->
      settled (handle_acquire closed gone late (task w) h reply))
  /\ (forall c i, race_spec (core (task w)) c (Some (Ok i)) ->
      settled (handle_permit_outcome closed gone late (set_core (task w) c) (Some (Ok i)))).
Proof.
  intros Hcfg Hr settled. destruct (reachable_ok cfg w Hcfg Hr) as [Ht Hs Ha Hw Hl Hp].
  assert (Hsweep : forall t, task_ok t -> len (slot_permits (core t)) = cfg_pool_size cfg ->
    settled (grant_sweep closed gone late t)).
  { intros t Hok Hlen. unfold grant_sweep.
    destruct (sweep_effect closed gone (fun _ => False) (sweep_fuel t) late t Hok) as (ans & lost & He).
    destruct (sweep_exhausts closed gone (fun _ => False) (sweep_fuel t) late t Hok (sweep_fuel_enough t)) as [H|[H|H]];
      [by left|by right; left|right; right]. intros i Hi.
    pose proof (proj2 (proj2 (ef_core _ _ _ _ _ _ _ _ _ _ He)) i) as Hnn.
    specialize (H i ltac:(unfold in_range; rewrite (ef_slots _ _ _ _ _ _ _ _ _ _ He); lia)). lia. }
  split; [by apply Hsweep|]. split.
  - intros Hrun Henq. unfold handle_acquire. rewrite Hrun. cbn [negb].
    pose proof (enqueue_spec closed (policy (task w)) (state (task w)) h reply (max_waiters (admission (task w)))) as He.
    replace (mk_WaiterAdmission (policy (task w)) (max_waiters (admission (task w)))) with (admission (task w)) in He
      by (unfold policy; by destruct (admission (task w))).
    destruct (enqueue_waiter closed (state (task w)) h reply (admission (task w))) as [s r]. cbn in Henq. subst r.
    destruct (He (proj1 Ht)) as [Hwf' _].
    assert (Hd : settled (grant_sweep closed gone late (set_state (task w) s)))
      by (apply Hsweep; [split; [done|apply Ht]|done]).
    by destruct (has_queued_waiter _ h).
  - intros c i (Hc & Hlen & Hi & Hat). cbn [handle_permit_outcome].
    destruct (on_permit_won_effect closed gone (fun _ => False) (set_core (task w) c) i) as (ans & lost & He).
    + split; [apply Ht|done].
    + unfold in_range in *. cbn. by rewrite Hlen.
    + apply Hsweep; [exact (effect_ok _ _ _ _ _ _ _ _ _ _ He)|].
      rewrite (ef_slots _ _ _ _ _ _ _ _ _ _ He). cbn. congruence.
Qed.

Lemma no_capacity_is_left_idle_witness :
  let w := served (world_init small_pool) 1 10 in
  let t := handle_acquire nobody nobody false (task w) 2 20 in
  has_live_waiters nobody (state t) = false
  \/ shutdown (core t) = true
  \/ forall i, 0 <= i < cfg_pool_size small_pool -> permits_at (core t) i = 0.
Proof.
  intros w t.
  assert (Hr : reachable small_pool w)
    by (apply served_reachable; [apply rtc_refl|vm_compute; reflexivity]).
  assert (Hc : cfg_ok small_pool) by (repeat split; vm_compute; discriminate).
  destruct (no_capacity_is_left_idle small_pool w nobody nobody false 2 20 Hc Hr) as (_ & H & _).
  apply H; vm_compute; reflexivity.
Defined.

(** C20: closing the pool answers everyone: the first turn after shutdown was
    published ends the task; every caller that was queued or in the mailbox and
    still listens is told that the pool is closed, nobody gets a lease, nothing
    is left behind, and later acquisitions are refused at once. *)
Theorem shutdown_answers_everyone cfg w closed gone late senders won h reply :
  cfg_ok cfg -> reachable cfg w -> shutdown (core (task w)) = true ->
  exists t' ans lost,
    run_step closed gone late senders won (task w) (grant w) = Finished t'
    /\ unanswered t' = [] /\ replies t' = replies (task w) ++ ans
    /\ Forall (fun e => e.2 = Err PoolClosed) ans
    /\ unanswered (task w) ≡ₚ ans.*1 ++ lost
    /\ Forall (fun x => closed x = true \/ gone x = true) lost
    /\ is_running (status t') = false
    /\ acquire t' h reply = (t', Err (close_error (status t'))).
Proof.
  intros Hcfg Hr Hs. destruct (reachable_ok cfg w Hcfg Hr) as [Ht _ _ _ _ _].
  destruct (drain_effect closed gone (fun _ => False) (task w) Ht)
    as ((ans & lost & [A W C S R HQ P L G M]) & Hnil & Hrec & Hcl & Hst).
  set (t' := drain_for_shutdown closed gone (task w)) in *.
  assert (Hrun : is_running (status t') = false).
  { rewrite Hst. unfold is_running, mark_closed, lifecycle.
    destruct (Z.eqb_spec (lifecycle_raw (status (task w))) (to_raw Running)) as [E|E]; [done|].
    apply bool_decide_eq_false. unfold from_raw. cbn in E.
    rewrite (proj2 (Z.eqb_neq _ 0)) by done. by destruct (_ =? 1). }
  exists t', ans, lost. split; [unfold run_step; by rewrite Hs|].
  split; [unfold unanswered; by rewrite Hnil, Hrec|]. split; [done|].
  split; [exact HQ|]. split; [unfold unanswered; rewrite Hnil in P; exact P|].
  split; [|split; [done|unfold acquire; by rewrite Hrun]].
  eapply Forall_impl; [exact L|]. intros x [|[|[]]]; auto.
Qed.

Lemma shutdown_answers_everyone_witness :
  let w := served (served (served (world_init small_pool) 1 10) 2 20) 3 30 in
  let t := pool_close (acquire (task w) 4 40).1 in
  let w' := mk_world t (grant w) (leased w) in
  unanswered t = [30; 40]
  /\ exists t' ans lost,
    run_step nobody nobody false true 0 t (grant w) = Finished t'
    /\ unanswered t' = [] /\ replies t' = replies t ++ ans
    /\ Forall (fun e => e.2 = Err PoolClosed) ans
    /\ unanswered t ≡ₚ ans.*1 ++ lost
    /\ Forall (fun x => nobody x = true \/ nobody x = true) lost
    /\ is_running (status t') = false
    /\ acquire t' 5 50 = (t', Err (close_error (status t'))).
Proof.
  intros w t w'. split; [vm_compute; reflexivity|].
  assert (Hr : reachable small_pool w').
  { eapply rtc_r; [eapply rtc_r; [|apply (step_acquire w 4 40); vm_compute; reflexivity]|].
    - repeat (apply served_reachable; [|vm_compute; reflexivity]). apply rtc_refl.
    - exact (step_close (mk_world (acquire (task w) 4 40).1 (grant w) (leased w))). }
  assert (Hc : cfg_ok small_pool) by (repeat split; vm_compute; discriminate).
  exact (shutdown_answers_everyone small_pool w' nobody nobody false true 0 5 50 Hc Hr eq_refl).
Defined.

(** C16: under round robin no session waits for more turns than there are
    sessions ahead of it in the rotation: while it has a request that is not
    cancelled, whatever is queued, cancelled or deregistered by others, one of
    the next [ahead + 1] selections is for it. *)
Theorem session_gets_its_turn owner ops s h w0 :
  waiting owner h w0 s -> Forall (op_fair owner h w0) ops ->
  (ahead h (round_robin_order s) < length (base.filter is_take ops))%nat ->
  (ahead h (round_robin_order s) < length (round_robin_order s))%nat
  /\ exists w, Some w ∈ (run (sched_step RoundRobin) s ops).2 /\ owner w = h.
Proof.
  intros Hs Hops Hlt. split; [by apply ahead_lt, (waiting_in_order owner h w0)|by apply (turn_comes owner h w0)].
Qed.

Lemma session_gets_its_turn_witness :
  let owner w := w / 10 in
  let acq h w := OpAcquire nobody 8 h w in
  let s := (run (sched_step RoundRobin) state_new [acq 1 10; acq 1 11; acq 2 20; acq 1 12; acq 3 30]).1 in
  let ops := [acq 1 13; OpTake nobody; acq 4 40; OpTake nobody; OpTake nobody] in
  (ahead 3 (round_robin_order s) < length (round_robin_order s))%nat
  /\ exists w, Some w ∈ (run (sched_step RoundRobin) s ops).2 /\ owner w = 3.
Proof.
  intros owner acq s ops. apply (session_gets_its_turn owner ops s 3 30).
  - assert (Hs : s = mk_SchedulerState [] [1; 2; 3]
      (<[3 := [30]]> (<[1 := [10; 11; 12]]> (<[2 := [20]]> (<[1 := [10; 11]]> (<[1 := [10]]> ∅))))))
      by (vm_compute; reflexivity).
    rewrite Hs. clear Hs s. split.
    + split; [repeat constructor; rewrite ?elem_of_cons, ?elem_of_nil; lia| |done|done].
      intros x. cbn [round_robin_order handle_waiters]. rewrite !lookup_insert_is_Some', lookup_empty.
      rewrite !elem_of_cons, elem_of_nil. split; [intros [|[|[|[]]]]; subst; auto 6|].
      intros [|[|[|[|[|[? [=]]]]]]]; subst; auto.
    + intros g q. cbn [handle_waiters]. rewrite !lookup_insert_Some, lookup_empty.
      intros Hg. decompose [or and] Hg; subst; try done; repeat constructor.
    + exists [30]. by split; [|left].
  - repeat constructor.
  - vm_compute. lia.
Defined.

(** Under FIFO callers are served in the order they asked: the callers
    selected, followed by those still queued, appear in the order in which they
    were queued and arrived; cancelled and refused ones are missing, none is
    overtaken or duplicated. *)
Theorem fifo_serves_in_arrival_order ops s :
  wf Fifo s ->
  let '(s', outs) := run (sched_step Fifo) s ops in
  omap id outs ++ fifo_waiters s' `sublist_of` fifo_waiters s ++ arrivals ops.
Proof. apply fifo_run. Qed.

Lemma fifo_serves_in_arrival_order_witness :
  let cancelled w := w =? 20 in
  let ops := [OpAcquire nobody 8 1 10; OpAcquire nobody 8 2 20; OpAcquire nobody 8 3 30;
              OpTake cancelled; OpTake cancelled; OpAcquire cancelled 8 1 11] in
  let '(s', outs) := run (sched_step Fifo) state_new ops in
  omap id outs ++ fifo_waiters s' `sublist_of` fifo_waiters state_new ++ arrivals ops.
Proof. apply fifo_serves_in_arrival_order. apply wf_new. Defined.
