(* ===== verification/PoolLease.v ===== *)
(** * Pooled leases on one socket

    Models [client/pool/lease.rs], [slot.rs], [managed.rs] and [manager.rs]:
    the leases of one slot share its socket through the protocol gate.

    An operation of a lease is an [async fn]; a [Phase] is the await it is
    suspended at, and each definition below is the code between two awaits.
    [step] runs one of them, a cancellation at any await (the future is
    dropped), the end of a lease, or a step of bb8.  bb8's pool of size one
    either holds the connection ([idle]) or has it checked out; what [get]
    answers is a [GetOutcome], under bb8's documented behaviour: a connection
    it kept and that [is_valid], a new one, or an error.  The peer answers each
    request once, in order: [owed] are the leases whose replies the connection
    has yet to deliver.  [delivered] records which lease read a reply to whom. *)

From S2P Require Import Prelude.
From S2P Require Import ClientError.

Local Open Scope Z_scope.

(** ** [managed.rs], [manager.rs] *)

Record ManagedClientConnection : Type := mk_Conn {
  conn_id : Z;
  owed : list Z;
  broken : bool
}.

(** [ManagedClientConnection::new] of a client just connected. *)
Definition conn_new (id : Z) : ManagedClientConnection := mk_Conn id [] false.
Definition mark_broken (c : ManagedClientConnection) : ManagedClientConnection :=
  mk_Conn (conn_id c) (owed c) true.
Definition is_broken (c : ManagedClientConnection) : bool := broken c.

Definition is_valid (c : ManagedClientConnection) : result unit ClientError :=
  if is_broken c then Err disconnected else Ok tt.
Definition has_broken (c : ManagedClientConnection) : bool := is_broken c.

(** ** [slot.rs] *)

Record PoolSlot : Type := mk_PoolSlot {
  idle : option ManagedClientConnection;
  protocol_gate : Z;
  idle_timeout : Z;
  last_returned_at : option Z;
  discard_on_next_checkout : bool
}.

Definition slot_new (timeout : Z) : PoolSlot := mk_PoolSlot None 1 timeout None false.

Definition set_idle (c : option ManagedClientConnection) (s : PoolSlot) : PoolSlot :=
  mk_PoolSlot c (protocol_gate s) (idle_timeout s) (last_returned_at s) (discard_on_next_checkout s).
Definition set_gate (n : Z) (s : PoolSlot) : PoolSlot :=
  mk_PoolSlot (idle s) n (idle_timeout s) (last_returned_at s) (discard_on_next_checkout s).
Definition set_last (t : option Z) (s : PoolSlot) : PoolSlot :=
  mk_PoolSlot (idle s) (protocol_gate s) (idle_timeout s) t (discard_on_next_checkout s).
Definition set_discard (b : bool) (s : PoolSlot) : PoolSlot :=
  mk_PoolSlot (idle s) (protocol_gate s) (idle_timeout s) (last_returned_at s) b.

Definition discard_next_checkout (s : PoolSlot) : PoolSlot := set_discard true s.
Definition should_discard_lazily (s : PoolSlot) : PoolSlot * bool :=
  (set_discard false s, discard_on_next_checkout s).
Definition should_recycle_idle (now : Z) (s : PoolSlot) : bool :=
  match last_returned_at s with
  | Some t => bool_decide (idle_timeout s <= saturating_duration_since now t)
  | None => false
  end.
Definition clear_last_returned_at (s : PoolSlot) : PoolSlot := set_last None s.

Inductive GetOutcome : Type :=
  | Reuse
  | Fresh (id : Z)
  | GetTimedOut
  | GetUser (e : ClientError).

(** [None]: bb8 has no connection to reuse. *)
Definition get_connection (o : GetOutcome) (s : PoolSlot)
    : option (PoolSlot * result ManagedClientConnection ClientError) :=
  match o with
  | Reuse =>
      match idle s with
      | Some c => if is_ok (is_valid c) then Some (set_idle None s, Ok c) else None
      | None => None
      end
  | Fresh id => Some (set_idle None s, Ok (conn_new id))
  | GetTimedOut =>
      Some (s, Err (client_from_io (mk_io_error TimedOut "pooled connection checkout timed out")))
  | GetUser e => Some (s, Err e)
  end.

(** A [PooledConnection] is dropped: bb8 keeps it unless it is broken. *)
Definition put_back (c : ManagedClientConnection) (s : PoolSlot) : PoolSlot :=
  if has_broken c then set_idle None s else set_idle (Some c) s.

(** [checkout] between its two calls of [get_connection]: whether the connection
    is replaced. *)
Definition checkout_inspect (now pending : Z) (c : ManagedClientConnection) (s : PoolSlot)
    : PoolSlot * bool :=
  let '(s, discard_requested) := should_discard_lazily s in
  let is_idle_expired := bool_decide (pending = 0) && should_recycle_idle now s in
  if discard_requested || is_idle_expired
  then (clear_last_returned_at (put_back (mark_broken c) s), true)
  else (s, false).

(** ** [lease.rs] *)

Inductive PendingResponseChange : Type :=
  | Add
  | Remove
  | NoChange.

#[export] Instance Conn_eq_dec : EqDecision ManagedClientConnection.
Proof. solve_decision. Defined.
#[export] Instance PendingResponseChange_eq_dec : EqDecision PendingResponseChange.
Proof. solve_decision. Defined.

(** What the client operation behind each change does to the connection. *)
Inductive BodyStep : Type :=
  | DoSend
  | DoReceive.

#[export] Instance BodyStep_eq_dec : EqDecision BodyStep.
Proof. solve_decision. Defined.

Definition body (change : PendingResponseChange) : list BodyStep :=
  match change with
  | Add => [DoSend]
  | Remove => [DoReceive]
  | NoChange => [DoSend; DoReceive]
  end.

Inductive Phase : Type :=
  | AwaitGate (change : PendingResponseChange)
  | AwaitGet (change : PendingResponseChange)
  | AwaitReplacement (change : PendingResponseChange)
  | Running (change : PendingResponseChange) (c : ManagedClientConnection) (todo : list BodyStep).

Record PooledClientLease : Type := mk_Lease {
  pending_responses : Z;
  pending_response_permit : bool;
  running : option Phase
}.

Definition lease_new : PooledClientLease := mk_Lease 0 false None.

Definition set_pending (n : Z) (le : PooledClientLease) : PooledClientLease :=
  mk_Lease n (pending_response_permit le) (running le).
Definition set_running (p : option Phase) (le : PooledClientLease) : PooledClientLease :=
  mk_Lease (pending_responses le) (pending_response_permit le) p.

Abbreviation At := (PoolSlot * PooledClientLease)%type (only parsing).

(** [drop(pending_response_permit.take())] *)
Definition release_gate (x : At) : At :=
  let '(s, le) := x in
  if pending_response_permit le
  then (set_gate (protocol_gate s + 1) s, mk_Lease (pending_responses le) false (running le))
  else (s, le).

Definition discard_connection_with_pending_response (x : At) : At :=
  (discard_next_checkout x.1, set_pending 0 x.2).

(** [dispatch_on_connection] up to its first await, with [admit_operation]. *)
Definition admit_operation (change : PendingResponseChange) (x : At)
    : At * option (result unit ClientError) :=
  let has_pending_response := bool_decide (0 < pending_responses x.2) in
  let is_whole_exchange := bool_decide (change = NoChange) in
  if has_pending_response && is_whole_exchange then
    (release_gate (discard_connection_with_pending_response x), Some (Err disconnected))
  else if has_pending_response then
    ((x.1, set_running (Some (AwaitGet change)) x.2), None)
  else ((x.1, set_running (Some (AwaitGate change)) x.2), None).

(** The gate's permit arrives; assigning it drops the one held before. *)
Definition gate_granted (change : PendingResponseChange) (x : At) : At :=
  let '(s, le) := release_gate (set_gate (protocol_gate x.1 - 1) x.1, x.2) in
  (s, mk_Lease (pending_responses le) true (Some (AwaitGet change))).

Definition checkout_failed (x : At) : At :=
  let x := if bool_decide (0 < pending_responses x.2)
           then discard_connection_with_pending_response x else x in
  let '(s, le) := release_gate x in (s, set_running None le).

(** The connection arrives from bb8, for the first or the second time. *)
Definition got_connection (now : Z) (o : GetOutcome) (change : PendingResponseChange) (first : bool)
    (x : At) : option (At * option (result unit ClientError)) :=
  match get_connection o x.1 with
  | None => None
  | Some (s, Err e) => Some (checkout_failed (s, x.2), Some (Err e))
  | Some (s, Ok c) =>
      let '(s, replaced) :=
        if first then checkout_inspect now (pending_responses x.2) c s else (s, false) in
      Some ((s, set_running (Some (if replaced then AwaitReplacement change
                                   else Running change c (body change))) x.2), None)
  end.

Definition record_response_change (change : PendingResponseChange) (pending : Z) : Z :=
  match change with
  | Add => wrapping_add usize_max pending 1
  | Remove => saturating_sub pending 1
  | NoChange => pending
  end.

(** [finish_operation]: the connection, the unread replies, and whether the
    socket stays busy. *)
Definition finish_operation (r : result unit ClientError) (change : PendingResponseChange)
    (c : ManagedClientConnection) (pending : Z) : ManagedClientConnection * Z * bool :=
  match r with
  | Err e =>
      if should_recycle_connection e then (mark_broken c, 0, false)
      else (c, pending, bool_decide (0 < pending))
  | Ok _ =>
      let pending := record_response_change change pending in
      (c, pending, bool_decide (0 < pending))
  end.

(** [SlotConnection::drop] *)
Definition slot_connection_drop (now : Z) (armed : bool) (c : ManagedClientConnection) (x : At) : At :=
  let '(c, le) := if armed then (mark_broken c, set_pending 0 x.2) else (c, x.2) in
  let s := set_last (if is_broken c then None else Some now) x.1 in
  (put_back c s, le).

(** The rest of [dispatch_on_connection] once the operation returned. *)
Definition operation_returned (now : Z) (r : result unit ClientError)
    (change : PendingResponseChange) (c : ManagedClientConnection) (x : At) : At :=
  let '(c, pending, keeps_socket_busy) := finish_operation r change c (pending_responses x.2) in
  let x := slot_connection_drop now false c (x.1, set_pending pending x.2) in
  let '(s, le) := if keeps_socket_busy then x else release_gate x in
  (s, set_running None le).

(** How an await of the operation's body ends.  A request that cannot be
    serialized is not sent; every other failure may come after the request was
    written or a reply taken. *)
Inductive IoOutcome : Type :=
  | Done
  | SerializeFailed (e : string)
  | IoFailed (e : ClientError) (after : bool).

Definition body_effect (l : Z) (st : BodyStep) (c : ManagedClientConnection)
    : option (ManagedClientConnection * option (Z * Z)) :=
  match st with
  | DoSend => Some (mk_Conn (conn_id c) (owed c ++ [l]) (broken c), None)
  | DoReceive =>
      match owed c with
      | o :: os => Some (mk_Conn (conn_id c) os (broken c), Some (l, o))
      | [] => None
      end
  end.

Definition operation_polled (now l : Z) (o : IoOutcome) (change : PendingResponseChange)
    (c : ManagedClientConnection) (todo : list BodyStep) (x : At)
    : option (At * option (result unit ClientError) * option (Z * Z)) :=
  match todo, o with
  | [], _ => None
  | st :: todo, Done =>
      match body_effect l st c with
      | None => None
      | Some (c, d) =>
          match todo with
          | [] => Some (operation_returned now (Ok tt) change c x, Some (Ok tt), d)
          | _ :: _ => Some ((x.1, set_running (Some (Running change c todo)) x.2), None, d)
          end
      end
  | st :: _, SerializeFailed e =>
      if bool_decide (st = DoSend)
      then Some (operation_returned now (Err (Serialize e)) change c x, Some (Err (Serialize e)), None)
      else None
  | st :: _, IoFailed e after =>
      if should_recycle_connection e then
        let c := if after then default c (fst <$> body_effect l st c) else c in
        Some (operation_returned now (Err e) change c x, Some (Err e), None)
      else None
  end.

(** The future of an operation is dropped at its await. *)
Definition operation_cancelled (now : Z) (p : Phase) (x : At) : At :=
  let x := match p with
           | Running _ c _ => slot_connection_drop now true c x
           | _ => x
           end in
  (x.1, set_running None x.2).

(** [PooledClientLease::drop], then the fields. *)
Definition lease_drop (x : At) : PoolSlot :=
  let x := if bool_decide (0 < pending_responses x.2)
           then discard_connection_with_pending_response x else x in
  (release_gate x).1.

(** ** The slot and its leases *)

Record World : Type := mk_World {
  slot : PoolSlot;
  leases : gmap Z PooledClientLease;
  results : list (Z * result unit ClientError);
  delivered : list (Z * Z)
}.

Definition world_new (timeout : Z) : World := mk_World (slot_new timeout) ∅ [] [].

Inductive Event : Type :=
  | NewLease (l : Z)
  | Begin (l : Z) (change : PendingResponseChange)
  | GateGranted (l : Z)
  | Got (l now : Z) (o : GetOutcome)
  | Polled (l now : Z) (o : IoOutcome)
  | Cancel (l now : Z)
  | DropLease (l : Z)
  | Reap
  | Replenish (id : Z).

Definition put (l : Z) (x : At) (r : option (result unit ClientError)) (d : option (Z * Z)) (w : World)
    : World :=
  mk_World x.1 (<[l := x.2]> (leases w))
    (results w ++ match r with Some r => [(l, r)] | None => [] end)
    (delivered w ++ match d with Some d => [d] | None => [] end).

Definition with_lease (l : Z) (w : World) (k : At -> option World) : option World :=
  match leases w !! l with
  | Some le => k (slot w, le)
  | None => None
  end.

Definition is_running (le : PooledClientLease) : bool :=
  match running le with Some (Running _ _ _) => true | _ => false end.

(** [None]: the event cannot happen here.  The mutex of a lease lets one
    operation in at a time; a lease is dropped when no operation borrows it;
    bb8 opens a connection on its own only while none is checked out. *)
Definition step (e : Event) (w : World) : option World :=
  match e with
  | NewLease l =>
      match leases w !! l with
      | None => Some (mk_World (slot w) (<[l := lease_new]> (leases w)) (results w) (delivered w))
      | Some _ => None
      end
  | Begin l change =>
      with_lease l w (fun x =>
        match running x.2 with
        | None => let '(x, r) := admit_operation change x in Some (put l x r None w)
        | Some _ => None
        end)
  | GateGranted l =>
      with_lease l w (fun x =>
        match running x.2 with
        | Some (AwaitGate change) =>
            if bool_decide (0 < protocol_gate x.1) then Some (put l (gate_granted change x) None None w)
            else None
        | _ => None
        end)
  | Got l now o =>
      with_lease l w (fun x =>
        match running x.2 with
        | Some (AwaitGet change) =>
            match got_connection now o change true x with
            | Some (x, r) => Some (put l x r None w)
            | None => None
            end
        | Some (AwaitReplacement change) =>
            match got_connection now o change false x with
            | Some (x, r) => Some (put l x r None w)
            | None => None
            end
        | _ => None
        end)
  | Polled l now o =>
      with_lease l w (fun x =>
        match running x.2 with
        | Some (Running change c todo) =>
            match operation_polled now l o change c todo x with
            | Some (x, r, d) => Some (put l x r d w)
            | None => None
            end
        | _ => None
        end)
  | Cancel l now =>
      with_lease l w (fun x =>
        match running x.2 with
        | Some p => Some (put l (operation_cancelled now p x) None None w)
        | None => None
        end)
  | DropLease l =>
      with_lease l w (fun x =>
        match running x.2 with
        | None => Some (mk_World (lease_drop x) (delete l (leases w)) (results w) (delivered w))
        | Some _ => None
        end)
  | Reap => Some (mk_World (set_idle None (slot w)) (leases w) (results w) (delivered w))
  | Replenish id =>
      if bool_decide (idle (slot w) = None /\ map_Forall (fun _ le => is_running le = false) (leases w))
      then Some (mk_World (set_idle (Some (conn_new id)) (slot w)) (leases w) (results w) (delivered w))
      else None
  end.

Fixpoint run (es : list Event) (w : World) : option World :=
  match es with
  | [] => Some w
  | e :: es => match step e w with Some w => run es w | None => None end
  end.
