(* ===== verification/PoolLeaseSafety.v ===== *)
(** * Replies on a pooled socket reach the lease they belong to

    The invariant of [PoolLease]: the gate is free, or one lease holds it; only
    the holder has the connection or unread replies; a connection that owes
    replies to a lease that gave the gate back is marked for replacement. *)

From S2P Require Import Prelude.
From S2P Require Import ClientError.
From S2P Require Import PoolLease.

Local Open Scope Z_scope.

(** ** The invariant *)

(** A lease without the gate. *)
Definition bystander (le : PooledClientLease) : Prop :=
  pending_response_permit le = false /\ pending_responses le = 0 /\
  match running le with None | Some (AwaitGate _) => True | _ => False end.

(** At most [n] replies, all for [l]. *)
Definition owes_only (l n : Z) (c : ManagedClientConnection) : Prop :=
  Forall (eq l) (owed c) /\ len (owed c) <= n.

Definition idle_ok (s : PoolSlot) (l n : Z) : Prop :=
  forall c, idle s = Some c ->
    broken c = false /\ (discard_on_next_checkout s = true \/ owes_only l n c).

(** The replies a body still adds to those owed, and those it adds in all. *)
Fixpoint balance (todo : list BodyStep) : Z :=
  match todo with
  | [] => 0
  | DoSend :: todo => 1 + balance todo
  | DoReceive :: todo => balance todo - 1
  end.

Definition phase_ok (s : PoolSlot) (l n : Z) (p : option Phase) : Prop :=
  match p with
  | None => idle_ok s l n
  | Some (AwaitGate _) => n = 0 /\ idle_ok s l n
  | Some (AwaitGet ch) => (ch = NoChange -> n = 0) /\ idle_ok s l n
  | Some (AwaitReplacement ch) =>
      discard_on_next_checkout s = false /\ (ch = NoChange -> n = 0) /\ idle_ok s l n
  | Some (Running ch c todo) =>
      (ch = NoChange -> n = 0) /\ idle s = None /\ broken c = false /\ Forall (eq l) (owed c) /\
      len (owed c) + balance todo <= n + balance (body ch) /\
      (todo = body ch \/ ch = NoChange /\ todo = [DoReceive])
  end.

Definition holder_ok (bound : Z) (s : PoolSlot) (l : Z) (le : PooledClientLease) : Prop :=
  protocol_gate s = 0 /\ pending_response_permit le = true /\
  0 <= pending_responses le <= bound /\ phase_ok s l (pending_responses le) (running le).

Definition free_ok (s : PoolSlot) : Prop := protocol_gate s = 1 /\ forall l, idle_ok s l 0.

Definition all_bystanders (m : gmap Z PooledClientLease) : Prop := map_Forall (fun _ => bystander) m.

Definition own_replies (d : list (Z * Z)) : Prop := Forall (fun p => p.1 = p.2) d.

(** [m] without its holder are the bystanders. *)
Inductive world_ok (bound : Z) (w : World) : Prop :=
  | world_free :
      free_ok (slot w) -> all_bystanders (leases w) -> own_replies (delivered w) -> world_ok bound w
  | world_held l le :
      leases w !! l = Some le -> holder_ok bound (slot w) l le ->
      all_bystanders (delete l (leases w)) -> own_replies (delivered w) -> world_ok bound w.

(** ** Building the invariant back *)

Lemma bystanders_insert m l le :
  all_bystanders (delete l m) -> bystander le -> all_bystanders (<[l := le]> m).
Proof.
  intros Hm Hle. unfold all_bystanders. rewrite <- insert_delete_eq.
  apply map_Forall_insert_2; done.
Qed.

Lemma bystanders_delete m l : all_bystanders m -> all_bystanders (delete l m).
Proof. intros Hm. by apply map_Forall_delete. Qed.

Definition reply_ok (d : option (Z * Z)) : Prop := forall p, d = Some p -> p.1 = p.2.

Lemma own_replies_app ds d :
  own_replies ds -> reply_ok d -> own_replies (ds ++ match d with Some d => [d] | None => [] end).
Proof.
  intros Hds Hd. apply Forall_app. split; [done|]. destruct d as [p|]; [|done].
  constructor; [by apply Hd|done].
Qed.

Lemma held_put bound w l s le r d :
  all_bystanders (delete l (leases w)) -> own_replies (delivered w) -> reply_ok d ->
  holder_ok bound s l le -> world_ok bound (put l (s, le) r d w).
Proof.
  intros Hb Ho Hd Hh. apply (world_held _ _ l le); cbn; [apply lookup_insert_eq|done| |by apply own_replies_app].
  by rewrite delete_insert_eq.
Qed.

Lemma free_put bound w l s le r d :
  all_bystanders (delete l (leases w)) -> own_replies (delivered w) -> reply_ok d ->
  free_ok s -> bystander le -> world_ok bound (put l (s, le) r d w).
Proof.
  intros Hb Ho Hd Hs Hle. apply world_free; cbn; [done|by apply bystanders_insert|by apply own_replies_app].
Qed.

Lemma holder_ok_weaken bound bound' s l le :
  holder_ok bound s l le -> bound <= bound' -> holder_ok bound' s l le.
Proof. unfold holder_ok. intuition lia. Qed.

Lemma world_ok_weaken bound bound' w : world_ok bound w -> bound <= bound' -> world_ok bound' w.
Proof.
  intros [Hf Hb Ho|l le Hl Hh Hb Ho] Hle; [by apply world_free|].
  eapply world_held; [done|by eapply holder_ok_weaken|done|done].
Qed.

(** ** What the pieces of an operation do *)

Lemma release_free s le n :
  protocol_gate s = 0 -> (forall l, idle_ok s l 0) ->
  release_gate (s, mk_Lease n true (running le)) = (set_gate 1 s, mk_Lease n false (running le)) /\
  free_ok (set_gate 1 s).
Proof. intros Hg Hi. unfold release_gate. cbn. rewrite Hg. split; [done|]. split; [done|exact Hi]. Qed.

Lemma new_owes_nothing l n id : 0 <= n -> owes_only l n (conn_new id).
Proof. intros Hn. split; [apply Forall_nil_2|exact Hn]. Qed.

Lemma idle_none s l n : idle s = None -> idle_ok s l n.
Proof. intros E c. by rewrite E. Qed.

Lemma idle_discarded s l n l' : idle_ok s l n -> idle_ok (discard_next_checkout s) l' 0.
Proof. intros Hi c Hc. split; [by apply (Hi c)|by left]. Qed.

Lemma idle_zero s l l' : idle_ok s l 0 -> idle_ok s l' 0.
Proof.
  intros Hi c Hc. destruct (Hi c Hc) as [Hb [Hd|[Ho Hl]]]; [split; [done|by left]|].
  split; [done|]. right. destruct (owed c) eqn:E; [|unfold len in Hl; cbn in Hl; lia].
  unfold owes_only. rewrite E. split; [constructor|done].
Qed.

(** A step of the holder leaves it the holder, or the gate free. *)
Definition settled (bound l : Z) (x : PoolSlot * PooledClientLease) : Prop :=
  holder_ok bound x.1 l x.2 \/ free_ok x.1 /\ bystander x.2.

Lemma settled_put bound w l x r d :
  all_bystanders (delete l (leases w)) -> own_replies (delivered w) -> reply_ok d ->
  settled bound l x -> world_ok bound (put l x r d w).
Proof.
  intros Hb Ho Hd [Hh|[Hs Hle]]; destruct x as [s le];
    [by apply held_put|by apply free_put].
Qed.

Lemma admit_settled bound s l le ch :
  holder_ok bound s l le -> running le = None ->
  settled bound l (admit_operation ch (s, le)).1.
Proof.
  intros (Hg & Hp & Hn & Hph) Hr. rewrite Hr in Hph. cbn in Hph. unfold admit_operation. cbn [fst snd].
  destruct le as [n pm ru]. cbn in *. subst pm ru.
  case_bool_decide as Hpos; cbn [andb].
  - case_bool_decide as Hch; cbn [fst].
    + right. unfold release_gate, discard_connection_with_pending_response. cbn. rewrite Hg.
      split; [|done]. split; [done|]. intros l'. by apply (idle_discarded s l n).
    + left. split; [done|]. split; [done|]. split; [done|]. done.
  - left. split; [done|]. split; [done|]. split; [done|]. cbn. split; [lia|done].
Qed.

Lemma failed_settled bound s l le :
  protocol_gate s = 0 -> pending_response_permit le = true -> 0 <= pending_responses le ->
  idle_ok s l (pending_responses le) -> settled bound l (checkout_failed (s, le)).
Proof.
  intros Hg Hp Hn Hi. destruct le as [n pm ru]. cbn in *. subst pm. right.
  unfold checkout_failed. cbn. case_bool_decide as Hpos; unfold release_gate; cbn; rewrite Hg.
  - split; [|done]. split; [done|]. intros l'. by apply (idle_discarded s l n).
  - assert (n = 0) as -> by lia. split; [|done]. split; [done|]. intros l'. by apply (idle_zero s l).
Qed.

(** A connection that was idle, or is new, taken out of bb8. *)
Lemma get_connection_ok o s l n s' c :
  get_connection o s = Some (s', Ok c) -> idle_ok s l n -> 0 <= n ->
  idle s' = None /\ broken c = false /\ protocol_gate s' = protocol_gate s /\
  discard_on_next_checkout s' = discard_on_next_checkout s /\
  (discard_on_next_checkout s = true \/ owes_only l n c).
Proof.
  unfold get_connection. intros E Hi Hn. destruct o as [|id| |e]; try done.
  - destruct (idle s) as [c'|] eqn:Ec; [|done]. case_match; [|done].
    injection E as <- <-. destruct (Hi c' Ec) as [Hb Ho]. done.
  - injection E as <- <-. repeat split; try done. right. by apply new_owes_nothing.
Qed.

Lemma get_connection_err o s s' e :
  get_connection o s = Some (s', Err e) -> s' = s.
Proof.
  unfold get_connection. destruct o as [|id| |e']; try (by intros [= <-]).
  destruct (idle s) as [c|]; [|done]. by case_match.
Qed.

Lemma got_settled bound now o ch (first : bool) s l le x r :
  holder_ok bound s l le ->
  running le = Some (if first then AwaitGet ch else AwaitReplacement ch) ->
  got_connection now o ch first (s, le) = Some (x, r) ->
  settled bound l x.
Proof.
  intros (Hg & Hp & Hn & Hph) Hr. rewrite Hr in Hph.
  assert ((first = false -> discard_on_next_checkout s = false) /\
    (ch = NoChange -> pending_responses le = 0) /\ idle_ok s l (pending_responses le))
    as (Hd & Hch & Hi) by (destruct first; cbn in Hph; (split; [intros; first [discriminate|tauto]|tauto])). clear Hph.
  unfold got_connection. cbn [fst snd].
  destruct (get_connection o s) as [[s' [c|e]]|] eqn:E; [| |done].
  - apply (get_connection_ok _ _ l (pending_responses le)) in E as (E1 & E2 & E3 & E4 & E5); [|done|lia].
    destruct first.
    + unfold checkout_inspect, should_discard_lazily. rewrite E4.
      destruct (discard_on_next_checkout s || _) eqn:Ed; intros [= <- _]; left; unfold holder_ok; cbn;
        (split; [congruence|]; split; [done|]; split; [lia|]).
      * split; [done|]. split; [done|]. by apply idle_none.
      * apply orb_false_iff in Ed as [Ed _]. rewrite Ed in E5. destruct E5 as [?|[Ho Hl]]; [done|].
        split; [done|]. split; [done|]. split; [done|]. split; [done|]. split; [lia|by left].
    + rewrite (Hd eq_refl) in E5. destruct E5 as [?|[Ho Hl]]; [done|].
      intros [= <- _]. left. unfold holder_ok. cbn. split; [congruence|]. split; [done|]. split; [lia|].
      split; [done|]. split; [done|]. split; [done|]. split; [done|]. split; [lia|by left].
  - apply get_connection_err in E. subst s'. intros [= <- _]. apply failed_settled; [done|done|lia|done].
Qed.

(** The connection goes back after an operation that returned. *)
Lemma returned_settled bound now r ch c s l le :
  protocol_gate s = 0 -> pending_response_permit le = true -> idle s = None ->
  match r with
  | Ok _ => owes_only l (record_response_change ch (pending_responses le)) c
  | Err e => should_recycle_connection e = true \/ owes_only l (pending_responses le) c
  end ->
  broken c = false ->
  0 <= pending_responses le -> 0 <= record_response_change ch (pending_responses le) <= bound ->
  pending_responses le <= bound ->
  settled bound l (operation_returned now r ch c (s, le)).
Proof.
  intros Hg Hp Hi He Hb Hn Hrec Hbd.
  assert (Hkeep : forall n, 0 <= n <= bound -> owes_only l n c ->
    settled bound l
      (let x := slot_connection_drop now false c (s, set_pending n le) in
       let '(s, le) := if bool_decide (0 < n) then x else release_gate x in (s, set_running None le))).
  { intros n Hn' Hc. unfold slot_connection_drop, put_back, has_broken, is_broken. cbn [fst snd].
    rewrite Hb. assert (Hidle : idle_ok (set_idle (Some c) (set_last (Some now) s)) l n).
    { intros c' [= <-]. split; [done|]. right. exact Hc. }
    destruct le as [n0 pm ru]. cbn in *. subst pm. case_bool_decide as Hpos.
    - left. split; [done|]. split; [done|]. split; [done|]. exact Hidle.
    - right. unfold release_gate. cbn. rewrite Hg. assert (n = 0) as -> by lia.
      split; [|done]. split; [done|]. intros l'. exact (idle_zero _ l l' Hidle). }
  unfold operation_returned, finish_operation. cbn [fst snd]. destruct r as [[]|e]; cbn in He.
  - apply (Hkeep (record_response_change ch (pending_responses le))); [lia|done].
  - destruct (should_recycle_connection e) eqn:Er.
    + right. unfold slot_connection_drop, release_gate. destruct le as [n0 pm ru]. cbn in *. subst pm.
      cbn. rewrite Hg. split; [|done]. split; [done|]. intros l'. by apply idle_none.
    + destruct He as [?|He]; [done|]. by apply (Hkeep (pending_responses le)).
Qed.

Lemma cancelled_settled bound now s l le p :
  holder_ok bound s l le -> running le = Some p ->
  settled bound l (operation_cancelled now p (s, le)).
Proof.
  intros (Hg & Hp & Hn & Hph) Hr. rewrite Hr in Hph. left. destruct le as [n pm ru]. cbn in *. subst pm.
  destruct p as [ch|ch|ch|ch c todo]; unfold operation_cancelled, holder_ok; cbn.
  - split; [done|]. split; [done|]. split; [done|]. apply Hph.
  - split; [done|]. split; [done|]. split; [done|]. apply Hph.
  - split; [done|]. split; [done|]. split; [done|]. apply Hph.
  - split; [done|]. split; [done|]. split; [lia|]. by apply idle_none.
Qed.

Lemma drop_frees bound s l le :
  holder_ok bound s l le -> running le = None -> free_ok (lease_drop (s, le)).
Proof.
  intros (Hg & Hp & Hn & Hph) Hr. rewrite Hr in Hph. destruct le as [n pm ru]. cbn in *. subst pm ru.
  unfold lease_drop. cbn. case_bool_decide as Hpos; unfold release_gate; cbn; rewrite Hg;
    (split; [done|]); intros l'.
  - exact (idle_discarded s l n l' Hph).
  - assert (n = 0) as -> by lia. exact (idle_zero s l l' Hph).
Qed.

Lemma polled_settled bound now l o ch c todo s le x r d :
  holder_ok bound s l le -> running le = Some (Running ch c todo) -> bound < usize_max ->
  operation_polled now l o ch c todo (s, le) = Some (x, r, d) ->
  settled (bound + 1) l x /\ reply_ok d.
Proof.
  intros (Hg & Hp & Hn & Hph) Hr Hb. rewrite Hr in Hph.
  destruct Hph as (Hch & Hi & Hbr & Ho & Hl & Htodo).
  assert (Hrec : 0 <= record_response_change ch (pending_responses le) <= bound + 1).
  { unfold record_response_change, wrapping_add, saturating_sub. destruct ch; [|lia|lia].
    rewrite Z.mod_small by (unfold usize_max, u64_max in *; lia). lia. }
  unfold operation_polled. destruct todo as [|st todo]; [done|]. destruct o as [|e|e after].
  - destruct (body_effect l st c) as [[c' d']|] eqn:Eb; [|done].
    assert (Hc' : Forall (eq l) (owed c') /\ broken c' = false /\ reply_ok d' /\
      len (owed c') + balance todo <= pending_responses le + balance (body ch)).
    { destruct st; cbn in Eb.
      - injection Eb as <- <-. cbn. split; [apply Forall_app; by split; [|constructor]|].
        split; [done|]. split; [intros p [=]|]. rewrite len_app. cbn in Hl. unfold len at 2. cbn. lia.
      - destruct (owed c) as [|o os] eqn:Eo; [done|]. injection Eb as <- <-. cbn. inv_clear Ho.
        split; [done|]. split; [done|]. split; [by intros p [= <-]|].
        cbn in Hl. unfold len in *. cbn in *. lia. }
    destruct Hc' as (Hc1 & Hc2 & Hc3 & Hc4). destruct todo as [|st' todo].
    + intros [= <- _ <-]. split; [|done]. apply returned_settled; try done; try lia.
      split; [done|]. cbn in Hc4. unfold record_response_change, wrapping_add, saturating_sub.
      destruct ch; cbn in Hc4; try lia.
      rewrite Z.mod_small by (unfold usize_max, u64_max in *; lia). lia.
    + intros [= <- _ <-]. split; [|done]. left. unfold holder_ok. cbn.
      split; [done|]. split; [done|]. split; [lia|].
      split; [done|]. split; [done|]. split; [done|]. split; [done|]. split; [exact Hc4|]. right.
      destruct Htodo as [E|[_ E]]; [|done]. destruct ch; cbn in E; injection E; try done.
      intros -> -> ->. done.
  - case_bool_decide as Hst; [|done]. intros [= <- _ <-]. split; [|by intros p [=]].
    apply returned_settled; try done; try lia. cbn. right. split; [done|]. subst st.
    destruct Htodo as [E|[_ E]]; [|done]. rewrite E in Hl. lia.
  - destruct (should_recycle_connection e) eqn:Er; [|done]. intros [= <- _ <-].
    split; [|by intros p [=]].
    apply returned_settled; try done; try lia; [by left|].
    destruct after; [|done]. destruct st; cbn; [done|]. by destruct (owed c).
Qed.

(** ** The bystanders *)

(** A step of a lease without the gate, or of a new one, other than being given
    the gate, leaves the slot as it is. *)
Definition lease_of (e : Event) : option Z :=
  match e with
  | NewLease l | Begin l _ | GateGranted l | Got l _ _ | Polled l _ _ | Cancel l _ | DropLease l => Some l
  | Reap | Replenish _ => None
  end.

Lemma bystander_step e l w w' :
  step e w = Some w' -> lease_of e = Some l ->
  (forall le, leases w !! l = Some le -> bystander le) ->
  (e = GateGranted l -> protocol_gate (slot w) = 0) ->
  slot w' = slot w /\ delivered w' = delivered w /\
  (exists le, leases w' = <[l := le]> (leases w) /\ bystander le \/ leases w' = delete l (leases w)).
Proof.
  intros Hs Hl Hby Hg.
  destruct e as [l0|l0 ch|l0|l0 now o|l0 now o|l0 now|l0| |id]; cbn in Hl; simplify_eq;
    cbn in Hs; unfold with_lease in Hs; destruct (leases w !! l) as [[n pm ru]|] eqn:El; simplify_eq;
    try (destruct (Hby _ eq_refl) as (H1 & H2 & H3)); cbn in *; subst; simplify_eq/=.
  - split; [done|]. split; [done|]. exists lease_new. left. done.
  - destruct ru as [p|]; simplify_eq/=. split; [done|]. rewrite app_nil_r. split; [done|].
    eexists. left. split; [done|]. done.
  - destruct ru as [[ch|ch|ch|ch c todo]|]; simplify_eq/=. rewrite (Hg eq_refl) in Hs. done.
  - by destruct ru as [[ch|ch|ch|ch c todo]|].
  - by destruct ru as [[ch|ch|ch|ch c todo]|].
  - destruct ru as [[ch|ch|ch|ch c todo]|]; simplify_eq/=; try done. rewrite app_nil_r.
    split; [done|]. split; [done|]. eexists. left. done.
  - destruct ru as [p|]; simplify_eq/=. split; [done|]. split; [done|]. exists lease_new. by right.
Qed.

(** ** Every step keeps the invariant *)

#[export] Instance GetOutcome_eq_dec : EqDecision GetOutcome.
Proof. solve_decision. Defined.
#[export] Instance IoOutcome_eq_dec : EqDecision IoOutcome.
Proof. solve_decision. Defined.
#[export] Instance Event_eq_dec : EqDecision Event.
Proof. solve_decision. Defined.

Lemma free_step bound e w w' :
  free_ok (slot w) -> all_bystanders (leases w) -> own_replies (delivered w) ->
  0 <= bound -> step e w = Some w' -> world_ok bound w'.
Proof.
  intros [Hg Hi] Hb Ho Hbd Hs.
  destruct (lease_of e) as [l|] eqn:Hl.
  - destruct (decide (e = GateGranted l)) as [->|Hne].
    + cbn in Hs. unfold with_lease in Hs. destruct (leases w !! l) as [[n pm ru]|] eqn:El; [|done].
      destruct (Hb l _ El) as (H1 & H2 & H3). cbn in *. subst.
      destruct ru as [[ch|ch|ch|ch c todo]|]; simplify_eq/=. rewrite Hg in Hs. simplify_eq/=.
      apply held_put; [by apply bystanders_delete|done|by intros p|].
      unfold holder_ok. cbn. split; [lia|]. split; [done|]. split; [lia|]. split; [done|]. exact (Hi l).
    + destruct (bystander_step e l w w' Hs Hl) as (H1 & H2 & le & [[H3 H4]|H3]);
        [by intros le; apply Hb|done| |].
      * apply world_free; [by rewrite H1|rewrite H3; by apply map_Forall_insert_2|by rewrite H2].
      * apply world_free; [by rewrite H1|rewrite H3; by apply bystanders_delete|by rewrite H2].
  - destruct e; cbn in Hl; simplify_eq.
    + injection Hs as <-. apply world_free; [|done|done]. split; [done|].
      intros l. by apply idle_none.
    + cbn in Hs. case_bool_decide; [|done]. injection Hs as <-. apply world_free; [|done|done].
      split; [done|]. intros l c [= <-]. split; [done|]. right. by apply new_owes_nothing.
Qed.


(** A step of another lease, as the holder sees it. *)
Lemma other_step e h l w w' bound le :
  leases w !! h = Some le -> holder_ok bound (slot w) h le -> all_bystanders (delete h (leases w)) ->
  lease_of e = Some l -> l <> h -> step e w = Some w' ->
  slot w' = slot w /\ delivered w' = delivered w /\ leases w' !! h = Some le /\
  all_bystanders (delete h (leases w')).
Proof.
  intros Hh Hok Hb Hl Hne Hs.
  destruct (bystander_step e l w w' Hs Hl) as (H1 & H2 & le' & H3); [| |].
  - intros le' Hle'. apply (Hb l). by rewrite lookup_delete_ne.
  - intros _. apply Hok.
  - split; [done|]. split; [done|]. destruct H3 as [[-> H4]| ->].
    + split; [by rewrite lookup_insert_ne|]. rewrite delete_insert_ne by done.
      by apply map_Forall_insert_2.
    + split; [by rewrite lookup_delete_ne|]. rewrite delete_delete. by apply bystanders_delete.
Qed.

(** What bb8 does on its own, as the holder sees it. *)
Lemma reap_holder bound s l le : holder_ok bound s l le -> holder_ok bound (set_idle None s) l le.
Proof.
  intros (Hg & Hp & Hn & Hph). split; [done|]. split; [done|]. split; [done|].
  destruct (running le) as [[ch|ch|ch|ch c todo]|]; cbn in *.
  - split; [tauto|by apply idle_none].
  - split; [tauto|by apply idle_none].
  - split; [tauto|]. split; [tauto|by apply idle_none].
  - tauto.
  - by apply idle_none.
Qed.

Lemma replenish_holder bound s l le id :
  holder_ok bound s l le -> is_running le = false ->
  holder_ok bound (set_idle (Some (conn_new id)) s) l le.
Proof.
  intros (Hg & Hp & Hn & Hph) Hr.
  assert (Hi : idle_ok (set_idle (Some (conn_new id)) s) l (pending_responses le)).
  { intros c [= <-]. split; [done|]. right. apply new_owes_nothing. lia. }
  split; [done|]. split; [done|]. split; [done|]. unfold is_running in Hr.
  destruct (running le) as [[ch|ch|ch|ch c todo]|]; cbn in *; try done; tauto.
Qed.

Lemma no_reply_ok : reply_ok None.
Proof. by intros p. Qed.
#[local] Hint Resolve no_reply_ok : core.

Lemma holder_step bound e h le w w' :
  leases w !! h = Some le -> holder_ok bound (slot w) h le -> all_bystanders (delete h (leases w)) ->
  own_replies (delivered w) -> bound < usize_max ->
  lease_of e = Some h -> step e w = Some w' -> world_ok (bound + 1) w'.
Proof.
  intros Hh Hok Hb Ho Hbd Hl Hs.
  assert (Hok' : holder_ok (bound + 1) (slot w) h le) by (eapply holder_ok_weaken; [done|lia]).
  destruct e as [l0|l0 ch|l0|l0 now o|l0 now o|l0 now|l0| |id]; cbn in Hl; simplify_eq;
    cbn in Hs; unfold with_lease in Hs; rewrite ?Hh in Hs; cbn [fst snd] in Hs; [done|..].
  - destruct (running le) eqn:Er; [done|]. pose proof (admit_settled _ _ _ _ ch Hok' Er) as Ha.
    destruct (admit_operation ch (slot w, le)) as [x r]. injection Hs as <-. by apply settled_put.
  - destruct (running le) as [[ch|ch|ch|ch c todo]|]; try done. destruct Hok as [Hg _].
    rewrite Hg in Hs. done.
  - destruct (running le) as [[ch|ch|ch|ch c todo]|] eqn:Er; try done.
    + destruct (got_connection now o ch true _) as [[x r]|] eqn:Eg; [|done]. injection Hs as <-.
      apply settled_put; try done. by eapply (got_settled _ now o ch true).
    + destruct (got_connection now o ch false _) as [[x r]|] eqn:Eg; [|done]. injection Hs as <-.
      apply settled_put; try done. by eapply (got_settled _ now o ch false).
  - destruct (running le) as [[ch|ch|ch|ch c todo]|] eqn:Er; try done.
    destruct (operation_polled now h o ch c todo _) as [[[x r] d]|] eqn:Ep; [|done]. injection Hs as <-.
    destruct (polled_settled bound now h o ch c todo _ _ x r d Hok Er Hbd Ep). by apply settled_put.
  - destruct (running le) as [p|] eqn:Er; [|done]. injection Hs as <-.
    apply settled_put; try done. by apply cancelled_settled.
  - destruct (running le) as [p|] eqn:Er; [done|]. injection Hs as <-.
    apply world_free; cbn; [by eapply drop_frees|done|done].
Qed.

Lemma step_ok bound e w w' :
  world_ok bound w -> 0 <= bound < usize_max -> step e w = Some w' -> world_ok (bound + 1) w'.
Proof.
  intros [Hf Hb Ho|h le Hh Hok Hb Ho] Hbd Hs; [apply (free_step _ e w w'); try done; lia|].
  destruct (lease_of e) as [l|] eqn:Hl.
  - destruct (decide (l = h)) as [->|Hne]; [by eapply holder_step; try done; lia|].
    destruct (other_step e h l w w' bound le) as (H1 & H2 & H3 & H4); try done.
    apply (world_held _ _ h le); [done| |done|by rewrite H2].
    rewrite H1. eapply holder_ok_weaken; [done|lia].
  - destruct e; cbn in Hl; simplify_eq; cbn in Hs.
    + injection Hs as <-. apply (world_held _ _ h le); cbn; try done.
      apply reap_holder. eapply holder_ok_weaken; [done|lia].
    + case_bool_decide as Hc; [|done]. injection Hs as <-. destruct Hc as [_ Hr].
      apply (world_held _ _ h le); cbn; try done.
      apply replenish_holder; [eapply holder_ok_weaken; [done|lia]|by apply (Hr h)].
Qed.

Lemma run_ok es bound w w' :
  world_ok bound w -> 0 <= bound -> bound + len es <= usize_max -> run es w = Some w' ->
  world_ok (bound + len es) w'.
Proof.
  revert bound w. induction es as [|e es IH]; intros bound w Hw H0 Hb Hr; cbn in Hr.
  - injection Hr as <-. eapply world_ok_weaken; [done|]. len_solve.
  - destruct (step e w) as [w1|] eqn:Es; [|done].
    replace (bound + len (e :: es)) with (bound + 1 + len es) by len_solve.
    apply (IH (bound + 1) w1); [|lia|len_solve|done]. eapply step_ok; [done|len_solve|done].
Qed.

Lemma start_ok timeout : world_ok 0 (world_new timeout).
Proof.
  apply world_free; [|by apply map_Forall_empty|constructor]. split; [done|]. intros l. by apply idle_none.
Qed.

Lemma lease_reachable_ok timeout es w :
  run es (world_new timeout) = Some w -> len es <= usize_max -> world_ok (len es) w.
Proof.
  intros Hr Hl. change (len es) with (0 + len es).
  eapply run_ok; [apply start_ok|done|lia|done].
Qed.

(** C4: a reply read from a pooled socket is always the answer to a request of
    the lease that reads it, whatever operations, failures, cancellations and
    lease ends interleave on the socket; and at most one lease holds the
    protocol gate, and only it has unread replies or the connection. *)
Theorem replies_reach_their_lease timeout es w :
  run es (world_new timeout) = Some w -> len es <= usize_max ->
  Forall (fun p => p.1 = p.2) (delivered w) /\
  (exists h, forall l le, leases w !! l = Some le ->
     pending_response_permit le = true \/ 0 < pending_responses le \/ is_running le = true -> l = h).
Proof.
  intros Hr Hl. destruct (lease_reachable_ok _ _ _ Hr Hl) as [Hf Hb Ho|h le Hh Hok Hb Ho]; (split; [done|]).
  - exists 0. intros l le Hle Hx. destruct (Hb l le Hle) as (H1 & H2 & H3). exfalso.
    unfold is_running in Hx. destruct (running le) as [[]|]; intuition (congruence || lia).
  - exists h. intros l le' Hle Hx. destruct (decide (l = h)) as [|Hne]; [done|].
    assert (bystander le') as (H1 & H2 & H3) by (apply (Hb l); by rewrite lookup_delete_ne).
    exfalso. unfold is_running in Hx. destruct (running le') as [[]|]; intuition (congruence || lia).
Qed.
