(* ===== verification/PoolLeaseLiveness.v ===== *)
(** * Waiting for the protocol gate

    Who a lease waits for when it waits for the gate: a lease in the middle of
    an exchange, as long as no operation is cancelled; and itself, after one of
    its operations was.  A lease that is owed a reply finds the socket it will
    arrive on, however long that takes, unless bb8 closes it. *)

From S2P Require Import Prelude.
From S2P Require Import ClientError.
From S2P Require Import PoolLease.
From S2P Require Import PoolLeaseSafety.

Local Open Scope Z_scope.

(** ** Runs in two parts *)

Lemma lease_run_app es es' w w' :
  run (es ++ es') w = Some w' <-> exists w1, run es w = Some w1 /\ run es' w1 = Some w'.
Proof.
  revert w. induction es as [|e es IH]; intros w; cbn.
  - split; [intros H; by exists w|]. by intros (w1 & [= ->] & H).
  - destruct (step e w) as [w1|]; [apply IH|]. split; [done|]. by intros (? & ? & _).
Qed.

(** The invariant, with the holder known. *)
Record held (l : Z) (le : PooledClientLease) (w : World) : Prop := {
  held_lease : leases w !! l = Some le;
  held_ok : exists bound, holder_ok bound (slot w) l le;
  held_others : all_bystanders (delete l (leases w))
}.

Lemma held_of_permit bound w l le :
  world_ok bound w -> leases w !! l = Some le -> pending_response_permit le = true -> held l le w.
Proof.
  intros [Hf Hb Ho|h le' Hh Hok Hb Ho] Hl Hp.
  - destruct (Hb l le Hl) as (H1 & _). congruence.
  - destruct (decide (l = h)) as [->|Hne].
    + assert (le' = le) as -> by congruence. split; [done|by eexists|done].
    + assert (bystander le) as (H1 & _) by (apply (Hb l); by rewrite lookup_delete_ne). congruence.
Qed.

Lemma held_engaged bound w l le :
  world_ok bound w -> leases w !! l = Some le ->
  match running le with None | Some (AwaitGate _) => 0 < pending_responses le | _ => True end ->
  held l le w.
Proof.
  intros Hw Hl Hr. eapply held_of_permit; [done|done|].
  destruct Hw as [Hf Hb Ho|h le' Hh Hok Hb Ho].
  - destruct (Hb l le Hl) as (H1 & H2 & H3). destruct (running le) as [[]|]; done || lia.
  - destruct (decide (l = h)) as [->|Hne].
    + assert (le' = le) as -> by congruence. apply Hok.
    + assert (bystander le) as (H1 & H2 & H3) by (apply (Hb l); by rewrite lookup_delete_ne).
      destruct (running le) as [[]|]; done || lia.
Qed.

(** Steps of other leases change neither the holder nor the slot. *)
Lemma held_other_step e l l' le w w' :
  held l le w -> lease_of e = Some l' -> l' <> l -> step e w = Some w' ->
  held l le w' /\ slot w' = slot w.
Proof.
  intros [Hl [b Hok] Hb] He Hne Hs.
  destruct (other_step e l l' w w' b le Hl Hok Hb He Hne Hs) as (H1 & H2 & H3 & H4).
  split; [|done]. split; [done|rewrite H1; by eexists|done].
Qed.

Lemma held_other_run es l le w w' :
  held l le w -> Forall (fun e => exists l', lease_of e = Some l' /\ l' <> l) es ->
  run es w = Some w' -> held l le w' /\ slot w' = slot w.
Proof.
  intros Hh Hes. revert w Hh. induction Hes as [|e es (l' & He & Hne) Hes IH]; intros w Hh Hr; cbn in Hr.
  - by injection Hr as <-.
  - destruct (step e w) as [w1|] eqn:Es; [|done].
    destruct (held_other_step e l l' le w w1 Hh He Hne Es) as [Hh1 Hs1].
    destruct (IH w1 Hh1 Hr) as [H1 H2]. split; [done|congruence].
Qed.

(** ** A reply that is owed finds its lease *)

(** A lease with unread replies that asks for one gets the very connection
    they will arrive on, no matter how long the socket was idle and what the
    other leases of the slot did meanwhile. *)
Theorem pending_reply_keeps_socket timeout es es' w w1 l le c now :
  run es (world_new timeout) = Some w -> len es <= usize_max ->
  leases w !! l = Some le -> 0 < pending_responses le -> running le = None ->
  idle (slot w) = Some c -> discard_on_next_checkout (slot w) = false ->
  Forall (fun e => exists l', lease_of e = Some l' /\ l' <> l) es' -> run es' w = Some w1 ->
  owes_only l (pending_responses le) c /\
  exists w2, run [Begin l Remove; Got l now Reuse] w1 = Some w2 /\
    leases w2 !! l = Some (mk_Lease (pending_responses le) true (Some (Running Remove c [DoReceive]))).
Proof.
  intros Hr Hlen Hl Hn Hru Hc Hd Hes Hr1.
  assert (Hh : held l le w) by (eapply held_engaged; [by eapply lease_reachable_ok|done|by rewrite Hru]).
  destruct (held_other_run es' l le w w1 Hh Hes Hr1) as [[Hl1 [b Hok] _] Hs1].
  destruct Hok as (Hg & Hp & _ & Hph). rewrite Hru in Hph. cbn in Hph. rewrite Hs1 in Hg, Hph.
  destruct (Hph c Hc) as [Hb [?|Ho]]; [congruence|]. split; [done|].
  destruct le as [n pm ru]. cbn in *. subst pm ru.
  eexists. split.
  - unfold with_lease at 1. rewrite Hl1. unfold admit_operation. cbn [fst snd running pending_responses].
    rewrite (bool_decide_eq_true_2 (0 < n)) by done. cbn [andb].
    rewrite bool_decide_eq_false_2 by done. unfold with_lease, put.
    cbn [leases slot fst snd]. rewrite lookup_insert_eq. cbn [set_running running].
    unfold got_connection, get_connection. cbn [fst snd]. rewrite Hs1, Hc.
    unfold is_valid, is_broken. rewrite Hb. cbn [is_ok]. unfold checkout_inspect, should_discard_lazily.
    cbn [discard_on_next_checkout set_idle pending_responses]. rewrite Hd.
    rewrite (bool_decide_eq_false_2 (n = 0)) by lia. cbn [andb orb]. reflexivity.
  - cbn. by rewrite lookup_insert_eq.
Qed.

(** ** A cancelled operation *)

Lemma step_results e w w' :
  step e w = Some w' ->
  exists rs, results w' = results w ++ rs /\ Forall (fun p => lease_of e = Some p.1) rs.
Proof.
  intros Hs.
  assert (Hput : forall l x r d, lease_of e = Some l ->
    exists rs, results (put l x r d w) = results w ++ rs /\ Forall (fun p => lease_of e = Some p.1) rs).
  { intros l x r d Hl. eexists. split; [done|]. destruct r; [|constructor]. by constructor. }
  assert (Hsame : forall s m d, exists rs,
    results (mk_World s m (results w) d) = results w ++ rs /\ Forall (fun p => lease_of e = Some p.1) rs).
  { intros s m d. exists []. by rewrite app_nil_r. }
  destruct e; cbn in Hs; unfold with_lease in Hs; repeat (case_match; try discriminate); try (injection Hs as <-);
    first [by apply Hput|by apply Hsame].
Qed.

(** Its lease waits for the gate, which it holds. *)
Definition wedged (l : Z) (ch : PendingResponseChange) (w : World) : Prop :=
  exists le, held l le w /\ running le = Some (AwaitGate ch).

Lemma wedged_step e l ch w w' :
  wedged l ch w -> (forall t, e <> Cancel l t) -> step e w = Some w' ->
  wedged l ch w' /\ lease_of e <> Some l.
Proof.
  intros (le & [Hl [b Hok] Hb] & Hr) Hc Hs. destruct (lease_of e) as [l'|] eqn:He.
  - destruct (decide (l' = l)) as [->|Hne].
    + exfalso. destruct e as [l0|l0 ch0|l0|l0 now o|l0 now o|l0 now|l0| |id]; cbn in He; simplify_eq;
        cbn in Hs; unfold with_lease in Hs; rewrite ?Hl in Hs; cbn [fst snd] in Hs;
        rewrite ?Hr in Hs; try done.
      * destruct Hok as [Hg _]. by rewrite Hg in Hs.
      * by apply (Hc now).
    + assert (held l le w) as Hh by (split; [done|by eexists|done]).
      destruct (held_other_step e l l' le w w' Hh He Hne Hs) as [Hh' _].
      split; [by exists le|congruence].
  - split; [|done]. exists le. split; [|done].
    destruct e; cbn in He; simplify_eq; cbn in Hs.
    + injection Hs as <-. split; [done|exists b; by apply reap_holder|done].
    + case_bool_decide as Hx; [|done]. injection Hs as <-.
      split; [done|exists b; apply replenish_holder; [done|by apply (proj2 Hx l)]|done].
Qed.

Definition answers_of (l : Z) (w : World) : list (Z * result unit ClientError) :=
  filter (fun p => p.1 = l) (results w).

Lemma filter_none {A} (P : A -> Prop) `{!forall x, Decision (P x)} (xs : list A) :
  Forall (fun x => ~ P x) xs -> filter P xs = [].
Proof. induction 1 as [|x xs Hx _ IH]; [done|]. by rewrite filter_cons_False. Qed.

Lemma wedged_run es l ch w w' :
  wedged l ch w -> (forall t, Cancel l t ∉ es) -> run es w = Some w' ->
  wedged l ch w' /\ answers_of l w' = answers_of l w.
Proof.
  revert w. induction es as [|e es IH]; intros w Hw Hc Hr; cbn in Hr; [by injection Hr as <-|].
  destruct (step e w) as [w1|] eqn:Es; [|done].
  destruct (wedged_step e l ch w w1 Hw) as [Hw1 He]; [|done|].
  { intros t ->. apply (Hc t). by left. }
  destruct (IH w1 Hw1) as [H1 H2]; [|done|].
  { intros t Ht. apply (Hc t). by right. }
  split; [done|]. rewrite H2. unfold answers_of.
  destruct (step_results e w w1 Es) as (rs & -> & Hrs). rewrite filter_app.
  rewrite (filter_none _ rs), app_nil_r; [done|].
  eapply Forall_impl; [exact Hrs|]. cbn. intros p Hp Heq. congruence.
Qed.

(** C36: an operation of a lease that is cancelled while it uses the socket, or
    while it checks the socket out with no reply of the lease left unread (no
    reserved [pending_responses]), leaves the gate with the lease, without an
    unread reply to show for it.  The lease's next operation then waits for the
    gate its own lease holds: it never gets an answer, whatever else happens,
    until it is cancelled too, and until the lease is dropped no other lease
    gets the socket.  (The guard of an operation cancelled in use clears
    [pending_responses], on which [admit_operation] decides whether the gate is
    already held.  An operation cancelled in its checkout while replies are
    still to be read, and one cancelled while it waits for the gate, are not
    meant: the first keeps its reservation, so the next operation is admitted.) *)
Theorem cancelled_operation_wedges_lease timeout es es' w w' l le p ch now :
  run es (world_new timeout) = Some w -> len es < usize_max ->
  leases w !! l = Some le -> running le = Some p ->
  match p with
  | AwaitGate _ => False
  | AwaitGet _ | AwaitReplacement _ => pending_responses le = 0
  | Running _ _ _ => True
  end ->
  run (Cancel l now :: Begin l ch :: es') w = Some w' -> (forall t, Cancel l t ∉ es') ->
  exists le', leases w' !! l = Some le' /\ running le' = Some (AwaitGate ch) /\
    protocol_gate (slot w') = 0 /\ answers_of l w' = answers_of l w.
Proof.
  intros Hr Hlen Hl Hru Hp Hr' Hc.
  assert (Hh : held l le w).
  { eapply held_engaged; [eapply lease_reachable_ok; [done|lia]|done|]. rewrite Hru. by destruct p. }
  destruct Hh as [_ [b Hok] Hb].
  pose proof (cancelled_settled b now (slot w) l le p Hok Hru) as Hset.
  set (x := operation_cancelled now p (slot w, le)) in *.
  assert (Hx : pending_responses x.2 = 0 /\ pending_response_permit x.2 = true /\ running x.2 = None).
  { destruct Hok as (_ & Hpm & _). by destruct p. }
  destruct Hx as (Hx1 & Hx2 & Hx3).
  assert (Hok' : holder_ok b x.1 l x.2).
  { destruct Hset as [|[_ (H1 & _)]]; [done|congruence]. }
  set (w1 := put l (x.1, set_running (Some (AwaitGate ch)) x.2) None None (put l x None None w)).
  assert (Hr1 : run es' w1 = Some w').
  { rewrite <- Hr'. cbn [run step]. unfold with_lease at 1. rewrite Hl. cbn [fst snd]. rewrite Hru.
    fold x. unfold with_lease. cbn [put leases slot]. rewrite lookup_insert_eq. cbn [snd]. rewrite Hx3.
    unfold admit_operation. cbn [fst snd].
    rewrite Hx1. cbn [andb]. done. }
  assert (Hw1 : wedged l ch w1).
  { exists (set_running (Some (AwaitGate ch)) x.2). split; [|done]. split.
    - cbn. apply lookup_insert_eq.
    - exists b. destruct Hok' as (G1 & G2 & G3 & G4). rewrite Hx3, Hx1 in G4.
      split; [done|]. split; [done|]. split; [done|].
      change (pending_responses x.2 = 0 /\ idle_ok x.1 l (pending_responses x.2)). by rewrite Hx1.
    - cbn. rewrite !delete_insert_eq. done. }
  destruct (wedged_run es' l ch w1 w' Hw1 Hc Hr1) as [(le' & Hh' & Hru') Ha].
  exists le'. split; [apply Hh'|]. split; [done|]. split.
  - destruct Hh' as [_ [b' [Hg _]] _]. done.
  - rewrite Ha. unfold answers_of. cbn. by rewrite !app_nil_r.
Qed.

(** ** Without cancellations *)

Definition engaged (le : PooledClientLease) : Prop :=
  0 < pending_responses le \/
  match running le with Some (AwaitGet _ | AwaitReplacement _ | Running _ _ _) => True | _ => False end.

Definition busy_holders (w : World) : Prop :=
  map_Forall (fun _ le => pending_response_permit le = true -> engaged le) (leases w).

Lemma release_gate_permit x : pending_response_permit (release_gate x).2 = false.
Proof. destruct x as [s [n [] ru]]; done. Qed.

Lemma put_busy l x r d w :
  busy_holders w -> (pending_response_permit x.2 = true -> engaged x.2) -> busy_holders (put l x r d w).
Proof. intros Hw Hx. by apply map_Forall_insert_2. Qed.

Lemma returned_busy now r ch c x :
  pending_response_permit (operation_returned now r ch c x).2 = true ->
  engaged (operation_returned now r ch c x).2.
Proof.
  unfold operation_returned. destruct (finish_operation r ch c _) as [[c' n] busy] eqn:E.
  assert (Hb : busy = true -> 0 < n).
  { unfold finish_operation in E. destruct r as [[]|e]; [|destruct (should_recycle_connection e)];
      injection E as <- <- <-; try done; by intros ?%bool_decide_eq_true. }
  destruct busy.
  - intros _. left. cbn. by apply Hb.
  - pose proof (release_gate_permit (slot_connection_drop now false c' (x.1, set_pending n x.2))) as Hr.
    destruct (release_gate _) as [s le]. cbn in Hr |- *. congruence.
Qed.

Lemma admit_busy ch s le :
  running le = None -> (pending_response_permit le = true -> engaged le) ->
  pending_response_permit (admit_operation ch (s, le)).1.2 = true ->
  engaged (admit_operation ch (s, le)).1.2.
Proof.
  intros Er He. unfold admit_operation. cbn [fst snd]. case_bool_decide as Hn; cbn [andb].
  - case_bool_decide; [|intros _; by left]. cbn [fst]. by rewrite release_gate_permit.
  - cbn. intros Hp. destruct (He Hp) as [?|Hx]; [lia|]. by rewrite Er in Hx.
Qed.

Lemma got_busy now o ch first x y r :
  got_connection now o ch first x = Some (y, r) ->
  pending_response_permit y.2 = true -> engaged y.2.
Proof.
  unfold got_connection. destruct (get_connection o _) as [[s [c|e]]|]; [| |done].
  - destruct (if first then _ else _) as [s' rep]. intros [= <- _] _. right. cbn. by destruct rep.
  - intros [= <- _]. unfold checkout_failed.
    match goal with |- context [release_gate ?y] =>
      pose proof (release_gate_permit y) as Hp; destruct (release_gate y) as [s' le'] end.
    cbn in *. congruence.
Qed.

Lemma polled_busy now l o ch c todo x y r d :
  operation_polled now l o ch c todo x = Some (y, r, d) ->
  pending_response_permit y.2 = true -> engaged y.2.
Proof.
  unfold operation_polled. destruct todo as [|st todo]; [done|]. destruct o as [|e|e after].
  - destruct (body_effect l st c) as [[c' d']|]; [|done].
    destruct todo; intros [= <- _ _]; [apply returned_busy|intros _; by right].
  - case_bool_decide; [|done]. intros [= <- _ _]. apply returned_busy.
  - destruct (should_recycle_connection e); [|done]. intros [= <- _ _]. apply returned_busy.
Qed.

Lemma step_busy e w w' :
  busy_holders w -> (forall l t, e <> Cancel l t) -> step e w = Some w' -> busy_holders w'.
Proof.
  intros Hw Hc Hs.
  destruct e as [l|l ch|l|l now o|l now o|l now|l| |id]; cbn in Hs; unfold with_lease in Hs.
  - destruct (leases w !! l); [done|]. injection Hs as <-. by apply map_Forall_insert_2.
  - destruct (leases w !! l) as [le|] eqn:El; [|done]. cbn [fst snd] in Hs.
    destruct (running le) eqn:Er; [done|].
    pose proof (admit_busy ch (slot w) le Er (Hw l le El)) as Ha.
    destruct (admit_operation ch (slot w, le)) as [x r]. injection Hs as <-. by apply put_busy.
  - destruct (leases w !! l) as [le|] eqn:El; [|done]. cbn [fst snd] in Hs.
    destruct (running le) as [[ch|ch|ch|ch c todo]|]; try done. case_bool_decide; [|done].
    injection Hs as <-. apply put_busy; [done|]. unfold gate_granted.
    destruct (release_gate _). intros _. by right.
  - destruct (leases w !! l) as [le|] eqn:El; [|done]. cbn [fst snd] in Hs.
    destruct (running le) as [[ch|ch|ch|ch c todo]|]; try done.
    + destruct (got_connection now o ch true _) as [[x r]|] eqn:Eg; [|done]. injection Hs as <-.
      apply put_busy; [done|by eapply got_busy].
    + destruct (got_connection now o ch false _) as [[x r]|] eqn:Eg; [|done]. injection Hs as <-.
      apply put_busy; [done|by eapply got_busy].
  - destruct (leases w !! l) as [le|] eqn:El; [|done]. cbn [fst snd] in Hs.
    destruct (running le) as [[ch|ch|ch|ch c todo]|]; try done.
    destruct (operation_polled now l o ch c todo _) as [[[x r] d]|] eqn:Ep; [|done]. injection Hs as <-.
    apply put_busy; [done|by eapply polled_busy].
  - by destruct (Hc l now).
  - destruct (leases w !! l) as [le|] eqn:El; [|done]. cbn [fst snd] in Hs.
    destruct (running le); [done|]. injection Hs as <-. by apply map_Forall_delete.
  - by injection Hs as <-.
  - case_bool_decide; [|done]. by injection Hs as <-.
Qed.

(** As long as no operation is cancelled, a lease holds the gate only while
    it is owed a reply or has an operation past the gate; so an operation that
    waits for the gate waits for such a lease. *)
Theorem gate_waits_for_an_exchange timeout es w :
  run es (world_new timeout) = Some w -> len es <= usize_max -> (forall l t, Cancel l t ∉ es) ->
  (protocol_gate (slot w) = 1 /\
   forall l le, leases w !! l = Some le -> pending_response_permit le = false) \/
  (protocol_gate (slot w) = 0 /\
   exists l le, leases w !! l = Some le /\ pending_response_permit le = true /\ engaged le).
Proof.
  intros Hr Hlen Hc.
  assert (Hbusy : busy_holders w).
  { clear Hlen. assert (H0 : busy_holders (world_new timeout)) by (by apply map_Forall_empty).
    revert H0 Hr Hc. generalize (world_new timeout).
    induction es as [|e es IH]; intros w0 H0 Hr Hc; cbn in Hr; [by injection Hr as <-|].
    destruct (step e w0) as [w1|] eqn:Es; [|done]. apply (IH w1); [|done|].
    - eapply step_busy; [exact H0| |exact Es]. intros l t ->. apply (Hc l t). by left.
    - intros l t Ht. apply (Hc l t). by right. }
  destruct (lease_reachable_ok _ _ _ Hr Hlen) as [[Hg _] Hb Ho|l le Hl Hok Hb Ho].
  - left. split; [done|]. intros l le Hl. by apply (Hb l le Hl).
  - right. split; [apply Hok|]. exists l, le. destruct Hok as (_ & Hp & _). split; [done|].
    split; [done|]. by apply (Hbusy l).
Qed.

(** ** Runs *)

Module Runs.
(** Two leases; the first sends and is owed a reply. *)
Definition split_phase : list Event :=
  [NewLease 1; NewLease 2; Begin 1 Add; GateGranted 1; Got 1 0 (Fresh 10); Polled 1 0 Done].

(** The first lease calls and its call is cancelled while it waits for the reply. *)
Definition cut_call : list Event :=
  [NewLease 1; NewLease 2; Begin 1 NoChange; GateGranted 1; Got 1 0 (Fresh 10); Polled 1 0 Done].

(** Interleaved exchanges of both leases, a cancellation and an early drop. *)
Definition mixed : list Event :=
  split_phase ++
  [Begin 2 NoChange; Begin 1 Remove; Got 1 5 Reuse; Polled 1 6 Done;
   GateGranted 2; Got 2 7 Reuse; Polled 2 7 Done; Polled 2 8 Done;
   Begin 1 Add; GateGranted 1; Got 1 9 Reuse; Polled 1 9 Done; DropLease 1;
   Begin 2 NoChange; GateGranted 2; Got 2 10 Reuse; Got 2 10 (Fresh 11); Polled 2 10 Done; Cancel 2 11].

(** A send, then bb8's reaper, then the receive: the new connection owes
    nothing, and the reply is lost with the old one. *)
Definition reaped : list Event :=
  split_phase ++ [Reap; Begin 1 Remove; Got 1 900 (Fresh 11)].

Definition after (es : list Event) : World := default (world_new 0) (run es (world_new 600)).

Lemma reaper_loses_the_reply :
  leases (after reaped) !! 1 = Some (mk_Lease 1 true (Some (Running Remove (conn_new 11) [DoReceive]))) /\
  step (Polled 1 901 Done) (after reaped) = None.
Proof. split; vm_compute; reflexivity. Qed.
End Runs.

Lemma replies_reach_their_lease_witness :
  Forall (fun p => p.1 = p.2) (delivered (Runs.after Runs.mixed)) /\
  delivered (Runs.after Runs.mixed) = [(1, 1); (2, 2)].
Proof.
  split; [|vm_compute; reflexivity].
  apply (replies_reach_their_lease 600 Runs.mixed); [vm_compute; reflexivity|vm_compute; discriminate].
Defined.

Lemma pending_reply_keeps_socket_witness :
  exists w2, run [Begin 1 Remove; Got 1 100000 Reuse] (Runs.after (Runs.split_phase ++ [Begin 2 NoChange])) = Some w2.
Proof.
  destruct (pending_reply_keeps_socket 600 Runs.split_phase [Begin 2 NoChange] (Runs.after Runs.split_phase)
    (Runs.after (Runs.split_phase ++ [Begin 2 NoChange])) 1 (mk_Lease 1 true None)
    (mk_Conn 10 [1] false) 100000) as [_ (w2 & H & _)];
    try (vm_compute; reflexivity); try (vm_compute; discriminate).
  - constructor; [|constructor]. exists 2. split; [reflexivity|discriminate].
  - exists w2. exact H.
Defined.

Lemma cancelled_operation_wedges_lease_witness :
  exists le', leases (Runs.after (Runs.cut_call ++ [Cancel 1 5; Begin 1 NoChange; Begin 2 Add])) !! 1 = Some le' /\
    running le' = Some (AwaitGate NoChange).
Proof.
  destruct (cancelled_operation_wedges_lease 600 Runs.cut_call [Begin 2 Add] (Runs.after Runs.cut_call)
    (Runs.after (Runs.cut_call ++ [Cancel 1 5; Begin 1 NoChange; Begin 2 Add])) 1
    (mk_Lease 0 true (Some (Running NoChange (mk_Conn 10 [1] false) [DoReceive])))
    (Running NoChange (mk_Conn 10 [1] false) [DoReceive]) NoChange 5) as (le' & H1 & H2 & _);
    try (vm_compute; reflexivity); try (vm_compute; exact I).
  - intros t Ht. apply list_elem_of_In in Ht. destruct Ht as [Ht|[]]. discriminate Ht.
  - exists le'. split; [exact H1|exact H2].
Defined.

Lemma gate_waits_for_an_exchange_witness :
  exists l le, leases (Runs.after Runs.split_phase) !! l = Some le /\ engaged le.
Proof.
  destruct (gate_waits_for_an_exchange 600 Runs.split_phase (Runs.after Runs.split_phase))
    as [[H _]|(_ & l & le & H1 & _ & H2)].
  - vm_compute; reflexivity.
  - vm_compute; discriminate.
  - intros l t Ht. apply list_elem_of_In in Ht. cbn in Ht.
    repeat (destruct Ht as [Ht|Ht]; [discriminate Ht|]). exact Ht.
  - vm_compute in H. discriminate H.
  - exists l, le. split; [exact H1|exact H2].
Defined.
