(* ===== verification/ConnectionSpawner.v ===== *)
(** * One accepted connection

    Models [server/connection_spawner.rs]: the preamble handshake of a
    connection task and the hand-over of its stream to the application.

    [R] is the TCP stream, read through [AsyncRead].  The two user handlers and
    the application's connection handler are functions; [elapsed] says whether
    the timer of a configured timeout fires before the preamble was read, and
    how the stream is then.  A [ConnectionLog] records what the task does. *)

From S2P Require Import Prelude.
From S2P Require Import AsyncIo.
From S2P Require Import Preamble.

Local Open Scope Z_scope.

Inductive DecodeRejectionReason : Type :=
  | RejectLimitExceeded
  | RejectDecodeError.

Record ConnectionLog (T R : Type) : Type := mk_ConnectionLog {
  successes : list T;
  failures : list DecodeError;
  rejections : list DecodeRejectionReason;
  handler_rejections : Z;
  app_streams : list (RewindStream R)
}.
Arguments mk_ConnectionLog {T R}.
Arguments successes {T R} c.
Arguments failures {T R} c.
Arguments rejections {T R} c.
Arguments handler_rejections {T R} c.
Arguments app_streams {T R} c.

Section Spawner.
Context {T R : Type} `{AsyncRead R} `{BincodePreamble T}.

Record PreambleHooks : Type := mk_PreambleHooks {
  hook_success : option (T -> R -> R * result unit io_error);
  hook_failure : option (DecodeError -> R -> R * result unit io_error);
  hook_timeout : option Z
}.

Definition timeout_error : DecodeError :=
  DecodeIo (mk_io_error TimedOut "preamble read timed out") 0.

Definition read_preamble_with_timeout (timeout : option Z) (elapsed : option R) (stream : R)
    : option (R * result (T * list Z) DecodeError) :=
  match timeout, elapsed with
  | Some _, Some s => Some (s, Err timeout_error)
  | _, _ => read_preamble stream
  end.

Definition run_preamble_success (handler : option (T -> R -> R * result unit io_error))
    (preamble : T) (stream : R) (log : ConnectionLog T R)
    : ConnectionLog T R * R * result unit io_error :=
  match handler with
  | None => (log, stream, Ok tt)
  | Some h =>
      let '(stream, x) := h preamble stream in
      let log := mk_ConnectionLog (successes log ++ [preamble]) (failures log) (rejections log)
                   (handler_rejections log + if is_ok x then 0 else 1) (app_streams log) in
      (log, stream, x)
  end.

(** bincode's own [LimitExceeded] is among the errors [Other] stands for. *)
Definition rejection_reason (limit_exceeded : DecodeError -> bool) (e : DecodeError)
    : DecodeRejectionReason :=
  if limit_exceeded e ||
     match e with Other m => bool_decide (m = PREAMBLE_TOO_LONG_ERROR) | _ => false end
  then RejectLimitExceeded else RejectDecodeError.

Context (limit_exceeded : DecodeError -> bool).

Definition run_preamble_failure (handler : option (DecodeError -> R -> R * result unit io_error))
    (e : DecodeError) (stream : R) (log : ConnectionLog T R) : ConnectionLog T R :=
  let log := mk_ConnectionLog (successes log) (failures log)
               (rejections log ++ [rejection_reason limit_exceeded e])
               (handler_rejections log) (app_streams log) in
  match handler with
  | None => log
  | Some h => mk_ConnectionLog (successes log) (failures log ++ [e]) (rejections log)
                (handler_rejections log) (app_streams log)
  end.

Definition handle_app_connection (stream : RewindStream R) (log : ConnectionLog T R)
    : ConnectionLog T R :=
  mk_ConnectionLog (successes log) (failures log) (rejections log) (handler_rejections log)
    (app_streams log ++ [stream]).

(** [None] only where [read_preamble] is [None], which [read_preamble_finishes]
    rules out. *)
Definition process_stream (hooks : PreambleHooks) (elapsed : option R) (stream : R)
    (log : ConnectionLog T R) : option (ConnectionLog T R) :=
  match read_preamble_with_timeout (hook_timeout hooks) elapsed stream with
  | None => None
  | Some (stream, Err e) => Some (run_preamble_failure (hook_failure hooks) e stream log)
  | Some (stream, Ok (preamble, leftover)) =>
      let '(log, stream, x) := run_preamble_success (hook_success hooks) preamble stream log in
      match x with
      | Err _ => Some log
      | Ok _ => Some (handle_app_connection (rewind_new leftover stream) log)
      end
  end.
End Spawner.
Arguments PreambleHooks T R : clear implicits.

Definition log_empty {T R} : ConnectionLog T R := mk_ConnectionLog [] [] [] 0 [].

(** ** What a connection task does *)

Section Correct.
Context {T R : Type} {A : AsyncRead R} {B : BincodePreamble T} {BL : BincodePreambleLaws T}.
Context (limit_exceeded : DecodeError -> bool).

(** A connection task always comes to its end, in one of three ways: the
    preamble could not be read, and the failure handler (if any) got the error,
    once; the success handler refused it; or the application got the stream,
    once.  The application never sees a connection whose preamble failed or was
    refused, and a failed preamble never reaches the success handler. *)
Theorem process_stream_outcomes (hooks : PreambleHooks T R) (elapsed : option R) (stream : R) :
  exists log, process_stream limit_exceeded hooks elapsed stream log_empty = Some log /\
    ((exists s e, read_preamble_with_timeout (T := T) (hook_timeout hooks) elapsed stream = Some (s, Err e) /\
        log = mk_ConnectionLog [] match hook_failure hooks with Some _ => [e] | None => [] end
                [rejection_reason limit_exceeded e] 0 []) \/
     (exists s v more, read_preamble_with_timeout (hook_timeout hooks) elapsed stream = Some (s, Ok (v, more)) /\
        match hook_success hooks with
        | None => log = mk_ConnectionLog [] [] [] 0 [rewind_new more s]
        | Some h =>
            match h v s with
            | (s', Ok _) => log = mk_ConnectionLog [v] [] [] 0 [rewind_new more s']
            | (s', Err _) => log = mk_ConnectionLog [v] [] [] 1 []
            end
        end)).
Proof.
  assert (Hfin : exists s x, read_preamble_with_timeout (T := T) (hook_timeout hooks) elapsed stream = Some (s, x)).
  { unfold read_preamble_with_timeout. destruct (read_preamble_finishes (T := T) stream) as (r & x & E).
    destruct (hook_timeout hooks), elapsed; rewrite ?E; by eexists _, _. }
  destruct Hfin as (s & x & E). unfold process_stream. rewrite E. destruct x as [[v more]|e].
  - unfold run_preamble_success. destruct (hook_success hooks) as [h|] eqn:Eh.
    + destruct (h v s) as [s' [u|io]] eqn:Ev; (eexists; split; [done|]); right; exists s, v, more;
        rewrite Ev; done.
    + eexists. split; [done|]. right. exists s, v, more. done.
  - eexists. split; [done|]. left. exists s, e. split; [done|].
    unfold run_preamble_failure. by destruct (hook_failure hooks).
Qed.
End Correct.

Import CountedBytes.

Lemma process_stream_outcomes_witness :
  exists log, process_stream (T := list Z) (fun _ => false)
      (mk_PreambleHooks (Some (fun v s => (s, if decide (v = [7]) then Ok tt else Err (mk_io_error InvalidData "no"))))
         None None) None [Chunk [1]; Chunk [7; 40; 41]] log_empty = Some log /\
    app_streams log = [rewind_new [] [Chunk [40; 41]]].
Proof.
  destruct (@process_stream_outcomes (list Z) _ source_read _ CountedBytes.laws (fun _ => false)
    (mk_PreambleHooks (Some (fun v s => (s, if decide (v = [7]) then Ok tt else Err (mk_io_error InvalidData "no"))))
       None None) None [Chunk [1]; Chunk [7; 40; 41]]) as (log & H & _).
  exists log. split; [exact H|]. vm_compute in H. injection H as <-. reflexivity.
Defined.
