(* ===== verification/Server.v ===== *)
(** * The server's lifecycle

    Models [server/runtime/]: [backoff.rs], [accept.rs], [supervisor.rs],
    [startup.rs], [server/mod.rs], [server/observer.rs], and [server/shutdown.rs],
    with the defaults of [server/config/].

    A server that [spawn] started is a step system: [workers] are its accept
    loops, [conns] the connection tasks they spawned, both held by the task
    tracker; [stop_token] is the caller's request, [worker_token] the
    supervisor's order to the accept loops.  An event is what happens between
    two awaits of one of the tasks: an accept, the end of a connection, a poll
    of the supervisor, of the observer.  Each connection has an identity of its
    own.  Durations are in milliseconds. *)

From S2P Require Import Prelude.

Local Open Scope Z_scope.

(** ** [backoff.rs], [config/] *)

Record BackoffConfig : Type := mk_BackoffConfig {
  initial_delay : Z;
  max_delay : Z
}.

Definition backoff_default : BackoffConfig := mk_BackoffConfig 10 1000.

Definition normalized (self : BackoffConfig) : BackoffConfig :=
  let i := Z.max (initial_delay self) 1 in
  let m := Z.max (max_delay self) 1 in
  if decide (m < i) then mk_BackoffConfig m i else mk_BackoffConfig i m.

Definition DEFAULT_PREAMBLE_TIMEOUT : Z := 10 * 1000.
Definition set_workers (count : Z) : Z := Z.max count 1.
Definition set_preamble_timeout (timeout : Z) : option Z := Some (Z.max timeout 1).

(** ** [accept.rs]: one worker *)

Inductive WorkerPhase : Type :=
  | Selecting
  | Sleeping
  | Exited.

Record Worker : Type := mk_Worker {
  delay : Z;
  phase : WorkerPhase
}.

#[export] Instance WorkerPhase_eq_dec : EqDecision WorkerPhase.
Proof. solve_decision. Defined.
#[export] Instance Worker_eq_dec : EqDecision Worker.
Proof. solve_decision. Defined.

Definition worker_new (config : BackoffConfig) : Worker :=
  mk_Worker (initial_delay (normalized config)) Selecting.

(** What an [accept_iteration] resolves to; the [select!] is biased towards
    shutdown. *)
Inductive AcceptOutcome : Type :=
  | AcceptOk (conn : Z)
  | AcceptErr.

(** [None]: the loop ends. *)
Definition accept_iteration (backoff : BackoffConfig) (cancelled : bool) (o : AcceptOutcome) (w : Worker)
    : option (Worker * option Z) :=
  if cancelled then None
  else match o with
       | AcceptOk conn => Some (mk_Worker (initial_delay backoff) Selecting, Some conn)
       | AcceptErr => Some (mk_Worker (delay w) Sleeping, None)
       end.

(** [sleep(delay)] is over. *)
Definition after_sleep (backoff : BackoffConfig) (w : Worker) : Worker :=
  mk_Worker (Z.min (delay w * 2) (max_delay backoff)) Selecting.

(** ** [supervisor.rs] *)

Definition SUPERVISOR_RUNNING : Z := 0.
Definition SUPERVISOR_GRACEFUL : Z := 1.
Definition SUPERVISOR_DROPPED : Z := 2.
Definition SUPERVISOR_FINISHED : Z := 3.

Inductive ServerCancellationReason : Type :=
  | Graceful
  | Dropped.

(** The atomic and the cancellations recorded. *)
Record SupervisorLifecycle : Type := mk_SupervisorLifecycle {
  lifecycle_state : Z;
  cancellations : list ServerCancellationReason
}.

Definition lifecycle_new : SupervisorLifecycle := mk_SupervisorLifecycle SUPERVISOR_RUNNING [].
Definition record_graceful_cancellation (l : SupervisorLifecycle) : SupervisorLifecycle :=
  mk_SupervisorLifecycle SUPERVISOR_GRACEFUL (cancellations l ++ [Graceful]).
Definition record_dropped_cancellation (l : SupervisorLifecycle) : SupervisorLifecycle :=
  if decide (lifecycle_state l = SUPERVISOR_RUNNING)
  then mk_SupervisorLifecycle SUPERVISOR_DROPPED (cancellations l ++ [Dropped]) else l.
Definition record_completion_without_cancellation (l : SupervisorLifecycle) : SupervisorLifecycle :=
  mk_SupervisorLifecycle SUPERVISOR_FINISHED (cancellations l).
Definition cancellation_reason (l : SupervisorLifecycle) : ServerCancellationReason :=
  if decide (lifecycle_state l = SUPERVISOR_GRACEFUL) then Graceful else Dropped.

(** ** [shutdown.rs], [error.rs] *)

Inductive ServerError : Type :=
  | BindError (e : io_error)
  | AcceptError (e : io_error)
  | FactoryBuild (e : string)
  | Prepare (e : string)
  | AbnormalTermination (message : string) (source : option ServerError).

Inductive ServerTerminal : Type :=
  | Clean
  | Abnormal (message : string) (source : option ServerError)
  | Cancelled.

Definition terminal_result (t : ServerTerminal) : result unit ServerError :=
  match t with
  | Clean => Ok tt
  | Abnormal message source => Err (AbnormalTermination message source)
  | Cancelled =>
      Err (AbnormalTermination "server supervisor task was cancelled before a clean shutdown" None)
  end.

(** ** [observer.rs] *)

Inductive JoinResult : Type :=
  | JoinOk (r : result unit (ServerError * string))
  | JoinPanicked (message : string)
  | JoinCancelled.

(** An error comes with its message. *)
Definition classify_supervisor_result (r : JoinResult) : ServerTerminal :=
  match r with
  | JoinOk (Ok _) => Clean
  | JoinOk (Err (e, message)) => Abnormal message (Some e)
  | JoinPanicked message => Abnormal message None
  | JoinCancelled => Cancelled
  end.

(** ** [startup.rs]

    [build] is what the factory answers, [prepared] what preparation does;
    [shutdown_first] whether the shutdown future wins the race. *)

Inductive ServerStartupOutcome : Type :=
  | StartupCancelled
  | StartupFactoryBuild
  | StartupPreparation.

Definition record_preparation_result {P} (r : result P string)
    : list ServerStartupOutcome * result P ServerError :=
  match r with
  | Ok p => ([], Ok p)
  | Err e => ([StartupPreparation], Err (Prepare e))
  end.

Definition prepare_application {App P} (build : result App string) (prepare : App -> result P string)
    : list ServerStartupOutcome * result P ServerError :=
  match build with
  | Err e => ([StartupFactoryBuild], Err (FactoryBuild e))
  | Ok app => record_preparation_result (prepare app)
  end.

Definition prepare_application_or_shutdown {App P} (build : result App string)
    (prepare : App -> result P string) (shutdown_first : bool)
    : list ServerStartupOutcome * result (option P) ServerError :=
  match build with
  | Err e => ([StartupFactoryBuild], Err (FactoryBuild e))
  | Ok app =>
      if shutdown_first then ([StartupCancelled], Ok None)
      else let '(log, r) := record_preparation_result (prepare app) in
           (log, match r with Ok p => Ok (Some p) | Err e => Err e end)
  end.

(** ** [server/mod.rs]: a spawned server *)

Inductive SupervisorPhase : Type :=
  | Waiting
  | Draining
  | Unwinding (message : string)
  | Finished (r : JoinResult).

Record World : Type := mk_World {
  backoff : BackoffConfig;
  workers : list Worker;
  conns : gset Z;
  accepted : gset Z;
  tracker_closed : bool;
  stop_token : bool;
  worker_token : bool;
  lifecycle : SupervisorLifecycle;
  supervisor : SupervisorPhase;
  terminal : option ServerTerminal;
  connection_panics : Z;
  loop_exits : list ServerCancellationReason
}.

Definition set_workers_list (ws : list Worker) (w : World) : World :=
  mk_World (backoff w) ws (conns w) (accepted w) (tracker_closed w) (stop_token w) (worker_token w)
    (lifecycle w) (supervisor w) (terminal w) (connection_panics w) (loop_exits w).
Definition set_conns (cs acc : gset Z) (panics : Z) (w : World) : World :=
  mk_World (backoff w) (workers w) cs acc (tracker_closed w) (stop_token w) (worker_token w)
    (lifecycle w) (supervisor w) (terminal w) panics (loop_exits w).
Definition set_supervisor (token closed : bool) (l : SupervisorLifecycle) (s : SupervisorPhase) (w : World) : World :=
  mk_World (backoff w) (workers w) (conns w) (accepted w) closed (stop_token w) token
    l s (terminal w) (connection_panics w) (loop_exits w).

(** [spawn] after the application is prepared: the accept loops are on the
    tracker, which is then closed. *)
Definition spawned (count : Z) (config : BackoffConfig) : World :=
  mk_World (normalized config) (replicate (Z.to_nat (set_workers count)) (worker_new config)) ∅ ∅
    true false false lifecycle_new Waiting None 0 [].

(** [tracker.wait()] resolves. *)
Definition tracker_empty (w : World) : bool :=
  tracker_closed w && bool_decide (Forall (fun x => phase x = Exited) (workers w)) &&
  bool_decide (conns w = ∅).

Inductive Event : Type :=
  | Stop
  | Accept (i : nat) (o : AcceptOutcome)
  | SleepDone (i : nat)
  | LoopExit (i : nat)
  | ConnDone (c : Z) (panicked : bool)
  | SupervisorStops
  | SupervisorSeesEmpty
  | SupervisorDrained
  | SupervisorPanics (message : string)
  | SupervisorUnwound
  | SupervisorAborted
  | Observe.

Definition step (e : Event) (w : World) : option World :=
  match e with
  | Stop =>
      Some (mk_World (backoff w) (workers w) (conns w) (accepted w) (tracker_closed w) true
              (worker_token w) (lifecycle w) (supervisor w) (terminal w) (connection_panics w)
              (loop_exits w))
  | Accept i o =>
      match workers w !! i with
      | Some x =>
          if decide (phase x = Selecting) then
            match accept_iteration (backoff w) (worker_token w) o x with
            | None => None
            | Some (x, spawn) =>
                let w := set_workers_list (<[i := x]> (workers w)) w in
                match spawn with
                | None => Some w
                | Some c =>
                    if decide (c ∈ accepted w) then None
                    else Some (set_conns ({[c]} ∪ conns w) ({[c]} ∪ accepted w) (connection_panics w) w)
                end
            end
          else None
      | None => None
      end
  | SleepDone i =>
      match workers w !! i with
      | Some x =>
          if decide (phase x = Sleeping)
          then Some (set_workers_list (<[i := after_sleep (backoff w) x]> (workers w)) w) else None
      | None => None
      end
  | LoopExit i =>
      match workers w !! i with
      | Some x =>
          if decide (phase x = Selecting) then
            match accept_iteration (backoff w) (worker_token w) AcceptErr x with
            | None =>
                let w := set_workers_list (<[i := mk_Worker (delay x) Exited]> (workers w)) w in
                Some (mk_World (backoff w) (workers w) (conns w) (accepted w) (tracker_closed w)
                        (stop_token w) (worker_token w) (lifecycle w) (supervisor w) (terminal w)
                        (connection_panics w)
                        (loop_exits w ++ if worker_token w then [cancellation_reason (lifecycle w)] else []))
            | Some _ => None
            end
          else None
      | None => None
      end
  | ConnDone c panicked =>
      if decide (c ∈ conns w)
      then Some (set_conns (conns w ∖ {[c]}) (accepted w)
                   (connection_panics w + if (panicked : bool) then 1 else 0) w)
      else None
  | SupervisorStops =>
      match supervisor w with
      | Waiting =>
          if stop_token w
          then Some (set_supervisor true (tracker_closed w)
                       (record_graceful_cancellation (lifecycle w)) Draining w)
          else None
      | _ => None
      end
  | SupervisorSeesEmpty =>
      match supervisor w with
      | Waiting =>
          if tracker_empty w
          then Some (set_supervisor (worker_token w) (tracker_closed w)
                       (record_completion_without_cancellation (lifecycle w)) Draining w)
          else None
      | _ => None
      end
  | SupervisorDrained =>
      match supervisor w with
      | Draining =>
          if tracker_empty w
          then Some (set_supervisor (worker_token w) (tracker_closed w) (lifecycle w)
                       (Finished (JoinOk (Ok tt))) w)
          else None
      | _ => None
      end
  | SupervisorPanics message =>
      match supervisor w with
      | Waiting | Draining =>
          Some (set_supervisor true true (lifecycle w) (Unwinding message) w)
      | _ => None
      end
  | SupervisorUnwound =>
      match supervisor w with
      | Unwinding message =>
          if tracker_empty w
          then Some (set_supervisor (worker_token w) (tracker_closed w) (lifecycle w)
                       (Finished (JoinPanicked message)) w)
          else None
      | _ => None
      end
  | SupervisorAborted =>
      match supervisor w with
      | Finished _ => None
      | _ => Some (set_supervisor (worker_token w) (tracker_closed w) (lifecycle w)
                     (Finished JoinCancelled) w)
      end
  | Observe =>
      match supervisor w, terminal w with
      | Finished r, None =>
          Some (mk_World (backoff w) (workers w) (conns w) (accepted w) (tracker_closed w)
                  (stop_token w) (worker_token w) (lifecycle w) (supervisor w)
                  (Some (classify_supervisor_result r)) (connection_panics w) (loop_exits w))
      | _, _ => None
      end
  end.

(** [drained]: [None] while there is no outcome yet. *)
Definition drained (w : World) : option (result unit ServerError) := option_map terminal_result (terminal w).

Fixpoint run (es : list Event) (w : World) : option World :=
  match es with
  | [] => Some w
  | e :: es => match step e w with Some w => run es w | None => None end
  end.
