(* ===== verification/ServerCorrectness.v ===== *)
(** * Correctness of the server's lifecycle

    A clean outcome means that everything was drained; a stop request leads to
    it; the accept loops back off within their bounds. *)

From S2P Require Import Prelude.
From S2P Require Import Server.

Local Open Scope Z_scope.

(** ** The invariant *)

Definition all_gone (w : World) : Prop :=
  Forall (fun x => phase x = Exited) (workers w) /\ conns w = ∅.

Definition delay_ok (b : BackoffConfig) (x : Worker) : Prop :=
  initial_delay b <= delay x <= max_delay b.

(** When the supervisor is through with waiting, [gone] holds. *)
Definition phase_ok (token : bool) (s : SupervisorPhase) (gone : Prop) : Prop :=
  match s with
  | Waiting | Unwinding _ | Finished JoinCancelled => True
  | Draining => token = false -> gone
  | Finished _ => gone
  end.

Record server_ok (w : World) : Prop := {
  ok_closed : tracker_closed w = true;
  ok_backoff : 1 <= initial_delay (backoff w) <= max_delay (backoff w);
  ok_delays : Forall (delay_ok (backoff w)) (workers w);
  ok_conns : conns w ⊆ accepted w;
  ok_phase : phase_ok (worker_token w) (supervisor w) (all_gone w);
  ok_terminal :
    forall t, terminal w = Some t -> exists r, supervisor w = Finished r /\ t = classify_supervisor_result r
}.

Lemma phase_ok_impl token s (P Q : Prop) : (P -> Q) -> phase_ok token s P -> phase_ok token s Q.
Proof. unfold phase_ok. destruct s as [| |m|[]]; tauto. Qed.

Lemma tracker_empty_spec w : tracker_closed w = true -> tracker_empty w = true <-> all_gone w.
Proof.
  intros Hc. unfold tracker_empty, all_gone. rewrite Hc. cbn [andb].
  rewrite andb_true_iff, !bool_decide_eq_true. done.
Qed.

Lemma normalized_ok c : 1 <= initial_delay (normalized c) <= max_delay (normalized c).
Proof. unfold normalized. case_decide; cbn; lia. Qed.

Lemma spawned_ok n c : server_ok (spawned n c).
Proof.
  constructor; cbn; try done.
  - apply normalized_ok.
  - apply Forall_replicate. unfold delay_ok. cbn. pose proof (normalized_ok c). lia.
Qed.

(** A worker that is not through keeps the tracker from being empty. *)
Lemma worker_not_gone w i x :
  workers w !! i = Some x -> phase x <> Exited -> ~ all_gone w.
Proof. intros Hi Hx [Hw _]. apply Hx. exact (Forall_lookup_1 _ _ _ _ Hw Hi). Qed.

Lemma worker_step_ok w i x y :
  server_ok w -> workers w !! i = Some x -> phase x <> Exited -> delay_ok (backoff w) y ->
  server_ok (set_workers_list (<[i := y]> (workers w)) w).
Proof.
  intros [H1 H2 H3 H4 H5 H6] Hi Hx Hy. constructor; cbn; try done.
  - by apply Forall_insert.
  - eapply phase_ok_impl; [|exact H5]. intros Hg. by destruct (worker_not_gone w i x Hi Hx).
Qed.

Lemma conns_ok w cs acc p :
  server_ok w -> cs ⊆ acc -> (all_gone w -> cs = ∅) -> server_ok (set_conns cs acc p w).
Proof.
  intros [H1 H2 H3 H4 H5 H6] Hs Hg. constructor; cbn; try done.
  eapply phase_ok_impl; [|exact H5]. intros Hgone. split; [apply Hgone|by apply Hg].
Qed.

(** The supervisor moves on, before an outcome is published. *)
Lemma supervisor_ok w token l s :
  server_ok w -> phase_ok token s (all_gone w) -> (forall r, supervisor w <> Finished r) ->
  server_ok (set_supervisor token true l s w).
Proof.
  intros [H1 H2 H3 H4 H5 H6] Hp Hn. constructor; cbn; try done.
  intros t Ht. destruct (H6 t Ht) as (r & E & _). by destruct (Hn r).
Qed.

Lemma accept_step_ok w i o w' : server_ok w -> step (Accept i o) w = Some w' -> server_ok w'.
Proof.
  intros Hok Hs. cbn in Hs. destruct (workers w !! i) as [x|] eqn:Ei; [|done].
  case_decide as Hx; [|done]. unfold accept_iteration in Hs. destruct (worker_token w); [done|].
  assert (Hne : phase x <> Exited) by congruence. pose proof Hok as [_ Hb Hd _ _ _].
  pose proof (Forall_lookup_1 _ _ _ _ Hd Ei) as Hdx.
  destruct o as [c|]; cbn in Hs.
  - case_decide as Hc; [done|]. injection Hs as <-.
    eapply (worker_step_ok w i x (mk_Worker (initial_delay (backoff w)) Selecting)) in Hok;
      [|done|done|unfold delay_ok; cbn; lia].
    apply conns_ok; [done| |].
    + pose proof (ok_conns _ Hok) as Hsub. cbn in Hsub. clear -Hsub. set_solver.
    + intros [Hg _]. exfalso. cbn in Hg.
      assert (E : <[i:=mk_Worker (initial_delay (backoff w)) Selecting]> (workers w) !! i
        = Some (mk_Worker (initial_delay (backoff w)) Selecting))
        by (apply list_lookup_insert_eq; by eapply lookup_lt_Some).
      pose proof (Forall_lookup_1 _ _ _ _ Hg E) as Hf. done.
  - injection Hs as <-. eapply worker_step_ok; [done|done|done|]. exact Hdx.
Qed.

Lemma server_step_ok e w w' : server_ok w -> step e w = Some w' -> server_ok w'.
Proof.
  intros Hok Hs. pose proof Hok as [H1 H2 H3 H4 H5 H6].
  destruct e as [|i o|i|i|c p| | | |m| | |]; [|by eapply accept_step_ok|..]; cbn in Hs.
  - injection Hs as <-. by constructor.
  - destruct (workers w !! i) as [x|] eqn:Ei; [|done]. case_decide as Hx; [|done]. injection Hs as <-.
    eapply worker_step_ok; [done|done|congruence|].
    pose proof (Forall_lookup_1 _ _ _ _ H3 Ei) as Hdx. unfold delay_ok in *. cbn. lia.
  - destruct (workers w !! i) as [x|] eqn:Ei; [|done]. case_decide as Hx; [|done].
    unfold accept_iteration in Hs. destruct (worker_token w) eqn:Et; [|done]. injection Hs as <-.
    pose proof (Forall_lookup_1 _ _ _ _ H3 Ei) as Hdx.
    destruct (worker_step_ok w i x (mk_Worker (delay x) Exited) Hok Ei ltac:(congruence) Hdx)
      as [G1 G2 G3 G4 G5 G6]. constructor; try done. cbn in G5 |- *. by rewrite Et in G5.
  - case_decide as Hc; [|done]. injection Hs as <-. apply conns_ok; [done|set_solver|].
    intros [_ Hg]. set_solver.
  - destruct (supervisor w) eqn:Es; try done. destruct (stop_token w); [|done]. injection Hs as <-.
    rewrite H1. apply supervisor_ok; [done|done|congruence].
  - destruct (supervisor w) eqn:Es; try done. destruct (tracker_empty w) eqn:Ee; [|done].
    injection Hs as <-. rewrite H1. apply supervisor_ok; [done| |congruence].
    intros _. by apply tracker_empty_spec.
  - destruct (supervisor w) eqn:Es; try done. destruct (tracker_empty w) eqn:Ee; [|done].
    injection Hs as <-. rewrite H1. apply supervisor_ok; [done| |congruence].
    by apply tracker_empty_spec.
  - destruct (supervisor w) eqn:Es; try done; injection Hs as <-;
      (apply supervisor_ok; [done|done|congruence]).
  - destruct (supervisor w) eqn:Es; try done. destruct (tracker_empty w) eqn:Ee; [|done].
    injection Hs as <-. rewrite H1. apply supervisor_ok; [done| |congruence].
    by apply tracker_empty_spec.
  - destruct (supervisor w) eqn:Es; try done; injection Hs as <-; rewrite H1;
      (apply supervisor_ok; [done|done|congruence]).
  - destruct (supervisor w) eqn:Es; try done. destruct (terminal w) eqn:Et; [done|]. injection Hs as <-.
    constructor; cbn; try done. intros t [= <-]. by eexists.
Qed.

Lemma server_run_ok es w w' : server_ok w -> run es w = Some w' -> server_ok w'.
Proof.
  revert w. induction es as [|e es IH]; intros w Hw Hr; cbn in Hr; [by injection Hr as <-|].
  destruct (step e w) as [w1|] eqn:Es; [|done]. eapply IH; [by eapply server_step_ok|done].
Qed.

(** ** What [drained] promises *)

Lemma step_backoff e w w' : step e w = Some w' -> backoff w' = backoff w.
Proof.
  intros Hs. destruct e; cbn in Hs; repeat (case_match; try discriminate); simplify_eq/=; done.
Qed.

Lemma run_backoff es w w' : run es w = Some w' -> backoff w' = backoff w.
Proof.
  revert w. induction es as [|e es IH]; intros w Hr; cbn in Hr; [by injection Hr as <-|].
  destruct (step e w) as [w1|] eqn:Es; [|done]. rewrite (IH w1 Hr). by eapply step_backoff.
Qed.

(** After the outcome is out, only the caller's idle [stop] is left. *)
Lemma gone_step e w w' r t :
  all_gone w -> supervisor w = Finished r -> terminal w = Some t -> step e w = Some w' ->
  e = Stop /\ workers w' = workers w /\ conns w' = conns w /\ accepted w' = accepted w /\
  terminal w' = terminal w /\ supervisor w' = supervisor w.
Proof.
  intros Hg Hsup Hter Hs. pose proof Hg as [Hg1 Hg2].
  assert (Hw : forall i x, workers w !! i = Some x -> phase x = Exited)
    by (intros i x Hi; exact (Forall_lookup_1 _ _ _ _ Hg1 Hi)).
  destruct e as [|i o|i|i|c p| | | |m| | |]; cbn in Hs; rewrite ?Hsup, ?Hter in Hs; try done.
  - injection Hs as <-. done.
  - destruct (workers w !! i) as [x|] eqn:Ei; [|done]. by rewrite (Hw i x Ei) in Hs.
  - destruct (workers w !! i) as [x|] eqn:Ei; [|done]. by rewrite (Hw i x Ei) in Hs.
  - destruct (workers w !! i) as [x|] eqn:Ei; [|done]. by rewrite (Hw i x Ei) in Hs.
  - case_decide as Hc; [|done]. rewrite Hg2 in Hc. set_solver.
Qed.

Lemma gone_run es w w' :
  all_gone w -> (exists r, supervisor w = Finished r) -> is_Some (terminal w) -> run es w = Some w' ->
  conns w' = ∅ /\ accepted w' = accepted w /\ terminal w' = terminal w /\ all_gone w'.
Proof.
  revert w. induction es as [|e es IH]; intros w Hg [r Hs] [t Ht] Hr; cbn in Hr.
  - injection Hr as <-. split; [apply Hg|]. done.
  - destruct (step e w) as [w1|] eqn:Es; [|done].
    destruct (gone_step e w w1 r t Hg Hs Ht Es) as (_ & E1 & E2 & E3 & E4 & E5).
    destruct (IH w1) as (F1 & F2 & F3 & F4).
    + unfold all_gone. by rewrite E1, E2.
    + exists r. congruence.
    + exists t. congruence.
    + done.
    + split; [done|]. split; [congruence|]. split; [congruence|done].
Qed.

(** C8: when [drained] succeeds, every accept loop has exited and every
    connection task that was ever spawned has ended, and no connection is
    accepted afterwards; so it is also after the supervisor panicked.  All the
    while the retry delay of each accept loop stays within the back-off's
    bounds. *)
Theorem clean_shutdown_drained_everything n c es es' w w' :
  run es (spawned n c) = Some w -> run es' w = Some w' ->
  Forall (fun x => initial_delay (normalized c) <= delay x <= max_delay (normalized c)) (workers w) /\
  (drained w = Some (Ok tt) \/ (exists m, terminal w = Some (Abnormal m None)) ->
   Forall (fun x => phase x = Exited) (workers w) /\ conns w = ∅ /\
   conns w' = ∅ /\ accepted w' = accepted w /\ drained w' = drained w).
Proof.
  intros Hr Hr'. pose proof (server_run_ok es _ _ (spawned_ok n c) Hr) as Hok. split.
  - change (normalized c) with (backoff (spawned n c)). rewrite <- (run_backoff es _ _ Hr). apply Hok.
  - intros Hd. assert (Hgone : all_gone w /\ exists r, supervisor w = Finished r).
    { unfold drained in Hd. destruct (terminal w) as [t|] eqn:Et; [|by destruct Hd as [?|[? ?]]].
      destruct (ok_terminal w Hok t Et) as (r & Es & ->). pose proof (ok_phase w Hok) as Hp.
      rewrite Es in Hp. split; [|by eexists]. destruct r as [[u|[e m]]|m|]; cbn in Hp; try done.
      cbn in Hd. destruct Hd as [?|[? ?]]; done. }
    destruct Hgone as [Hgone [r Hs]]. split; [apply Hgone|]. split; [apply Hgone|].
    destruct Hd as [Hd|[m Hd]].
    + destruct (gone_run es' w w' Hgone (ex_intro _ r Hs)) as (E1 & E2 & E3 & _); [|done|].
      { unfold drained in Hd. by destruct (terminal w). }
      unfold drained in *. rewrite E3. done.
    + destruct (gone_run es' w w' Hgone (ex_intro _ r Hs)) as (E1 & E2 & E3 & _); [by rewrite Hd|done|].
      unfold drained in *. rewrite E3. done.
Qed.

(** ** A stop request leads to a clean outcome *)

Definition worker_cost (x : Worker) : nat :=
  match phase x with Sleeping => 2 | Selecting => 1 | Exited => 0 end.
Definition supervisor_cost (s : SupervisorPhase) : nat :=
  match s with Waiting => 3 | Draining => 2 | Unwinding _ => 1 | Finished _ => 0 end.

(** Bounds the steps left once the accept loops are told to stop. *)
Definition remaining (w : World) : nat :=
  sum_list_with worker_cost (workers w) + size (conns w) + supervisor_cost (supervisor w) +
  match terminal w with None => 1 | Some _ => 0 end.

Lemma sum_insert (ws : list Worker) (i : nat) x y :
  ws !! i = Some x ->
  (sum_list_with worker_cost (<[i := y]> ws) + worker_cost x =
   sum_list_with worker_cost ws + worker_cost y)%nat.
Proof.
  revert i. induction ws as [|z ws IH]; intros i Hi; [done|]. destruct i as [|i].
  - injection Hi as ->. cbn. lia.
  - change (<[S i := y]> (z :: ws)) with (z :: <[i := y]> ws). cbn [sum_list_with].
    specialize (IH i Hi). lia.
Qed.

Lemma worker_cost_step (ws : list Worker) (i : nat) x y :
  ws !! i = Some x -> (worker_cost y < worker_cost x)%nat ->
  (sum_list_with worker_cost (<[i := y]> ws) < sum_list_with worker_cost ws)%nat.
Proof. intros Hi Hl. pose proof (sum_insert ws i x y Hi). lia. Qed.

Lemma remaining_decreases e w w' :
  worker_token w = true -> e <> Stop -> step e w = Some w' ->
  worker_token w' = true /\ (remaining w' < remaining w)%nat.
Proof.
  intros Ht He Hs. destruct e as [|i o|i|i|c p| | | |m| | |]; cbn in Hs; [done|..].
  - destruct (workers w !! i) as [x|]; [|done]. case_decide; [|done]. by rewrite Ht in Hs.
  - destruct (workers w !! i) as [x|] eqn:Ei; [|done]. case_decide as Hx; [|done]. injection Hs as <-.
    split; [done|]. unfold remaining. cbn.
    pose proof (worker_cost_step (workers w) i x (after_sleep (backoff w) x) Ei) as Hl.
    unfold worker_cost in Hl at 1 2. rewrite Hx in Hl. cbn in Hl. lia.
  - destruct (workers w !! i) as [x|] eqn:Ei; [|done]. case_decide as Hx; [|done].
    rewrite Ht in Hs. injection Hs as <-. split; [done|]. unfold remaining. cbn.
    pose proof (worker_cost_step (workers w) i x (mk_Worker (delay x) Exited) Ei) as Hl.
    unfold worker_cost in Hl at 1 2. rewrite Hx in Hl. cbn in Hl. lia.
  - case_decide as Hc; [|done]. injection Hs as <-. split; [done|]. unfold remaining. cbn.
    assert (size (conns w ∖ {[c]}) < size (conns w))%nat by (apply subset_size; set_solver). lia.
  - destruct (supervisor w) eqn:Es; try done. destruct (stop_token w); [|done]. injection Hs as <-.
    split; [done|]. unfold remaining. cbn. rewrite Es. cbn. lia.
  - destruct (supervisor w) eqn:Es; try done. destruct (tracker_empty w); [|done]. injection Hs as <-.
    split; [done|]. unfold remaining. cbn. rewrite Es. cbn. lia.
  - destruct (supervisor w) eqn:Es; try done. destruct (tracker_empty w); [|done]. injection Hs as <-.
    split; [done|]. unfold remaining. cbn. rewrite Es. cbn. lia.
  - destruct (supervisor w) eqn:Es; try done; injection Hs as <-;
      (split; [done|]); unfold remaining; cbn; rewrite Es; cbn; lia.
  - destruct (supervisor w) eqn:Es; try done. destruct (tracker_empty w); [|done]. injection Hs as <-.
    split; [done|]. unfold remaining. cbn. rewrite Es. cbn. lia.
  - destruct (supervisor w) eqn:Es; try done; injection Hs as <-;
      (split; [done|]); unfold remaining; cbn; rewrite Es; cbn; lia.
  - destruct (supervisor w) eqn:Es; try done. destruct (terminal w) eqn:Et; [done|]. injection Hs as <-.
    split; [done|]. unfold remaining. cbn. rewrite Es, Et. cbn. lia.
Qed.

(** The run goes on without a fault. *)
Definition sound (e : Event) : Prop :=
  match e with Stop | SupervisorPanics _ | SupervisorAborted => False | _ => True end.

(** A supervisor that has met no fault and is not through with its outcome. *)
Definition stopping (w : World) : Prop :=
  server_ok w /\ stop_token w = true /\ terminal w = None /\
  (supervisor w = Waiting \/ supervisor w = Draining \/ supervisor w = Finished (JoinOk (Ok tt))).

Lemma busy_worker (ws : list Worker) :
  Forall (fun x => phase x = Exited) ws \/
  exists i x, ws !! i = Some x /\ (phase x = Selecting \/ phase x = Sleeping).
Proof.
  induction ws as [|z ws [IH|(i & x & Hi & Hx)]]; [by left| |].
  - destruct (phase z) eqn:Ez; [right; exists 0%nat, z; auto..|]. left. by constructor.
  - right. by exists (S i), x.
Qed.

Lemma stopping_progress w :
  stopping w ->
  exists e w', sound e /\ step e w = Some w' /\
    (drained w' = Some (Ok tt) \/ stopping w' /\ (remaining w' < remaining w)%nat).
Proof.
  intros (Hok & Hstop & Hter & Hsup). pose proof (ok_closed w Hok) as Hcl.
  assert (Hgo : forall e w', sound e -> step e w = Some w' -> worker_token w = true ->
    stop_token w' = true -> terminal w' = None ->
    (supervisor w' = Waiting \/ supervisor w' = Draining \/ supervisor w' = Finished (JoinOk (Ok tt))) ->
    exists e w', sound e /\ step e w = Some w' /\
      (drained w' = Some (Ok tt) \/ stopping w' /\ (remaining w' < remaining w)%nat)).
  { intros e w' He Hs Ht H1 H2 H3. exists e, w'. split; [done|]. split; [done|]. right.
    split; [split; [by eapply server_step_ok|done]|]. eapply remaining_decreases; [done| |done]. by intros ->. }
  destruct Hsup as [Hs|[Hs|Hs]].
  - assert (E : step SupervisorStops w = Some (set_supervisor true (tracker_closed w)
      (record_graceful_cancellation (lifecycle w)) Draining w)) by (cbn; by rewrite Hs, Hstop).
    exists SupervisorStops. eexists. split; [done|]. split; [exact E|]. right.
    split; [split; [by eapply server_step_ok|]|].
    + cbn. auto.
    + unfold remaining. cbn. rewrite Hs. cbn. lia.
  - destruct (tracker_empty w) eqn:Ee.
    + exists SupervisorDrained. eexists. split; [done|].
      assert (E : step SupervisorDrained w = Some (set_supervisor (worker_token w) (tracker_closed w)
        (lifecycle w) (Finished (JoinOk (Ok tt))) w)) by (cbn; by rewrite Hs, Ee).
      split; [exact E|]. right. split; [split; [by eapply server_step_ok|cbn; auto]|].
      unfold remaining. cbn. rewrite Hs. cbn. lia.
    + destruct (worker_token w) eqn:Ht.
      2:{ pose proof (ok_phase w Hok) as Hp. rewrite Hs, Ht in Hp. specialize (Hp eq_refl).
          apply tracker_empty_spec in Hp; [congruence|done]. }
      destruct (busy_worker (workers w)) as [Hw|(i & x & Hi & [Hx|Hx])].
      * destruct (decide (conns w = ∅)) as [Hc|Hc].
        { assert (all_gone w) as Hg by done. apply tracker_empty_spec in Hg; [congruence|done]. }
        apply set_choose_L in Hc as [c Hc].
        eapply (Hgo (ConnDone c false)); [done|cbn; by rewrite decide_True by done|done|..]; cbn; auto.
      * eapply (Hgo (LoopExit i)); [done|cbn; rewrite Hi, decide_True, Ht by done; done|done|..]; cbn; auto.
      * eapply (Hgo (SleepDone i)); [done|cbn; rewrite Hi, decide_True by done; done|done|..]; cbn; auto.
  - exists Observe. eexists. split; [done|]. split; [cbn; rewrite Hs, Hter; done|]. left. done.
Qed.

(** C22: whenever the caller has asked a running server to stop, there is a way
    on, along which connections only have to end, to a clean outcome; and once
    the accept loops have been told, no schedule of the tasks can avoid coming
    to an end: no run is longer than the work that is left. *)
Theorem stop_leads_to_clean_drain n c es w :
  run es (spawned n c) = Some w -> stop_token w = true -> terminal w = None ->
  supervisor w = Waiting \/ supervisor w = Draining ->
  (exists es' w', run es' w = Some w' /\ Forall sound es' /\ drained w' = Some (Ok tt)) /\
  (worker_token w = true ->
   forall es' w', run es' w = Some w' -> Stop ∉ es' -> (length es' <= remaining w)%nat).
Proof.
  intros Hr Hstop Hter Hsup. split.
  - assert (Hst : stopping w).
    { split; [by eapply server_run_ok; [apply spawned_ok|]|]. split; [done|]. split; [done|]. tauto. }
    clear Hr Hstop Hter Hsup. remember (remaining w) as k eqn:Hk.
    revert w Hst Hk. induction (lt_wf k) as [k _ IH]. intros w Hst ->.
    destruct (stopping_progress w Hst) as (e & w1 & He & Hs & [Hd|[Hst1 Hlt]]).
    + exists [e], w1. cbn. rewrite Hs. split; [done|]. split; [by repeat constructor|done].
    + destruct (IH (remaining w1) Hlt w1 Hst1 eq_refl) as (es' & w' & Hr & Hf & Hd).
      exists (e :: es'), w'. cbn. rewrite Hs. split; [done|]. split; [by constructor|done].
  - intros Ht es'. clear Hr Hstop Hter Hsup. revert w Ht.
    induction es' as [|e es' IH]; intros w Ht w' Hr Hn; cbn in *; [lia|].
    destruct (step e w) as [w1|] eqn:Es; [|done].
    destruct (remaining_decreases e w w1 Ht) as [Ht1 Hlt]; [|done|].
    + intros ->. apply Hn. by left.
    + specialize (IH w1 Ht1 w' Hr). assert (Stop ∉ es') as Hn' by (intros Hin; apply Hn; by right).
      specialize (IH Hn'). lia.
Qed.

(** ** The retry delays *)

(** The delay before the [k+1]-th retry in a row. *)
Lemma backoff_closed_form b (k : nat) :
  0 < initial_delay b <= max_delay b ->
  delay (Nat.iter k (after_sleep b) (mk_Worker (initial_delay b) Selecting)) =
  Z.min (max_delay b) (initial_delay b * 2 ^ Z.of_nat k).
Proof.
  intros Hb. induction k as [|k IH]; [cbn; lia|]. rewrite Nat.iter_succ. cbn [after_sleep delay].
  rewrite IH, Nat2Z.inj_succ, Z.pow_succ_r by lia.
  assert (0 < 2 ^ Z.of_nat k) by (apply Z.pow_pos_nonneg; lia). nia.
Qed.

(** ** A run *)

Module Run.
Definition events : list Event :=
  [Accept 0 (AcceptOk 1); Accept 1 AcceptErr; Stop; Accept 0 (AcceptOk 2); SupervisorStops;
   LoopExit 0; SleepDone 1].
Definition state : World := default (spawned 0 backoff_default) (run events (spawned 2 backoff_default)).
Definition rest : list Event := [ConnDone 1 false; LoopExit 1; ConnDone 2 true; SupervisorDrained; Observe].
Definition final : World := default state (run rest state).
End Run.

Lemma stop_leads_to_clean_drain_witness :
  exists es' w', run es' Run.state = Some w' /\ Forall sound es' /\ drained w' = Some (Ok tt).
Proof.
  destruct (stop_leads_to_clean_drain 2 backoff_default Run.events Run.state) as [H _];
    [vm_compute; reflexivity|vm_compute; reflexivity|vm_compute; reflexivity|right; vm_compute; reflexivity|].
  exact H.
Defined.

Lemma clean_shutdown_drained_everything_witness :
  conns Run.final = ∅ /\ drained Run.final = Some (Ok tt).
Proof.
  destruct (clean_shutdown_drained_everything 2 backoff_default (Run.events ++ Run.rest) [] Run.final Run.final)
    as [_ H]; [vm_compute; reflexivity|cbn [run]; reflexivity|].
  destruct H as (_ & H & _); [left; vm_compute; reflexivity|].
  split; [exact H|vm_compute; reflexivity].
Defined.
