(* ===== verification/ConnectionModel.v ===== *)
(** * The repository's own connection model

    Models [crates/wireframe-verification/src/connection_model/]: the state
    machine the repository explores with a model checker to a depth of six, and
    its properties.  Here they hold for runs of any length. *)

From S2P Require Import Prelude.

Local Open Scope Z_scope.

(** ** [state.rs], [action.rs] *)

Inductive ActiveOutput : Type :=
  | Idle
  | Response
  | MultiPacket.

Record PendingOutputs : Type := mk_PendingOutputs {
  high_priority_queued : bool;
  low_priority_queued : bool;
  fairness_allows_low : bool
}.
Record ShutdownState : Type := mk_ShutdownState {
  requested : bool;
  during_output : bool
}.
Record EmissionEvidence : Type := mk_EmissionEvidence {
  emitted_high : bool;
  emitted_low : bool
}.
Record CompletedOutputs : Type := mk_CompletedOutputs {
  completed_response : bool;
  completed_multi_packet : bool
}.

Record ConnectionState : Type := mk_ConnectionState {
  steps : Z;
  pending_outputs : PendingOutputs;
  active_output : ActiveOutput;
  shutdown : ShutdownState;
  emissions : EmissionEvidence;
  completed_outputs : CompletedOutputs;
  multi_packet_terminal_count : Z
}.

Definition initial : ConnectionState :=
  mk_ConnectionState 0 (mk_PendingOutputs false false false) Idle (mk_ShutdownState false false)
    (mk_EmissionEvidence false false) (mk_CompletedOutputs false false) 0.

Definition is_output_idle (s : ConnectionState) : bool :=
  match active_output s with Idle => true | _ => false end.
Definition can_install_output (s : ConnectionState) : bool :=
  negb (requested (shutdown s)) && is_output_idle s.
Definition can_emit_low_priority (s : ConnectionState) : bool :=
  low_priority_queued (pending_outputs s) &&
  (negb (high_priority_queued (pending_outputs s)) || fairness_allows_low (pending_outputs s)).

Inductive ConnectionAction : Type :=
  | EnqueueHigh
  | EnqueueLow
  | InstallResponse
  | InstallMultiPacket
  | EmitQueued
  | EmitActiveFrame
  | CompleteActiveOutput
  | Shutdown
  | TickFairness.

(** ** [model.rs] *)

Definition stepped (s : ConnectionState) : ConnectionState :=
  mk_ConnectionState (saturating_add u8_max (steps s) 1) (pending_outputs s) (active_output s)
    (shutdown s) (emissions s) (completed_outputs s) (multi_packet_terminal_count s).

Definition apply_if (s : ConnectionState) (enabled : bool)
    (mutate : ConnectionState -> ConnectionState) : option ConnectionState :=
  if enabled then Some (mutate (stepped s)) else None.

Definition set_pending (p : PendingOutputs) (s : ConnectionState) : ConnectionState :=
  mk_ConnectionState (steps s) p (active_output s) (shutdown s) (emissions s) (completed_outputs s)
    (multi_packet_terminal_count s).
Definition set_output (o : ActiveOutput) (n : Z) (s : ConnectionState) : ConnectionState :=
  mk_ConnectionState (steps s) (pending_outputs s) o (shutdown s) (emissions s)
    (completed_outputs s) n.
Definition set_shutdown (d : ShutdownState) (s : ConnectionState) : ConnectionState :=
  mk_ConnectionState (steps s) (pending_outputs s) (active_output s) d (emissions s)
    (completed_outputs s) (multi_packet_terminal_count s).
Definition set_emissions (e : EmissionEvidence) (s : ConnectionState) : ConnectionState :=
  mk_ConnectionState (steps s) (pending_outputs s) (active_output s) (shutdown s) e
    (completed_outputs s) (multi_packet_terminal_count s).
Definition set_completed (c : CompletedOutputs) (s : ConnectionState) : ConnectionState :=
  mk_ConnectionState (steps s) (pending_outputs s) (active_output s) (shutdown s) (emissions s) c
    (multi_packet_terminal_count s).

Definition apply_enqueue_high (s : ConnectionState) : option ConnectionState :=
  let p := pending_outputs s in
  apply_if s (negb (high_priority_queued p)) (fun n =>
    set_pending (mk_PendingOutputs true (low_priority_queued p) (fairness_allows_low p)) n).
Definition apply_enqueue_low (s : ConnectionState) : option ConnectionState :=
  let p := pending_outputs s in
  apply_if s (negb (low_priority_queued p)) (fun n =>
    set_pending (mk_PendingOutputs (high_priority_queued p) true (fairness_allows_low p)) n).
Definition apply_install_response (s : ConnectionState) : option ConnectionState :=
  apply_if s (can_install_output s) (fun n => set_output Response (multi_packet_terminal_count n) n).
Definition apply_install_multi_packet (s : ConnectionState) : option ConnectionState :=
  apply_if s (can_install_output s) (fun n => set_output MultiPacket 0 n).
Definition apply_emit_high (s : ConnectionState) : option ConnectionState :=
  let p := pending_outputs s in
  apply_if s (high_priority_queued p) (fun n =>
    set_pending (mk_PendingOutputs false (low_priority_queued p) true)
      (set_emissions (mk_EmissionEvidence true (emitted_low (emissions n))) n)).
Definition apply_emit_low (s : ConnectionState) : option ConnectionState :=
  let p := pending_outputs s in
  apply_if s (can_emit_low_priority s) (fun n =>
    set_pending (mk_PendingOutputs (high_priority_queued p) false false)
      (set_emissions (mk_EmissionEvidence (emitted_high (emissions n)) true) n)).
Definition apply_emit_active_frame (s : ConnectionState) : option ConnectionState :=
  apply_if s (negb (is_output_idle s)) (fun n =>
    set_shutdown (mk_ShutdownState (requested (shutdown n)) (requested (shutdown s))) n).
Definition apply_complete_response (s : ConnectionState) : option ConnectionState :=
  apply_if s (match active_output s with Response => true | _ => false end) (fun n =>
    set_completed (mk_CompletedOutputs true (completed_multi_packet (completed_outputs n)))
      (set_output Idle (multi_packet_terminal_count n) n)).
Definition apply_complete_multi_packet (s : ConnectionState) : option ConnectionState :=
  apply_if s (match active_output s with MultiPacket => true | _ => false end) (fun n =>
    set_completed (mk_CompletedOutputs (completed_response (completed_outputs n)) true)
      (set_output Idle (saturating_add u8_max (multi_packet_terminal_count n) 1) n)).
Definition apply_shutdown (s : ConnectionState) : option ConnectionState :=
  apply_if s (negb (requested (shutdown s))) (fun n =>
    set_shutdown (mk_ShutdownState true (negb (is_output_idle s))) n).
Definition apply_tick_fairness (s : ConnectionState) : option ConnectionState :=
  let p := pending_outputs s in
  apply_if s (low_priority_queued p) (fun n =>
    set_pending (mk_PendingOutputs (high_priority_queued p) (low_priority_queued p) true) n).

Definition or_else {A} (a b : option A) : option A := match a with Some _ => a | None => b end.

Definition next_state (s : ConnectionState) (a : ConnectionAction) : option ConnectionState :=
  match a with
  | EnqueueHigh => apply_enqueue_high s
  | EnqueueLow => apply_enqueue_low s
  | InstallResponse => apply_install_response s
  | InstallMultiPacket => apply_install_multi_packet s
  | EmitQueued => or_else (apply_emit_high s) (apply_emit_low s)
  | EmitActiveFrame => apply_emit_active_frame s
  | CompleteActiveOutput => or_else (apply_complete_response s) (apply_complete_multi_packet s)
  | Shutdown => apply_shutdown s
  | TickFairness => apply_tick_fairness s
  end.

Definition within_boundary (max_steps : Z) (s : ConnectionState) : bool :=
  bool_decide (steps s <= max_steps).

(** A path of the model checker: every state on it is within the boundary. *)
Fixpoint path (max_steps : Z) (s : ConnectionState) (acts : list ConnectionAction)
    : option ConnectionState :=
  match acts with
  | [] => Some s
  | a :: acts =>
      match next_state s a with
      | Some s => if within_boundary max_steps s then path max_steps s acts else None
      | None => None
      end
  end.

(** ** [properties.rs] *)

Definition multi_packet_terminator_is_single (s : ConnectionState) : bool :=
  bool_decide (multi_packet_terminal_count s <= 1).
Definition high_priority_progress (s : ConnectionState) : bool := emitted_high (emissions s).
Definition low_priority_progress (s : ConnectionState) : bool := emitted_low (emissions s).
Definition response_completion (s : ConnectionState) : bool := completed_response (completed_outputs s).
Definition multi_packet_completion (s : ConnectionState) : bool := completed_multi_packet (completed_outputs s).
Definition shutdown_races_active_output (s : ConnectionState) : bool := during_output (shutdown s).

(** ** The properties hold at every depth *)

(** While a multi-packet output is active its terminator has not been counted. *)
Definition model_ok (s : ConnectionState) : Prop :=
  0 <= multi_packet_terminal_count s <= 1 /\
  (active_output s = MultiPacket -> multi_packet_terminal_count s = 0).

Ltac next_cases Hs :=
  unfold apply_enqueue_high, apply_enqueue_low, apply_install_response, apply_install_multi_packet,
    apply_emit_high, apply_emit_low, apply_emit_active_frame, apply_complete_response,
    apply_complete_multi_packet, apply_shutdown, apply_tick_fairness, or_else, apply_if in Hs;
  repeat (case_match; try discriminate); simplify_eq.

Lemma next_state_ok s a s' : model_ok s -> next_state s a = Some s' -> model_ok s'.
Proof.
  intros [H1 H2] Hs. destruct a; cbn [next_state] in Hs; next_cases Hs;
    unfold model_ok; cbn; unfold saturating_add, u8_max; split; try done; try lia;
    intros; specialize (H2 ltac:(congruence)); lia.
Qed.

Lemma path_ok k acts s s' : model_ok s -> path k s acts = Some s' -> model_ok s'.
Proof.
  revert s. induction acts as [|a acts IH]; intros s Hs Hp; cbn in Hp; [by injection Hp as <-|].
  destruct (next_state s a) as [s1|] eqn:E; [|done]. destruct (within_boundary k s1); [|done].
  eapply IH; [by eapply next_state_ok|done].
Qed.

(** Two states that differ in the fairness flag only. *)
Definition same_but_fairness (s t : ConnectionState) : Prop :=
  exists f, t = set_pending (mk_PendingOutputs (high_priority_queued (pending_outputs s))
                               (low_priority_queued (pending_outputs s)) f) s.

Lemma same_but_fairness_next s t a :
  same_but_fairness s t ->
  match next_state s a, next_state t a with
  | Some s', Some t' => same_but_fairness s' t'
  | None, None => True
  | _, _ => False
  end.
Proof.
  intros [f ->]. destruct s as [k [h l g] o [r d] e c n].
  destruct a, h, l, g, f, o, r; cbn; try exact I; by eexists.
Qed.

Lemma same_but_fairness_path k acts s t :
  same_but_fairness s t ->
  match path k s acts, path k t acts with
  | Some s', Some t' => same_but_fairness s' t'
  | None, None => True
  | _, _ => False
  end.
Proof.
  revert s t. induction acts as [|a acts IH]; intros s t H; cbn; [done|].
  pose proof (same_but_fairness_next s t a H) as Hn.
  destruct (next_state s a) as [s1|], (next_state t a) as [t1|]; try done.
  assert (within_boundary k t1 = within_boundary k s1) as -> by (by destruct Hn as [f ->]).
  destruct (within_boundary k s1); [by apply IH|done].
Qed.

(** The properties the repository checks to a bounded depth hold at every
    depth: the terminator of a multi-packet stream is never counted twice, and
    each kind of progress and the shutdown race is reached within the checker's
    six steps (in three). *)
Theorem checked_properties_hold k acts s :
  path k initial acts = Some s ->
  multi_packet_terminator_is_single s = true /\
  Forall (fun prop : ConnectionState -> bool =>
    exists acts s, path 6 initial acts = Some s /\ (length acts <= 3)%nat /\ prop s = true)
    [high_priority_progress; low_priority_progress; response_completion; multi_packet_completion;
     shutdown_races_active_output].
Proof.
  intros Hp. split.
  - assert (Hok : model_ok s) by (eapply path_ok; [|exact Hp]; split; cbn; [lia|done]).
    apply bool_decide_eq_true_2, Hok.
  - repeat constructor.
    + exists [EnqueueHigh; EmitQueued]. eexists. split; [reflexivity|]. split; [cbn; lia|reflexivity].
    + exists [EnqueueLow; EmitQueued]. eexists. split; [reflexivity|]. split; [cbn; lia|reflexivity].
    + exists [InstallResponse; CompleteActiveOutput]. eexists. split; [reflexivity|]. split; [cbn; lia|reflexivity].
    + exists [InstallMultiPacket; CompleteActiveOutput]. eexists. split; [reflexivity|]. split; [cbn; lia|reflexivity].
    + exists [InstallResponse; Shutdown]. eexists. split; [reflexivity|]. split; [cbn; lia|reflexivity].
Qed.

(** The fairness flag of the repository's model has no influence on what it
    does: from states that differ in it the same actions are possible, and the
    states they lead to differ in it only.  ([EmitQueued] tries the low queue
    only when the high queue is empty, and then the flag is not looked at.)  The
    model therefore cannot tell a fair emission policy from an unfair one. *)
Theorem fairness_flag_is_inert k acts s t :
  same_but_fairness s t ->
  match path k s acts, path k t acts with
  | Some s', Some t' => same_but_fairness s' t'
  | None, None => True
  | _, _ => False
  end.
Proof. apply same_but_fairness_path. Qed.

Lemma checked_properties_hold_witness :
  exists s, path 6 initial [InstallMultiPacket; CompleteActiveOutput; InstallMultiPacket] = Some s /\
    multi_packet_terminator_is_single s = true.
Proof.
  eexists. split; [reflexivity|].
  apply (checked_properties_hold 6 [InstallMultiPacket; CompleteActiveOutput; InstallMultiPacket]).
  reflexivity.
Defined.

Lemma fairness_flag_is_inert_witness :
  match path 6 initial [EnqueueHigh; EnqueueLow; EmitQueued; EmitQueued],
        path 6 (set_pending (mk_PendingOutputs false false true) initial)
          [EnqueueHigh; EnqueueLow; EmitQueued; EmitQueued] with
  | Some s', Some t' => same_but_fairness s' t'
  | None, None => True
  | _, _ => False
  end.
Proof. apply fairness_flag_is_inert. exists true. reflexivity. Defined.
