(* ===== verification/Session.v ===== *)
(** * The session registry

    Models [session.rs]: the map from connections to their push handles, held
    weakly.  [strong] counts the strong references to each handle's shared
    state, which connections and callers own; a weak reference upgrades while
    that count is positive.  The map's methods are atomic (a [DashMap] locks
    the shard); [get] is two of them, so a call of it in progress is a [Getter]
    and other threads may run between its steps.  [active_handles] and
    [active_ids] retain entry by entry; the model runs them in one step. *)

From S2P Require Import Prelude.

Local Open Scope Z_scope.

(** A handle is the address of its [PushHandleInner]. *)
Record Registry : Type := mk_Registry {
  sessions : gmap Z Z;
  strong : gmap Z Z
}.

Definition registry_default : Registry := mk_Registry ∅ ∅.

(** [weak.strong_count()] *)
Definition strong_count (r : Registry) (h : Z) : Z := default 0 (strong r !! h).
Definition upgrade (r : Registry) (h : Z) : option Z :=
  if decide (0 < strong_count r h) then Some h else None.

Definition set_sessions (m : gmap Z Z) (r : Registry) : Registry := mk_Registry m (strong r).

Definition insert (id h : Z) (r : Registry) : Registry := set_sessions (<[id := h]> (sessions r)) r.
Definition remove (id : Z) (r : Registry) : Registry := set_sessions (delete id (sessions r)) r.
Definition prune (r : Registry) : Registry :=
  set_sessions (filter (fun p => 0 < strong_count r p.2) (sessions r)) r.

(** The first half of [get]: look up and upgrade.  An upgraded handle is a
    strong reference of the caller's. *)
Definition get_lookup (id : Z) (r : Registry) : Registry * option Z :=
  match sessions r !! id with
  | Some h =>
      match upgrade r h with
      | Some h => (mk_Registry (sessions r) (<[h := strong_count r h + 1]> (strong r)), Some h)
      | None => (r, None)
      end
  | None => (r, None)
  end.

(** The second half, when nothing was found: [remove_if]. *)
Definition get_remove_if (id : Z) (r : Registry) : Registry :=
  match sessions r !! id with
  | Some h => if decide (strong_count r h = 0) then remove id r else r
  | None => r
  end.

(** [retain_and_collect] with the identity as its map. *)
Definition retain_and_collect (r : Registry) : Registry * list (Z * Z) :=
  let live := filter (fun p => 0 < strong_count r p.2) (sessions r) in
  (mk_Registry live
     (foldr (fun p s => <[p.2 := default 0 (s !! p.2) + 1]> s) (strong r) (map_to_list live)),
   map_to_list live).
Definition active_handles (r : Registry) : Registry * list (Z * Z) := retain_and_collect r.
(** The ids only: the upgraded references are dropped again. *)
Definition active_ids (r : Registry) : Registry * list Z :=
  (set_sessions (filter (fun p => 0 < strong_count r p.2) (sessions r)) r,
   (map_to_list (filter (fun p => 0 < strong_count r p.2) (sessions r))).*1).

(** ** Threads *)

(** [Some id]: a [get id] that found nothing and is about to remove. *)
Record World : Type := mk_World {
  registry : Registry;
  getters : list Z;
  found : list (Z * Z)
}.

Inductive Event : Type :=
  | Insert (id h : Z)
  | Remove (id : Z)
  | Prune
  | GetStart (id : Z)
  | GetFinish (id : Z)
  | ActiveHandles
  | ActiveIds
  | Own (h : Z)
  | Release (h : Z).

Definition with_registry (r : Registry) (w : World) : World := mk_World r (getters w) (found w).

(** [Own]: a new handle, or a clone of one that is alive.  [Release]: the drop
    of one strong reference. *)
Definition step (e : Event) (w : World) : option World :=
  let r := registry w in
  match e with
  | Insert id h => if decide (0 < strong_count r h) then Some (with_registry (insert id h r) w) else None
  | Remove id => Some (with_registry (remove id r) w)
  | Prune => Some (with_registry (prune r) w)
  | GetStart id =>
      let '(r, x) := get_lookup id r in
      match x with
      | Some h => Some (mk_World r (getters w) (found w ++ [(id, h)]))
      | None => Some (mk_World r (id :: getters w) (found w))
      end
  | GetFinish id =>
      if decide (id ∈ getters w)
      then Some (mk_World (get_remove_if id r) (filter (fun i => i <> id) (getters w)) (found w))
      else None
  | ActiveHandles =>
      let '(r, xs) := active_handles r in Some (mk_World r (getters w) (found w ++ xs))
  | ActiveIds => Some (with_registry (active_ids r).1 w)
  | Own h => Some (with_registry (mk_Registry (sessions r) (<[h := strong_count r h + 1]> (strong r))) w)
  | Release h =>
      if decide (0 < strong_count r h)
      then Some (with_registry (mk_Registry (sessions r) (<[h := strong_count r h - 1]> (strong r))) w)
      else None
  end.

Fixpoint run (es : list Event) (w : World) : option World :=
  match es with
  | [] => Some w
  | e :: es => match step e w with Some w => run es w | None => None end
  end.

(** ** A live session stays registered *)

Definition registered (w : World) (id h : Z) : Prop := sessions (registry w) !! id = Some h.
Definition alive (w : World) (h : Z) : Prop := 0 < strong_count (registry w) h.

Lemma strong_after_insert r h n k :
  strong_count (mk_Registry (sessions r) (<[h := n]> (strong r))) k =
  if decide (k = h) then n else strong_count r k.
Proof.
  unfold strong_count. cbn. case_decide as Hk; [subst; by rewrite lookup_insert_eq|].
  by rewrite lookup_insert_ne.
Qed.

(** An event that neither removes nor replaces the entry of [id]. *)
Definition leaves (id : Z) (e : Event) : Prop :=
  match e with Insert i _ | Remove i => i <> id | _ => True end.

Lemma step_keeps_live e w w' id h :
  step e w = Some w' -> registered w id h -> alive w h -> leaves id e -> registered w' id h.
Proof.
  unfold registered, alive. intros Hs Hr Ha Hl.
  destruct e as [i k|i| |i|i| | |k|k]; cbn in Hs, Hl.
  - case_decide; [|done]. injection Hs as <-. cbn. by rewrite lookup_insert_ne.
  - injection Hs as <-. cbn. by rewrite lookup_delete_ne.
  - injection Hs as <-. cbn. by apply map_lookup_filter_Some.
  - unfold get_lookup in Hs. repeat (case_match; simplify_eq/=); done.
  - case_decide; [|done]. injection Hs as <-. cbn. unfold get_remove_if.
    destruct (sessions (registry w) !! i) as [k|] eqn:Ei; [|done]. case_decide as Hk; [|done].
    cbn. destruct (decide (i = id)) as [->|Hne]; [|by rewrite lookup_delete_ne].
    assert (k = h) as -> by congruence. lia.
  - injection Hs as <-. cbn. by apply map_lookup_filter_Some.
  - injection Hs as <-. cbn. by apply map_lookup_filter_Some.
  - by injection Hs as <-.
  - case_decide; [|done]. by injection Hs as <-.
Qed.

(** Along a run that never lets [h] die and never removes or replaces [id]. *)
Fixpoint stays_alive (h : Z) (es : list Event) (w : World) : Prop :=
  alive w h /\
  match es with
  | [] => True
  | e :: es => match step e w with Some w => stays_alive h es w | None => True end
  end.

Lemma run_keeps_live es w w' id h :
  run es w = Some w' -> registered w id h -> stays_alive h es w -> Forall (leaves id) es ->
  registered w' id h /\ alive w' h.
Proof.
  revert w. induction es as [|e es IH]; intros w Hr Hreg Hs Hl; cbn in *.
  - injection Hr as <-. tauto.
  - destruct Hs as [Ha Hs]. inversion_clear Hl.
    destruct (step e w) as [w1|] eqn:Es; [|done]. apply (IH w1); try done.
    by eapply step_keeps_live.
Qed.

Lemma foldr_counts_ge xs (s : gmap Z Z) k :
  default 0 (s !! k) <=
  default 0 (foldr (fun (p : Z * Z) s => <[p.2 := default 0 (s !! p.2) + 1]> s) s xs !! k).
Proof.
  induction xs as [|[a b] xs IH]; cbn; [done|].
  destruct (decide (k = b)) as [->|Hne]; [rewrite lookup_insert_eq; cbn; lia|].
  by rewrite lookup_insert_ne.
Qed.

(** A registered session whose handle is alive is found by [get], and no
    interleaving of other threads' operations takes its entry away, not even a
    [get] of the same id that saw an earlier, dead entry: only [remove] and a
    new [insert] for the id do.  What [get] and [active_handles] hand out is
    alive, and was registered under the id it is handed out for. *)
Theorem live_sessions_are_found es w w1 w2 id h :
  registered w id h -> run es w = Some w1 -> stays_alive h es w -> Forall (leaves id) es ->
  step (GetStart id) w1 = Some w2 ->
  found w2 = found w1 ++ [(id, h)] /\ alive w2 h /\
  (forall i k r xs, active_handles (registry w1) = (r, xs) -> (i, k) ∈ xs ->
     registered w1 i k /\ 0 < strong_count (registry w1) k /\ 0 < strong_count r k).
Proof.
  intros Hreg Hr Hs Hl Hg. destruct (run_keeps_live es w w1 id h Hr Hreg Hs Hl) as [Hreg1 Ha1].
  cbn in Hg. unfold get_lookup, upgrade in Hg. rewrite Hreg1, decide_True in Hg by exact Ha1.
  injection Hg as <-. split; [done|]. split.
  - unfold alive in *. cbn. rewrite strong_after_insert, decide_True by done. lia.
  - intros i k r xs [= <- <-] Hin. apply elem_of_map_to_list, map_lookup_filter_Some in Hin as [H1 H2].
    split; [done|]. split; [done|]. cbn in H2. eapply Z.lt_le_trans; [exact H2|].
    unfold strong_count. cbn. apply foldr_counts_ge.
Qed.

(** Thread 1 asks for session 7, whose handle died; before it removes the dead
    entry, the session is registered anew. *)
Definition race : list Event := [Own 1; Insert 7 1; Release 1; GetStart 7; Own 2; Insert 7 2].

Definition after (es : list Event) : World :=
  default (mk_World registry_default [] []) (run es (mk_World registry_default [] [])).

Lemma live_sessions_are_found_witness :
  found (default (after []) (step (GetStart 7) (after (race ++ [GetFinish 7; Prune])))) = [(7, 2)].
Proof.
  destruct (live_sessions_are_found [GetFinish 7; Prune] (after race)
    (after (race ++ [GetFinish 7; Prune]))
    (default (after []) (step (GetStart 7) (after (race ++ [GetFinish 7; Prune])))) 7 2) as [H _].
  - vm_compute. reflexivity.
  - vm_compute. reflexivity.
  - vm_compute. repeat split; reflexivity.
  - repeat constructor.
  - vm_compute. reflexivity.
  - rewrite H. vm_compute. reflexivity.
Defined.
