(* ===== verification/Routing.v ===== *)
(** * The application builder, its routes and its middleware

    Models [app/builder/] (the record [WireframeApp] and its setters),
    [middleware.rs], the routing of [app/inbound_handler/mod.rs]
    ([build_route_chains]) and the preparation of [app/prepared_app.rs].

    A service is a function from requests to responses that may act on a world
    [W], which stands for everything handlers and middleware do; so may a
    middleware's [transform], which wraps a service in its own. *)

From S2P Require Import Prelude.
From S2P Require Import Envelope.
From S2P Require Import FragmentPayload.
From S2P Require Import Budgets.

Local Open Scope Z_scope.

(** ** [middleware.rs] *)

Record ServiceRequest : Type := mk_ServiceRequest {
  req_frame : list Z;
  req_correlation_id : option Z
}.
Record ServiceResponse : Type := mk_ServiceResponse {
  resp_frame : list Z;
  resp_correlation_id : option Z
}.

Section Services.
Context {W X E : Type} `{Packet E}.

Definition Service : Type := ServiceRequest -> W -> W * result ServiceResponse X.

(** [Next::call] *)
Definition Next_call (service : Service) : Service := fun req => service req.

(** [FnService]: what [from_fn(f)] makes of a service. *)
Definition from_fn (f : ServiceRequest -> Service -> W -> W * result ServiceResponse X)
    (service : Service) : Service :=
  fun req w => f req (Next_call service) w.

Definition Handler : Type := E -> W -> W.

(** [RouteService]: the handler borrows the envelope, the response is taken
    from the envelope afterwards. *)
Definition RouteService (id : Z) (handler : Handler) : Service :=
  fun req w =>
    let env := from_parts (mk_PacketParts id (req_correlation_id req) (req_frame req)) in
    let w := handler env w in
    let parts := into_parts env in
    (w, Ok (mk_ServiceResponse (parts_payload parts) (parts_correlation_id parts))).

Record HandlerService : Type := mk_HandlerService {
  service_id : Z;
  svc : Service
}.
Definition HandlerService_new (id : Z) (handler : Handler) : HandlerService :=
  mk_HandlerService id (RouteService id handler).
Definition from_service (id : Z) (s : Service) : HandlerService := mk_HandlerService id s.
Definition HandlerService_call (s : HandlerService) : Service := fun req => svc s req.

(** [Transform<HandlerService<E>, Output = HandlerService<E>>] *)
Definition Middleware : Type := HandlerService -> W -> W * HandlerService.

(** ** [build_route_chains] *)

Definition wrap_all (middleware : list Middleware) (service : HandlerService) (w : W)
    : W * HandlerService :=
  fold_left (fun '(w, service) mw => mw service w) (reverse middleware) (w, service).

(** [order] is the order in which the map of handlers is iterated, which is
    left open: any list of its keys. *)
Definition build_route_chains (order : list Z) (handlers : gmap Z Handler) (middleware : list Middleware)
    (w : W) : W * gmap Z HandlerService :=
  fold_left (fun '(w, routes) id =>
    match handlers !! id with
    | Some handler =>
        let '(w, service) := wrap_all middleware (HandlerService_new id handler) w in
        (w, <[id := service]> routes)
    | None => (w, routes)
    end) order (w, ∅).

Definition iterates {A} (order : list Z) (m : gmap Z A) : Prop :=
  NoDup order /\ forall id, id ∈ order <-> is_Some (m !! id).
End Services.
Arguments Service W X : clear implicits.
Arguments Handler W E : clear implicits.
Arguments HandlerService W X : clear implicits.
Arguments Middleware W X : clear implicits.

(** ** [app/builder/] *)

Definition MIN_READ_TIMEOUT_MS : Z := 1.
Definition MAX_READ_TIMEOUT_MS : Z := 86400000.
Definition DEFAULT_READ_TIMEOUT_MS : Z := 100.

Section Builder.
Context {W X E : Type} `{Packet E}.
(** Setup and teardown hooks, protocols and assemblers are values of their own;
    a codec is known by its frame budget. *)
Context {Setup Teardown Protocol Assembler Dlq : Type} {BC : Bincode}.

Record WireframeApp : Type := mk_WireframeApp {
  handlers : gmap Z (Handler W E);
  middleware : list (Middleware W X);
  on_connect : option Setup;
  on_disconnect : option Teardown;
  protocol : option Protocol;
  push_dlq : option Dlq;
  codec_max_frame_length : Z;
  read_timeout_ms : Z;
  fragmentation : option FragmentationConfig;
  message_assembler : option Assembler;
  memory_budgets : option MemoryBudgets
}.

Definition app_default (codec_max : Z) : WireframeApp :=
  mk_WireframeApp ∅ [] None None None None codec_max DEFAULT_READ_TIMEOUT_MS None None None.

Inductive RouteError : Type :=
  | DuplicateRoute (id : Z).

Definition route (id : Z) (handler : Handler W E) (a : WireframeApp) : result WireframeApp RouteError :=
  match handlers a !! id with
  | Some _ => Err (DuplicateRoute id)
  | None =>
      Ok (mk_WireframeApp (<[id := handler]> (handlers a)) (middleware a) (on_connect a)
            (on_disconnect a) (protocol a) (push_dlq a) (codec_max_frame_length a)
            (read_timeout_ms a) (fragmentation a) (message_assembler a) (memory_budgets a))
  end.

Definition wrap (mw : Middleware W X) (a : WireframeApp) : result WireframeApp RouteError :=
  Ok (mk_WireframeApp (handlers a) (middleware a ++ [mw]) (on_connect a) (on_disconnect a)
        (protocol a) (push_dlq a) (codec_max_frame_length a) (read_timeout_ms a)
        (fragmentation a) (message_assembler a) (memory_budgets a)).

Definition set_read_timeout_ms (timeout_ms : Z) (a : WireframeApp) : WireframeApp :=
  mk_WireframeApp (handlers a) (middleware a) (on_connect a) (on_disconnect a) (protocol a)
    (push_dlq a) (codec_max_frame_length a)
    (Z.min (Z.max timeout_ms MIN_READ_TIMEOUT_MS) MAX_READ_TIMEOUT_MS)
    (fragmentation a) (message_assembler a) (memory_budgets a).
Definition set_fragmentation (config : option FragmentationConfig) (a : WireframeApp) : WireframeApp :=
  mk_WireframeApp (handlers a) (middleware a) (on_connect a) (on_disconnect a) (protocol a)
    (push_dlq a) (codec_max_frame_length a) (read_timeout_ms a) config (message_assembler a)
    (memory_budgets a).
Definition set_memory_budgets (budgets : MemoryBudgets) (a : WireframeApp) : WireframeApp :=
  mk_WireframeApp (handlers a) (middleware a) (on_connect a) (on_disconnect a) (protocol a)
    (push_dlq a) (codec_max_frame_length a) (read_timeout_ms a) (fragmentation a)
    (message_assembler a) (Some budgets).
(** [None]: measuring the overhead failed, which panics. *)
Definition enable_fragmentation (a : WireframeApp) : option WireframeApp :=
  option_map (fun config => set_fragmentation config a)
    (default_fragmentation (codec_max_frame_length a)).
Definition with_push_dlq (dlq : Dlq) (a : WireframeApp) : WireframeApp :=
  mk_WireframeApp (handlers a) (middleware a) (on_connect a) (on_disconnect a) (protocol a)
    (Some dlq) (codec_max_frame_length a) (read_timeout_ms a) (fragmentation a)
    (message_assembler a) (memory_budgets a).
Definition with_protocol (p : Protocol) (a : WireframeApp) : WireframeApp :=
  mk_WireframeApp (handlers a) (middleware a) (on_connect a) (on_disconnect a) (Some p)
    (push_dlq a) (codec_max_frame_length a) (read_timeout_ms a) (fragmentation a)
    (message_assembler a) (memory_budgets a).
Definition with_message_assembler (m : Assembler) (a : WireframeApp) : WireframeApp :=
  mk_WireframeApp (handlers a) (middleware a) (on_connect a) (on_disconnect a) (protocol a)
    (push_dlq a) (codec_max_frame_length a) (read_timeout_ms a) (fragmentation a)
    (Some m) (memory_budgets a).
(** [rebuild_with_connection_state] drops the teardown of the old state. *)
Definition on_connection_setup (f : Setup) (a : WireframeApp) : WireframeApp :=
  mk_WireframeApp (handlers a) (middleware a) (Some f) None (protocol a) (push_dlq a)
    (codec_max_frame_length a) (read_timeout_ms a) (fragmentation a) (message_assembler a)
    (memory_budgets a).
Definition on_connection_teardown (f : Teardown) (a : WireframeApp) : WireframeApp :=
  mk_WireframeApp (handlers a) (middleware a) (on_connect a) (Some f) (protocol a) (push_dlq a)
    (codec_max_frame_length a) (read_timeout_ms a) (fragmentation a) (message_assembler a)
    (memory_budgets a).
(** [with_codec]: the protocol and the fragmentation are reset. *)
Definition with_codec (max : Z) (a : WireframeApp) : WireframeApp :=
  mk_WireframeApp (handlers a) (middleware a) (on_connect a) (on_disconnect a) None (push_dlq a)
    max (read_timeout_ms a) None (message_assembler a) (memory_budgets a).
Definition buffer_capacity (capacity : Z) (a : WireframeApp) : WireframeApp :=
  mk_WireframeApp (handlers a) (middleware a) (on_connect a) (on_disconnect a) (protocol a)
    (push_dlq a) (clamp_frame_length capacity) (read_timeout_ms a) None (message_assembler a)
    (memory_budgets a).

(** ** [prepared_app.rs] *)

Record PreparedApp : Type := mk_PreparedApp {
  routes : gmap Z (HandlerService W X);
  prepared_on_connect : option Setup;
  prepared_on_disconnect : option Teardown;
  prepared_protocol : option Protocol;
  prepared_push_dlq : option Dlq;
  prepared_codec_max_frame_length : Z;
  prepared_fragmentation : option FragmentationConfig;
  prepared_read_timeout_ms : Z;
  prepared_assembler : option Assembler;
  prepared_budgets : option MemoryBudgets
}.

Definition build_prepared (order : list Z) (a : WireframeApp) (w : W) : W * PreparedApp :=
  let '(w, routes) := build_route_chains order (handlers a) (middleware a) w in
  (w, mk_PreparedApp routes (on_connect a) (on_disconnect a) (protocol a) (push_dlq a)
        (codec_max_frame_length a) (fragmentation a) (read_timeout_ms a) (message_assembler a)
        (memory_budgets a)).
End Builder.
Arguments WireframeApp W X E Setup Teardown Protocol Assembler Dlq : clear implicits.

(** ** The order of the middleware *)

Section Order.
Context {W X E : Type} `{Packet E}.

(** A middleware made from a function: its transform only wraps. *)
Definition lift (f : ServiceRequest -> Service W X -> W -> W * result ServiceResponse X)
    : Middleware W X :=
  fun hs w => (w, from_service (service_id hs) (from_fn f (HandlerService_call hs))).

Lemma wrap_all_cons (mw : Middleware W X) mws s w :
  wrap_all (mw :: mws) s w = let '(w, s) := wrap_all mws s w in mw s w.
Proof. unfold wrap_all. rewrite reverse_cons, fold_left_app. cbn. by destruct (fold_left _ _ _). Qed.

(** The first middleware registered is the outermost. *)
Lemma wrap_all_lift fs (s : HandlerService W X) w :
  exists s', wrap_all (map lift fs) s w = (w, s') /\ service_id s' = service_id s
    /\ svc s' = foldr from_fn (svc s) fs.
Proof.
  induction fs as [|f fs (s1 & IH1 & IH2 & IH3)]; [by exists s|]. cbn [map foldr].
  rewrite wrap_all_cons, IH1. eexists. split; [done|]. split; [done|].
  unfold HandlerService_call. cbn. by rewrite IH3.
Qed.

(** Iterating is a loop over the keys. *)
Lemma build_route_chains_snoc order id hs (mws : list (Middleware W X)) w :
  build_route_chains (E := E) (order ++ [id]) hs mws w
  = let '(w, routes) := build_route_chains order hs mws w in
    match hs !! id with
    | Some handler =>
        let '(w, service) := wrap_all mws (HandlerService_new id handler) w in
        (w, <[id := service]> routes)
    | None => (w, routes)
    end.
Proof. unfold build_route_chains. rewrite fold_left_app. cbn. by destruct (fold_left _ _ _). Qed.

(** Transforms that have no effect and do not look at the world. *)
Definition transforms_only (mw : Middleware W X) : Prop :=
  exists f, forall s w, mw s w = (w, f s).

Lemma lift_transforms_only f : transforms_only (lift f).
Proof. by eexists. Qed.

Lemma wrap_all_pure (mws : list (Middleware W X)) :
  Forall transforms_only mws -> exists f, forall s w, wrap_all mws s w = (w, f s).
Proof.
  induction 1 as [|mw mws [g Hg] _ [f Hf]]; [by exists (fun s => s)|].
  exists (fun s => g (f s)). intros s w. by rewrite wrap_all_cons, Hf, Hg.
Qed.

Lemma elem_snoc_ne (id k : Z) order : id <> k -> id ∈ order <-> id ∈ order ++ [k].
Proof. rewrite elem_of_app, list_elem_of_singleton. tauto. Qed.

(** Then the chains depend on nothing but the registrations. *)
Lemma build_route_chains_pure order (hs : gmap Z (Handler W E)) (mws : list (Middleware W X)) f w :
  (forall s w, wrap_all mws s w = (w, f s)) -> iterates order hs ->
  build_route_chains order hs mws w = (w, map_imap (fun id h => Some (f (HandlerService_new id h))) hs).
Proof.
  intros Hf [Hnd Hkeys].
  assert (Hloop : forall order, exists routes, build_route_chains order hs mws w = (w, routes)
    /\ forall id, routes !! id
         = if decide (id ∈ order) then option_map (fun h => f (HandlerService_new id h)) (hs !! id) else None).
  { clear order Hnd Hkeys. induction order as [|k order (routes & Hb & Hr)] using rev_ind.
    { exists ∅. split; [done|]. intros id. rewrite lookup_empty, decide_False; [done|set_solver]. }
    rewrite build_route_chains_snoc, Hb. destruct (hs !! k) as [h|] eqn:Ek.
    - rewrite Hf. eexists. split; [done|]. intros id. destruct (decide (id = k)) as [->|Hne].
      + rewrite lookup_insert_eq, decide_True, Ek by set_solver. done.
      + rewrite lookup_insert_ne by done. rewrite Hr. by apply decide_ext, elem_snoc_ne.
    - exists routes. split; [done|]. intros id. rewrite Hr. destruct (decide (id = k)) as [->|Hne].
      + rewrite Ek. by repeat case_decide.
      + by apply decide_ext, elem_snoc_ne. }
  destruct (Hloop order) as (routes & -> & Hr). f_equal. apply map_eq. intros id.
  rewrite Hr, map_lookup_imap. case_decide as Hin.
  - by destruct (hs !! id).
  - destruct (hs !! id) as [h|] eqn:Eid; [|done]. destruct Hin. apply Hkeys. by rewrite Eid.
Qed.

(** A prepared application routes to the chains of its registrations. *)
Lemma build_route_chains_lifted order (hs : gmap Z (Handler W E)) fs w :
  iterates order hs ->
  exists routes, build_route_chains order hs (map lift fs) w = (w, routes)
    /\ (forall id, hs !! id = None -> routes !! id = None)
    /\ forall id h, hs !! id = Some h ->
       exists s, routes !! id = Some s /\ service_id s = id
         /\ svc s = foldr from_fn (RouteService (X := X) id h) fs.
Proof.
  intros Ho. destruct (wrap_all_pure (map lift fs)) as [f Hf].
  { induction fs; constructor; auto using lift_transforms_only. }
  rewrite (build_route_chains_pure order hs _ f w Hf Ho). eexists. split; [done|]. split.
  - intros id Hn. by rewrite map_lookup_imap, Hn.
  - intros id h Hh. rewrite map_lookup_imap, Hh. cbn. eexists. split; [done|].
    destruct (wrap_all_lift fs (HandlerService_new id h) w) as (s' & Hw & Hi & Hs).
    rewrite Hf in Hw. injection Hw as ->. done.
Qed.
End Order.

(** Middleware and handlers that leave a trace. *)
Inductive Mark : Type :=
  | Transformed (name id : Z)
  | Before (name : Z)
  | Handled (parts : PacketParts)
  | After (name : Z).

Definition tracing {X} (name : Z) (req : ServiceRequest) (next : Service (list Mark) X) (w : list Mark)
    : list Mark * result ServiceResponse X :=
  let '(w, r) := next req (w ++ [Before name]) in (w ++ [After name], r).

(** Its transform leaves one too. *)
Definition tracing_middleware {X} (name : Z) : Middleware (list Mark) X :=
  fun hs w =>
    (w ++ [Transformed name (service_id hs)], (lift (tracing name) hs w).2).

Definition noting {E} `{Packet E} : Handler (list Mark) E := fun env w => w ++ [Handled (into_parts env)].

Section Traced.
Context {X E : Type} `{PL : PacketLaws E}.

Lemma traced_chain names (base : Service (list Mark) X) req w w' r :
  base req (w ++ map Before names) = (w', r) ->
  foldr from_fn base (map tracing names) req w = (w' ++ map After (reverse names), r).
Proof.
  revert w w'. induction names as [|n names IH]; intros w w' Hb; cbn [map foldr] in *.
  - rewrite app_nil_r in Hb. rewrite Hb. cbn. by rewrite app_nil_r.
  - unfold from_fn at 1, tracing at 1, Next_call. rewrite (IH (w ++ [Before n]) w').
    + by rewrite reverse_cons, map_app, app_assoc.
    + by rewrite <- app_assoc.
Qed.

Lemma wrap_all_tracing names (s : HandlerService (list Mark) X) w :
  exists s', wrap_all (map tracing_middleware names) s w
             = (w ++ map (fun n => Transformed n (service_id s)) (reverse names), s')
    /\ service_id s' = service_id s /\ svc s' = foldr from_fn (svc s) (map tracing names).
Proof.
  induction names as [|n names (s1 & IH1 & IH2 & IH3)].
  { exists s. by rewrite app_nil_r. }
  cbn [map foldr]. rewrite wrap_all_cons, IH1. exists (lift (tracing n) s1 w).2. split; [|split; [done|]].
  - unfold tracing_middleware. rewrite reverse_cons, map_app, IH2, <-app_assoc. done.
  - unfold lift, HandlerService_call. cbn [snd svc from_service]. by rewrite <-IH3.
Qed.

Lemma build_tracing order names (hs : gmap Z (Handler (list Mark) E)) w :
  (forall id, id ∈ order -> is_Some (hs !! id)) ->
  exists routes, build_route_chains order hs (map tracing_middleware names) w
    = (w ++ concat (map (fun id => map (fun n => Transformed n id) (reverse names)) order), routes)
    /\ forall id h, hs !! id = Some h ->
         if decide (id ∈ order)
         then exists s, routes !! id = Some s /\ service_id s = id
                /\ svc s = foldr from_fn (RouteService (X := X) id h) (map tracing names)
         else routes !! id = None.
Proof.
  induction order as [|k order IH] using rev_ind; intros Hin.
  { exists ∅. split; [by rewrite app_nil_r|]. intros id h _. by rewrite decide_False by set_solver. }
  destruct IH as (routes & Hb & Hr); [set_solver|].
  rewrite build_route_chains_snoc, Hb. destruct (Hin k ltac:(set_solver)) as [h Hk]. rewrite Hk.
  destruct (wrap_all_tracing names (HandlerService_new k h)
    (w ++ concat (map (fun id => map (fun n => Transformed n id) (reverse names)) order)))
    as (s & -> & Hi & Hs).
  eexists. split.
  { rewrite map_app, concat_app. cbn. by rewrite app_nil_r, app_assoc. }
  intros id h' Hid. destruct (decide (id = k)) as [->|Hne].
  - rewrite decide_True by set_solver. exists s. rewrite lookup_insert_eq. simplify_eq. done.
  - rewrite lookup_insert_ne by done. specialize (Hr id h' Hid).
    pose proof (elem_snoc_ne id k order Hne) as He. case_decide; case_decide; (exact Hr || tauto).
Qed.

(** Preparing an application runs every middleware's transform once for each
    route and never again: the routes in the order the map is iterated, the
    transforms of a route from the last one registered to the first.  A request
    to a registered route then passes the middleware in the order of
    registration, reaches the handler with the route's id, the request's
    correlation id and payload, and passes the middleware back in reverse order;
    the response carries the request's payload and correlation id.  A second
    registration of a route is refused and changes nothing. *)
Theorem middleware_runs_in_order {Setup Teardown Protocol Assembler Dlq}
    (a : WireframeApp (list Mark) X E Setup Teardown Protocol Assembler Dlq)
    (names order : list Z) (w0 : list Mark) :
  middleware a = map tracing_middleware names -> iterates order (handlers a) ->
  exists p, build_prepared order a w0
    = (w0 ++ concat (map (fun id => map (fun n => Transformed n id) (reverse names)) order), p)
  /\ forall id (req : ServiceRequest) (w : list Mark), handlers a !! id = Some noting ->
     (exists s, routes p !! id = Some s /\ service_id s = id /\
        svc s req w =
          (w ++ map Before names ++
             [Handled (mk_PacketParts id (req_correlation_id req) (req_frame req))] ++
             map After (reverse names),
           Ok (mk_ServiceResponse (req_frame req) (req_correlation_id req))))
     /\ (forall h, route id h a = Err (DuplicateRoute id)).
Proof.
  intros Hm [_ Ho]. unfold build_prepared. rewrite Hm.
  destruct (build_tracing order names (handlers a) w0) as (rs & -> & Hr); [by intros id ?%Ho|].
  eexists. split; [done|]. intros id req w Hh. split.
  - specialize (Hr id noting Hh). rewrite decide_True in Hr by (apply Ho; by rewrite Hh).
    destruct Hr as (s & Hs & Hi & Hv). exists s. split; [done|]. split; [done|].
    rewrite Hv. erewrite traced_chain; [|reflexivity]. unfold noting. cbn.
    rewrite into_from_parts. cbn. by rewrite <- !app_assoc.
  - intros h. unfold route. by rewrite Hh.
Qed.
End Traced.

(** Route 4 of an application with two middleware functions. *)
Definition demo_app : WireframeApp (list Mark) Empty_set Envelope unit unit unit unit unit :=
  mk_WireframeApp {[4 := noting]} [tracing_middleware 1; tracing_middleware 2] None None None None 1024 100
    None None None.

Lemma middleware_runs_in_order_witness :
  exists p s, build_prepared [4] demo_app [] = ([Transformed 2 4; Transformed 1 4], p)
    /\ routes p !! 4 = Some s
    /\ (svc s (mk_ServiceRequest [9] (Some 3)) []).1 =
       [Before 1; Before 2; Handled (mk_PacketParts 4 (Some 3) [9]); After 2; After 1].
Proof.
  destruct (middleware_runs_in_order demo_app [1; 2] [4] []) as (p & Hp & Hs).
  - reflexivity.
  - split; [apply NoDup_singleton|]. intros id. cbn [handlers demo_app].
    rewrite list_elem_of_singleton, lookup_singleton_is_Some. split; congruence.
  - destruct (Hs 4 (mk_ServiceRequest [9] (Some 3)) []) as [(s & H1 & _ & H2) _]; [reflexivity|].
    exists p, s. split; [exact Hp|]. split; [exact H1|]. rewrite H2. reflexivity.
Defined.

