(* ===== verification/AppData.v ===== *)
(** * Application data, requests and extractors

    Models [app_data_store.rs], [extractor/] and, of [request/mod.rs], the
    parts of a request and the correlation id they inherit.

    The store maps a [TypeId] to a value behind [dyn Any].  [Code] are the type
    ids, [denote] the types they stand for; an [Any] is a value with the id of
    its type, and [downcast] compares ids.  A [DashMap]'s methods are atomic. *)

From stdpp Require Import countable.
From Stdlib Require Import Eqdep_dec.
From S2P Require Import Prelude.
From S2P Require Import Envelope.
From S2P Require Import AsyncIo.

Local Open Scope Z_scope.

Section Store.
Context {Code : Type} `{Countable Code} (denote : Code -> Type).

Record Any : Type := mk_Any {
  type_id : Code;
  value : denote type_id
}.

Definition downcast (t : Code) (a : Any) : option (denote t) :=
  match decide (type_id a = t) with
  | left E => Some (eq_rect (type_id a) denote (value a) t E)
  | right _ => None
  end.

Local Abbreviation AppDataStore := (gmap Code Any).

Definition insert (t : Code) (v : denote t) (s : AppDataStore) : AppDataStore :=
  <[t := mk_Any t v]> s.
Definition get (t : Code) (s : AppDataStore) : option (denote t) :=
  match s !! t with Some a => downcast t a | None => None end.
Definition contains (t : Code) (s : AppDataStore) : bool := bool_decide (is_Some (s !! t)).
Definition remove (t : Code) (s : AppDataStore) : AppDataStore * option (denote t) :=
  (delete t s, match s !! t with Some a => downcast t a | None => None end).

(** ** [extractor/request.rs]

    [B] is a request body stream. *)
Context {B : Type}.

Record MessageRequest : Type := mk_MessageRequest {
  peer_addr : option Z;
  app_data : AppDataStore;
  body_stream : option (option B)
}.

Definition request_new : MessageRequest := mk_MessageRequest None ∅ None.
Definition with_peer_addr (addr : option Z) (r : MessageRequest) : MessageRequest :=
  mk_MessageRequest addr (app_data r) (body_stream r).
Definition state (t : Code) (r : MessageRequest) : option (denote t) := get t (app_data r).
Definition insert_state (t : Code) (v : denote t) (r : MessageRequest) : MessageRequest :=
  mk_MessageRequest (peer_addr r) (insert t v (app_data r)) (body_stream r).
Definition set_body_stream (b : B) (r : MessageRequest) : MessageRequest :=
  mk_MessageRequest (peer_addr r) (app_data r) (Some (Some b)).
(** A poisoned lock yields nothing; nothing panics while holding it. *)
Definition take_body_stream (r : MessageRequest) : MessageRequest * option B :=
  match body_stream r with
  | Some (Some b) => (mk_MessageRequest (peer_addr r) (app_data r) (Some None), Some b)
  | _ => (r, None)
  end.

(** ** The extractors *)

Inductive ExtractError (D : Type) : Type :=
  | MissingState (t : Code)
  | InvalidPayload (e : D)
  | MissingBodyStream.
Arguments MissingState {D} t.
Arguments InvalidPayload {D} e.
Arguments MissingBodyStream {D}.

Definition advance (count : Z) (data : list Z) : list Z :=
  default [] (slice_from data (Z.min count (len data))).

(** An extractor sees the request and what is left of the payload. *)
Definition extract_shared_state {D} (t : Code) (r : MessageRequest) (payload : list Z)
    : MessageRequest * list Z * result (denote t) (ExtractError D) :=
  (r, payload, match state t r with Some v => Ok v | None => Err (MissingState t) end).
Definition extract_streaming_body {D} (r : MessageRequest) (payload : list Z)
    : MessageRequest * list Z * result B (ExtractError D) :=
  let '(r, b) := take_body_stream r in
  (r, payload, match b with Some b => Ok b | None => Err MissingBodyStream end).
Definition extract_message {T D} (from_bytes : list Z -> result (T * Z) D) (r : MessageRequest)
    (payload : list Z) : MessageRequest * list Z * result T (ExtractError D) :=
  match from_bytes payload with
  | Err e => (r, payload, Err (InvalidPayload e))
  | Ok (msg, consumed) => (r, advance consumed payload, Ok msg)
  end.
Definition extract_connection_info (r : MessageRequest) (payload : list Z)
    : MessageRequest * list Z * option Z :=
  (r, payload, peer_addr r).

(** ** The store is well typed *)

(** Every value is stored under the id of its own type. *)
Definition store_typed (s : AppDataStore) : Prop := map_Forall (fun t a => type_id a = t) s.

Lemma downcast_same t v : downcast t (mk_Any t v) = Some v.
Proof.
  unfold downcast. cbn. destruct (decide (t = t)) as [E|]; [|done].
  by rewrite (UIP_dec (decide_rel (=)) E eq_refl).
Qed.

Lemma typed_get s t : store_typed s -> is_Some (s !! t) -> is_Some (get t s).
Proof.
  intros Hs [a Ha]. unfold get, downcast. rewrite Ha. pose proof (Hs t a Ha) as E. cbn in E.
  by destruct (decide (type_id a = t)).
Qed.

(** What a handler and the extractors do to a request. *)
Inductive RequestOp : Type :=
  | InsertState (t : Code) (v : denote t)
  | RemoveState (t : Code)
  | SetBody (b : B)
  | ExtractState (t : Code)
  | ExtractBody
  | ExtractPeer.

(** A run keeps the request, the payload and the bodies handed out, in order. *)
Definition apply_op (w : MessageRequest * list B) (o : RequestOp) : MessageRequest * list B :=
  let '(r, taken) := w in
  match o with
  | InsertState t v => (insert_state t v r, taken)
  | RemoveState t => (mk_MessageRequest (peer_addr r) (remove t (app_data r)).1 (body_stream r), taken)
  | SetBody b => (set_body_stream b r, taken)
  | ExtractState t => ((extract_shared_state (D := False) t r []).1.1, taken)
  | ExtractBody =>
      match extract_streaming_body (D := False) r [] with
      | (r, _, Ok b) => (r, taken ++ [b])
      | (r, _, Err _) => (r, taken)
      end
  | ExtractPeer => ((extract_connection_info r []).1.1, taken)
  end.
Definition run_ops (ops : list RequestOp) (w : MessageRequest * list B) : MessageRequest * list B :=
  foldl apply_op w ops.

(** The bodies a sequence of operations sets, in order. *)
Definition bodies (ops : list RequestOp) : list B :=
  omap (fun o => match o with SetBody b => Some b | _ => None end) ops.

(** The value an operation leaves under [t], when it touches [t]. *)
Definition touches (t : Code) (o : RequestOp) : option (option (denote t)) :=
  match o with
  | InsertState t' v => if bool_decide (t' = t) then Some (downcast t (mk_Any t' v)) else None
  | RemoveState t' => if bool_decide (t' = t) then Some None else None
  | _ => None
  end.
(** The reference: the value the last operation that touches [t] leaves there. *)
Definition latest (t : Code) (ops : list RequestOp) : option (denote t) :=
  foldl (fun acc o => default acc (touches t o)) None ops.

Lemma typed_insert s t v : store_typed s -> store_typed (insert t v s).
Proof. intros Hs. by apply map_Forall_insert_2. Qed.
Lemma typed_remove s t : store_typed s -> store_typed (remove t s).1.
Proof. intros Hs. by apply map_Forall_delete. Qed.

Lemma op_typed w o : store_typed (app_data w.1) -> store_typed (app_data (apply_op w o).1).
Proof.
  destruct w as [r taken], o; cbn; intros Hs; try exact Hs.
  - by apply typed_insert.
  - by apply typed_remove.
  - unfold extract_streaming_body, take_body_stream. by destruct (body_stream r) as [[]|].
Qed.

Lemma op_state w o t :
  state t (apply_op w o).1 = default (state t w.1) (touches t o).
Proof.
  destruct w as [r taken], o as [t' v|t'| | | |]; cbn [apply_op fst touches default]; try done.
  - unfold state, insert_state. cbn [app_data]. unfold get, insert. case_bool_decide; subst.
    + by rewrite lookup_insert_eq.
    + by rewrite lookup_insert_ne.
  - unfold state, remove. cbn [app_data fst]. unfold get. case_bool_decide; subst.
    + by rewrite lookup_delete_eq.
    + by rewrite lookup_delete_ne.
  - unfold extract_streaming_body, take_body_stream. by destruct (body_stream r) as [[]|].
Qed.

(** The body that is still there. *)
Definition held (r : MessageRequest) : list B :=
  match body_stream r with Some (Some b) => [b] | _ => [] end.

Lemma op_bodies w o all :
  w.2 ++ held w.1 `sublist_of` all ->
  (apply_op w o).2 ++ held (apply_op w o).1 `sublist_of` all ++ bodies [o].
Proof.
  destruct w as [r taken], o; cbn; intros Hs; rewrite ?app_nil_r; try done.
  - apply sublist_app; [|done]. etrans; [|exact Hs]. by apply sublist_inserts_r.
  - unfold extract_streaming_body, take_body_stream, held in *.
    by destruct (body_stream r) as [[b|]|] eqn:E; cbn; rewrite ?E, ?app_nil_r in *.
Qed.

Lemma run_typed ops w : store_typed (app_data w.1) -> store_typed (app_data (run_ops ops w).1).
Proof. revert w. induction ops; cbn; eauto using op_typed. Qed.

Lemma run_state ops w t :
  state t (run_ops ops w).1 = foldl (fun acc o => default acc (touches t o)) (state t w.1) ops.
Proof.
  revert w. induction ops as [|o ops IH]; intros w; [done|].
  change (run_ops (o :: ops) w) with (run_ops ops (apply_op w o)). by rewrite IH, op_state.
Qed.

Lemma run_bodies ops w all :
  w.2 ++ held w.1 `sublist_of` all ->
  (run_ops ops w).2 ++ held (run_ops ops w).1 `sublist_of` all ++ bodies ops.
Proof.
  revert w all. induction ops as [|o ops IH]; intros w all Hs; [by rewrite app_nil_r|].
  change (run_ops (o :: ops) w) with (run_ops ops (apply_op w o)).
  replace (all ++ bodies (o :: ops)) with ((all ++ bodies [o]) ++ bodies ops).
  - by apply IH, op_bodies.
  - rewrite <- app_assoc. f_equal. unfold bodies. by rewrite <- omap_app.
Qed.

Lemma advance_suffix count data :
  0 <= count -> advance count data = drop (Z.to_nat (Z.min count (len data))) data.
Proof. intros Hc. unfold advance. rewrite slice_from_drop; [done|]. unfold len. lia. Qed.

(** C34: The application data of a request is well typed, and an extractor sees
    what was last put there: after any sequence of insertions, removals and
    extractions the shared-state extractor for a type yields the value the last
    operation on that type left, consuming nothing of the payload; it reports
    missing state exactly when the store has no entry for the type, so a stored
    value never fails to downcast; and the body streams handed out are among
    those set, in order, each at most once. *)
Theorem request_data_is_typed {D} (ops : list RequestOp) (t : Code) (payload : list Z) :
  let '(r, taken) := run_ops ops (request_new, []) in
  extract_shared_state (D := D) t r payload =
    (r, payload, match latest t ops with Some v => Ok v | None => Err (MissingState t) end) /\
  contains t (app_data r) = bool_decide (is_Some (latest t ops)) /\
  taken `sublist_of` bodies ops.
Proof.
  pose proof (run_typed ops (request_new, []) (map_Forall_empty _)) as Ht.
  pose proof (run_state ops (request_new, []) t) as Hv.
  pose proof (run_bodies ops (request_new, []) [] (sublist_nil_l _)) as Hb.
  destruct (run_ops ops (request_new, [])) as [r taken]. cbn in *.
  change (state t r = latest t ops) in Hv. split_and!.
  - unfold extract_shared_state. by rewrite Hv.
  - unfold contains. apply bool_decide_ext. rewrite <- Hv. unfold state. split.
    + by apply typed_get.
    + unfold get. destruct (app_data r !! t); [eauto|]. intros []. done.
  - etrans; [|exact Hb]. by apply sublist_inserts_r.
Qed.
End Store.

Arguments MissingState {Code D} t.
Arguments InvalidPayload {Code D} e.
Arguments MissingBodyStream {Code D}.

(** ** [RequestParts] of [request/mod.rs] *)
Module Parts.
Record RequestParts : Type := mk_RequestParts {
  id : Z;
  correlation_id : option Z;
  metadata : list Z
}.
Inductive CorrelationResult : Type :=
  | Inherited (cid : option Z)
  | Mismatch (found expected : Z).
Definition result_value (r : CorrelationResult) : option Z :=
  match r with Inherited cid => cid | Mismatch _ expected => Some expected end.
Definition parts_select_correlation (current source : option Z) : CorrelationResult :=
  match current, source with
  | None, cid => Inherited cid
  | Some found, Some expected =>
      if negb (found =? expected) then Mismatch found expected else Inherited current
  | curr, _ => Inherited curr
  end.
(** The warning logged for a mismatch is returned beside the parts. *)
Definition parts_inherit_correlation (p : RequestParts) (source : option Z)
    : RequestParts * option (Z * Z) :=
  let result := parts_select_correlation (correlation_id p) source in
  (mk_RequestParts (id p) (result_value result) (metadata p),
   match result with Mismatch found expected => Some (expected, found) | Inherited _ => None end).

(** Inheriting is idempotent: once the source's id has been taken over, doing it
    again changes nothing and warns about nothing. *)
Lemma inherit_idempotent p source :
  let p' := (parts_inherit_correlation p source).1 in
  parts_inherit_correlation p' source = (p', None).
Proof.
  destruct p as [i [c|] md], source as [s|]; cbn; try done.
  - unfold parts_inherit_correlation, parts_select_correlation; cbn.
    destruct (c =? s) eqn:E; cbn; rewrite ?E, ?Z.eqb_refl; done.
  - unfold parts_inherit_correlation; cbn. by rewrite Z.eqb_refl.
Qed.

(** The parts of a request and the parts of a packet inherit alike. *)
Lemma parts_inherit_like_packets pid c md pl source :
  correlation_id (parts_inherit_correlation (mk_RequestParts pid c md) source).1 =
  parts_correlation_id (inherit_correlation (mk_PacketParts pid c pl) source).
Proof.
  rewrite inherit_correlation_spec. destruct c as [c|], source as [s|]; cbn; try done.
  destruct (Z.eqb_spec c s); cbn; congruence.
Qed.
End Parts.
