(* ===== verification/Metrics.v ===== *)
(** * Metrics, counters and panics

    Models [metrics/], [connection/counter.rs], [benchmark_counters.rs] and
    [panic.rs], with the features [metrics], [pool] and [benchmark-counters] on.

    A function of [metrics/] is the list of samples it hands to the recorder
    behind the [metrics] crate, in order; what a recorder adds up is counted on
    such lists ([counted], [gauge_value]).  Durations are integers of one unit. *)

From S2P Require Import Prelude.
From S2P Require Import ClientError.

Local Open Scope Z_scope.
Local Open Scope string_scope.

(** ** Samples *)

Record Key : Type := mk_Key {
  key_name : string;
  key_labels : list (string * string)
}.

#[export] Instance Key_eq_dec : EqDecision Key.
Proof. solve_decision. Defined.

Inductive Sample : Type :=
  | CounterIncrement (k : Key) (n : Z)
  | GaugeIncrement (k : Key) (n : Z)
  | GaugeDecrement (k : Key) (n : Z)
  | HistogramRecord (k : Key) (elapsed : Z).

Definition counted (k : Key) (log : list Sample) : Z :=
  zsum (fun s => match s with
                 | CounterIncrement k' n => if decide (k' = k) then n else 0
                 | _ => 0
                 end) log.
Definition gauge_value (k : Key) (log : list Sample) : Z :=
  zsum (fun s => match s with
                 | GaugeIncrement k' n => if decide (k' = k) then n else 0
                 | GaugeDecrement k' n => if decide (k' = k) then - n else 0
                 | _ => 0
                 end) log.
(** How often a duration was recorded. *)
Definition recorded (k : Key) (log : list Sample) : Z :=
  zsum (fun s => match s with
                 | HistogramRecord k' _ => if decide (k' = k) then 1 else 0
                 | _ => 0
                 end) log.

(** ** [metrics/mod.rs] *)

Definition CONNECTIONS_ACTIVE : string := "wireframe_connections_active".
Definition FRAMES_PROCESSED : string := "wireframe_frames_processed_total".
Definition ERRORS_TOTAL : string := "wireframe_errors_total".
Definition CONNECTION_PANICS : string := "wireframe_connection_panics_total".
Definition POOL_BOOKKEEPING_POISON_RECOVERIES : string :=
  "wireframe_pool_bookkeeping_poison_recoveries_total".
Definition CODEC_ERRORS : string := "wireframe_codec_errors_total".
Definition APPLICATION_PREPARATIONS : string := "wireframe_application_preparations_total".
Definition PREPARED_CONNECTION_USES : string := "wireframe_prepared_connection_uses_total".
Definition APPLICATION_PREPARATION_DURATION : string :=
  "wireframe_application_preparation_duration_seconds".
Definition SERVER_SUPERVISOR_CANCELLATIONS : string :=
  "wireframe_server_supervisor_cancellations_total".
Definition SERVER_ACCEPT_LOOPS_EXITED : string := "wireframe_server_accept_loops_exited_total".

Inductive ServerCancellationReason : Type :=
  | Graceful
  | Dropped.
Definition cancellation_as_str (r : ServerCancellationReason) : string :=
  match r with Graceful => "graceful" | Dropped => "dropped" end.

Inductive PreparationOutcome : Type :=
  | PreparationSuccess
  | PreparationFailure.
Definition preparation_as_str (o : PreparationOutcome) : string :=
  match o with PreparationSuccess => "success" | PreparationFailure => "failure" end.

Inductive Direction : Type :=
  | Inbound
  | Outbound.
Definition direction_as_str (d : Direction) : string :=
  match d with Inbound => "inbound" | Outbound => "outbound" end.

Definition inc_connections : list Sample := [GaugeIncrement (mk_Key CONNECTIONS_ACTIVE []) 1].
Definition dec_connections : list Sample := [GaugeDecrement (mk_Key CONNECTIONS_ACTIVE []) 1].
Definition inc_frames (direction : Direction) : list Sample :=
  [CounterIncrement (mk_Key FRAMES_PROCESSED [("direction", direction_as_str direction)]) 1].
Definition inc_deser_errors : list Sample :=
  [CounterIncrement (mk_Key ERRORS_TOTAL [("kind", "deserialization")]) 1].
Definition inc_handler_errors : list Sample :=
  [CounterIncrement (mk_Key ERRORS_TOTAL [("kind", "handler")]) 1].
Definition inc_connection_panics : list Sample :=
  [CounterIncrement (mk_Key CONNECTION_PANICS []) 1].
Definition inc_pool_bookkeeping_poison_recoveries : list Sample :=
  [CounterIncrement (mk_Key POOL_BOOKKEEPING_POISON_RECOVERIES []) 1].
Definition inc_codec_error (error_type recovery_policy : string) : list Sample :=
  [CounterIncrement
     (mk_Key CODEC_ERRORS [("error_type", error_type); ("recovery_policy", recovery_policy)]) 1].
Definition record_application_preparation (outcome : PreparationOutcome) (elapsed : Z)
    : list Sample :=
  [CounterIncrement (mk_Key APPLICATION_PREPARATIONS [("outcome", preparation_as_str outcome)]) 1;
   HistogramRecord
     (mk_Key APPLICATION_PREPARATION_DURATION [("outcome", preparation_as_str outcome)]) elapsed].
Definition inc_prepared_connection_uses : list Sample :=
  [CounterIncrement (mk_Key PREPARED_CONNECTION_USES []) 1].
Definition inc_server_supervisor_cancellation (reason : ServerCancellationReason) : list Sample :=
  [CounterIncrement
     (mk_Key SERVER_SUPERVISOR_CANCELLATIONS [("reason", cancellation_as_str reason)]) 1].
Definition inc_server_accept_loop_exit (reason : ServerCancellationReason) : list Sample :=
  [CounterIncrement
     (mk_Key SERVER_ACCEPT_LOOPS_EXITED [("reason", cancellation_as_str reason)]) 1].

(** ** The other files of [metrics/] *)

Definition DECODE_REJECTIONS : string := "wireframe_decode_rejections_total".
Inductive DecodeRejectionPath : Type :=
  | PathMessage
  | PathSerde
  | PathPreamble
  | PathEnvelope.
Definition path_as_str (p : DecodeRejectionPath) : string :=
  match p with
  | PathMessage => "message"
  | PathSerde => "serde"
  | PathPreamble => "preamble"
  | PathEnvelope => "envelope"
  end.
Inductive DecodeRejectionReason : Type :=
  | LimitExceeded
  | TrailingBytes
  | DecodeErrorReason.
Definition reason_as_str (r : DecodeRejectionReason) : string :=
  match r with
  | LimitExceeded => "limit_exceeded"
  | TrailingBytes => "trailing_bytes"
  | DecodeErrorReason => "decode_error"
  end.
Definition inc_decode_rejection (path : DecodeRejectionPath) (reason : DecodeRejectionReason)
    : list Sample :=
  [CounterIncrement
     (mk_Key DECODE_REJECTIONS [("path", path_as_str path); ("reason", reason_as_str reason)]) 1].

Definition APP_RESPONSE_SENDS : string := "wireframe_app_response_sends_total".
Inductive AppResponseSendOutcome : Type :=
  | SendSuccess
  | SerializationFailure
  | CodecRejected
  | TransportFailure.
Definition send_outcome_as_str (o : AppResponseSendOutcome) : string :=
  match o with
  | SendSuccess => "success"
  | SerializationFailure => "serialization_failure"
  | CodecRejected => "codec_rejected"
  | TransportFailure => "transport_failure"
  end.
Definition inc_app_response_send (outcome : AppResponseSendOutcome) : list Sample :=
  [CounterIncrement (mk_Key APP_RESPONSE_SENDS [("outcome", send_outcome_as_str outcome)]) 1].

Definition PREAMBLE_REJECTIONS : string := "wireframe_preamble_rejections_total".
Inductive PreambleRejectionReason : Type :=
  | SuccessHandlerError.
Definition preamble_reason_as_str (r : PreambleRejectionReason) : string :=
  match r with SuccessHandlerError => "success_handler_error" end.
Definition inc_preamble_rejection (reason : PreambleRejectionReason) : list Sample :=
  [CounterIncrement (mk_Key PREAMBLE_REJECTIONS [("reason", preamble_reason_as_str reason)]) 1].

Definition POOL_SCHEDULER_FAILURES : string := "wireframe_pool_scheduler_failures_total".
Definition inc_pool_scheduler_failure : list Sample :=
  [CounterIncrement (mk_Key POOL_SCHEDULER_FAILURES []) 1].

Definition SERVER_STARTUP_FAILURES : string := "wireframe_server_startup_failures_total".
Definition SERVER_STARTUP_DURATION : string := "wireframe_server_startup_duration_seconds".
Inductive ServerStartupFailureStage : Type :=
  | StageFactoryBuild
  | StagePreparation.
Definition stage_as_str (s : ServerStartupFailureStage) : string :=
  match s with StageFactoryBuild => "factory_build" | StagePreparation => "preparation" end.
Inductive ServerStartupOutcome : Type :=
  | StartupSuccess
  | StartupFactoryBuild
  | StartupPreparation
  | StartupCancelled.
Definition startup_as_str (o : ServerStartupOutcome) : string :=
  match o with
  | StartupSuccess => "success"
  | StartupFactoryBuild => "factory_build"
  | StartupPreparation => "preparation"
  | StartupCancelled => "cancelled"
  end.
Definition inc_server_startup_failure (stage : ServerStartupFailureStage) : list Sample :=
  [CounterIncrement (mk_Key SERVER_STARTUP_FAILURES [("stage", stage_as_str stage)]) 1].
Definition record_server_startup_duration (outcome : ServerStartupOutcome) (elapsed : Z)
    : list Sample :=
  [HistogramRecord (mk_Key SERVER_STARTUP_DURATION [("outcome", startup_as_str outcome)]) elapsed].

Definition SERVER_SUPERVISOR_ABNORMAL_TERMINATIONS : string :=
  "wireframe_server_supervisor_abnormal_terminations_total".
Definition inc_server_supervisor_abnormal_termination : list Sample :=
  [CounterIncrement (mk_Key SERVER_SUPERVISOR_ABNORMAL_TERMINATIONS []) 1].

(** ** [metrics/client_pool.rs] *)

Definition POOL_CONNECTION_DISCARDS : string := "wireframe_pool_connection_discards_total".
Definition POOL_ACQUISITIONS : string := "wireframe_pool_acquisitions_total".
Definition POOL_PERMIT_RACES_STARTED : string := "wireframe_pool_permit_races_started_total".
Definition POOL_PERMIT_RACES : string := "wireframe_pool_permit_races_total".
Definition POOL_PERMIT_RACE_DURATION : string := "wireframe_pool_permit_race_duration_seconds".

Definition inc_pool_incomplete_operation_discard : list Sample :=
  [CounterIncrement (mk_Key POOL_CONNECTION_DISCARDS [("reason", "operation_incomplete")]) 1].
Definition inc_pool_pending_response_discard : list Sample :=
  [CounterIncrement (mk_Key POOL_CONNECTION_DISCARDS [("reason", "response_pending")]) 1].

Inductive PoolAcquisitionMode : Type :=
  | Immediate
  | PermitRace.
Definition mode_as_str (m : PoolAcquisitionMode) : string :=
  match m with Immediate => "immediate" | PermitRace => "permit_race" end.
Inductive PoolAcquisitionOutcome : Type :=
  | Granted
  | Exhausted
  | ShutdownOutcome
  | ErrorOutcome.
Definition acquisition_as_str (o : PoolAcquisitionOutcome) : string :=
  match o with
  | Granted => "granted"
  | Exhausted => "exhausted"
  | ShutdownOutcome => "shutdown"
  | ErrorOutcome => "error"
  end.
Definition inc_pool_acquisition (mode : PoolAcquisitionMode) (outcome : PoolAcquisitionOutcome)
    : list Sample :=
  [CounterIncrement
     (mk_Key POOL_ACQUISITIONS [("mode", mode_as_str mode); ("outcome", acquisition_as_str outcome)]) 1].

(** The samples of an immediate attempt and of a race ([client/pool/core.rs]). *)
Definition immediate_samples {A} (permit : option A) (is_shutdown : bool) : list Sample :=
  inc_pool_acquisition Immediate
    (match permit with
     | Some _ => Granted
     | None => if is_shutdown then ShutdownOutcome else Exhausted
     end).
Definition race_outcome {A E} (r : result A E) (is_shutdown no_slots : bool) : PoolAcquisitionOutcome :=
  match r with
  | Ok _ => Granted
  | Err _ => if is_shutdown || no_slots then ShutdownOutcome else ErrorOutcome
  end.

Record PoolPermitRaceGuard : Type := mk_RaceGuard {
  started : Z;
  finished : bool
}.

Definition race_key (outcome : string) : Key := mk_Key POOL_PERMIT_RACES [("outcome", outcome)].
Definition race_duration_key (outcome : string) : Key :=
  mk_Key POOL_PERMIT_RACE_DURATION [("outcome", outcome)].

Definition race_record (g : PoolPermitRaceGuard) (outcome : string) (now : Z) : list Sample :=
  [CounterIncrement (race_key outcome) 1;
   HistogramRecord (race_duration_key outcome) (saturating_duration_since now (started g))].
Definition race_guard_start (now : Z) : PoolPermitRaceGuard * list Sample :=
  (mk_RaceGuard now false, [CounterIncrement (mk_Key POOL_PERMIT_RACES_STARTED []) 1]).
Definition race_guard_drop (g : PoolPermitRaceGuard) (shutdown : bool) (now : Z) : list Sample :=
  if finished g then []
  else race_record g (if shutdown then "shutdown" else "cancelled") now.
(** [finish] consumes the guard, which is then dropped. *)
Definition race_guard_finish (g : PoolPermitRaceGuard) (outcome : PoolAcquisitionOutcome)
    (shutdown : bool) (now now' : Z) : list Sample :=
  race_record g (acquisition_as_str outcome) now
    ++ race_guard_drop (mk_RaceGuard (started g) true) shutdown now'.

(** Races that overlap in any way: the guards that are alive, and the samples. *)
Record Races : Type := mk_Races {
  race_guards : gmap Z PoolPermitRaceGuard;
  race_log : list Sample
}.
Inductive RaceEvent : Type :=
  | RaceStart (id now : Z)
  | RaceFinish (id : Z) (outcome : PoolAcquisitionOutcome) (shutdown : bool) (now now' : Z)
  | RaceDrop (id : Z) (shutdown : bool) (now : Z).

Definition race_step (w : Races) (e : RaceEvent) : option Races :=
  match e with
  | RaceStart id now =>
      match race_guards w !! id with
      | Some _ => None
      | None =>
          let '(g, samples) := race_guard_start now in
          Some (mk_Races (<[id := g]> (race_guards w)) (race_log w ++ samples))
      end
  | RaceFinish id outcome shutdown now now' =>
      match race_guards w !! id with
      | None => None
      | Some g =>
          Some (mk_Races (delete id (race_guards w))
                  (race_log w ++ race_guard_finish g outcome shutdown now now'))
      end
  | RaceDrop id shutdown now =>
      match race_guards w !! id with
      | None => None
      | Some g =>
          Some (mk_Races (delete id (race_guards w)) (race_log w ++ race_guard_drop g shutdown now))
      end
  end.
Fixpoint race_run (w : Races) (es : list RaceEvent) : option Races :=
  match es with
  | [] => Some w
  | e :: es => match race_step w e with Some w => race_run w es | None => None end
  end.

(** ** [connection/counter.rs]

    The gauge is a 64-bit atomic; [guards] are the guards alive. *)
Record Gauge : Type := mk_Gauge {
  ACTIVE_CONNECTIONS : Z;
  guards : gset Z;
  gauge_log : list Sample
}.
Definition gauge_initial : Gauge := mk_Gauge 0 ∅ [].
Definition active_connection_new (id : Z) (w : Gauge) : Gauge :=
  mk_Gauge (wrapping_add u64_max (ACTIVE_CONNECTIONS w) 1) ({[id]} ∪ guards w)
    (gauge_log w ++ inc_connections).
Definition active_connection_drop (id : Z) (w : Gauge) : Gauge :=
  mk_Gauge (wrapping_sub u64_max (ACTIVE_CONNECTIONS w) 1) (guards w ∖ {[id]})
    (gauge_log w ++ dec_connections).
Definition active_connection_count (w : Gauge) : Z := ACTIVE_CONNECTIONS w.

(** [inl id]: a guard is made; [inr id]: it is dropped. *)
Definition gauge_step (w : Gauge) (e : Z + Z) : option Gauge :=
  match e with
  | inl id => if decide (id ∈ guards w) then None else Some (active_connection_new id w)
  | inr id => if decide (id ∈ guards w) then Some (active_connection_drop id w) else None
  end.
Fixpoint gauge_run (w : Gauge) (es : list (Z + Z)) : option Gauge :=
  match es with
  | [] => Some w
  | e :: es => match gauge_step w e with Some w => gauge_run w es | None => None end
  end.

(** ** [benchmark_counters.rs] *)

Record CopiedBytes : Type := mk_CopiedBytes {
  serialized : Z;
  handoff : Z;
  framed : Z
}.
Definition total (c : CopiedBytes) : Z :=
  saturating_add u64_max (saturating_add u64_max (serialized c) (handoff c)) (framed c).
Definition checked_div (a b : Z) : option Z := if decide (b = 0) then None else Some (a / b).
Definition per_operation (c : CopiedBytes) (operations : Z) : option CopiedBytes :=
  match checked_div (serialized c) operations with
  | None => None
  | Some s =>
      match checked_div (handoff c) operations with
      | None => None
      | Some h =>
          match checked_div (framed c) operations with
          | None => None
          | Some f => Some (mk_CopiedBytes s h f)
          end
      end
  end.

(** The three process-wide counters; a snapshot reads them. *)
Definition record_serialized (bytes : Z) (c : CopiedBytes) : CopiedBytes :=
  mk_CopiedBytes (wrapping_add u64_max (serialized c) bytes) (handoff c) (framed c).
Definition record_handoff (bytes : Z) (c : CopiedBytes) : CopiedBytes :=
  mk_CopiedBytes (serialized c) (wrapping_add u64_max (handoff c) bytes) (framed c).
Definition record_framed (bytes : Z) (c : CopiedBytes) : CopiedBytes :=
  mk_CopiedBytes (serialized c) (handoff c) (wrapping_add u64_max (framed c) bytes).
Definition snapshot (c : CopiedBytes) : CopiedBytes :=
  mk_CopiedBytes (serialized c) (handoff c) (framed c).
Definition reset : CopiedBytes := mk_CopiedBytes 0 0 0.
(** [moved]: the conversion of the vector changed the address of its bytes. *)
Definition bytes_from_vec (moved : bool) (bytes : list Z) (c : CopiedBytes)
    : CopiedBytes * list Z :=
  (if moved then record_handoff (len bytes) c else c, bytes).

(** ** [panic.rs] *)

Inductive PanicPayload : Type :=
  | StaticStr (s : string)
  | OwnedString (s : string)
  | OtherPayload (debug : string).
Definition format_panic (p : PanicPayload) : string :=
  match p with
  | StaticStr s => s
  | OwnedString s => s
  | OtherPayload debug => debug
  end.

(** ** The counters add up *)

(** The labels a race may end with. *)
Definition race_labels : list string := ["granted"; "exhausted"; "shutdown"; "error"; "cancelled"].

(** How the log of a race's end counts. *)
Definition ended (log : list Sample) : Z :=
  zsum (fun o => counted (race_key o) log) race_labels.

Lemma ended_app l k : ended (l ++ k) = ended l + ended k.
Proof. unfold ended, counted. cbn. rewrite !zsum_app. lia. Qed.

Lemma race_record_counts g o now :
  o ∈ race_labels ->
  ended (race_record g o now) = 1 /\
  counted (mk_Key POOL_PERMIT_RACES_STARTED []) (race_record g o now) = 0 /\
  forall o', counted (race_key o') (race_record g o now) =
             recorded (race_duration_key o') (race_record g o now).
Proof.
  intros Ho. split_and!.
  - unfold race_labels in Ho. repeat (apply elem_of_cons in Ho as [->|Ho]; [by vm_compute|]).
    by apply elem_of_nil in Ho.
  - unfold counted, race_record, race_key. cbn. by rewrite decide_False.
  - intros o'. unfold counted, recorded, race_record, race_key, race_duration_key. cbn.
    destruct (decide (o = o')) as [->|Hne]; [by rewrite !decide_True|].
    rewrite !decide_False; [done| |]; congruence.
Qed.

Lemma acquisition_label o : acquisition_as_str o ∈ race_labels.
Proof. unfold race_labels. destruct o; cbn; set_solver. Qed.
Lemma drop_label (b : bool) : (if b then "shutdown" else "cancelled") ∈ race_labels.
Proof. unfold race_labels. destruct b; set_solver. Qed.

(** What is kept while races overlap: those started are those ended and those
    still alive; each end is in the histogram of its outcome. *)
Record races_ok (w : Races) : Prop := {
  races_started :
    counted (mk_Key POOL_PERMIT_RACES_STARTED []) (race_log w) =
    Z.of_nat (size (race_guards w)) + ended (race_log w);
  races_timed : forall o, counted (race_key o) (race_log w) = recorded (race_duration_key o) (race_log w);
  races_open : map_Forall (fun _ g => finished g = false) (race_guards w)
}.

Lemma race_end_ok w id g o now :
  races_ok w -> race_guards w !! id = Some g -> o ∈ race_labels ->
  races_ok (mk_Races (delete id (race_guards w)) (race_log w ++ race_record g o now)).
Proof.
  intros [Hs Ht Ho] Hg Hl. destruct (race_record_counts g o now Hl) as (He & Hst & Htm). split; cbn [race_log race_guards].
  - rewrite ended_app, He. unfold counted in *. rewrite zsum_app, Hst, Hs.
    rewrite map_size_delete_Some by eauto. assert (size (race_guards w) <> 0%nat); [|lia].
    intros E%map_size_empty_iff. by rewrite E in Hg.
  - intros o'. unfold counted, recorded in *. rewrite !zsum_app. by rewrite Ht, Htm.
  - by apply map_Forall_delete.
Qed.

Lemma race_step_ok w e w' : races_ok w -> race_step w e = Some w' -> races_ok w'.
Proof.
  intros Hw. destruct e as [id now|id o sh now now'|id sh now]; cbn [race_step];
    (destruct (race_guards w !! id) as [g|] eqn:Hg; [|done || intros [= <-]]; try done).
  - destruct Hw as [Hs Ht Ho]. split; cbn [race_log race_guards].
    + rewrite ended_app. unfold counted in *. rewrite zsum_app, Hs, map_size_insert_None by done.
      change (ended [CounterIncrement (mk_Key POOL_PERMIT_RACES_STARTED []) 1]) with 0.
      cbn [zsum foldr]. rewrite decide_True by done. lia.
    + intros o. unfold counted, recorded in *. rewrite !zsum_app, Ht. cbn. by rewrite decide_False.
    + by apply map_Forall_insert_2.
  - intros [= <-]. unfold race_guard_finish, race_guard_drop. cbn [finished]. rewrite app_nil_r.
    apply race_end_ok; [done|done|apply acquisition_label].
  - intros [= <-]. unfold race_guard_drop. rewrite (races_open _ Hw id g Hg).
    apply race_end_ok; [done|done|apply drop_label].
Qed.

Lemma race_run_ok es w w' : races_ok w -> race_run w es = Some w' -> races_ok w'.
Proof.
  revert w. induction es as [|e es IH]; intros w Hw; cbn; [by intros [= <-]|].
  destruct (race_step w e) eqn:E; [|done]. apply IH. by eapply race_step_ok.
Qed.

(** Every race for a pool permit is accounted for in the metrics: however
    races overlap, whether they finish, are cancelled or are cut off by shutdown,
    the races counted as started are those counted with an outcome and those
    still running, and each outcome has as many durations as it has ends. *)
Theorem races_are_accounted_for es w :
  race_run (mk_Races ∅ []) es = Some w ->
  counted (mk_Key POOL_PERMIT_RACES_STARTED []) (race_log w) =
    Z.of_nat (size (race_guards w)) +
    zsum (fun o => counted (race_key o) (race_log w)) race_labels /\
  forall o, counted (race_key o) (race_log w) = recorded (race_duration_key o) (race_log w).
Proof.
  intros Hr. assert (Hw : races_ok w).
  { eapply race_run_ok; [|exact Hr]. split; [done|done|apply map_Forall_empty]. }
  split; [apply (races_started _ Hw)|apply (races_timed _ Hw)].
Qed.

Lemma races_are_accounted_for_witness :
  exists w,
    race_run (mk_Races ∅ [])
      [RaceStart 1 0; RaceStart 2 3; RaceFinish 1 Granted false 5 5; RaceStart 3 6;
       RaceDrop 2 true 9] = Some w /\
    counted (mk_Key POOL_PERMIT_RACES_STARTED []) (race_log w) =
      Z.of_nat (size (race_guards w)) +
      zsum (fun o => counted (race_key o) (race_log w)) race_labels.
Proof.
  eexists. split; [vm_compute; reflexivity|].
  eapply (races_are_accounted_for
    [RaceStart 1 0; RaceStart 2 3; RaceFinish 1 Granted false 5 5; RaceStart 3 6; RaceDrop 2 true 9]).
  vm_compute. reflexivity.
Defined.

Record gauge_ok (w : Gauge) : Prop := {
  gauge_counts : ACTIVE_CONNECTIONS w = Z.of_nat (size (guards w)) mod 2 ^ 64;
  gauge_metric : gauge_value (mk_Key CONNECTIONS_ACTIVE []) (gauge_log w) = Z.of_nat (size (guards w))
}.

Lemma size_drop (X : gset Z) id : id ∈ X -> size X = S (size (X ∖ {[id]})).
Proof.
  intros Hid. rewrite (union_difference_L {[id]} X) at 1 by set_solver.
  rewrite size_union by set_solver. by rewrite size_singleton.
Qed.

Lemma wrap_up n : wrapping_add u64_max (n mod 2 ^ 64) 1 = (n + 1) mod 2 ^ 64.
Proof. exact (Zplus_mod_idemp_l n 1 (2 ^ 64)). Qed.
Lemma wrap_down n : wrapping_sub u64_max (n mod 2 ^ 64) 1 = (n - 1) mod 2 ^ 64.
Proof. exact (Zminus_mod_idemp_l n 1 (2 ^ 64)). Qed.

Lemma gauge_step_ok w e w' : gauge_ok w -> gauge_step w e = Some w' -> gauge_ok w'.
Proof.
  intros [Hc Hm]. unfold gauge_value in Hm.
  destruct e as [id|id]; cbn; case_decide as Hid; intros [= <-];
    (split; [|unfold gauge_value];
     cbn [active_connection_new active_connection_drop guards gauge_log ACTIVE_CONNECTIONS];
     rewrite ?Hc, ?zsum_app, ?Hm, ?wrap_up, ?wrap_down).
  - f_equal. rewrite size_union by set_solver. rewrite size_singleton. lia.
  - rewrite size_union by set_solver. rewrite size_singleton. cbn [zsum foldr inc_connections].
    rewrite decide_True by done. lia.
  - f_equal. rewrite (size_drop _ _ Hid). lia.
  - rewrite (size_drop _ _ Hid). cbn [zsum foldr dec_connections]. rewrite decide_True by done. lia.
Qed.

(** The gauge of active connections counts the guards alive: after any sequence
    of connections made and dropped, the counter is their number (modulo its
    width), it never underflows, and the metric shows the same number. *)
Theorem gauge_counts_connections es w :
  gauge_run gauge_initial es = Some w ->
  active_connection_count w = Z.of_nat (size (guards w)) mod 2 ^ 64 /\
  gauge_value (mk_Key CONNECTIONS_ACTIVE []) (gauge_log w) = Z.of_nat (size (guards w)).
Proof.
  assert (Hi : gauge_ok gauge_initial) by done. revert Hi. generalize gauge_initial.
  induction es as [|e es IH]; intros g Hg; cbn.
  - intros [= <-]. by destruct Hg.
  - destruct (gauge_step g e) eqn:E; [|done]. apply IH. by eapply gauge_step_ok.
Qed.

(** ** Copied bytes *)

Lemma per_operation_exact c operations :
  0 < operations ->
  exists q, per_operation c operations = Some q /\
    serialized c - serialized q * operations = serialized c mod operations /\
    handoff c - handoff q * operations = handoff c mod operations /\
    framed c - framed q * operations = framed c mod operations.
Proof.
  intros Ho. unfold per_operation, checked_div. rewrite !decide_False by lia. eexists. split; [done|].
  cbn. rewrite !(Z.mul_comm (_ / _)), <- !Z.mod_eq by lia. done.
Qed.

Lemma per_operation_none c : per_operation c 0 = None.
Proof. done. Qed.
