(* ===== verification/ClientBuilder.v ===== *)
(** * The client's builder

    Models [client/builder/], [client/preamble_builder.rs],
    [client/socket_option_methods.rs], [client/config.rs] and the tracing
    configuration ([client/tracing_config.rs], [tracing_timing.rs],
    [tracing_helpers.rs]).

    A socket is known by what the coming calls that set its options answer; the
    calls made are recorded in order.  A hook is a function.  Durations are in
    milliseconds. *)

From S2P Require Import Prelude.
From S2P Require Import LengthPrefix.
From S2P Require Import AsyncIo.
From S2P Require Import Preamble.
From S2P Require Import ClientError.
From S2P Require Import Client.

Local Open Scope Z_scope.
Local Open Scope string_scope.

(** ** [config.rs] *)

Inductive SocketCall : Type :=
  | SetNodelay (enabled : bool)
  | SetKeepalive (enabled : bool)
  | SetTcpKeepaliveTime (duration : Z)
  | SetSendBufferSize (size : Z)
  | SetRecvBufferSize (size : Z)
  | SetReuseaddr (enabled : bool)
  | SetReuseport (enabled : bool).

(** A call beyond [answers] succeeds. *)
Record Socket : Type := mk_Socket {
  answers : list (option io_error);
  calls : list SocketCall
}.

Definition socket_call (c : SocketCall) (s : Socket) : Socket * result unit io_error :=
  match answers s with
  | Some e :: rest => (mk_Socket rest (calls s ++ [c]), Err e)
  | None :: rest => (mk_Socket rest (calls s ++ [c]), Ok tt)
  | [] => (mk_Socket [] (calls s ++ [c]), Ok tt)
  end.

(** [m?; k] *)
Definition and_then (m : Socket -> Socket * result unit io_error)
    (k : Socket -> Socket * result unit io_error) (s : Socket) : Socket * result unit io_error :=
  match m s with
  | (s, Ok _) => k s
  | (s, Err e) => (s, Err e)
  end.
Definition done_ (s : Socket) : Socket * result unit io_error := (s, Ok tt).

Inductive KeepAliveSetting : Type :=
  | Disabled
  | KeepAliveDuration (value : Z).
Definition to_option (k : KeepAliveSetting) : option Z :=
  match k with Disabled => None | KeepAliveDuration value => Some value end.

Record SocketOptions : Type := mk_SocketOptions {
  so_nodelay : option bool;
  so_keepalive : option KeepAliveSetting;
  so_send_buffer_size : option Z;
  so_recv_buffer_size : option Z;
  so_reuseaddr : option bool;
  so_reuseport : option bool
}.
Definition socket_options_default : SocketOptions := mk_SocketOptions None None None None None None.

Definition nodelay (enabled : bool) (o : SocketOptions) : SocketOptions :=
  mk_SocketOptions (Some enabled) (so_keepalive o) (so_send_buffer_size o) (so_recv_buffer_size o)
    (so_reuseaddr o) (so_reuseport o).
Definition keepalive (duration : option Z) (o : SocketOptions) : SocketOptions :=
  mk_SocketOptions (so_nodelay o)
    (Some (match duration with None => Disabled | Some value => KeepAliveDuration value end))
    (so_send_buffer_size o) (so_recv_buffer_size o) (so_reuseaddr o) (so_reuseport o).
Definition send_buffer_size (size : Z) (o : SocketOptions) : SocketOptions :=
  mk_SocketOptions (so_nodelay o) (so_keepalive o) (Some size) (so_recv_buffer_size o)
    (so_reuseaddr o) (so_reuseport o).
Definition recv_buffer_size (size : Z) (o : SocketOptions) : SocketOptions :=
  mk_SocketOptions (so_nodelay o) (so_keepalive o) (so_send_buffer_size o) (Some size)
    (so_reuseaddr o) (so_reuseport o).
Definition reuseaddr (enabled : bool) (o : SocketOptions) : SocketOptions :=
  mk_SocketOptions (so_nodelay o) (so_keepalive o) (so_send_buffer_size o) (so_recv_buffer_size o)
    (Some enabled) (so_reuseport o).
Definition reuseport (enabled : bool) (o : SocketOptions) : SocketOptions :=
  mk_SocketOptions (so_nodelay o) (so_keepalive o) (so_send_buffer_size o) (so_recv_buffer_size o)
    (so_reuseaddr o) (Some enabled).

Definition apply_nodelay (o : SocketOptions) : Socket -> Socket * result unit io_error :=
  match so_nodelay o with Some enabled => socket_call (SetNodelay enabled) | None => done_ end.
Definition apply_keepalive (o : SocketOptions) : Socket -> Socket * result unit io_error :=
  match so_keepalive o with
  | Some k =>
      match to_option k with
      | Some duration =>
          and_then (socket_call (SetKeepalive true)) (socket_call (SetTcpKeepaliveTime duration))
      | None => socket_call (SetKeepalive false)
      end
  | None => done_
  end.
Definition apply_send_buffer_size (o : SocketOptions) : Socket -> Socket * result unit io_error :=
  match so_send_buffer_size o with Some size => socket_call (SetSendBufferSize size) | None => done_ end.
Definition apply_recv_buffer_size (o : SocketOptions) : Socket -> Socket * result unit io_error :=
  match so_recv_buffer_size o with Some size => socket_call (SetRecvBufferSize size) | None => done_ end.
Definition apply_reuseaddr (o : SocketOptions) : Socket -> Socket * result unit io_error :=
  match so_reuseaddr o with Some enabled => socket_call (SetReuseaddr enabled) | None => done_ end.
Definition apply_reuseport (o : SocketOptions) : Socket -> Socket * result unit io_error :=
  match so_reuseport o with Some enabled => socket_call (SetReuseport enabled) | None => done_ end.

Definition apply_options (o : SocketOptions) : Socket -> Socket * result unit io_error :=
  and_then (apply_nodelay o)
    (and_then (apply_keepalive o)
       (and_then (apply_send_buffer_size o)
          (and_then (apply_recv_buffer_size o)
             (and_then (apply_reuseaddr o) (apply_reuseport o))))).

(** ** [tracing_timing.rs], [tracing_config.rs] *)

Inductive ClientOperation : Type :=
  | Connect
  | Send
  | Receive
  | Call
  | Streaming
  | Close.

#[export] Instance ClientOperation_eq_dec : EqDecision ClientOperation.
Proof. solve_decision. Defined.

Definition mask (op : ClientOperation) : Z :=
  match op with
  | Connect => 1
  | Send => 2
  | Receive => 4
  | Call => 8
  | Streaming => 16
  | Close => 32
  end.

(** [ClientTimingFlags]: an 8-bit integer; [!mask] is its complement in 8 bits. *)
Definition with_enabled (flags : Z) (op : ClientOperation) (enabled : bool) : Z :=
  if enabled then Z.lor flags (mask op) else Z.land flags (Z.lxor u8_max (mask op)).
Definition timing_all (enabled : bool) : Z := if enabled then 63 else 0.
Definition is_enabled (flags : Z) (op : ClientOperation) : bool :=
  negb (Z.land flags (mask op) =? 0)%Z.

Inductive Level : Type :=
  | ERROR
  | WARN
  | INFO
  | DEBUG
  | TRACE.

Record TracingConfig : Type := mk_TracingConfig {
  connect_level : Level;
  send_level : Level;
  receive_level : Level;
  call_level : Level;
  streaming_level : Level;
  close_level : Level;
  timing : Z
}.
Definition tracing_default : TracingConfig := mk_TracingConfig INFO DEBUG DEBUG DEBUG DEBUG INFO 0.

Definition with_connect_level (l : Level) (c : TracingConfig) : TracingConfig :=
  mk_TracingConfig l (send_level c) (receive_level c) (call_level c) (streaming_level c)
    (close_level c) (timing c).
Definition with_send_level (l : Level) (c : TracingConfig) : TracingConfig :=
  mk_TracingConfig (connect_level c) l (receive_level c) (call_level c) (streaming_level c)
    (close_level c) (timing c).
Definition with_receive_level (l : Level) (c : TracingConfig) : TracingConfig :=
  mk_TracingConfig (connect_level c) (send_level c) l (call_level c) (streaming_level c)
    (close_level c) (timing c).
Definition with_call_level (l : Level) (c : TracingConfig) : TracingConfig :=
  mk_TracingConfig (connect_level c) (send_level c) (receive_level c) l (streaming_level c)
    (close_level c) (timing c).
Definition with_streaming_level (l : Level) (c : TracingConfig) : TracingConfig :=
  mk_TracingConfig (connect_level c) (send_level c) (receive_level c) (call_level c) l
    (close_level c) (timing c).
Definition with_close_level (l : Level) (c : TracingConfig) : TracingConfig :=
  mk_TracingConfig (connect_level c) (send_level c) (receive_level c) (call_level c)
    (streaming_level c) l (timing c).
Definition with_all_levels (l : Level) (c : TracingConfig) : TracingConfig :=
  mk_TracingConfig l l l l l l (timing c).
Definition set_timing (t : Z) (c : TracingConfig) : TracingConfig :=
  mk_TracingConfig (connect_level c) (send_level c) (receive_level c) (call_level c)
    (streaming_level c) (close_level c) t.
Definition with_connect_timing (enabled : bool) (c : TracingConfig) : TracingConfig :=
  set_timing (with_enabled (timing c) Connect enabled) c.
Definition with_send_timing (enabled : bool) (c : TracingConfig) : TracingConfig :=
  set_timing (with_enabled (timing c) Send enabled) c.
Definition with_receive_timing (enabled : bool) (c : TracingConfig) : TracingConfig :=
  set_timing (with_enabled (timing c) Receive enabled) c.
Definition with_call_timing (enabled : bool) (c : TracingConfig) : TracingConfig :=
  set_timing (with_enabled (timing c) Call enabled) c.
Definition with_streaming_timing (enabled : bool) (c : TracingConfig) : TracingConfig :=
  set_timing (with_enabled (timing c) Streaming enabled) c.
Definition with_close_timing (enabled : bool) (c : TracingConfig) : TracingConfig :=
  set_timing (with_enabled (timing c) Close enabled) c.
Definition with_all_timing (enabled : bool) (c : TracingConfig) : TracingConfig :=
  set_timing (timing_all enabled) c.
Definition timing_enabled (c : TracingConfig) (op : ClientOperation) : bool :=
  is_enabled (timing c) op.

(** ** [tracing_helpers.rs]: a span is its level, its name and its fields *)

Inductive FieldValue : Type :=
  | FieldEmpty
  | FieldInt (n : Z)
  | FieldStr (s : string).
Record Span : Type := mk_Span {
  span_level : Level;
  span_name : string;
  span_fields : list (string * FieldValue)
}.

Definition connect_span (c : TracingConfig) (peer_addr : string) : Span :=
  mk_Span (connect_level c) "client.connect" [("peer.addr", FieldStr peer_addr)].
Definition send_span (c : TracingConfig) (frame_bytes : Z) : Span :=
  mk_Span (send_level c) "client.send" [("frame.bytes", FieldInt frame_bytes)].
Definition receive_span (c : TracingConfig) : Span :=
  mk_Span (receive_level c) "client.receive" [("frame.bytes", FieldEmpty); ("result", FieldEmpty)].
Definition send_envelope_span (c : TracingConfig) (correlation_id frame_bytes : Z) : Span :=
  mk_Span (send_level c) "client.send_envelope"
    [("correlation_id", FieldInt correlation_id); ("frame.bytes", FieldInt frame_bytes)].
Definition call_span (c : TracingConfig) : Span :=
  mk_Span (call_level c) "client.call" [("result", FieldEmpty)].
Definition call_correlated_span (c : TracingConfig) : Span :=
  mk_Span (call_level c) "client.call_correlated"
    [("correlation_id", FieldEmpty); ("result", FieldEmpty)].
Definition streaming_span (c : TracingConfig) (correlation_id : Z) : Span :=
  mk_Span (streaming_level c) "client.call_streaming"
    [("correlation_id", FieldInt correlation_id); ("frame.bytes", FieldEmpty)].
Definition close_span (c : TracingConfig) : Span := mk_Span (close_level c) "client.close" [].
(** The event's field, when there is an event. *)
Definition emit_timing_event (start : option Z) (now : Z) : option Z :=
  option_map (saturating_duration_since now) start.

(** ** [builder/]

    [S] is the serializer, [P] the preamble, [C] the connection state, [St] the
    stream the preamble handlers see. *)

Section Builder.
Context {St : Type}.

Record LifecycleHooks (C : Type) : Type := mk_LifecycleHooks {
  lh_connect : option (unit -> C);
  lh_disconnect : option (C -> unit);
  lh_error : option (ClientError -> unit)
}.
Arguments mk_LifecycleHooks {C} _ _ _.
Arguments lh_connect {C} _.
Arguments lh_disconnect {C} _.
Arguments lh_error {C} _.
Definition lifecycle_default {C} : LifecycleHooks C := mk_LifecycleHooks None None None.

Record WireframeClientBuilder (Ser P C : Type) : Type := mk_Builder {
  b_serializer : Ser;
  b_codec_config : ClientCodecConfig;
  b_socket_options : SocketOptions;
  b_preamble_config : option (@PreambleConfig P St);
  b_lifecycle_hooks : LifecycleHooks C;
  b_request_hooks : RequestHooks;
  b_tracing_config : TracingConfig
}.
Arguments mk_Builder {Ser P C} _ _ _ _ _ _ _.
Arguments b_serializer {Ser P C} _.
Arguments b_codec_config {Ser P C} _.
Arguments b_socket_options {Ser P C} _.
Arguments b_preamble_config {Ser P C} _.
Arguments b_lifecycle_hooks {Ser P C} _.
Arguments b_request_hooks {Ser P C} _.
Arguments b_tracing_config {Ser P C} _.

(** [None]: the default codec configuration panics. *)
Definition builder_new {Ser P C} (bincode : Ser) : option (WireframeClientBuilder Ser P C) :=
  option_map (fun codec =>
    mk_Builder bincode codec socket_options_default None lifecycle_default (mk_RequestHooks [] [])
      tracing_default) client_codec_default.

Section Setters.
Context {Ser P C : Type}.

Definition b_set_codec (c : ClientCodecConfig) (b : WireframeClientBuilder Ser P C)
    : WireframeClientBuilder Ser P C :=
  mk_Builder (b_serializer b) c (b_socket_options b) (b_preamble_config b) (b_lifecycle_hooks b)
    (b_request_hooks b) (b_tracing_config b).
Definition b_max_frame_length (n : Z) (b : WireframeClientBuilder Ser P C)
    : WireframeClientBuilder Ser P C :=
  b_set_codec (max_frame_length n (b_codec_config b)) b.
Definition b_length_format (f : LengthFormat) (b : WireframeClientBuilder Ser P C)
    : WireframeClientBuilder Ser P C :=
  b_set_codec (length_format f (b_codec_config b)) b.

Definition b_set_socket_options (o : SocketOptions) (b : WireframeClientBuilder Ser P C)
    : WireframeClientBuilder Ser P C :=
  mk_Builder (b_serializer b) (b_codec_config b) o (b_preamble_config b) (b_lifecycle_hooks b)
    (b_request_hooks b) (b_tracing_config b).
Definition b_nodelay (e : bool) (b : WireframeClientBuilder Ser P C) : WireframeClientBuilder Ser P C :=
  b_set_socket_options (nodelay e (b_socket_options b)) b.
Definition b_keepalive (d : option Z) (b : WireframeClientBuilder Ser P C)
    : WireframeClientBuilder Ser P C :=
  b_set_socket_options (keepalive d (b_socket_options b)) b.
Definition b_send_buffer_size (n : Z) (b : WireframeClientBuilder Ser P C)
    : WireframeClientBuilder Ser P C :=
  b_set_socket_options (send_buffer_size n (b_socket_options b)) b.
Definition b_recv_buffer_size (n : Z) (b : WireframeClientBuilder Ser P C)
    : WireframeClientBuilder Ser P C :=
  b_set_socket_options (recv_buffer_size n (b_socket_options b)) b.
Definition b_reuseaddr (e : bool) (b : WireframeClientBuilder Ser P C) : WireframeClientBuilder Ser P C :=
  b_set_socket_options (reuseaddr e (b_socket_options b)) b.
Definition b_reuseport (e : bool) (b : WireframeClientBuilder Ser P C) : WireframeClientBuilder Ser P C :=
  b_set_socket_options (reuseport e (b_socket_options b)) b.

Definition b_set_serializer {Ser'} (s : Ser') (b : WireframeClientBuilder Ser P C)
    : WireframeClientBuilder Ser' P C :=
  mk_Builder s (b_codec_config b) (b_socket_options b) (b_preamble_config b) (b_lifecycle_hooks b)
    (b_request_hooks b) (b_tracing_config b).
Definition b_set_preamble {Q} (c : option (@PreambleConfig Q St)) (b : WireframeClientBuilder Ser P C)
    : WireframeClientBuilder Ser Q C :=
  mk_Builder (b_serializer b) (b_codec_config b) (b_socket_options b) c (b_lifecycle_hooks b)
    (b_request_hooks b) (b_tracing_config b).
Definition b_set_lifecycle {C'} (h : LifecycleHooks C') (b : WireframeClientBuilder Ser P C)
    : WireframeClientBuilder Ser P C' :=
  mk_Builder (b_serializer b) (b_codec_config b) (b_socket_options b) (b_preamble_config b) h
    (b_request_hooks b) (b_tracing_config b).

Definition preamble_config_new {Q} (p : Q) : @PreambleConfig Q St :=
  mk_PreambleConfig p None None None.
Definition b_with_preamble {Q} (p : Q) (b : WireframeClientBuilder Ser P C)
    : WireframeClientBuilder Ser Q C :=
  b_set_preamble (Some (preamble_config_new p)) b.
Definition b_preamble_timeout (duration : Z) (b : WireframeClientBuilder Ser P C)
    : WireframeClientBuilder Ser P C :=
  b_set_preamble
    (option_map (fun c => mk_PreambleConfig (preamble c) (on_success c) (on_failure c)
                            (Some (Z.max duration 1))) (b_preamble_config b)) b.
Definition b_on_preamble_success (h : P -> St -> St * result (list Z) io_error)
    (b : WireframeClientBuilder Ser P C) : WireframeClientBuilder Ser P C :=
  b_set_preamble
    (option_map (fun c => mk_PreambleConfig (preamble c) (Some h) (on_failure c)
                            (preamble_timeout c)) (b_preamble_config b)) b.
Definition b_on_preamble_failure (h : ClientError -> St -> St * result unit io_error)
    (b : WireframeClientBuilder Ser P C) : WireframeClientBuilder Ser P C :=
  b_set_preamble
    (option_map (fun c => mk_PreambleConfig (preamble c) (on_success c) (Some h)
                            (preamble_timeout c)) (b_preamble_config b)) b.

Definition b_on_connection_setup {C'} (f : unit -> C') (b : WireframeClientBuilder Ser P C)
    : WireframeClientBuilder Ser P C' :=
  b_set_lifecycle (mk_LifecycleHooks (Some f) None (lh_error (b_lifecycle_hooks b))) b.
Definition b_on_connection_teardown (f : C -> unit) (b : WireframeClientBuilder Ser P C)
    : WireframeClientBuilder Ser P C :=
  b_set_lifecycle
    (mk_LifecycleHooks (lh_connect (b_lifecycle_hooks b)) (Some f) (lh_error (b_lifecycle_hooks b))) b.
Definition b_on_error (f : ClientError -> unit) (b : WireframeClientBuilder Ser P C)
    : WireframeClientBuilder Ser P C :=
  b_set_lifecycle
    (mk_LifecycleHooks (lh_connect (b_lifecycle_hooks b)) (lh_disconnect (b_lifecycle_hooks b))
       (Some f)) b.

Definition b_before_send (f : list Z -> list Z) (b : WireframeClientBuilder Ser P C)
    : WireframeClientBuilder Ser P C :=
  mk_Builder (b_serializer b) (b_codec_config b) (b_socket_options b) (b_preamble_config b)
    (b_lifecycle_hooks b)
    (mk_RequestHooks (before_send (b_request_hooks b) ++ [f]) (after_receive (b_request_hooks b)))
    (b_tracing_config b).
Definition b_after_receive (f : list Z -> list Z) (b : WireframeClientBuilder Ser P C)
    : WireframeClientBuilder Ser P C :=
  mk_Builder (b_serializer b) (b_codec_config b) (b_socket_options b) (b_preamble_config b)
    (b_lifecycle_hooks b)
    (mk_RequestHooks (before_send (b_request_hooks b)) (after_receive (b_request_hooks b) ++ [f]))
    (b_tracing_config b).
Definition b_set_tracing (c : TracingConfig) (b : WireframeClientBuilder Ser P C)
    : WireframeClientBuilder Ser P C :=
  mk_Builder (b_serializer b) (b_codec_config b) (b_socket_options b) (b_preamble_config b)
    (b_lifecycle_hooks b) (b_request_hooks b) c.

(** The parts a connection is made of; the setup hook is run by [connect], after
    the preamble. *)
Definition into_parts (b : WireframeClientBuilder Ser P C) : @ClientBuildParts C P St :=
  mk_ClientBuildParts (b_codec_config b) (b_preamble_config b)
    (option_map (fun f => f tt) (lh_connect (b_lifecycle_hooks b)))
    (bool_decide (is_Some (lh_disconnect (b_lifecycle_hooks b))))
    (bool_decide (is_Some (lh_error (b_lifecycle_hooks b)))) (b_request_hooks b).

(** [connect_inner]: [opened] is what opening the socket gave, [dial] connects
    it once its options are set. *)
Definition builder_connect (write : P -> St -> St * result unit EncodeError)
    (open : ClientCodecConfig -> RewindStream St -> Framed) (opened : result Socket io_error)
    (dial : Socket -> result St io_error) (cut : option St) (b : WireframeClientBuilder Ser P C)
    : result (WireframeClient C) ClientError :=
  connect write open
    (match opened with
     | Err e => Err e
     | Ok s =>
         match apply_options (b_socket_options b) s with
         | (_, Err e) => Err e
         | (s, Ok _) => dial s
         end
     end) cut (into_parts b).

(** ** Sequences of builder calls *)

Inductive BuilderOp : Type :=
  | OpMaxFrameLength (n : Z)
  | OpLengthFormat (f : LengthFormat)
  | OpCodecConfig (c : ClientCodecConfig)
  | OpSocketOptions (f : SocketOptions -> SocketOptions)
  | OpWithPreamble (p : P)
  | OpPreambleTimeout (duration : Z)
  | OpPreambleSuccess (h : P -> St -> St * result (list Z) io_error)
  | OpPreambleFailure (h : ClientError -> St -> St * result unit io_error)
  | OpSetup (f : unit -> C)
  | OpTeardown (f : C -> unit)
  | OpError (f : ClientError -> unit)
  | OpBeforeSend (f : list Z -> list Z)
  | OpAfterReceive (f : list Z -> list Z)
  | OpSerializer (s : Ser)
  | OpTracing (c : TracingConfig).

Definition builder_op (b : WireframeClientBuilder Ser P C) (o : BuilderOp)
    : WireframeClientBuilder Ser P C :=
  match o with
  | OpMaxFrameLength n => b_max_frame_length n b
  | OpLengthFormat f => b_length_format f b
  | OpCodecConfig c => b_set_codec c b
  | OpSocketOptions f => b_set_socket_options (f (b_socket_options b)) b
  | OpWithPreamble p => b_with_preamble p b
  | OpPreambleTimeout d => b_preamble_timeout d b
  | OpPreambleSuccess h => b_on_preamble_success h b
  | OpPreambleFailure h => b_on_preamble_failure h b
  | OpSetup f => b_on_connection_setup f b
  | OpTeardown f => b_on_connection_teardown f b
  | OpError f => b_on_error f b
  | OpBeforeSend f => b_before_send f b
  | OpAfterReceive f => b_after_receive f b
  | OpSerializer s => b_set_serializer s b
  | OpTracing c => b_set_tracing c b
  end.
Definition build (b : WireframeClientBuilder Ser P C) (ops : list BuilderOp)
    : WireframeClientBuilder Ser P C := foldl builder_op b ops.

Lemma build_app b ops ops' : build b (ops ++ ops') = build (build b ops) ops'.
Proof. apply foldl_app. Qed.

(** A run of calls depends, for its preamble, on nothing but the preamble it
    starts from; likewise for its teardown hook. *)
Lemma build_preamble_congr b b' ops :
  b_preamble_config b = b_preamble_config b' ->
  b_preamble_config (build b ops) = b_preamble_config (build b' ops).
Proof.
  revert b b'. induction ops as [|o ops IH]; intros b b' E; [done|].
  apply IH. destruct o; cbn; rewrite ?E; done.
Qed.
Lemma build_hooks_congr b b' ops :
  lh_connect (b_lifecycle_hooks b) = lh_connect (b_lifecycle_hooks b') ->
  lh_disconnect (b_lifecycle_hooks b) = lh_disconnect (b_lifecycle_hooks b') ->
  lh_connect (b_lifecycle_hooks (build b ops)) = lh_connect (b_lifecycle_hooks (build b' ops)) /\
  lh_disconnect (b_lifecycle_hooks (build b ops)) = lh_disconnect (b_lifecycle_hooks (build b' ops)).
Proof.
  revert b b'. induction ops as [|o ops IH]; intros b b' E E'; [done|].
  apply IH; destruct o; cbn; rewrite ?E, ?E'; done.
Qed.

Lemma build_preamble_none b ops :
  b_preamble_config b = None -> (forall p, OpWithPreamble p ∉ ops) ->
  b_preamble_config (build b ops) = None.
Proof.
  revert b. induction ops as [|o ops IH]; intros b E Hn; [done|].
  apply IH; [|set_solver]. destruct o; cbn; rewrite ?E; try done.
  destruct (Hn p). by left.
Qed.

(** The request hooks a run of calls registers, in order. *)
Definition registered_before (ops : list BuilderOp) : list (list Z -> list Z) :=
  omap (fun o => match o with OpBeforeSend f => Some f | _ => None end) ops.
Definition registered_after (ops : list BuilderOp) : list (list Z -> list Z) :=
  omap (fun o => match o with OpAfterReceive f => Some f | _ => None end) ops.

Lemma build_request_hooks b ops :
  b_request_hooks (build b ops) =
    mk_RequestHooks (before_send (b_request_hooks b) ++ registered_before ops)
      (after_receive (b_request_hooks b) ++ registered_after ops).
Proof.
  revert b. induction ops as [|o ops IH]; intros b; cbn.
  - rewrite !app_nil_r. by destruct (b_request_hooks b).
  - rewrite IH. unfold registered_before, registered_after.
    destruct o; cbn; rewrite <- ?app_assoc; done.
Qed.

(** In the builder the order of calls matters in exactly these ways.  A
    preamble replaces the one before it together with its timeout and handlers,
    and without a preamble these are dropped; a setup hook drops the teardown
    hook registered before it; request hooks accumulate in the order of their
    registration, whatever is called between them. *)
Theorem builder_call_order b before p f after :
  b_preamble_config (build b (before ++ OpWithPreamble p :: after)) =
    b_preamble_config (build (b_with_preamble p b) after) /\
  (b_preamble_config b = None -> (forall q, OpWithPreamble q ∉ before) ->
   b_preamble_config (build b before) = None) /\
  lh_disconnect (b_lifecycle_hooks (build b (before ++ OpSetup f :: after))) =
    lh_disconnect (b_lifecycle_hooks (build (b_on_connection_setup f b) after)) /\
  b_request_hooks (build b before) =
    mk_RequestHooks (before_send (b_request_hooks b) ++ registered_before before)
      (after_receive (b_request_hooks b) ++ registered_after before).
Proof.
  split_and!.
  - rewrite build_app. by apply (build_preamble_congr (b_with_preamble p (build b before))).
  - apply build_preamble_none.
  - rewrite build_app.
    by apply (build_hooks_congr (b_on_connection_setup f (build b before)) (b_on_connection_setup f b)).
  - apply build_request_hooks.
Qed.
End Setters.
End Builder.

(** ** Socket options *)

(** The reference: the calls the options ask for, in order, up to the first one
    that fails. *)
Definition requested (o : SocketOptions) : list SocketCall :=
  match so_nodelay o with Some e => [SetNodelay e] | None => [] end ++
  match so_keepalive o with
  | Some (KeepAliveDuration d) => [SetKeepalive true; SetTcpKeepaliveTime d]
  | Some Disabled => [SetKeepalive false]
  | None => []
  end ++
  match so_send_buffer_size o with Some n => [SetSendBufferSize n] | None => [] end ++
  match so_recv_buffer_size o with Some n => [SetRecvBufferSize n] | None => [] end ++
  match so_reuseaddr o with Some e => [SetReuseaddr e] | None => [] end ++
  match so_reuseport o with Some e => [SetReuseport e] | None => [] end.
Fixpoint run_calls (cs : list SocketCall) : Socket -> Socket * result unit io_error :=
  match cs with
  | [] => done_
  | c :: cs => and_then (socket_call c) (run_calls cs)
  end.

Lemma run_calls_app cs cs' s : run_calls (cs ++ cs') s = and_then (run_calls cs) (run_calls cs') s.
Proof.
  revert s. induction cs as [|c cs IH]; intros s; [done|]. cbn. unfold and_then in *.
  destruct (socket_call c s) as [s' [[]|e]]; [apply IH|done].
Qed.
Lemma run_calls_one c s : run_calls [c] s = socket_call c s.
Proof. cbn. unfold and_then. by destruct (socket_call c s) as [s' [[]|e]]. Qed.
Lemma and_then_ext m m' k k' s :
  (forall s, m s = m' s) -> (forall s, k s = k' s) -> and_then m k s = and_then m' k' s.
Proof. intros Hm Hk. unfold and_then. rewrite Hm. by destruct (m' s) as [s' [[]|e]]. Qed.

Lemma apply_options_requested o s : apply_options o s = run_calls (requested o) s.
Proof.
  unfold requested. rewrite run_calls_app. apply and_then_ext; clear s; intros s.
  { unfold apply_nodelay. destruct (so_nodelay o); [by rewrite run_calls_one|done]. }
  rewrite run_calls_app. apply and_then_ext; clear s; intros s.
  { unfold apply_keepalive. destruct (so_keepalive o) as [[|d]|]; [by rewrite run_calls_one| |done].
    cbn. apply and_then_ext; [done|]. intros s'. by rewrite <- run_calls_one. }
  rewrite run_calls_app. apply and_then_ext; clear s; intros s.
  { unfold apply_send_buffer_size. destruct (so_send_buffer_size o); [by rewrite run_calls_one|done]. }
  rewrite run_calls_app. apply and_then_ext; clear s; intros s.
  { unfold apply_recv_buffer_size. destruct (so_recv_buffer_size o); [by rewrite run_calls_one|done]. }
  rewrite run_calls_app. apply and_then_ext; clear s; intros s.
  { unfold apply_reuseaddr. destruct (so_reuseaddr o); [by rewrite run_calls_one|done]. }
  unfold apply_reuseport. destruct (so_reuseport o); [by rewrite run_calls_one|done].
Qed.

(** ** Timing flags *)

Definition bit (op : ClientOperation) : Z :=
  match op with Connect => 0 | Send => 1 | Receive => 2 | Call => 3 | Streaming => 4 | Close => 5 end.

Lemma land_pow2 flags n :
  (0 <= n)%Z -> Z.land flags (2 ^ n) = (if Z.testbit flags n then 2 ^ n else 0)%Z.
Proof.
  intros Hn. apply Z.bits_inj'. intros m Hm. rewrite Z.land_spec, Z.pow2_bits_eqb by done.
  destruct (Z.eqb_spec n m) as [->|Hne].
  - rewrite andb_true_r. destruct (Z.testbit flags m); [by rewrite Z.pow2_bits_true|by rewrite Z.bits_0].
  - rewrite andb_false_r. destruct (Z.testbit flags n); [by rewrite Z.pow2_bits_false|by rewrite Z.bits_0].
Qed.

Lemma is_enabled_bit flags op : is_enabled flags op = Z.testbit flags (bit op).
Proof.
  unfold is_enabled. replace (mask op) with (2 ^ bit op)%Z by by destruct op.
  assert (Hb : (0 <= bit op)%Z) by (destruct op; cbn; lia).
  rewrite land_pow2 by done. pose proof (Z.pow_pos_nonneg 2 (bit op) ltac:(lia) Hb).
  destruct (Z.testbit flags (bit op)); [|done]. apply negb_true_iff, Z.eqb_neq. lia.
Qed.

(** The flags are independent: setting one changes that one only. *)
Lemma timing_flags_independent flags op op' e :
  is_enabled (with_enabled flags op e) op' = if decide (op = op') then e else is_enabled flags op'.
Proof.
  rewrite !is_enabled_bit. unfold with_enabled.
  assert (Hm : Z.testbit (mask op) (bit op') = bool_decide (op = op')) by (by destruct op, op').
  assert (Hx : Z.testbit (Z.lxor u8_max (mask op)) (bit op') = negb (bool_decide (op = op')))
    by (by destruct op, op').
  destruct e; [rewrite Z.lor_spec, Hm|rewrite Z.land_spec, Hx]; case_bool_decide as E;
    rewrite ?decide_True, ?decide_False by done; cbn; by rewrite ?orb_true_r, ?orb_false_r, ?andb_true_r, ?andb_false_r.
Qed.

Lemma timing_all_enabled e op : is_enabled (timing_all e) op = e.
Proof. by destruct e, op. Qed.
