(* ===== verification/Serializer.v ===== *)
(** * Messages, serializers and direct responses

    Models [message.rs], [serializer.rs] and the helpers of
    [app/outbound_response.rs] with the encoding step they share
    ([app/outbound_encoding.rs]).

    bincode is a parameter: [BincodeMessage] gives what it does to a type, its
    laws what its documentation says.  A trait with a blanket implementation is
    a class with an instance.  An operation that counts a rejection returns the
    samples beside its result. *)

From S2P Require Import Prelude.
From S2P Require Import Envelope.
From S2P Require Import Budgets.
From S2P Require Import Inbound.
From S2P Require Import AsyncIo.
From S2P Require Import FrameCodec.
From S2P Require Import LengthDelimited.
From S2P Require Import Metrics.

Local Open Scope Z_scope.

(** ** bincode *)

Inductive DecodeFailure : Type :=
  | LimitExceededFailure
  | OtherFailure (msg : string).

(** [None] is the configuration without a limit.  [claimed] is what decoding a
    value claims from the limit in bincode's own accounting, which need not be
    the encoding's length. *)
Class BincodeMessage (M : Type) : Type := {
  bincode_encode : M -> result (list Z) string;
  bincode_decode : option Z -> list Z -> result (M * Z) DecodeFailure;
  claimed : M -> Z
}.

Class BincodeMessageLaws (M : Type) {B : BincodeMessage M} : Prop := {
  decode_encoded (m : M) bs more limit :
    bincode_encode m = Ok bs -> match limit with Some n => claimed m <= n | None => True end ->
    bincode_decode limit (bs ++ more) = Ok (m, len bs);
  decode_over_limit (m : M) bs more limit :
    bincode_encode m = Ok bs -> limit < claimed m ->
    bincode_decode (M := M) (Some limit) (bs ++ more) = Err LimitExceededFailure
}.

(** ** [message.rs] *)

(** [config::standard().with_limit::<MAX_FRAME_LENGTH>()] *)
Definition bounded_bincode_config : option Z := Some MAX_FRAME_LENGTH.

Definition context_empty : DeserializeContext := mk_DeserializeContext None None None None.

Section Message.
Context {M : Type} `{BincodeMessage M}.

Definition to_bytes (m : M) : result (list Z) string := bincode_encode m.

Definition from_bytes (bytes : list Z) : result (M * Z) DecodeFailure * list Sample :=
  let r := bincode_decode bounded_bincode_config bytes in
  (r, match r with
      | Err LimitExceededFailure => inc_decode_rejection PathMessage LimitExceeded
      | _ => []
      end).
End Message.

Definition failure_text (e : DecodeFailure) : string :=
  match e with LimitExceededFailure => "the limit of decoding has been exceeded" | OtherFailure msg => msg end.

Class EncodeWith (S M : Type) : Type := {
  encode_with : M -> S -> result (list Z) string
}.
Class DecodeWith (S M : Type) : Type := {
  decode_with : S -> list Z -> DeserializeContext -> result (M * Z) string * list Sample
}.

(** ** [serializer.rs] *)

(** The marker of serializers that take every bincode message. *)
Class MessageCompatibilitySerializer (S : Type) : Prop := {}.

Definition message_encode_with {S M} `{BincodeMessage M} (m : M) (_ : S) : result (list Z) string :=
  to_bytes m.
Definition message_decode_with {S M} `{BincodeMessage M} (_ : S) (bytes : list Z)
    (_ : DeserializeContext) : result (M * Z) string * list Sample :=
  let '(r, samples) := from_bytes bytes in (map_err failure_text r, samples).

#[export] Instance message_encodes {S M} `{MessageCompatibilitySerializer S} `{BincodeMessage M}
    : EncodeWith S M := {| encode_with := message_encode_with |}.
#[export] Instance message_decodes {S M} `{MessageCompatibilitySerializer S} `{BincodeMessage M}
    : DecodeWith S M := {| decode_with := message_decode_with |}.

(** A serializer for the messages [M]. *)
Class Serializer (S M : Type) `{EncodeWith S M} `{DecodeWith S M} : Type := {
  serialize : S -> M -> result (list Z) string;
  deserialize : S -> list Z -> result (M * Z) string * list Sample;
  deserialize_with_context :
    S -> list Z -> DeserializeContext -> result (M * Z) string * list Sample;
  should_deserialize_after_parse : S -> bool
}.

(** The methods a serializer inherits when it does not define them. *)
Definition default_deserialize_with_context {S M}
    (deserialize : S -> list Z -> result (M * Z) string * list Sample) (s : S) (bytes : list Z)
    (_ : DeserializeContext) : result (M * Z) string * list Sample := deserialize s bytes.
Definition default_should_deserialize_after_parse {S} (_ : S) : bool := true.

Inductive BincodeSerializer : Type := Bincode_.
#[export] Instance bincode_compatible : MessageCompatibilitySerializer BincodeSerializer := {}.
#[export] Instance BincodeSerializer_serializer {M} `{EncodeWith BincodeSerializer M}
    `{DecodeWith BincodeSerializer M} : Serializer BincodeSerializer M := {|
  serialize s m := encode_with m s;
  deserialize s bytes := decode_with s bytes context_empty;
  deserialize_with_context s bytes context := decode_with s bytes context;
  should_deserialize_after_parse _ := false
|}.

(** [FrameMetadata]: the envelope's own decoder, within the same limit. *)
Definition bincode_parse `{BincodeMessage Envelope} (_ : BincodeSerializer) (src : list Z)
    : result (Envelope * Z) DecodeFailure * list Sample := from_bytes src.

(** ** Serde messages

    [T] is what serde does to a type: the bridge's two functions. *)

Class SerdeSerializerBridge (S T : Type) : Type := {
  serialize_serde : S -> T -> result (list Z) string;
  deserialize_serde :
    S -> list Z -> DeserializeContext -> result (T * Z) string * list Sample
}.

Record SerdeMessage (T : Type) : Type := SerdeMessage_new { into_inner : T }.
Arguments SerdeMessage_new {T} _.
Arguments into_inner {T} _.

Definition serde_encode_with {S T} `{SerdeSerializerBridge S T} (m : SerdeMessage T) (s : S)
    : result (list Z) string := serialize_serde s (into_inner m).
Definition serde_decode_with {S T} `{SerdeSerializerBridge S T} (s : S) (bytes : list Z)
    (context : DeserializeContext) : result (SerdeMessage T * Z) string * list Sample :=
  match deserialize_serde s bytes context with
  | (Ok (decoded, consumed), samples) => (Ok (SerdeMessage_new decoded, consumed), samples)
  | (Err e, samples) => (Err e, samples)
  end.

(** The bridge of [BincodeSerializer]; [B] is bincode's serde side. *)
Definition bincode_serialize_serde {T} `{BincodeMessage T} (_ : BincodeSerializer) (value : T)
    : result (list Z) string := bincode_encode value.
Definition bincode_deserialize_serde {T} `{BincodeMessage T} (_ : BincodeSerializer)
    (bytes : list Z) (_ : DeserializeContext) : result (T * Z) string * list Sample :=
  let r := bincode_decode bounded_bincode_config bytes in
  (map_err failure_text r,
   match r with
   | Err LimitExceededFailure => inc_decode_rejection PathSerde LimitExceeded
   | _ => []
   end).
#[export] Instance bincode_bridge {T} `{BincodeMessage T} : SerdeSerializerBridge BincodeSerializer T := {|
  serialize_serde := bincode_serialize_serde;
  deserialize_serde := bincode_deserialize_serde
|}.

(** ** Direct responses *)

Inductive SendError : Type :=
  | SendSerialize (e : string)
  | SendIo (e : io_error)
  | SendCodec (e : CodecError).

Section Responses.
Context {F : FrameCodec} {S M : Type} `{Serializer S M}.

(** The codec's frame around the serialized message; [moved] says whether the
    hand-over of the vector copied it. *)
Definition encode_message_frame (moved : bool) (s : S) (codec : Codec) (msg : M) (c : CopiedBytes)
    : CopiedBytes * result Frame SendError :=
  match serialize s msg with
  | Err e => (c, Err (SendSerialize e))
  | Ok bytes =>
      let c := record_serialized (len bytes) c in
      let '(c, bytes) := bytes_from_vec moved bytes c in
      (c, Ok (wrap_payload codec bytes))
  end.

Definition send_response (moved : bool) (s : S) (codec : Codec) (stream : Sink) (msg : M)
    (c : CopiedBytes) : CopiedBytes * Sink * result unit SendError :=
  match encode_message_frame moved s codec msg c with
  | (c, Err e) => (c, stream, Err e)
  | (c, Ok frame) =>
      match encode codec frame [] with
      | (_, Err e) => (c, stream, Err (SendIo e))
      | (encoded_buf, Ok _) =>
          let '(stream, r) := write_all encoded_buf stream in
          match r with
          | Err e => (c, stream, Err (SendIo e))
          | Ok _ => let '(stream, r) := flush stream in (c, stream, map_err SendIo r)
          end
      end
  end.

Definition benchmark_encode_message_frame (moved : bool) (s : S) (codec : Codec) (msg : M)
    (c : CopiedBytes) : CopiedBytes * result Frame SendError := encode_message_frame moved s codec msg c.

(** [framed_send] is the framed transport's [send]. *)
Definition send_response_framed_with_codec {T} (framed_send : Frame -> T -> T * result unit io_error)
    (moved : bool) (s : S) (codec : Codec) (framed : T) (msg : M) (c : CopiedBytes)
    : CopiedBytes * T * result unit SendError :=
  match encode_message_frame moved s codec msg c with
  | (c, Err e) => (c, framed, Err e)
  | (c, Ok frame) =>
      let '(framed, r) := framed_send frame framed in (c, framed, map_err SendIo r)
  end.

(** The length-delimited transport takes the bytes themselves. *)
Definition send_response_framed {T} (framed_send : list Z -> T -> T * result unit io_error)
    (s : S) (framed : T) (msg : M) : T * result unit SendError :=
  match serialize s msg with
  | Err e => (framed, Err (SendSerialize e))
  | Ok bytes => let '(framed, r) := framed_send bytes framed in (framed, map_err SendIo r)
  end.
End Responses.

(** ** What a peer receives *)

Section RoundTrip.
Context {F : FrameCodec} {L : StreamCodec F} {M : Type} {B : BincodeMessage M}
  {BL : BincodeMessageLaws M}.

(** Within the limit a message comes back, without a rejection counted. *)
Lemma bincode_serializer_roundtrip (msg : M) bs :
  bincode_encode msg = Ok bs -> claimed msg <= MAX_FRAME_LENGTH ->
  deserialize (S := BincodeSerializer) (M := M) Bincode_ bs = (Ok (msg, len bs), []).
Proof.
  intros He Hl. cbn. unfold message_decode_with, from_bytes, bounded_bincode_config.
  rewrite <-(app_nil_r bs) at 1 2. by rewrite (decode_encoded msg) by done.
Qed.

(** Over the limit it is rejected, and the rejection is counted once. *)
Lemma bincode_serializer_limit (msg : M) bs more :
  bincode_encode msg = Ok bs -> MAX_FRAME_LENGTH < claimed msg ->
  deserialize (S := BincodeSerializer) (M := M) Bincode_ (bs ++ more)
  = (Err (failure_text LimitExceededFailure), inc_decode_rejection PathMessage LimitExceeded).
Proof.
  intros He Hl. cbn. unfold message_decode_with, from_bytes, bounded_bincode_config.
  by rewrite (decode_over_limit msg).
Qed.
End RoundTrip.

(** A response sent with [send_response] reaches the peer as the message it
    was: over a stream that takes it, the call succeeds and writes exactly the
    frame's bytes after what was there, the bytes are counted as serialized,
    and a peer that reads them in any chunks decodes one frame whose payload
    deserializes to the message, without a decode rejection. *)
Theorem send_response_reaches_peer {F : FrameCodec} {L : StreamCodec F} {M : Type}
    {B : BincodeMessage M} {BL : BincodeMessageLaws M}
    moved codec stream (msg : M) counters bs chunks :
  bincode_encode msg = Ok bs -> claimed msg <= MAX_FRAME_LENGTH ->
  carries codec (wrap_payload codec bs) -> frame_payload (wrap_payload codec bs) = bs ->
  room_left stream = None -> flush_fault stream = None ->
  concat chunks = wire codec (wrap_payload codec bs) -> len (concat chunks) <= isize_max ->
  exists counters' stream' outs s,
    send_response moved Bincode_ codec stream msg counters = (counters', stream', Ok tt)
    /\ written stream' = written stream ++ concat chunks
    /\ serialized counters' = wrapping_add u64_max (serialized counters) (len bs)
    /\ run (feed codec) (0%nat, decoder codec, []) chunks = (s, outs)
    /\ map (fun f => deserialize (M := M) Bincode_ (frame_payload f)) (concat outs)
       = [(Ok (msg, len bs), [])].
Proof.
  intros He Hl Hc Hp Hr Hf Hch Hlen.
  destruct (feed_spec codec [wrap_payload codec bs] chunks 0 (decoder codec) [] [])
    as (outs & s & Hrun & Ho & _);
    [by constructor|apply unread_fresh|done|cbn; by rewrite app_nil_r| |done|].
  { intros ->. by destruct (wire_nonempty codec (wrap_payload codec bs)). }
  unfold send_response, encode_message_frame.
  change (serialize Bincode_ msg) with (bincode_encode msg). rewrite He. cbn [bytes_from_vec].
  rewrite encode_appends, <-Hch by done. unfold write_all. rewrite Hr. cbn [flush]. unfold flush.
  cbn [flush_fault]. rewrite Hf. do 2 eexists. exists outs, s. rewrite Ho.
  split; [done|]. split; [done|]. split; [by destruct moved|]. split; [done|]. cbn [map].
  by rewrite Hp, (bincode_serializer_roundtrip msg bs).
Qed.

(** Whatever fails before the transport is reached leaves it as it was. *)
Lemma send_response_rejected {F : FrameCodec} {M : Type} {B : BincodeMessage M}
    moved codec stream (msg : M) counters :
  (exists e, bincode_encode msg = Err e)
  \/ (exists bs e, bincode_encode msg = Ok bs /\ (encode codec (wrap_payload codec bs) []).2 = Err e) ->
  exists counters' e, send_response moved Bincode_ codec stream msg counters = (counters', stream, Err e).
Proof.
  intros [[e He]|(bs & e & He & Hx)]; unfold send_response, encode_message_frame;
    change (serialize Bincode_ msg) with (bincode_encode msg); rewrite He; [by do 2 eexists|].
  cbn [bytes_from_vec]. destruct (encode codec _ []) as [buf r]. cbn in Hx. subst r. by do 2 eexists.
Qed.

(** A message that is its own bytes. *)
#[export] Instance bytes_message : BincodeMessage (list Z) := {|
  bincode_encode bs := Ok (len bs :: bs);
  bincode_decode limit src :=
    match src with
    | [] => Err (OtherFailure "unexpected end")
    | n :: src =>
        if match limit with Some l => l <? n + 1 | None => false end
        then Err LimitExceededFailure
        else if n <=? len src then Ok (take (Z.to_nat n) src, n + 1)
        else Err (OtherFailure "unexpected end")
    end;
  claimed bs := len bs + 1
|}.

Lemma len_cons {A} (x : A) l : len (x :: l) = 1 + len l.
Proof. len_solve. Qed.

#[export] Instance bytes_message_laws : BincodeMessageLaws (list Z).
Proof.
  split; cbn; intros m bs more limit [= <-] Hl; pose proof (len_nonneg more);
    cbn [app].
  - replace (match limit with Some l => l <? len m + 1 | None => false end) with false
      by (symmetry; destruct limit; [apply Z.ltb_ge; lia|done]).
    rewrite len_app, (proj2 (Z.leb_le _ _)) by lia.
    unfold len at 1. rewrite Nat2Z.id, take_app_length, len_cons. do 2 f_equal. lia.
  - by rewrite (proj2 (Z.ltb_lt limit _)) by lia.
Qed.

Lemma send_response_reaches_peer_witness :
  exists counters' stream' outs s,
    send_response (F := length_codec (T := reference_length_delimited)) true Bincode_ (ld_new 128)
      (mk_Sink [9] None None) [7; 8] reset = (counters', stream', Ok tt)
    /\ written stream' = [9] ++ concat [[0; 0]; [0; 3; 2; 7]; [8]]
    /\ serialized counters' = wrapping_add u64_max (serialized reset) 3
    /\ run (feed (F := length_codec (T := reference_length_delimited)) (ld_new 128))
         (0%nat, Head, []) [[0; 0]; [0; 3; 2; 7]; [8]] = (s, outs)
    /\ map (fun f => deserialize (M := list Z) Bincode_
         (frame_payload (FrameCodec := length_codec (T := reference_length_delimited)) f)) (concat outs)
       = [(Ok ([7; 8], 3), [])].
Proof.
  apply (send_response_reaches_peer (F := length_codec (T := reference_length_delimited))
    (L := length_stream (T := reference_length_delimited)) (M := list Z)
    true (ld_new 128) (mk_Sink [9] None None) [7; 8] reset [2; 7; 8]); try reflexivity;
    vm_compute; try split; discriminate.
Defined.
