(* ===== verification/ServerConfig.v ===== *)
(** * Configuring and starting a server

    Models [server/mod.rs] (the server, its application factories) and
    [server/config/] (worker count, readiness signal, back-off, preamble hooks
    and timeout, binding), and what [run] hands to the supervisor.

    The operating system's listeners are parameters.  A factory acts on the
    state it shares with its clones: a closure on what it captured, the
    pre-built factory on its slot.  The phantom type of the preamble is left
    out: handlers are values of one type.  Durations are in milliseconds. *)

From S2P Require Import Prelude.
From S2P Require Import Server.

Local Open Scope Z_scope.

(** ** [server/mod.rs]: factories *)

(** What a closure may return: an application, or a result. *)
Class FactoryResult (R App : Type) : Type := {
  factory_error : Type;
  factory_into_result : R -> result App factory_error
}.
#[export] Instance app_factory_result {App} : FactoryResult App App := {|
  factory_error := Empty_set;
  factory_into_result app := Ok app
|}.
#[export] Instance result_factory_result {App X} : FactoryResult (result App X) App := {|
  factory_error := X;
  factory_into_result r := r
|}.

(** [AppFactory]; [F] is the state a factory and its clones share. *)
Class AppFactory (F App : Type) : Type := {
  AppError : Type;
  build : F -> F * result App AppError
}.

(** A closure over [C] that answers an [R]. *)
Record ClosureFactory (C R : Type) : Type := mk_ClosureFactory {
  captured : C;
  invoke : C -> C * R
}.
Arguments mk_ClosureFactory {C R} captured invoke.
Arguments captured {C R} c.
Arguments invoke {C R} c.
#[export] Instance closure_factory {C R App} `{FactoryResult R App} : AppFactory (ClosureFactory C R) App := {|
  AppError := factory_error;
  build f :=
    let '(c, r) := invoke f (captured f) in
    (mk_ClosureFactory c (invoke f), factory_into_result r)
|}.

(** The slot behind its mutex. *)
Record PrebuiltAppFactory (App : Type) : Type := mk_PrebuiltAppFactory {
  slot : option App;
  poisoned : bool
}.
Arguments mk_PrebuiltAppFactory {App} slot poisoned.
Arguments slot {App} p.
Arguments poisoned {App} p.

Definition prebuilt_new {App} (app : App) : PrebuiltAppFactory App :=
  mk_PrebuiltAppFactory (Some app) false.

Definition prebuilt_build {App} (self : PrebuiltAppFactory App)
    : PrebuiltAppFactory App * result App io_error :=
  if poisoned self
  then (self, Err (mk_io_error ErrorKindOther "pre-built application factory lock poisoned"))
  else
    (mk_PrebuiltAppFactory None false,
     match slot self with
     | Some app => Ok app
     | None =>
         Err (mk_io_error ErrorKindOther
           "pre-built application was already consumed by a server run")
     end).
#[export] Instance prebuilt_factory {App} : AppFactory (PrebuiltAppFactory App) App := {|
  AppError := io_error;
  build := prebuilt_build
|}.

(** ** [server/mod.rs], [server/config/mod.rs]: the server *)

Section Config.
Context {F H Tx SocketAddr StdListener Listener : Type}.

Inductive ServerState : Type :=
  | Unbound
  | Bound (listener : Listener).

Record WireframeServer : Type := mk_WireframeServer {
  sv_factory : F;
  sv_workers : Z;
  sv_on_preamble_success : option H;
  sv_on_preamble_failure : option H;
  sv_ready_tx : option Tx;
  sv_backoff_config : BackoffConfig;
  sv_preamble_timeout : option Z;
  sv_state : ServerState
}.

(** [available_parallelism] may not be known. *)
Definition default_worker_count (available_parallelism : option Z) : Z :=
  default 1 available_parallelism.

Definition server_new (available_parallelism : option Z) (factory : F) : WireframeServer :=
  mk_WireframeServer factory (default_worker_count available_parallelism) None None None
    backoff_default (Some DEFAULT_PREAMBLE_TIMEOUT) Unbound.

Definition workers (count : Z) (s : WireframeServer) : WireframeServer :=
  mk_WireframeServer (sv_factory s) (set_workers count) (sv_on_preamble_success s)
    (sv_on_preamble_failure s) (sv_ready_tx s) (sv_backoff_config s) (sv_preamble_timeout s) (sv_state s).
Definition ready_signal (tx : Tx) (s : WireframeServer) : WireframeServer :=
  mk_WireframeServer (sv_factory s) (sv_workers s) (sv_on_preamble_success s)
    (sv_on_preamble_failure s) (Some tx) (sv_backoff_config s) (sv_preamble_timeout s) (sv_state s).
Definition accept_backoff (cfg : BackoffConfig) (s : WireframeServer) : WireframeServer :=
  mk_WireframeServer (sv_factory s) (sv_workers s) (sv_on_preamble_success s)
    (sv_on_preamble_failure s) (sv_ready_tx s) (normalized cfg) (sv_preamble_timeout s) (sv_state s).
Definition worker_count (s : WireframeServer) : Z := sv_workers s.

(** ** [server/config/preamble.rs] *)

Definition with_preamble (s : WireframeServer) : WireframeServer :=
  mk_WireframeServer (sv_factory s) (sv_workers s) None None (sv_ready_tx s)
    (sv_backoff_config s) (sv_preamble_timeout s) (sv_state s).
Definition preamble_timeout (timeout : Z) (s : WireframeServer) : WireframeServer :=
  mk_WireframeServer (sv_factory s) (sv_workers s) (sv_on_preamble_success s)
    (sv_on_preamble_failure s) (sv_ready_tx s) (sv_backoff_config s) (set_preamble_timeout timeout) (sv_state s).
Definition disable_preamble_timeout (s : WireframeServer) : WireframeServer :=
  mk_WireframeServer (sv_factory s) (sv_workers s) (sv_on_preamble_success s)
    (sv_on_preamble_failure s) (sv_ready_tx s) (sv_backoff_config s) None (sv_state s).
Definition on_preamble_decode_success (h : H) (s : WireframeServer) : WireframeServer :=
  mk_WireframeServer (sv_factory s) (sv_workers s) (Some h) (sv_on_preamble_failure s)
    (sv_ready_tx s) (sv_backoff_config s) (sv_preamble_timeout s) (sv_state s).
Definition on_preamble_decode_failure (h : H) (s : WireframeServer) : WireframeServer :=
  mk_WireframeServer (sv_factory s) (sv_workers s) (sv_on_preamble_success s) (Some h)
    (sv_ready_tx s) (sv_backoff_config s) (sv_preamble_timeout s) (sv_state s).

(** ** [server/config/binding.rs] *)

(** [StdTcpListener::bind], [set_nonblocking], [TcpListener::from_std] and
    [TcpListener::local_addr]. *)
Variables (std_bind : SocketAddr -> result StdListener io_error)
  (set_nonblocking : StdListener -> result unit io_error)
  (from_std : StdListener -> result Listener io_error)
  (listener_addr : Listener -> result SocketAddr io_error).

Definition bind_to_listener (l : StdListener) (s : WireframeServer) : result WireframeServer ServerError :=
  match set_nonblocking l with
  | Err e => Err (BindError e)
  | Ok _ =>
      match from_std l with
      | Err e => Err (BindError e)
      | Ok tokio_listener =>
          Ok (mk_WireframeServer (sv_factory s) (sv_workers s) (sv_on_preamble_success s)
            (sv_on_preamble_failure s) (sv_ready_tx s) (sv_backoff_config s)
            (sv_preamble_timeout s) (Bound tokio_listener))
      end
  end.

Definition bind_existing_listener (l : StdListener) (s : WireframeServer)
    : result WireframeServer ServerError := bind_to_listener l s.

Definition bind (addr : SocketAddr) (s : WireframeServer) : result WireframeServer ServerError :=
  match std_bind addr with
  | Err e => Err (BindError e)
  | Ok l => bind_existing_listener l s
  end.

Definition local_addr (s : WireframeServer) : option SocketAddr :=
  match sv_state s with
  | Unbound => None
  | Bound l => match listener_addr l with Ok a => Some a | Err _ => None end
  end.

(** ** Configuration as a sequence of calls *)

Inductive ConfigCall : Type :=
  | CWorkers (count : Z)
  | CReadySignal (tx : Tx)
  | CAcceptBackoff (cfg : BackoffConfig)
  | CWithPreamble
  | CPreambleTimeout (timeout : Z)
  | CDisablePreambleTimeout
  | COnSuccess (h : H)
  | COnFailure (h : H)
  | CBind (addr : SocketAddr)
  | CBindExisting (l : StdListener).

Definition config_step (c : ConfigCall) (s : WireframeServer) : result WireframeServer ServerError :=
  match c with
  | CWorkers n => Ok (workers n s)
  | CReadySignal tx => Ok (ready_signal tx s)
  | CAcceptBackoff cfg => Ok (accept_backoff cfg s)
  | CWithPreamble => Ok (with_preamble s)
  | CPreambleTimeout t => Ok (preamble_timeout t s)
  | CDisablePreambleTimeout => Ok (disable_preamble_timeout s)
  | COnSuccess h => Ok (on_preamble_decode_success h s)
  | COnFailure h => Ok (on_preamble_decode_failure h s)
  | CBind addr => bind addr s
  | CBindExisting l => bind_existing_listener l s
  end.

Fixpoint configure (calls : list ConfigCall) (s : WireframeServer) : result WireframeServer ServerError :=
  match calls with
  | [] => Ok s
  | c :: calls => match config_step c s with Ok s => configure calls s | Err e => Err e end
  end.

(** What [spawn] hands to the supervisor: [spawned] with the server's settings;
    only a bound server has it. *)
Definition prepare_runtime {App P} `{AppFactory F App} (describe : AppError -> string)
    (prepare : App -> result P string) (s : WireframeServer) : F * option (result Server.World ServerError) :=
  match sv_state s with
  | Unbound => (sv_factory s, None)
  | Bound _ =>
      let '(f, built) := build (sv_factory s) in
      (f, Some (match (prepare_application (map_err describe built) prepare).2 with
                | Err e => Err e
                | Ok _ => Ok (spawned (sv_workers s) (sv_backoff_config s))
                end))
  end.

(** [run_with_shutdown]: the same, unless the shutdown future resolves before
    the application is prepared, when nothing is started. *)
Definition run_with_shutdown {App P} `{AppFactory F App} (describe : AppError -> string)
    (prepare : App -> result P string) (shutdown_first : bool) (s : WireframeServer)
    : F * option (result (option Server.World) ServerError) :=
  match sv_state s with
  | Unbound => (sv_factory s, None)
  | Bound _ =>
      let '(f, built) := build (sv_factory s) in
      (f, Some (match (prepare_application_or_shutdown (map_err describe built) prepare shutdown_first).2 with
                | Err e => Err e
                | Ok None => Ok None
                | Ok (Some _) => Ok (Some (spawned (sv_workers s) (sv_backoff_config s)))
                end))
  end.

(** ** What every configured server satisfies *)

Record config_ok (s : WireframeServer) : Prop := {
  ok_workers : 1 <= sv_workers s;
  ok_timeout : match sv_preamble_timeout s with Some t => 1 <= t | None => True end;
  ok_backoff : normalized (sv_backoff_config s) = sv_backoff_config s
}.

Lemma normalized_idem c : normalized (normalized c) = normalized c.
Proof.
  unfold normalized. destruct (decide (Z.max (max_delay c) 1 < Z.max (initial_delay c) 1));
    cbn; rewrite decide_False by lia; f_equal; lia.
Qed.

Lemma bind_keeps l s s' : bind_to_listener l s = Ok s' ->
  sv_factory s' = sv_factory s /\ sv_workers s' = sv_workers s
  /\ sv_on_preamble_success s' = sv_on_preamble_success s
  /\ sv_on_preamble_failure s' = sv_on_preamble_failure s /\ sv_ready_tx s' = sv_ready_tx s
  /\ sv_backoff_config s' = sv_backoff_config s /\ sv_preamble_timeout s' = sv_preamble_timeout s.
Proof. unfold bind_to_listener. repeat (case_match; try done). intros. by simplify_eq. Qed.

Lemma config_step_ok c s s' : config_ok s -> config_step c s = Ok s' -> config_ok s'.
Proof.
  intros [Hw Ht Hb]. destruct c; cbn [config_step]; try (intros [= <-]; split; cbn; unfold set_workers; first [done|lia]).
  - intros [= <-]. split; cbn; auto. apply normalized_idem.
  - unfold bind. destruct (std_bind addr) as [l|]; [|done]. unfold bind_existing_listener.
    intros (_ & E1 & _ & _ & _ & E2 & E3)%bind_keeps. split; by rewrite ?E1, ?E2, ?E3.
  - unfold bind_existing_listener. intros (_ & E1 & _ & _ & _ & E2 & E3)%bind_keeps.
    split; by rewrite ?E1, ?E2, ?E3.
Qed.

Lemma configure_ok calls : forall s s', config_ok s -> configure calls s = Ok s' -> config_ok s'.
Proof.
  induction calls as [|c calls IH]; intros s s' Hs; cbn; [by intros [= <-]|].
  destruct (config_step c s) eqn:E; [|done]. eauto using config_step_ok.
Qed.

Lemma server_new_ok p f : match p with Some n => 1 <= n | None => True end -> config_ok (server_new p f).
Proof. intros Hp. split; [by destruct p|by vm_compute|done]. Qed.

(** The two ways to start agree; a shutdown that comes first starts nothing,
    and still uses the factory. *)
Lemma run_with_shutdown_spawn {App P} `{AppFactory F App} describe (prepare : App -> result P string) s :
  run_with_shutdown describe prepare false s
  = let '(f, r) := prepare_runtime describe prepare s in
    (f, match r with Some (Ok w) => Some (Ok (Some w)) | Some (Err e) => Some (Err e) | None => None end).
Proof.
  unfold run_with_shutdown, prepare_runtime. destruct (sv_state s); [done|].
  destruct (build (sv_factory s)) as [f [app|e]]; cbn; [|done]. by destruct (prepare app).
Qed.

(** ** What the calls ask for

    Each setting is asked for by some calls; the last of them counts. *)

Definition last_asked {A} (asks : ConfigCall -> option A) (calls : list ConfigCall) (a : A) : A :=
  fold_left (fun a c => default a (asks c)) calls a.

Definition asks_workers (c : ConfigCall) : option Z :=
  match c with CWorkers n => Some (Z.max n 1) | _ => None end.
Definition asks_ready (c : ConfigCall) : option (option Tx) :=
  match c with CReadySignal tx => Some (Some tx) | _ => None end.
(** Delays in the wrong order are exchanged, and none is below a millisecond. *)
Definition asks_backoff (c : ConfigCall) : option BackoffConfig :=
  match c with
  | CAcceptBackoff (mk_BackoffConfig i m) =>
      Some (mk_BackoffConfig (Z.max 1 (Z.min i m)) (Z.max 1 (Z.max i m)))
  | _ => None
  end.
Definition asks_timeout (c : ConfigCall) : option (option Z) :=
  match c with
  | CPreambleTimeout t => Some (Some (Z.max t 1))
  | CDisablePreambleTimeout => Some None
  | _ => None
  end.
(** A new preamble type forgets the handlers of the old one. *)
Definition asks_success (c : ConfigCall) : option (option H) :=
  match c with COnSuccess h => Some (Some h) | CWithPreamble => Some None | _ => None end.
Definition asks_failure (c : ConfigCall) : option (option H) :=
  match c with COnFailure h => Some (Some h) | CWithPreamble => Some None | _ => None end.
Definition asks_listener (c : ConfigCall) : option ServerState :=
  match c with
  | CBind addr =>
      match std_bind addr with
      | Ok l => match from_std l with Ok t => Some (Bound t) | Err _ => None end
      | Err _ => None
      end
  | CBindExisting l => match from_std l with Ok t => Some (Bound t) | Err _ => None end
  | _ => None
  end.

(** The server that [calls] ask for. *)
Definition asked_server (calls : list ConfigCall) (s : WireframeServer) : WireframeServer :=
  mk_WireframeServer (sv_factory s)
    (last_asked asks_workers calls (sv_workers s))
    (last_asked asks_success calls (sv_on_preamble_success s))
    (last_asked asks_failure calls (sv_on_preamble_failure s))
    (last_asked asks_ready calls (sv_ready_tx s))
    (last_asked asks_backoff calls (sv_backoff_config s))
    (last_asked asks_timeout calls (sv_preamble_timeout s))
    (last_asked asks_listener calls (sv_state s)).

Lemma normalized_sorts i m :
  normalized (mk_BackoffConfig i m)
  = mk_BackoffConfig (Z.max 1 (Z.min i m)) (Z.max 1 (Z.max i m)).
Proof. unfold normalized; cbn. case_decide; f_equal; lia. Qed.

Lemma bind_asked l s s' : bind_to_listener l s = Ok s' ->
  exists t, from_std l = Ok t /\ sv_state s' = Bound t.
Proof. unfold bind_to_listener. repeat (case_match; try done). intros. simplify_eq. eauto. Qed.

Lemma config_step_asked c s s' : config_step c s = Ok s' -> s' = asked_server [c] s.
Proof.
  assert (Hbind : forall l, bind_to_listener l s = Ok s' -> s' = asked_server [CBindExisting l] s).
  { intros l Hl. destruct (bind_asked l s s' Hl) as (t & Ht & Hs).
    destruct (bind_keeps l s s' Hl) as (? & ? & ? & ? & ? & ? & ?).
    unfold asked_server; cbn. rewrite Ht. destruct s'; cbn in *; subst. done. }
  destruct c as [| |[i m]| | | | | |addr|l]; cbn [config_step]; try (intros [= <-]; done).
  - intros [= <-]. unfold accept_backoff. by rewrite normalized_sorts.
  - unfold bind. destruct (std_bind addr) as [l|] eqn:E; [|done]. intros ->%Hbind.
    unfold asked_server; cbn. by rewrite E.
  - apply Hbind.
Qed.

Lemma configure_asked calls : forall s s', configure calls s = Ok s' -> s' = asked_server calls s.
Proof.
  induction calls as [|c calls IH]; intros s s'; cbn [configure]; [intros [= <-]; by destruct s|].
  destruct (config_step c s) as [s1|] eqn:E; [|done].
  apply config_step_asked in E as ->. by intros ->%IH.
Qed.
End Config.
Arguments WireframeServer F H Tx Listener : clear implicits.
Arguments ConfigCall H Tx SocketAddr StdListener : clear implicits.

(** C33: whatever the order of configuration calls, if none of them fails the
    server has sound settings, and exactly the ones asked for.  Sound: at least
    one worker, a preamble timeout of at least a millisecond if it has one, a
    back-off whose delays are ordered and positive.  The ones asked for: the
    factory is the one given; the worker count, the readiness signal, the
    back-off, the preamble timeout, each preamble handler and the listener are
    what the last call about them asked for, with what the constructor sets
    where there is none (a worker count or timeout of zero asks for one, delays
    in the wrong order are exchanged, a new preamble type takes the handlers of
    the old one away).  Binding once more changes nothing but the listener.
    Starting the server, if it is bound and its application is built and
    prepared, spawns exactly as many accept loops as the last worker count
    asked for, which retry with the last back-off asked for.  (The parallelism
    the system reports, if it does, is at least one.) *)
Theorem configured_server_starts_sound {F H Tx SocketAddr StdListener Listener App P : Type}
    `{AF : AppFactory F App} std_bind set_nonblocking from_std describe (prepare : App -> result P string)
    parallelism (factory : F) calls (s : WireframeServer F H Tx Listener) :
  match parallelism with Some n => 1 <= n | None => True end ->
  configure (SocketAddr := SocketAddr) (StdListener := StdListener) std_bind set_nonblocking from_std
    calls (server_new parallelism factory) = Ok s ->
  config_ok s
  /\ s = asked_server std_bind from_std calls (server_new parallelism factory)
  /\ (forall l s', bind_existing_listener set_nonblocking from_std l s = Ok s' ->
      exists t, from_std l = Ok t /\
        s' = mk_WireframeServer (sv_factory s) (sv_workers s) (sv_on_preamble_success s)
          (sv_on_preamble_failure s) (sv_ready_tx s) (sv_backoff_config s) (sv_preamble_timeout s) (Bound t))
  /\ match (prepare_runtime describe prepare s).2 with
     | Some (Ok w) =>
         Z.of_nat (length (Server.workers w)) = last_asked asks_workers calls (default_worker_count parallelism)
         /\ backoff w = last_asked asks_backoff calls backoff_default
         /\ 1 <= initial_delay (backoff w) <= max_delay (backoff w)
         /\ exists l, sv_state s = Bound l
     | Some (Err e) => (exists l, sv_state s = Bound l)
         /\ ((exists m, e = FactoryBuild m) \/ exists m, e = Prepare m)
     | None => sv_state s = Unbound
     end.
Proof.
  intros Hp Hc. pose proof (configure_ok _ _ _ calls _ _ (server_new_ok parallelism factory Hp) Hc) as Hok.
  split; [done|]. split; [by eapply configure_asked|]. split.
  { intros l s' Hl. destruct (bind_asked _ _ l s s' Hl) as (t & Ht & Hs).
    destruct (bind_keeps _ _ l s s' Hl) as (? & ? & ? & ? & ? & ? & ?).
    exists t. split; [done|]. destruct s'; cbn in *. congruence. }
  apply configure_asked in Hc. destruct Hok as [Hw _ Hb].
  unfold prepare_runtime. destruct (sv_state s) as [|l] eqn:Es; [done|].
  destruct (build (sv_factory s)) as [f [app|e]]; cbn; [|by eauto].
  destruct (prepare app) as [q|e]; cbn; [|by eauto].
  rewrite length_replicate. unfold set_workers.
  split; [rewrite Z2Nat.id, Z.max_l by lia; by rewrite Hc|]. rewrite Hb. split; [by rewrite Hc|].
  split; [|by exists l]. rewrite <-Hb. unfold normalized. case_decide; cbn; lia.
Qed.

Lemma configured_server_starts_sound_witness :
  let calls : list (ConfigCall unit unit Z Z) :=
    [CWorkers 0; COnSuccess tt; CAcceptBackoff (mk_BackoffConfig 50 0); CPreambleTimeout 0; CBind 80; CWorkers 3] in
  let s := mk_WireframeServer (H := unit) (Tx := unit) (Listener := Z) (prebuilt_new tt) 3 (Some tt) None None
    (mk_BackoffConfig 1 50) (Some 1) (Bound 80) in
  config_ok s
  /\ s = asked_server (fun a : Z => Ok a) (fun l : Z => Ok l) calls (server_new (Some 8) (prebuilt_new tt))
  /\ (forall l s', bind_existing_listener (fun _ : Z => Ok tt) (fun l : Z => Ok l) l s = Ok s' ->
      exists t, @Ok Z io_error l = Ok t /\
        s' = mk_WireframeServer (sv_factory s) (sv_workers s) (sv_on_preamble_success s)
          (sv_on_preamble_failure s) (sv_ready_tx s) (sv_backoff_config s) (sv_preamble_timeout s) (Bound t))
  /\ match (prepare_runtime (App := unit) message (@Ok unit string) s).2 with
     | Some (Ok w) =>
         Z.of_nat (length (Server.workers w)) = last_asked asks_workers calls (default_worker_count (Some 8))
         /\ backoff w = last_asked asks_backoff calls backoff_default
         /\ 1 <= initial_delay (backoff w) <= max_delay (backoff w)
         /\ exists l, sv_state s = Bound l
     | Some (Err e) => (exists l, sv_state s = Bound l)
         /\ ((exists m, e = FactoryBuild m) \/ exists m, e = Prepare m)
     | None => sv_state s = Unbound
     end.
Proof.
  intros calls s.
  apply (configured_server_starts_sound (AF := prebuilt_factory) (H := unit) (Tx := unit) (App := unit) (fun a : Z => Ok a)
    (fun _ : Z => Ok tt) (fun l : Z => Ok l) message (@Ok unit string) (Some 8) (prebuilt_new tt) calls s);
    [lia|vm_compute; reflexivity].
Defined.

Definition from_app {App H Tx Listener} (available_parallelism : option Z) (app : App)
    : WireframeServer (PrebuiltAppFactory App) H Tx Listener :=
  server_new available_parallelism (prebuilt_new app).

(** A pre-built application starts one server run and no more: of all the
    runs of a server and of the clones of its factory, in any number, exactly
    the first gets the application; every later one gets an error that says
    so, and with it a failed start-up. *)
Theorem prebuilt_app_runs_once {App : Type} (app : App) n :
  Prelude.run (fun f (_ : unit) => build f) (prebuilt_new app) (replicate n tt)
  = (match n with O => prebuilt_new app | S _ => mk_PrebuiltAppFactory None false end,
     match n with
     | O => []
     | S m =>
         Ok app :: replicate m (Err (mk_io_error ErrorKindOther
           "pre-built application was already consumed by a server run"))
     end).
Proof.
  assert (Hspent : forall m, Prelude.run (fun f (_ : unit) => build f)
    (mk_PrebuiltAppFactory (@None App) false) (replicate m tt)
    = (mk_PrebuiltAppFactory None false, replicate m (Err (mk_io_error ErrorKindOther
           "pre-built application was already consumed by a server run")))).
  { induction m as [|m IH]; [done|]. cbn in *. by rewrite IH. }
  destruct n as [|m]; [done|]. cbn [replicate Prelude.run]. cbn [build prebuilt_factory].
  unfold prebuilt_build at 1. cbn. rewrite Hspent. done.
Qed.
