(* ===== verification/Hooks.v ===== *)
(** * Protocol hooks, responses and request bodies

    Models [hooks.rs], [response.rs] and the streaming half of
    [request/mod.rs].

    A protocol is shared behind an [Arc], so its methods act on its state [W];
    the hooks built from it act on the same state.  [ConnectionContext] has no
    fields.  A hook that is an [FnOnce] is gone once it is called: a call
    returns the hooks too.  Channels are those of [Mpsc]; what a response
    stream or a body reader delivers is stated of their polls. *)

From S2P Require Import Prelude.
From S2P Require Import AsyncIo.
From S2P Require Import Mpsc.
From S2P Require Import FrameCodec.
From S2P Require Import ConnectionActor.

Local Open Scope Z_scope.

(** ** [hooks.rs] *)

Section Hooks.
Context {F E Handle W : Type}.

(** The trait with its default methods. *)
Record WireframeProtocol : Type := mk_WireframeProtocol {
  p_on_connection_setup : Handle -> W -> W;
  p_before_send : F -> W -> W * F;
  p_on_command_end : W -> W;
  p_handle_error : E -> W -> W;
  p_stream_end_frame : W -> W * option F;
  p_on_eof : EofError -> list Z -> W -> W
}.

Definition protocol_default : WireframeProtocol :=
  mk_WireframeProtocol (fun _ w => w) (fun f w => (w, f)) (fun w => w) (fun _ w => w)
    (fun w => (w, None)) (fun _ _ w => w).

Record ProtocolHooks : Type := mk_ProtocolHooks {
  h_on_connection_setup : option (Handle -> W -> W);
  h_before_send : option (F -> W -> W * F);
  h_on_command_end : option (W -> W);
  h_handle_error : option (E -> W -> W);
  h_stream_end : option (W -> W * option F);
  h_on_eof : option (EofError -> list Z -> W -> W)
}.

Definition hooks_default : ProtocolHooks := mk_ProtocolHooks None None None None None None.

Definition hooks_on_connection_setup (handle : Handle) (self : ProtocolHooks) (w : W)
    : ProtocolHooks * W :=
  match h_on_connection_setup self with
  | Some hook =>
      (mk_ProtocolHooks None (h_before_send self) (h_on_command_end self) (h_handle_error self)
         (h_stream_end self) (h_on_eof self), hook handle w)
  | None => (self, w)
  end.

Definition hooks_before_send (frame : F) (self : ProtocolHooks) (w : W) : W * F :=
  match h_before_send self with Some hook => hook frame w | None => (w, frame) end.

Definition hooks_on_command_end (self : ProtocolHooks) (w : W) : W :=
  match h_on_command_end self with Some hook => hook w | None => w end.

Definition hooks_handle_error (error : E) (self : ProtocolHooks) (w : W) : W :=
  match h_handle_error self with Some hook => hook error w | None => w end.

Definition hooks_stream_end_frame (self : ProtocolHooks) (w : W) : W * option F :=
  match h_stream_end self with Some hook => hook w | None => (w, None) end.

Definition hooks_on_eof (error : EofError) (partial_data : list Z) (self : ProtocolHooks) (w : W) : W :=
  match h_on_eof self with Some hook => hook error partial_data w | None => w end.

Definition from_protocol (p : WireframeProtocol) : ProtocolHooks :=
  mk_ProtocolHooks (Some (p_on_connection_setup p)) (Some (p_before_send p))
    (Some (p_on_command_end p)) (Some (p_handle_error p)) (Some (p_stream_end_frame p))
    (Some (p_on_eof p)).

(** ** A connection's calls *)

Inductive HookCall : Type :=
  | CallSetup (handle : Handle)
  | CallBeforeSend (frame : F)
  | CallCommandEnd
  | CallHandleError (error : E)
  | CallStreamEnd
  | CallEof (error : EofError) (partial_data : list Z).

(** What a call gives back: the frame to send, or none. *)
Definition hook_step (s : ProtocolHooks * W) (c : HookCall) : (ProtocolHooks * W) * option F :=
  let '(h, w) := s in
  match c with
  | CallSetup handle => (hooks_on_connection_setup handle h w, None)
  | CallBeforeSend f => let '(w, f) := hooks_before_send f h w in ((h, w), Some f)
  | CallCommandEnd => ((h, hooks_on_command_end h w), None)
  | CallHandleError e => ((h, hooks_handle_error e h w), None)
  | CallStreamEnd => let '(w, f) := hooks_stream_end_frame h w in ((h, w), f)
  | CallEof e bytes => ((h, hooks_on_eof e bytes h w), None)
  end.

(** The protocol called directly; [armed] says that setup is still to come. *)
Definition protocol_step (p : WireframeProtocol) (s : bool * W) (c : HookCall) : (bool * W) * option F :=
  let '(armed, w) := s in
  match c with
  | CallSetup handle => ((false, if armed then p_on_connection_setup p handle w else w), None)
  | CallBeforeSend f => let '(w, f) := p_before_send p f w in ((armed, w), Some f)
  | CallCommandEnd => ((armed, p_on_command_end p w), None)
  | CallHandleError e => ((armed, p_handle_error p e w), None)
  | CallStreamEnd => let '(w, f) := p_stream_end_frame p w in ((armed, w), f)
  | CallEof e bytes => ((armed, p_on_eof p e bytes w), None)
  end.

(** The hooks of [p], with the setup hook still there or already used. *)
Definition hooks_of (p : WireframeProtocol) (armed : bool) : ProtocolHooks :=
  mk_ProtocolHooks (if armed then Some (p_on_connection_setup p) else None) (Some (p_before_send p))
    (Some (p_on_command_end p)) (Some (p_handle_error p)) (Some (p_stream_end_frame p))
    (Some (p_on_eof p)).

Lemma hook_step_protocol p armed w c :
  hook_step (hooks_of p armed, w) c
  = let '((armed, w), o) := protocol_step p (armed, w) c in ((hooks_of p armed, w), o).
Proof.
  destruct c; cbn; try done.
  - by destruct armed.
  - by destruct (p_before_send p frame w).
  - by destruct (p_stream_end_frame p w).
Qed.

Lemma hook_run_protocol p calls : forall armed w,
  run hook_step (hooks_of p armed, w) calls
  = let '((armed, w), outs) := run (protocol_step p) (armed, w) calls in ((hooks_of p armed, w), outs).
Proof.
  induction calls as [|c calls IH]; intros armed w; [done|]. cbn [run].
  rewrite hook_step_protocol. destruct (protocol_step p (armed, w) c) as [[a1 w1] o].
  rewrite IH. by destruct (run (protocol_step p) (a1, w1) calls) as [[a2 w2] os].
Qed.

End Hooks.
Arguments WireframeProtocol F E Handle W : clear implicits.
Arguments ProtocolHooks F E Handle W : clear implicits.
Arguments HookCall F E Handle : clear implicits.

(** The hooks are what the connection actor needs of a protocol; [Stream] is
    the response stream. *)
Definition hooks_actor {F E Handle W S X : Type}
    (next : S -> option (S * option (result F (ConnectionActor.WireframeError E X))))
    : ConnectionActor.Actor F := {|
  ConnectionActor.ProtocolError := E;
  ConnectionActor.CodecError := X;
  ConnectionActor.World := ProtocolHooks F E Handle W * W;
  ConnectionActor.Stream := S;
  ConnectionActor.before_send s f := let '(w, f) := hooks_before_send f s.1 s.2 in ((s.1, w), f);
  ConnectionActor.on_command_end s := (s.1, hooks_on_command_end s.1 s.2);
  ConnectionActor.handle_error s e := (s.1, hooks_handle_error e s.1 s.2);
  ConnectionActor.stream_end_frame s := let '(w, f) := hooks_stream_end_frame s.1 s.2 in ((s.1, w), f);
  ConnectionActor.stream_next := next
|}.

(** The hooks made from a protocol are that protocol.  Over any sequence of
    calls a connection makes, the state of the protocol and the frames the
    calls give back are those of calling its methods directly, a setup call
    after the first being dropped; and a connection without a protocol sends
    what it is given and changes nothing. *)
Theorem hooks_are_the_protocol {F E Handle W : Type} (p : WireframeProtocol F E Handle W) w calls :
  (let '((_, w1), outs1) := run hook_step (from_protocol p, w) calls in (w1, outs1))
  = (let '((_, w2), outs2) := run (protocol_step p) (true, w) calls in (w2, outs2))
  /\ run hook_step (hooks_default, w) calls
     = ((hooks_default, w), map (fun c => match c with CallBeforeSend f => Some f | _ => None end) calls).
Proof.
  change (from_protocol p) with (hooks_of p true). rewrite hook_run_protocol. split.
  - by destruct (run (protocol_step p) (true, w) calls) as [[a w2] outs].
  - induction calls as [|c calls IH]; [done|]. cbn [run map].
    replace (hook_step (hooks_default, w) c)
      with ((@hooks_default F E Handle W, w), match c with CallBeforeSend f => Some f | _ => None end)
      by by destruct c.
    by rewrite IH.
Qed.

(** ** [response.rs] *)

Section Responses.
Context {Q : Mpsc} {F X S : Type}.
(** A poll of a stream the handler supplied; [None] is pending. *)
Variable user_next : S -> option (S * option (result F X)).

Inductive Response : Type :=
  | Single (f : F)
  | ResponseVec (fs : list F)
  | ResponseStream (s : S)
  | MultiPacket (rx : Chan F)
  | ResponseEmpty.

Definition response_from (f : F) : Response := Single f.
Definition response_from_vec (fs : list F) : Response := ResponseVec fs.

(** The two ends are the one channel; [None] is the panic of a capacity of zero. *)
Definition with_channel (capacity : Z) : option (Chan F * Response) :=
  if capacity =? 0 then None
  else let c := channel F capacity in Some (c, MultiPacket c).

Inductive FrameStream : Type :=
  | Iter (fs : list F)
  | User (s : S)
  | Received (rx : Chan F).

Definition into_stream (r : Response) : FrameStream :=
  match r with
  | Single f => Iter [f]
  | ResponseVec fs => Iter fs
  | ResponseStream s => User s
  | MultiPacket rx => Received rx
  | ResponseEmpty => Iter []
  end.

(** A poll of the stream. *)
Definition poll_next (s : FrameStream) : option (FrameStream * option (result F X)) :=
  match s with
  | Iter [] => Some (Iter [], None)
  | Iter (f :: fs) => Some (Iter fs, Some (Ok f))
  | User s => match user_next s with Some (s, o) => Some (User s, o) | None => None end
  | Received rx =>
      match recv rx with
      | Some (rx, o) => Some (Received rx, match o with Some f => Some (Ok f) | None => None end)
      | None => None
      end
  end.

(** What polling until the stream ends, or is pending, delivers, and whether
    it ended; one poll more than there are frames is enough. *)
Fixpoint collect (fuel : nat) (s : FrameStream) : list (result F X) * bool :=
  match fuel with
  | O => ([], false)
  | Datatypes.S fuel =>
      match poll_next s with
      | None => ([], false)
      | Some (_, None) => ([], true)
      | Some (s, Some o) => let '(os, ended) := collect fuel s in (o :: os, ended)
      end
  end.

Definition response_frames (r : Response) : list F :=
  match r with
  | Single f => [f]
  | ResponseVec fs => fs
  | ResponseStream _ => []
  | MultiPacket rx => queued rx
  | ResponseEmpty => []
  end.

Lemma collect_iter fs : forall fuel, (length fs < fuel)%nat -> collect fuel (Iter fs) = (map Ok fs, true).
Proof.
  induction fs as [|f fs IH]; intros [|fuel] Hf; try (cbn in Hf; lia); [done|].
  cbn [collect poll_next map]. rewrite IH; [done|cbn in Hf; lia].
Qed.

Context {QL : MpscLaws Q}.

Lemma collect_received fs : forall fuel (rx : Chan F),
  queued rx = fs -> (length fs < fuel)%nat -> collect fuel (Received rx) = (map Ok fs, closed rx).
Proof.
  induction fs as [|f fs IH]; intros [|fuel] rx Hq Hf; try (cbn in Hf; lia); cbn [collect poll_next].
  - destruct (closed rx) eqn:Ec; [by rewrite recv_closed|by rewrite recv_pending].
  - destruct (recv_frame F rx f fs Hq) as (rx' & -> & Hq' & _ & Hc').
    rewrite (IH fuel rx' Hq'); [by rewrite Hc'|cbn in Hf; lia].
Qed.
End Responses.
Arguments Response {Q} F S.
Arguments FrameStream {Q} F S.

(** ** A handler streaming into its response *)

Inductive ChannelEvent (F : Type) : Type :=
  | Sends (f : F)
  | Polls
  | DropsSender.
Arguments Sends {F} f.
Arguments Polls {F}.
Arguments DropsSender {F}.

Section ChannelRuns.
Context {Q : Mpsc} {QL : MpscLaws Q} {F : Type}.

(** [sent] are the frames whose [send] returned, [got] what the stream has
    delivered; a [send] that finds no room has not returned, and a dropped
    sender sends no more. *)
Definition channel_step (s : Chan F * list F * list F) (e : ChannelEvent F)
    : (Chan F * list F * list F) * unit :=
  let '(c, sent, got) := s in
  match e with
  | Sends f =>
      match try_send c f with
      | (c, Ok _) => ((c, sent ++ [f], got), tt)
      | (c, Err _) => ((c, sent, got), tt)
      end
  | Polls =>
      match recv c with
      | Some (c, Some f) => ((c, sent, got ++ [f]), tt)
      | Some (c, None) => ((c, sent, got), tt)
      | None => ((c, sent, got), tt)
      end
  | DropsSender => ((close c, sent, got), tt)
  end.

Lemma channel_run_fifo n events : forall c sent got,
  capacity c = n -> len (queued c) <= n -> sent = got ++ queued c ->
  let '(c', sent', got') := (run channel_step (c, sent, got) events).1 in
  capacity c' = n /\ len (queued c') <= n /\ sent' = got' ++ queued c'.
Proof.
  induction events as [|e events IH]; intros c sent got Hcap Hlen Hs; [done|].
  assert (Hnext : exists c1 s1 g1, channel_step (c, sent, got) e = ((c1, s1, g1), tt)
    /\ capacity c1 = n /\ len (queued c1) <= n /\ s1 = g1 ++ queued c1).
  { destruct e as [f| |]; cbn [channel_step].
    - destruct (closed c) eqn:Ec; [rewrite try_send_closed by done; by exists c, sent, got|].
      destruct (decide (capacity c <= len (queued c))) as [Hfull|Hroom].
      + rewrite try_send_full by done. by exists c, sent, got.
      + destruct (try_send_ok F c f) as (c' & -> & Hq & Hk & _); [done|lia|].
        exists c', (sent ++ [f]), got. rewrite Hq, Hk, Hs, app_assoc. repeat split; [done|].
        rewrite len_app. change (len [f]) with 1. lia.
    - destruct (queued c) as [|f q] eqn:Eq.
      + destruct (closed c) eqn:Ec; [rewrite recv_closed by done|rewrite recv_pending by done];
          exists c, sent, got; by rewrite Eq.
      + destruct (recv_frame F c f q Eq) as (c' & -> & Hq & Hk & _).
        exists c', sent, (got ++ [f]). rewrite Hq, Hk, Hs, <-app_assoc. repeat split; [done|].
        unfold len in *. cbn in Hlen. lia.
    - destruct (close_law F c) as (Hq & Hk & _). exists (close c), sent, got. by rewrite Hq, Hk. }
  destruct Hnext as (c1 & s1 & g1 & Hst & H1 & H2 & H3). cbn [run]. rewrite Hst.
  specialize (IH c1 s1 g1 H1 H2 H3). by destruct (run channel_step (c1, s1, g1) events) as [[[c' s'] g'] os].
Qed.
End ChannelRuns.

(** A streamed response arrives whole.  Over any interleaving of a handler
    that sends into the channel of [with_channel] and of the connection that
    polls it, the frames delivered are a prefix of those sent, in order, with
    at most [capacity] waiting; and once the sender is gone the rest of the
    stream delivers exactly the remaining ones and ends.  A capacity of zero
    panics. *)
Theorem streamed_response_arrives {Q : Mpsc} {QL : MpscLaws Q} {F X S : Type} user_next capacity events :
  0 <= capacity ->
  match with_channel (F := F) (S := S) capacity with
  | None => capacity = 0
  | Some (c, r) =>
      r = MultiPacket c /\
      let '(c', sent, got) := (run channel_step (c, [], []) events).1 in
      sent = got ++ queued c' /\ len (queued c') <= capacity
      /\ collect (X := X) user_next (Datatypes.S (length sent)) (into_stream (S := S) (MultiPacket (close c')))
         = (map Ok (drop (length got) sent), true)
  end.
Proof.
  intros Hc. unfold with_channel. destruct (Z.eqb_spec capacity 0) as [|Hne]; [done|]. split; [done|].
  destruct (channel_law F capacity) as (Hq & Hk & _); [lia|].
  pose proof (channel_run_fifo capacity events (channel F capacity) [] []) as Hrun.
  rewrite Hq in Hrun. specialize (Hrun Hk ltac:(done) ltac:(done)).
  destruct (run channel_step (channel F capacity, [], []) events) as [[[c' sent] got] os]. cbn in Hrun |- *.
  destruct Hrun as (_ & Hlen & ->). split; [done|]. split; [done|].
  destruct (close_law F c') as (Hq' & _ & Hcl). rewrite drop_app_length.
  change (collect user_next (Datatypes.S (length (got ++ queued c'))) (Received (close c'))
    = (map (@Ok F X) (queued c'), true)).
  rewrite (collect_received user_next (queued c')), Hcl; [done|done|]. rewrite length_app. lia.
Qed.

Lemma streamed_response_arrives_witness :
  match with_channel (Q := list_mpsc) (F := Z) (S := unit) 2 with
  | None => 2 = 0
  | Some (c, r) =>
      r = MultiPacket c /\
      let '(c', sent, got) := (run (channel_step (Q := list_mpsc)) (c, [], [])
        [Sends 1; Sends 2; Sends 3; Polls; Sends 4; Polls]).1 in
      sent = got ++ queued (Mpsc := list_mpsc) c' /\ len (queued (Mpsc := list_mpsc) c') <= 2
      /\ collect (Q := list_mpsc) (X := unit) (fun _ => None) (Datatypes.S (length sent))
           (into_stream (S := unit) (MultiPacket (close (Mpsc := list_mpsc) c')))
         = (map Ok (drop (length got) sent), true)
  end.
Proof.
  apply (streamed_response_arrives (Q := list_mpsc) (QL := list_mpsc_laws) (F := Z) (X := unit)
    (S := unit) (fun _ => None) 2 [Sends 1; Sends 2; Sends 3; Polls; Sends 4; Polls]). lia.
Defined.

(** ** [request/mod.rs]: streaming bodies *)

Definition DEFAULT_BODY_CHANNEL_CAPACITY : Z := 16.

(** A body is a stream of chunks; [None] is the panic of a capacity of zero. *)
Definition body_channel {Q : Mpsc} (capacity : Z)
    : option (Chan (result (list Z) io_error) * FrameStream (result (list Z) io_error) unit) :=
  if capacity =? 0 then None
  else let c := channel (result (list Z) io_error) capacity in Some (c, Received c).

(** tokio's [StreamReader] over a stream whose items are the given ones: it
    delivers the chunks' bytes in order. *)
Class StreamReader : Type := {
  Reader : Type;
  reader_async :: AsyncRead Reader;
  reader_over : list (result (list Z) io_error) -> Reader;
  reader_source : Reader -> list (result (list Z) io_error)
}.
Class StreamReaderLaws (R : StreamReader) : Type := {
  reader_laws :: ReadLaws Reader;
  reader_over_unread chunks : AsyncIo.unread (reader_over (map Ok chunks)) = Some (concat chunks)
}.

Section BodyReader.
Context {R : StreamReader}.

Record RequestBodyReader : Type := mk_RequestBodyReader { body_inner : Reader }.

Definition body_reader_new (stream : list (result (list Z) io_error)) : RequestBodyReader :=
  mk_RequestBodyReader (reader_over stream).
Definition body_reader_into_inner (self : RequestBodyReader) : list (result (list Z) io_error) :=
  reader_source (body_inner self).
Definition body_reader_poll_read (room : Z) (self : RequestBodyReader)
    : RequestBodyReader * poll (result (list Z) io_error) :=
  let '(i, x) := poll_read room (body_inner self) in (mk_RequestBodyReader i, x).

#[export] Instance body_reader_async : AsyncRead RequestBodyReader := {|
  poll_read := body_reader_poll_read;
  patience r := patience (body_inner r)
|}.

Lemma body_reader_await fuel room : forall r,
  await_read fuel room (mk_RequestBodyReader r)
  = let '(i, x) := await_read fuel room r in (mk_RequestBodyReader i, x).
Proof.
  induction fuel as [|fuel IH]; intros r; cbn [await_read];
    change (poll_read room (mk_RequestBodyReader r))
      with (let '(i, x) := poll_read room r in (mk_RequestBodyReader i, x));
    by destruct (poll_read room r) as [i [|x]].
Qed.

(** Reading through the body reader is reading the stream reader. *)
Lemma body_reader_through rooms : forall r, read_through rooms (mk_RequestBodyReader r) = read_through rooms r.
Proof.
  induction rooms as [|room rooms IH]; intros r; [done|]. cbn [read_through]. unfold read.
  rewrite body_reader_await. cbn [patience body_reader_async body_inner].
  destruct (await_read (patience r) room r) as [i [bs|e]]; [|done]. by rewrite IH.
Qed.
End BodyReader.

(** A handler that reads a streamed request body gets its chunks end to
    end: whatever the sizes of the buffers it offers, as long as there are
    enough of them, it reads exactly the bytes of the chunks, in order. *)
Theorem request_body_read_whole {R : StreamReader} {RL : StreamReaderLaws R} chunks rooms :
  Forall (fun room => 0 < room) rooms -> (length (concat chunks) <= length rooms)%nat ->
  read_through rooms (body_reader_new (map Ok chunks)) = Ok (concat chunks).
Proof.
  intros Hr Hl. unfold body_reader_new. rewrite body_reader_through.
  apply read_through_exact; [apply reader_over_unread|done|done].
Qed.

(** A reader over a source: empty chunks are passed over. *)
Definition source_events (items : list (result (list Z) io_error)) : list ReadEvent :=
  concat (map (fun i => match i with Ok [] => [] | Ok bs => [Chunk bs] | Err e => [Fault e] end) items).
#[export] Instance source_reader : StreamReader := {|
  Reader := list ReadEvent;
  reader_over := source_events;
  reader_source evs :=
    concat (map (fun e => match e with Chunk bs => [Ok bs] | Fault e => [Err e] | Stall => [] end) evs)
|}.
#[export] Instance source_reader_laws : StreamReaderLaws source_reader.
Proof.
  refine {| reader_laws := source_laws |}. induction chunks as [|[|b bs] chunks IH]; [done|exact IH|].
  cbn in IH |- *. unfold source_events in *. by rewrite IH.
Defined.

Lemma request_body_read_whole_witness :
  read_through [2; 1; 5; 1] (body_reader_new (R := source_reader) (map Ok [[1; 2; 3]; []; [4]])) = Ok [1; 2; 3; 4].
Proof.
  apply (request_body_read_whole (R := source_reader) [[1; 2; 3]; []; [4]] [2; 1; 5; 1]);
    [repeat constructor; lia|cbn; lia].
Defined.
