(* ===== verification/AppConnection.v ===== *)
(** * From an application to its connections

    Models the rest of [app/prepared_app.rs] (preparing with its metrics,
    handling a connection on a prepared application), the entry points of
    [app/inbound_handler/mod.rs], and the outcome a send is counted under
    ([app/codec_driver.rs]).  It joins [Routing], which builds an application
    and its route chains, to [Inbound], which runs a connection. *)

From S2P Require Import Prelude.
From S2P Require Import ByteOrder.
From S2P Require Import Envelope.
From S2P Require Import FragmentPayload.
From S2P Require Import MessageSeries.
From S2P Require Import Budgets.
From S2P Require Import FrameCodec.
From S2P Require Import Metrics.
From S2P Require Import Hooks.
From S2P Require Import Routing.
From S2P Require Import Inbound.
From S2P Require Import InboundCorrectness.

Local Open Scope Z_scope.

(** ** What a send is counted under *)

(** The codec error an I/O error carries, if it carries one. *)
Definition classify_send_error (inner : option CodecError) : AppResponseSendOutcome :=
  match inner with Some (CodecFraming _) => CodecRejected | _ => TransportFailure end.

Inductive SendResult : Type :=
  | NotSerialized
  | Sent
  | NotSent (inner : option CodecError).

Definition send_samples (r : SendResult) : list Sample :=
  match r with
  | NotSerialized => inc_handler_errors ++ inc_app_response_send SerializationFailure
  | Sent => inc_app_response_send SendSuccess
  | NotSent inner => inc_handler_errors ++ inc_app_response_send (classify_send_error inner)
  end.

(** What the span of a prepared connection records when it ends. *)
Record Span_record : Type := mk_Span_record { span_outcome : string; elapsed_ms : Z }.

Section AppConnection.
Context {B : BytesCrate} {BC : Bincode} {X : Externals}.
Context {E S Assembler Dlq PE Handle : Type} `{Packet E}.

(** A protocol acts on the world of the connection. *)
Abbreviation Proto := (WireframeProtocol Frame PE Handle World).
Abbreviation App := (Routing.WireframeApp World io_error E (World -> World * S) (World -> S -> World)
  Proto Assembler Dlq).
Abbreviation Prepared := (@Routing.PreparedApp World io_error (World -> World * S) (World -> S -> World)
  Proto Assembler Dlq).

(** A route chain, called by the pipeline. *)
Definition as_service (s : HandlerService World io_error) : Inbound.Service :=
  fun w r =>
    let '(w, res) := svc s (Routing.mk_ServiceRequest (request_frame r) (request_correlation_id r)) w in
    (w, match res with
        | Ok r => Ok (Inbound.mk_ServiceResponse (resp_frame r) (resp_correlation_id r))
        | Err e => Err e
        end).

Definition protocol_hooks (p : option Proto) : ProtocolHooks Frame PE Handle World :=
  match p with Some p => from_protocol p | None => hooks_default end.

(** [ConnectionProcessingContext], from either kind of application.  The
    serializer and the codec, which both kinds keep, are those of [X]; of the
    codec the limit is a field. *)
Record ConnectionProcessingContext : Type := mk_ConnectionProcessingContext {
  cpc_routes : gmap Z (HandlerService World io_error);
  cpc_codec_max : Z;
  cpc_on_connect : option (World -> World * S);
  cpc_on_disconnect : option (World -> S -> World);
  cpc_message_assembler : option Assembler;
  cpc_fragmentation : option FragmentationConfig;
  cpc_protocol_hooks : ProtocolHooks Frame PE Handle World;
  cpc_memory_budgets : option MemoryBudgets;
  cpc_read_timeout_ms : Z
}.

(** The pipeline calls the connection's own hooks before it sends, and parses
    with its own assembler; [parse_header] is what an assembler does. *)
Definition connection_externals (parse_header : Assembler -> list Z -> result ParsedFrameHeader io_error)
    (c : ConnectionProcessingContext) : Externals := {|
  Inbound.Frame := Frame;
  Inbound.World := World;
  Inbound.SerializerError := SerializerError;
  Inbound.parse := parse;
  Inbound.should_deserialize_after_parse := should_deserialize_after_parse;
  Inbound.deserialize_with_context := deserialize_with_context;
  Inbound.deserialize := deserialize;
  Inbound.is_bincode_limit_exceeded := is_bincode_limit_exceeded;
  Inbound.serialize := serialize;
  Inbound.frame_payload_of := frame_payload_of;
  Inbound.frame_correlation_id := frame_correlation_id;
  Inbound.wrap_payload := wrap_payload;
  Inbound.before_send w f := hooks_before_send f (cpc_protocol_hooks c) w;
  Inbound.send := send;
  Inbound.parse_frame_header :=
    match cpc_message_assembler c with Some m => parse_header m | None => parse_frame_header end
|}.

(** What a connection reads depends on how long it waits for a frame. *)
Definition Reads : Type := Z -> list (ReadEvent * Readings).

(** The same event, for the pipeline of this connection. *)
Definition event_of (parse_header : Assembler -> list Z -> result ParsedFrameHeader io_error)
    (c : ConnectionProcessingContext) (event : ReadEvent)
    : ReadEvent (X := connection_externals parse_header c) :=
  match event with
  | ReadFrame frame => ReadFrame (X := connection_externals parse_header c) frame
  | ReadError error => ReadError error
  | ReadEof => ReadEof
  | ReadTimeout => ReadTimeout
  end.

Definition process_context (parse_header : Assembler -> list Z -> result ParsedFrameHeader io_error)
    (c : ConnectionProcessingContext) (w : World) (reads : Reads)
    : option (World * option (result unit io_error)) :=
  process_connection (X := connection_externals parse_header c) (cpc_on_connect c) (cpc_on_disconnect c)
    (mk_StreamProcessingContext (X := connection_externals parse_header c) (as_service <$> cpc_routes c)
       (cpc_codec_max c) (match cpc_message_assembler c with Some _ => true | None => false end)
       (cpc_fragmentation c) (cpc_memory_budgets c)) w
    (map (fun '(event, t) => (event_of parse_header c event, t)) (reads (cpc_read_timeout_ms c))).

Variable parse_header : Assembler -> list Z -> result ParsedFrameHeader io_error.

(** ** [inbound_handler/mod.rs] *)

(** [order] is how the map of handlers is iterated. *)
Definition handle_unprepared_connection_result (order : list Z) (a : App) (w : World) (reads : Reads)
    : option (World * option (result unit io_error)) :=
  let '(w, routes) := build_route_chains order (handlers a) (middleware a) w in
  process_context parse_header
    (mk_ConnectionProcessingContext routes (codec_max_frame_length a) (on_connect a) (on_disconnect a)
       (message_assembler a) (Routing.fragmentation a) (protocol_hooks (protocol a)) (memory_budgets a)
       (read_timeout_ms a)) w reads.

Definition handle_connection (order : list Z) (a : App) (w : World) (reads : Reads) : option World :=
  option_map fst (handle_unprepared_connection_result order a w reads).

(** ** [prepared_app.rs] *)

(** Preparing cannot fail yet; [elapsed] is what the time source measured. *)
Definition prepare_with_time_source (order : list Z) (a : App) (elapsed : Z) (w : World)
    : World * result Prepared Empty_set * list Sample :=
  let '(w, p) := build_prepared order a w in
  let r : result Prepared Empty_set := Ok p in
  let outcome := match r with Ok _ => PreparationSuccess | Err _ => PreparationFailure end in
  (w, r, record_application_preparation outcome elapsed).

Definition handle_connection_with_clock (p : Prepared) (w : World) (reads : Reads) (started_at now : Z)
    : option (World * option (result unit io_error)) * list Sample * option Span_record :=
  let r :=
    process_context parse_header
      (mk_ConnectionProcessingContext (routes p) (prepared_codec_max_frame_length p) (prepared_on_connect p)
         (prepared_on_disconnect p) (prepared_assembler p) (prepared_fragmentation p)
         (protocol_hooks (prepared_protocol p)) (prepared_budgets p) (prepared_read_timeout_ms p)) w reads in
  (r, inc_prepared_connection_uses,
   match r with
   | Some (_, Some res) =>
       Some (mk_Span_record (match res with Ok _ => "success" | Err _ => "error" end)
               (Z.min (saturating_duration_since now started_at) u64_max))
   | _ => None
   end).

(** ** One preparation, many connections *)

(** A connection of a run: what it reads, when it starts and ends, and how the
    handlers would be iterated for it. *)
Record Visit : Type := mk_Visit {
  visit_reads : Reads;
  visit_from : Z;
  visit_to : Z;
  visit_order : list Z
}.

(** Connections one after the other on a prepared application, and on one that
    rebuilds its routes for each. *)
Fixpoint serve_prepared (p : Prepared) (visits : list Visit) (w : World)
    : option (World * list (option (result unit io_error)) * list Sample) :=
  match visits with
  | [] => Some (w, [], [])
  | v :: visits =>
      let '(r, samples, _) :=
        handle_connection_with_clock p w (visit_reads v) (visit_from v) (visit_to v) in
      match r with
      | None => None
      | Some (w, res) =>
          match serve_prepared p visits w with
          | None => None
          | Some (w, ress, more) => Some (w, res :: ress, samples ++ more)
          end
      end
  end.

Fixpoint serve_unprepared (a : App) (visits : list Visit) (w : World)
    : option (World * list (option (result unit io_error))) :=
  match visits with
  | [] => Some (w, [])
  | v :: visits =>
      match handle_unprepared_connection_result (visit_order v) a w (visit_reads v) with
      | None => None
      | Some (w, res) =>
          match serve_unprepared a visits w with
          | None => None
          | Some (w, ress) => Some (w, res :: ress)
          end
      end
  end.

(** A connection over routes that are rebuilt for it, when the transforms only
    transform, is a connection over the prepared ones. *)
Lemma prepared_connection_alike a p order order' w0 w reads :
  Forall transforms_only (middleware a) -> iterates order (handlers a) -> iterates order' (handlers a) ->
  build_prepared order a w0 = (w0, p) ->
  handle_unprepared_connection_result order' a w reads
  = (handle_connection_with_clock p w reads 0 0).1.1.
Proof.
  intros Hpure Ho Ho'. destruct (wrap_all_pure _ Hpure) as [f Hf].
  unfold build_prepared, handle_unprepared_connection_result.
  rewrite !(build_route_chains_pure _ _ _ f) by done. by intros [= <-].
Qed.

Lemma serve_alike a p order w0 : forall visits w,
  Forall transforms_only (middleware a) -> iterates order (handlers a) ->
  Forall (fun v => iterates (visit_order v) (handlers a)) visits ->
  build_prepared order a w0 = (w0, p) ->
  match serve_prepared p visits w with
  | Some (w', ress, samples) =>
      serve_unprepared a visits w = Some (w', ress)
      /\ Metrics.counted (mk_Key PREPARED_CONNECTION_USES []) samples = len visits
      /\ length ress = length visits
  | None => serve_unprepared a visits w = None
  end.
Proof.
  induction visits as [|v visits IH]; intros w Hpure Ho Hv Hp; [done|].
  apply Forall_cons in Hv as [Hv Hvs]. cbn [serve_prepared serve_unprepared].
  rewrite (prepared_connection_alike a p order (visit_order v) w0) by done.
  unfold handle_connection_with_clock. cbn [fst].
  destruct (process_context _ _ w (visit_reads v)) as [[w1 res]|]; [|done].
  specialize (IH w1 Hpure Ho Hvs Hp). destruct (serve_prepared p visits w1) as [[[w' ress] more]|].
  - destruct IH as (-> & Hc & Hl). split; [done|]. split; [|cbn; by rewrite Hl].
    unfold Metrics.counted in *. rewrite zsum_app, Hc. unfold len. cbn [length].
    replace (zsum _ inc_prepared_connection_uses) with 1 by by vm_compute. lia.
  - by rewrite IH.
Qed.
End AppConnection.

(** C26: preparing an application once changes nothing but the cost, when the
    transforms of its middleware have no effect and do not look at the world.
    Preparing then leaves the world as it is, and the connections the prepared
    application serves, however many, end in the same state of the world with
    the same results as when every connection rebuilds the routes, in whatever
    order the handlers are iterated each time: they have the same routes,
    setup and teardown, protocol hooks, assembler, fragmentation, budgets,
    frame limit and read timeout.  The preparation is counted once, and each
    use of the prepared application once. *)
Theorem prepared_app_serves_alike {B : BytesCrate} {BC : Bincode} {X : Externals}
    {E S Assembler Dlq PE Handle : Type} `{Packet E}
    (parse_header : Assembler -> list Z -> result ParsedFrameHeader io_error)
    (a : Routing.WireframeApp World io_error E (World -> World * S) (World -> S -> World)
           (WireframeProtocol Frame PE Handle World) Assembler Dlq) elapsed order visits w0 w :
  Forall transforms_only (middleware a) -> iterates order (handlers a) ->
  Forall (fun v => iterates (visit_order v) (handlers a)) visits ->
  exists p prepared, prepare_with_time_source order a elapsed w0 = (w0, Ok p, prepared)
    /\ Metrics.counted (mk_Key APPLICATION_PREPARATIONS [("outcome", "success")]) prepared = 1
    /\ match serve_prepared parse_header p visits w with
       | Some (w', ress, samples) =>
           serve_unprepared parse_header a visits w = Some (w', ress)
           /\ Metrics.counted (mk_Key PREPARED_CONNECTION_USES []) samples = len visits
           /\ length ress = length visits
       | None => serve_unprepared parse_header a visits w = None
       end.
Proof.
  intros Hpure Ho Hv. destruct (wrap_all_pure _ Hpure) as [f Hf].
  assert (exists p, build_prepared order a w0 = (w0, p)) as [p Hp].
  { unfold build_prepared. rewrite (build_route_chains_pure _ _ _ f) by done. by eexists. }
  unfold prepare_with_time_source. rewrite Hp. eexists _, _. split; [done|]. split; [by vm_compute|].
  by apply (serve_alike parse_header a p order w0).
Qed.

(** An application with one route, a middleware that passes on, and a protocol
    that appends a byte to what is sent; two connections. *)
Definition marking_protocol : WireframeProtocol (list Z) unit unit (list (list Z)) :=
  mk_WireframeProtocol (fun _ w => w) (fun f w => (w, f ++ [7])) (fun w => w) (fun _ w => w)
    (fun w => (w, None)) (fun _ _ w => w).
Definition marked_app : Routing.WireframeApp (list (list Z)) io_error Envelope
    (list (list Z) -> list (list Z) * unit) (list (list Z) -> unit -> list (list Z))
    (WireframeProtocol (list Z) unit unit (list (list Z))) unit unit :=
  mk_WireframeApp {[4 := fun _ w => w]} [lift (fun req next w => next req w)] None None
    (Some marking_protocol) None 1024 100 None None None.
Definition demo_visit (n : Z) : Visit (X := demo) :=
  mk_Visit (X := demo)
    (fun _ => [(ReadFrame (X := demo) [4; 1; 9; n], mk_Readings 0 0 0 0); (ReadEof, mk_Readings 0 0 0 0)])
    0 0 [4].

Lemma marked_app_order : iterates [4] (handlers marked_app).
Proof.
  split; [apply NoDup_singleton|]. intros id. cbn [handlers marked_app].
  rewrite list_elem_of_singleton, lookup_singleton_is_Some. split; congruence.
Qed.

Lemma prepared_app_serves_alike_witness :
  let parse_header := fun (_ : unit) (_ : list Z) => Err (mk_io_error InvalidData "no header") in
  exists p prepared,
    prepare_with_time_source (X := demo) [4] marked_app 3 [] = ([], Ok p, prepared)
    /\ serve_unprepared (B := reference_bytes) (BC := varint_bincode) (X := demo) parse_header marked_app
         [demo_visit 5; demo_visit 6] []
       = Some ([[4; 1; 9; 5; 7]; [4; 1; 9; 6; 7]], [Some (Ok tt); Some (Ok tt)]).
Proof.
  intros parse_header.
  destruct (prepared_app_serves_alike (B := reference_bytes) (BC := varint_bincode) (X := demo)
    parse_header marked_app 3 [4] [demo_visit 5; demo_visit 6] [] []) as (p & prepared & Hp & _ & Hs).
  - repeat constructor. apply lift_transforms_only.
  - apply marked_app_order.
  - constructor; [apply marked_app_order|]. constructor; [apply marked_app_order|constructor].
  - exists p, prepared. split; [exact Hp|].
    destruct (serve_prepared _ p _ _) as [[[w' ress] samples]|]; [|vm_compute in Hs; discriminate].
    destruct Hs as [Hs _]. rewrite Hs. vm_compute in Hs. injection Hs as <- <-. reflexivity.
Defined.
