(* ===== verification/TestKit.v ===== *)
(** * The in-memory test drivers

    Models [testkit/support.rs], [testkit/slow_io.rs] and
    [testkit/partial_frame.rs].

    A driver joins three futures over a duplex pipe: the handler under test, a
    writer that carries a script out and shuts its half down, and a reader.
    They interleave at every await, so a drive is a step function on a world
    with an action per slice, and what a driver returns is stated of every run.
    The handler is the class [Handler]: it may write before it reads, answers
    what it likes to what it reads, may return before the end of its input, and
    may panic; [HandlerLaws] says that it reads whenever it has nothing to
    write, and that how its input is cut into reads does not matter to it.
    Once it has returned its end of the pipe is gone, and what the writer still
    has to write fails.  Durations are in milliseconds. *)

From S2P Require Import Prelude.
From S2P Require Import FrameCodec.
From S2P Require Import LengthDelimited.
From S2P Require Import Metrics.
From stdpp Require Import pretty.

Local Open Scope Z_scope.

Definition DEFAULT_CAPACITY : Z := 4096.
Definition MAX_SLOW_IO_CAPACITY : Z := 1024 * 1024 * 10.

(** ** Pacing *)

Record SlowIoPacing : Type := mk_SlowIoPacing { chunk_size : Z; delay : Z }.

Record SlowIoConfig : Type := mk_SlowIoConfig {
  writer_pacing : option SlowIoPacing;
  reader_pacing : option SlowIoPacing;
  capacity : Z
}.

Definition slow_default : SlowIoConfig := mk_SlowIoConfig None None DEFAULT_CAPACITY.
Definition slow_new : SlowIoConfig := slow_default.
Definition with_writer_pacing (p : SlowIoPacing) (c : SlowIoConfig) : SlowIoConfig :=
  mk_SlowIoConfig (Some p) (reader_pacing c) (capacity c).
Definition with_reader_pacing (p : SlowIoPacing) (c : SlowIoConfig) : SlowIoConfig :=
  mk_SlowIoConfig (writer_pacing c) (Some p) (capacity c).
Definition with_capacity (n : Z) (c : SlowIoConfig) : SlowIoConfig :=
  mk_SlowIoConfig (writer_pacing c) (reader_pacing c) n.

Definition invalid_input (msg : string) : io_error := mk_io_error InvalidInput msg.

Definition validate_pacing_chunk_size (pacing : option SlowIoPacing) (direction : string) (cap : Z)
    : result unit io_error :=
  match pacing with
  | Some p =>
      if cap <? chunk_size p
      then Err (invalid_input (direction +:+ " chunk size " +:+ pretty (chunk_size p)
             +:+ " must not exceed capacity " +:+ pretty cap))
      else Ok tt
  | None => Ok tt
  end.

Definition validate (c : SlowIoConfig) : result SlowIoConfig io_error :=
  if capacity c =? 0 then Err (invalid_input "capacity must be greater than zero")
  else if MAX_SLOW_IO_CAPACITY <? capacity c
  then Err (invalid_input ("capacity must not exceed " +:+ pretty MAX_SLOW_IO_CAPACITY +:+ " bytes"))
  else
    match validate_pacing_chunk_size (writer_pacing c) "writer" (capacity c) with
    | Err e => Err e
    | Ok _ =>
        match validate_pacing_chunk_size (reader_pacing c) "reader" (capacity c) with
        | Err e => Err e
        | Ok _ => Ok c
        end
    end.

(** ** Write strategies

    A strategy is the script of what the writer awaits, and what it returns
    when the script is done.  A loop over a buffer gets one round more than
    the buffer has bytes. *)

Inductive WriteAct : Type :=
  | WriteAll (bytes : list Z)
  | Sleep (ms : Z).

Definition Script : Type := list WriteAct * result unit io_error.

Definition write_frames (frames : list (list Z)) : Script := (map WriteAll frames, Ok tt).

Definition other (msg : string) : io_error := mk_io_error ErrorKindOther msg.

Fixpoint write_chunked_go (fuel : nat) (bytes : list Z) (step offset : Z) : Script :=
  match fuel with
  | O => ([], Err (other "out of fuel"))
  | S fuel =>
      if offset <? len bytes then
        let end_ := Z.min (offset + step) (len bytes) in
        match slice_get bytes offset end_ with
        | None => ([], Err (other "chunk slice out of bounds"))
        | Some chunk =>
            let '(acts, r) := write_chunked_go fuel bytes step end_ in (WriteAll chunk :: acts, r)
        end
      else ([], Ok tt)
  end.
Definition write_chunked (bytes : list Z) (chunk_size : Z) : Script :=
  write_chunked_go (S (length bytes)) bytes chunk_size 0.

Definition pause_between_chunks (delay : Z) (should_pause : bool) : list WriteAct :=
  if should_pause && negb (delay =? 0) then [Sleep delay] else [].

Fixpoint write_paced_go (fuel : nat) (bytes : list Z) (p : SlowIoPacing) (offset : Z) : Script :=
  match fuel with
  | O => ([], Err (other "out of fuel"))
  | S fuel =>
      if offset <? len bytes then
        let end_ := Z.min (offset + chunk_size p) (len bytes) in
        match slice_get bytes offset end_ with
        | None => ([], Err (other "writer chunk slice out of bounds"))
        | Some chunk =>
            let '(acts, r) := write_paced_go fuel bytes p end_ in
            (WriteAll chunk :: pause_between_chunks (delay p) (end_ <? len bytes) ++ acts, r)
        end
      else ([], Ok tt)
  end.
Definition write_with_optional_pacing (bytes : list Z) (pacing : option SlowIoPacing) : Script :=
  match pacing with
  | None => ([WriteAll bytes], Ok tt)
  | Some p => write_paced_go (S (length bytes)) bytes p 0
  end.

(** ** Read strategies *)

(** [ReadToEnd] offers any buffer; the paced reader one of its chunk size. *)
Inductive ReadStrategy : Type :=
  | ReadToEnd
  | ReadPaced (p : SlowIoPacing).

Definition read_all : ReadStrategy := ReadToEnd.
Definition read_with_optional_pacing (pacing : option SlowIoPacing) : ReadStrategy :=
  match pacing with None => ReadToEnd | Some p => ReadPaced p end.

Definition read_room (s : ReadStrategy) (n : Z) : bool :=
  match s with ReadToEnd => true | ReadPaced p => n <=? chunk_size p end.
(** Whether the reader sleeps before its next read: not before the first. *)
Definition pauses (s : ReadStrategy) : bool :=
  match s with ReadToEnd => false | ReadPaced p => negb (delay p =? 0) end.

(** ** The handler under test *)

(** How it ends early: it panics, or, in the drivers that take handlers which
    return a result, it returns an error. *)
Inductive ServerFailure : Type :=
  | Panicked (p : PanicPayload)
  | Failed (e : io_error).

(** [handler_start] is what the handler does before it reads, [serve] what it
    does with the bytes of a read, [at_end] what it does at the end of its
    input; the output is written before the next read.  Instead of a state,
    [None] says that it returns once the output is written. *)
Class Handler : Type := {
  handler_state : Type;
  handler_start : result (option handler_state * list Z) ServerFailure;
  serve : handler_state -> list Z -> result (option handler_state * list Z) ServerFailure;
  at_end : handler_state -> result (list Z) ServerFailure
}.

Class HandlerLaws (H : Handler) : Prop := {
  serve_nothing st : serve st [] = Ok (Some st, []);
  serve_app st a b :
    serve st (a ++ b)
    = match serve st a with
      | Err p => Err p
      | Ok (None, o1) => Ok (None, o1)
      | Ok (Some st1, o1) =>
          match serve st1 b with Err p => Err p | Ok (sv, o2) => Ok (sv, o1 ++ o2) end
      end
}.

(** [panic_guarded_server]: a panic becomes an error. *)
Definition panic_error (f : ServerFailure) : io_error :=
  match f with
  | Panicked p => other ("server task failed: " +:+ format_panic p)
  | Failed e => e
  end.
Definition panic_guarded_server {A} (r : result A ServerFailure) : result A io_error :=
  map_err panic_error r.

(** The handler from its start over the bytes it has read. *)
Definition handle {H : Handler} (input : list Z) : result (option handler_state * list Z) ServerFailure :=
  match handler_start with
  | Err p => Err p
  | Ok (None, o) => Ok (None, o)
  | Ok (Some st, o) => match serve st input with Err p => Err p | Ok (sv, o') => Ok (sv, o ++ o') end
  end.

(** What the handler answers to a whole input. *)
Definition answer {H : Handler} (input : list Z) : result (list Z) io_error :=
  match panic_guarded_server (handle input) with
  | Err e => Err e
  | Ok (None, o) => Ok o
  | Ok (Some st, o) =>
      match panic_guarded_server (at_end st) with Err e => Err e | Ok o' => Ok (o ++ o') end
  end.

(** It has returned, and not all of the input is read. *)
Definition returns_early {H : Handler} (input : list Z) : Prop :=
  exists a b o, input = a ++ b /\ b <> [] /\ handle a = Ok (None, o).

(** What a write to a pipe gives when the other end was dropped. *)
Definition broken_pipe : io_error := mk_io_error BrokenPipe "broken pipe".

(** A drive's result: the handler's answer, or the write that failed. *)
Definition drive_outcome {H : Handler} (input : list Z) (r : result (list Z) io_error) : Prop :=
  r = answer input \/ (r = Err broken_pipe /\ returns_early input).

(** ** [drive_with_strategies]

    [up] and [down] are the pipe's two buffers; [try_join!] returns at the
    first error. *)

Section Drive.
Context {H : Handler}.
Variables (cap : Z) (reads : ReadStrategy).

Record World : Type := mk_World {
  script : list WriteAct;
  script_end : result unit io_error;
  up : list Z;
  up_closed : bool;
  serving : option handler_state;
  unsent : list Z;
  down : list Z;
  down_closed : bool;
  received : list Z;
  pausing : bool;
  reader_done : bool;
  failed : option io_error
}.

Definition drive_start (writes : Script) : World :=
  match handler_start with
  | Ok (sv, o) => mk_World writes.1 writes.2 [] false sv o [] false [] false false None
  | Err p => mk_World writes.1 writes.2 [] false None [] [] true [] false false (Some (panic_error p))
  end.

Inductive Action : Type :=
  | WriterWrites (n : Z)
  | WriterBreaks
  | WriterGoesOn
  | WriterEnds
  | ServerReads (n : Z)
  | ServerSeesEnd
  | ServerWrites (n : Z)
  | ServerReturns
  | ReaderWakes
  | ReaderReads (n : Z)
  | ReaderSeesEnd.

Definition with_writer (w : World) script up up_closed failed : World :=
  mk_World script (script_end w) up up_closed (serving w) (unsent w) (down w) (down_closed w)
    (received w) (pausing w) (reader_done w) failed.
Definition with_server (w : World) up serving unsent down down_closed failed : World :=
  mk_World (script w) (script_end w) up (up_closed w) serving unsent down down_closed
    (received w) (pausing w) (reader_done w) failed.
Definition with_reader (w : World) down received pausing reader_done : World :=
  mk_World (script w) (script_end w) (up w) (up_closed w) (serving w) (unsent w) down
    (down_closed w) received pausing reader_done (failed w).

Definition writer_step (a : Action) (w : World) : option World :=
  match a, script w with
  | WriterWrites n, WriteAll bs :: acts =>
      if (0 <? n) && (n <=? len bs) && (len (up w) + n <=? cap) && negb (down_closed w)
      then Some (with_writer w (WriteAll (drop (Z.to_nat n) bs) :: acts)
                   (up w ++ take (Z.to_nat n) bs) (up_closed w) None)
      else None
  | WriterBreaks, WriteAll (b :: bs) :: acts =>
      if down_closed w
      then Some (with_writer w [] (up w) (up_closed w) (Some broken_pipe))
      else None
  | WriterGoesOn, (WriteAll [] | Sleep _) :: acts =>
      Some (with_writer w acts (up w) (up_closed w) None)
  | WriterEnds, [] =>
      if up_closed w then None
      else match script_end w with
           | Ok _ => Some (with_writer w [] (up w) true None)
           | Err e => Some (with_writer w [] (up w) false (Some e))
           end
  | _, _ => None
  end.

Definition server_fails (w : World) (p : ServerFailure) : World :=
  with_server w (up w) None [] (down w) true (Some (panic_error p)).

Definition server_step (a : Action) (w : World) : option World :=
  match a, serving w with
  | ServerReads n, Some st =>
      if (0 <? n) && (n <=? len (up w)) && bool_decide (unsent w = []) then
        let rest := drop (Z.to_nat n) (up w) in
        match serve st (take (Z.to_nat n) (up w)) with
        | Err p => Some (server_fails w p)
        | Ok (sv, o) => Some (with_server w rest sv o (down w) false None)
        end
      else None
  | ServerSeesEnd, Some st =>
      if bool_decide (up w = []) && up_closed w && bool_decide (unsent w = []) then
        match at_end st with
        | Err p => Some (server_fails w p)
        | Ok o => Some (with_server w [] None o (down w) false None)
        end
      else None
  | ServerWrites n, _ =>
      if (0 <? n) && (n <=? len (unsent w)) && (len (down w) + n <=? cap)
      then Some (with_server w (up w) (serving w) (drop (Z.to_nat n) (unsent w))
                   (down w ++ take (Z.to_nat n) (unsent w)) (down_closed w) None)
      else None
  | ServerReturns, None =>
      if bool_decide (unsent w = []) && negb (down_closed w)
      then Some (with_server w (up w) None [] (down w) true None)
      else None
  | _, _ => None
  end.

Definition reader_step (a : Action) (w : World) : option World :=
  if reader_done w then None
  else
    match a with
    | ReaderWakes =>
        if pausing w then Some (with_reader w (down w) (received w) false false) else None
    | ReaderReads n =>
        if negb (pausing w) && (0 <? n) && (n <=? len (down w)) && read_room reads n
        then Some (with_reader w (drop (Z.to_nat n) (down w))
                     (received w ++ take (Z.to_nat n) (down w)) (pauses reads) false)
        else None
    | ReaderSeesEnd =>
        if negb (pausing w) && bool_decide (down w = []) && down_closed w
        then Some (with_reader w [] (received w) false true)
        else None
    | _ => None
    end.

Definition drive_step (a : Action) (w : World) : option World :=
  match failed w with
  | Some _ => None
  | None =>
      match a with
      | WriterWrites _ | WriterBreaks | WriterGoesOn | WriterEnds => writer_step a w
      | ServerReads _ | ServerSeesEnd | ServerWrites _ | ServerReturns => server_step a w
      | ReaderWakes | ReaderReads _ | ReaderSeesEnd => reader_step a w
      end
  end.

(** What the join returns, once it does. *)
Definition drive_result (w : World) : option (result (list Z) io_error) :=
  match failed w with
  | Some e => Some (Err e)
  | None =>
      if up_closed w && down_closed w && reader_done w then Some (Ok (received w)) else None
  end.
End Drive.

(** ** The drivers

    [drives ... r]: some run of the futures ends with [r]. *)

Section Drivers.
Context {H : Handler}.

Definition drive_rel (cap : Z) (reads : ReadStrategy) (w w' : World) : Prop :=
  exists a, drive_step cap reads a w = Some w'.

Definition drive_with_strategies (cap : Z) (writes : Script) (reads : ReadStrategy)
    (r : result (list Z) io_error) : Prop :=
  exists w, rtc (drive_rel cap reads) (drive_start writes) w /\ drive_result w = Some r.

Definition drive_internal (frames : list (list Z)) (cap : Z) (r : result (list Z) io_error) : Prop :=
  drive_with_strategies cap (write_frames frames) read_all r.

Definition drive_chunked_internal (wire_bytes : list Z) (chunk_size cap : Z)
    (r : result (list Z) io_error) : Prop :=
  drive_with_strategies cap (write_chunked wire_bytes chunk_size) read_all r.

Definition drive_slow_internal (wire_bytes : list Z) (config : SlowIoConfig)
    (r : result (list Z) io_error) : Prop :=
  match validate config with
  | Err e => r = Err e
  | Ok c =>
      drive_with_strategies (capacity c) (write_with_optional_pacing wire_bytes (writer_pacing c))
        (read_with_optional_pacing (reader_pacing c)) r
  end.
End Drivers.

(** ** Every run of a drive *)

Definition act_bytes (a : WriteAct) : list Z := match a with WriteAll bs => bs | Sleep _ => [] end.
Definition script_bytes (acts : list WriteAct) : list Z := concat (map act_bytes acts).

Section DriveRuns.
Context {H : Handler} {HL : HandlerLaws H}.
Variables (cap : Z) (reads : ReadStrategy) (input : list Z).
Hypothesis cap_positive : 0 < cap.
Hypothesis room_positive : match reads with ReadToEnd => True | ReadPaced p => 0 < chunk_size p end.

Lemma handle_app a b :
  handle (a ++ b)
  = match handle a with
    | Err p => Err p
    | Ok (None, o) => Ok (None, o)
    | Ok (Some st, o) => match serve st b with Err p => Err p | Ok (sv, o') => Ok (sv, o ++ o') end
    end.
Proof.
  unfold handle. destruct handler_start as [[[st|] o]|p]; [|done..]. rewrite serve_app.
  destruct (serve st a) as [[[st1|] o1]|p]; [|done..].
  destruct (serve st1 b) as [[sv o2]|p]; [|done]. by rewrite app_assoc.
Qed.

Lemma handle_prefix a b p : handle a = Err p -> answer (a ++ b) = Err (panic_error p).
Proof. intros E. unfold answer. by rewrite handle_app, E. Qed.

Lemma handle_returned a b o : handle a = Ok (None, o) -> handle (a ++ b) = Ok (None, o).
Proof. intros E. by rewrite handle_app, E. Qed.

Lemma returned_answer a b o : handle a = Ok (None, o) -> answer (a ++ b) = Ok o.
Proof. intros E. unfold answer. by rewrite (handle_returned a b o E). Qed.

(** What has been read, what is on its way and what is left to write make up
    the input; what has been received, is on its way and is left to send make
    up the answer to what has been read. *)
Definition underway (w : World) : Prop :=
  exists consumed, input = consumed ++ up w ++ script_bytes (script w) /\
    match serving w with
    | Some st =>
        down_closed w = false /\
        handle consumed = Ok (Some st, received w ++ down w ++ unsent w)
    | None =>
        answer input = Ok (received w ++ down w ++ unsent w)
        /\ (up_closed w = true \/ exists o, handle consumed = Ok (None, o))
    end.

Record drive_inv (w : World) : Prop := {
  inv_end : script_end w = Ok tt;
  inv_closed : up_closed w = true -> script w = [];
  inv_down : down_closed w = true -> unsent w = [];
  inv_reader : reader_done w = true -> down w = [] /\ down_closed w = true;
  inv_underway : match failed w with Some e => drive_outcome input (Err e) | None => underway w end
}.

Lemma drive_inv_start writes :
  writes.2 = Ok tt -> script_bytes writes.1 = input -> drive_inv (drive_start writes).
Proof.
  intros Hw Hi. unfold drive_start. destruct handler_start as [[sv o]|p] eqn:Eh; split; cbn; try done.
  - assert (Hh : handle [] = Ok (sv, o)).
    { unfold handle. rewrite Eh. destruct sv as [st|]; [|done]. by rewrite serve_nothing, app_nil_r. }
    exists []. split; [by rewrite <-Hi|]. cbn. destruct sv as [st|]; [done|].
    split; [by apply (returned_answer [] input)|]. right. by exists o.
  - left. unfold answer, handle. by rewrite Eh.
Qed.

Lemma writer_inv a w w' : drive_inv w -> failed w = None -> writer_step cap a w = Some w' -> drive_inv w'.
Proof.
  intros [He Hc Hd Hr Hu] Hf. rewrite Hf in Hu. destruct Hu as (consumed & Hi & Hs).
  unfold writer_step. intros Hst.
  destruct a as [n| | | |n| |n| | |n|]; destruct (script w) as [|[bs|ms] acts] eqn:Es; try done.
  - case_match; [|done]. injection Hst as <-. split; cbn; try done; [by intros ?%Hc|].
    exists consumed. cbn. unfold script_bytes in *. cbn in *.
    rewrite Hi. by split; [by rewrite <-(app_assoc (up w)), (app_assoc (take _ _)), take_drop|rewrite <-Hi].
  - destruct bs as [|b bs]; [done|]. destruct (down_closed w) eqn:Edc; [|done]. injection Hst as <-.
    split; cbn; try done; [by rewrite Edc|by rewrite Edc|]. right. split; [done|].
    destruct (serving w); [by destruct Hs|]. destruct Hs as [_ [Huc|[o Ho]]]; [by apply Hc in Huc|].
    exists (consumed ++ up w), (script_bytes (WriteAll (b :: bs) :: acts)), o.
    split; [by rewrite <-app_assoc|]. split; [done|by apply handle_returned].
  - destruct bs; [|done]. injection Hst as <-. split; cbn; try done; [by intros ?%Hc|].
    exists consumed. cbn. split; [done|]. done.
  - injection Hst as <-. split; cbn; try done; [by intros ?%Hc|]. by exists consumed.
  - destruct (up_closed w) eqn:Eu; [done|]. rewrite He in Hst. injection Hst as <-.
    split; cbn; try done. exists consumed. cbn. split; [done|]. destruct (serving w); [done|].
    destruct Hs as [Hs _]. split; [done|by left].
Qed.

Lemma server_inv a w w' : drive_inv w -> failed w = None -> server_step cap a w = Some w' -> drive_inv w'.
Proof.
  intros [He Hc Hd Hr Hu] Hf. rewrite Hf in Hu. destruct Hu as (consumed & Hi & Hs).
  assert (Hread : forall st, serving w = Some st -> reader_done w = true -> False).
  { intros st E E'. rewrite E in Hs. destruct Hs as [Hs _]. destruct (Hr E') as [_ Hx]. congruence. }
  unfold server_step. intros Hst.
  destruct a as [n| | | |n| |n| | |n|]; destruct (serving w) as [st|] eqn:Es; try done.
  - case_match eqn:Eg; [|done]. rewrite !andb_true_iff, bool_decide_eq_true in Eg.
    destruct Eg as [[Hn Hle] Hun]. destruct Hs as [Hdc Hserve]. rewrite Hun, app_nil_r in Hserve.
    assert (Hin : input = (consumed ++ take (Z.to_nat n) (up w))
                    ++ drop (Z.to_nat n) (up w) ++ script_bytes (script w)).
    { rewrite Hi, <-(take_drop (Z.to_nat n) (up w)) at 1. by rewrite <-!app_assoc. }
    assert (Hnext : handle (consumed ++ take (Z.to_nat n) (up w))
      = match serve st (take (Z.to_nat n) (up w)) with
        | Err p => Err p | Ok (sv, o') => Ok (sv, (received w ++ down w) ++ o') end)
      by (by rewrite handle_app, Hserve).
    destruct (serve st (take (Z.to_nat n) (up w))) as [[sv o]|p] eqn:Ev; injection Hst as <-;
      split; cbn; try done.
    + by intros []%(Hread st).
    + exists (consumed ++ take (Z.to_nat n) (up w)). cbn. split; [done|]. rewrite app_assoc.
      destruct sv as [st'|]; [done|]. split; [|right; by eexists].
      rewrite Hin. by apply returned_answer.
    + by intros []%(Hread st).
    + left. symmetry. rewrite Hin. by apply handle_prefix.
  - case_match eqn:Eg; [|done]. rewrite !andb_true_iff, !bool_decide_eq_true in Eg.
    destruct Eg as [[Hup Hcl] Hun]. destruct Hs as [Hdc Hserve]. rewrite Hun, app_nil_r in Hserve.
    assert (Hin : input = consumed).
    { rewrite Hi, Hup, (Hc Hcl). cbn. by rewrite app_nil_r. }
    assert (Hans : answer input = match panic_guarded_server (at_end st) with
              Err e => Err e | Ok o' => Ok ((received w ++ down w) ++ o') end).
    { unfold answer. by rewrite Hin, Hserve. }
    destruct (at_end st) as [o|p] eqn:Ev; injection Hst as <-; split; cbn; try done.
    + by intros []%(Hread st).
    + exists consumed. cbn. rewrite (Hc Hcl), Hans. cbn. rewrite app_nil_r, <-app_assoc. auto.
    + by intros []%(Hread st).
    + left. by rewrite Hans.
  - case_match eqn:Eg; [|done]. injection Hst as <-. destruct Hs as [Hdc Hs].
    split; cbn; try done.
    + by rewrite Hdc.
    + by intros []%(Hread st).
    + exists consumed. cbn. rewrite <-!app_assoc, take_drop. done.
  - case_match eqn:Eg; [|done]. injection Hst as <-. rewrite !andb_true_iff in Eg.
    assert (Hne : unsent w <> []) by (intros E; rewrite E in Eg; change (len []) with 0 in Eg; lia).
    split; cbn; try done.
    + by intros ?%Hd.
    + by intros [_ ?%Hd]%Hr.
    + exists consumed. cbn. rewrite <-!app_assoc, take_drop. done.
  - case_match eqn:Eg; [|done]. injection Hst as <-. rewrite andb_true_iff, bool_decide_eq_true in Eg.
    destruct Eg as [Hun Hcl]. split; cbn; try done; [by intros [? _]%Hr|].
    exists consumed. cbn. by rewrite Hun in Hs.
Qed.

Lemma reader_inv a w w' : drive_inv w -> failed w = None -> reader_step reads a w = Some w' -> drive_inv w'.
Proof.
  intros [He Hc Hd Hr Hu] Hf. rewrite Hf in Hu. destruct Hu as (consumed & Hi & Hs).
  unfold reader_step. intros Hst. destruct (reader_done w) eqn:Er; [done|].
  destruct a as [n| | | |n| |n| | |n|]; try done; (case_match eqn:Eg; [|done]); injection Hst as <-;
    split; cbn; try done; try rewrite Hf.
  - by exists consumed.
  - exists consumed. cbn. by rewrite <-(app_assoc (received w)), (app_assoc (take _ _)), take_drop.
  - rewrite !andb_true_iff in Eg. by destruct Eg.
  - exists consumed. cbn. rewrite !andb_true_iff, bool_decide_eq_true in Eg.
    destruct Eg as [[_ E] _]. by rewrite E in Hs.
Qed.

Lemma drive_inv_step w w' : drive_inv w -> drive_rel cap reads w w' -> drive_inv w'.
Proof.
  intros Hw [a Ha]. unfold drive_step in Ha. destruct (failed w) eqn:Hf; [done|].
  destruct a; eauto using writer_inv, server_inv, reader_inv.
Qed.

Lemma drive_inv_runs w w' : drive_inv w -> rtc (drive_rel cap reads) w w' -> drive_inv w'.
Proof. intros Hw Hr. induction Hr; eauto using drive_inv_step. Qed.

(** A run that has ended has the handler's answer, or a write that failed. *)
Lemma drive_result_exact w r : drive_inv w -> drive_result w = Some r -> drive_outcome input r.
Proof.
  intros [He Hc Hd Hr Hu]. unfold drive_result. destruct (failed w); [by intros [= <-]|].
  destruct (up_closed w && down_closed w && reader_done w) eqn:Eg; [|done].
  intros [= <-]. rewrite !andb_true_iff in Eg. left.
  destruct Eg as [[Hup Hdc] Hdone]. destruct Hu as (consumed & Hi & Hs).
  destruct (Hr Hdone) as [Edown _]. rewrite (Hd Hdc), Edown, !app_nil_r in Hs.
  destruct (serving w); [|by destruct Hs as [-> _]]. destruct Hs as [Hs _]. congruence.
Qed.

Lemma len_pos {A} (l : list A) : l <> [] -> 1 <= len l.
Proof. destruct l; [done|]. intros _. unfold len. cbn. lia. Qed.

(** A writer that is not done goes on if there is room, or nobody to read. *)
Lemma writer_progress w :
  script_end w = Ok tt -> failed w = None -> up_closed w = false -> down_closed w = true \/ up w = [] ->
  exists a w', drive_step cap reads a w = Some w'
    /\ match a with ReaderWakes | ReaderReads _ | ReaderSeesEnd => False | _ => True end.
Proof.
  intros He Hf Hu Hroom.
  destruct (script w) as [|[[|b bs]|ms] acts] eqn:Esc.
  - exists WriterEnds. eexists. unfold drive_step, writer_step. by rewrite Hf, Esc, Hu, He.
  - exists WriterGoesOn. eexists. unfold drive_step, writer_step. by rewrite Hf, Esc.
  - destruct (down_closed w) eqn:Edc.
    { exists WriterBreaks. eexists. unfold drive_step, writer_step. by rewrite Hf, Esc, Edc. }
    destruct Hroom as [|Eup]; [done|].
    exists (WriterWrites 1). eexists. unfold drive_step, writer_step. rewrite Hf, Esc, Eup, Edc.
    rewrite (proj2 (Z.leb_le 1 _)), (proj2 (Z.leb_le _ cap)) by
      (first [by apply len_pos|change (len []) with 0; lia]). done.
  - exists WriterGoesOn. eexists. unfold drive_step, writer_step. by rewrite Hf, Esc.
Qed.

(** Until then something can happen. *)
Lemma drive_progress w : drive_inv w -> drive_result w = None -> exists w', drive_rel cap reads w w'.
Proof.
  intros [He Hc Hd Hr Hu] Hres. unfold drive_result in Hres.
  destruct (failed w) as [|] eqn:Hf; [done|]. destruct Hu as (consumed & Hi & Hs).
  assert (Hstep : forall a w', drive_step cap reads a w = Some w' -> exists w', drive_rel cap reads w w')
    by (intros a w' E; by exists w', a).
  destruct (reader_done w) eqn:Edone.
  { destruct (Hr eq_refl) as [_ Ed]. rewrite Ed in Hres. destruct (up_closed w) eqn:Eu; [done|].
    destruct (writer_progress w) as (a & w' & Ha & _); auto. by exists w', a. }
  destruct (pausing w) eqn:Ep.
  { eapply (Hstep ReaderWakes). unfold drive_step, reader_step. by rewrite Hf, Edone, Ep. }
  destruct (decide (down w = [])) as [Ed|Ed].
  2: { eapply (Hstep (ReaderReads 1)). unfold drive_step, reader_step. rewrite Hf, Edone, Ep.
    rewrite (proj2 (Z.leb_le 1 (len (down w)))) by by apply len_pos.
    replace (read_room reads 1) with true by (symmetry; destruct reads; [done|apply Z.leb_le; lia]).
    done. }
  destruct (decide (unsent w = [])) as [Eun|Eun].
  2: { destruct (serving w) eqn:Es; eapply (Hstep (ServerWrites 1));
    unfold drive_step, server_step; rewrite Hf, Ed, Es;
    rewrite (proj2 (Z.leb_le 1 (len (unsent w)))), (proj2 (Z.leb_le _ cap)) by
      (first [by apply len_pos|change (len []) with 0; lia]); done. }
  destruct (down_closed w) eqn:Edc.
  { eapply (Hstep ReaderSeesEnd). unfold drive_step, reader_step.
    by rewrite Hf, Edone, Ep, Edc, bool_decide_eq_true_2. }
  destruct (serving w) as [st|] eqn:Es.
  2: { eapply (Hstep ServerReturns). unfold drive_step, server_step.
    by rewrite Hf, Es, Edc, bool_decide_eq_true_2. }
  destruct (decide (up w = [])) as [Eup|Eup].
  2: { destruct (serve st (take (Z.to_nat 1) (up w))) as [[st' o]|p] eqn:Ev;
    eapply (Hstep (ServerReads 1)); unfold drive_step, server_step;
    rewrite Hf, Es, (bool_decide_eq_true_2 (unsent w = [])),
      (proj2 (Z.leb_le 1 (len (up w)))), Ev by (done || by apply len_pos); done. }
  destruct (up_closed w) eqn:Euc.
  { destruct (at_end st) eqn:Ev; eapply (Hstep ServerSeesEnd); unfold drive_step, server_step;
      by rewrite Hf, Es, Euc, !bool_decide_eq_true_2, Ev by done. }
  destruct (writer_progress w) as (a & w' & Ha & _); auto. by exists w', a.
Qed.

(** Every step brings the end nearer: the input is read, or it and the answer
    move on. *)
Definition to_read (w : World) : nat :=
  length (up w) + length (script_bytes (script w))
  + match serving w with Some _ => 1 | None => 0 end.
Definition flag (b : bool) : nat := if b then 1 else 0.
Definition to_move (w : World) : nat :=
  length (script_bytes (script w)) + length (script w) + flag (negb (up_closed w))
  + 3 * length (unsent w) + 2 * length (down w) + flag (negb (down_closed w))
  + flag (pausing w) + flag (negb (reader_done w))
  + match failed w with Some _ => 0 | None => 1 end.
Definition nearer (w' w : World) : Prop :=
  (to_read w' < to_read w \/ to_read w' = to_read w /\ to_move w' < to_move w)%nat.

Lemma nearer_wf : well_founded nearer.
Proof.
  assert (Hacc : forall n m w, to_read w = n -> to_move w = m -> Acc nearer w).
  { induction n as [n IHn] using lt_wf_ind. induction m as [m IHm] using lt_wf_ind.
    intros w Hn Hm. constructor. intros w' [Hr|[Hr Hlt]].
    - eapply IHn; [|done|done]. lia.
    - eapply IHm; [|lia|done]. lia. }
  intros w. by eapply Hacc.
Qed.

Lemma length_taken {A} n (l : list A) :
  (0 <? n) = true -> (n <=? len l) = true ->
  exists k, Z.to_nat n = S k /\ length (take (Z.to_nat n) l) = S k
    /\ length l = (S k + length (drop (Z.to_nat n) l))%nat.
Proof.
  rewrite Z.ltb_lt, Z.leb_le. unfold len. intros H0 Hl. exists (Z.to_nat n - 1)%nat.
  rewrite length_take, length_drop. lia.
Qed.

Lemma script_bytes_cons a acts : script_bytes (a :: acts) = act_bytes a ++ script_bytes acts.
Proof. done. Qed.

Ltac take_some :=
  repeat match goal with
  | E : _ && _ = true |- _ => apply andb_true_iff in E as [? E]
  end;
  match goal with
  | E0 : (0 <? ?n) = true, E1 : (?n <=? len ?l) = true |- _ =>
      let k := fresh "k" in destruct (length_taken n l E0 E1) as (k & ? & ? & ?)
  end.

Ltac nearer_solve :=
  unfold nearer, to_read, to_move;
  cbn [script script_end up up_closed serving unsent down down_closed received pausing reader_done
       failed with_writer with_server with_reader server_fails flag negb length];
  rewrite ?script_bytes_cons, ?length_app; cbn [act_bytes length app]; lia.

Lemma drive_rel_nearer w w' : drive_rel cap reads w w' -> nearer w' w.
Proof.
  clear room_positive cap_positive.
  destruct w as [acts ends u uc sv un dn dc rcv ps rd fl]. intros [a Ha].
  assert (Hp : (flag (pauses reads) <= 1)%nat) by (destruct (pauses reads); cbn; lia).
  unfold drive_step in Ha. cbn [failed] in Ha. destruct fl; [done|].
  destruct a as [n| | | |n| |n| | |n|]; unfold writer_step, server_step, reader_step in Ha;
    cbn [script script_end up up_closed serving unsent down down_closed received pausing reader_done
         failed] in Ha;
    repeat (case_match; simplify_eq; try done); try nearer_solve; try (take_some; nearer_solve).
  - unfold nearer, to_read. left. cbn [script up serving with_writer].
    rewrite script_bytes_cons, length_app. change (script_bytes []) with (@nil Z). cbn [length act_bytes]. lia.
  - take_some. destruct o; nearer_solve.
  - destruct dc; [by rewrite andb_false_r in *|]. destruct un; [nearer_solve|done].
Qed.

(** So a run can always be carried to its end. *)
Lemma drive_finishes w :
  drive_inv w -> exists w' r, rtc (drive_rel cap reads) w w' /\ drive_result w' = Some r.
Proof.
  induction (nearer_wf w) as [w _ IH]. intros Hw.
  destruct (drive_result w) as [r|] eqn:Hr; [by exists w, r|].
  destruct (drive_progress w Hw Hr) as [w1 H1].
  destruct (IH w1) as (w' & r & Hrun & Hres); [by apply drive_rel_nearer|by eapply drive_inv_step|].
  exists w', r. split; [by eapply rtc_l|done].
Qed.

Lemma drives_answer writes r :
  writes.2 = Ok tt -> script_bytes writes.1 = input -> ~ returns_early input ->
  drive_with_strategies cap writes reads r <-> r = answer input.
Proof.
  intros Hw Hi Hend. pose proof (drive_inv_start writes Hw Hi) as H0.
  assert (Hexact : forall w r, rtc (drive_rel cap reads) (drive_start writes) w ->
            drive_result w = Some r -> r = answer input).
  { intros w r' Hrun Hres. destruct (drive_result_exact w r') as [|[_ ?]]; [by eapply drive_inv_runs|done..]. }
  split.
  - intros (w & Hrun & Hres). by eapply Hexact.
  - intros ->. destruct (drive_finishes _ H0) as (w & r' & Hrun & Hres). exists w. split; [done|].
    by rewrite Hres, (Hexact w r').
Qed.
End DriveRuns.

(** ** What the strategies write *)

Lemma slice_step {A} (l : list A) offset step :
  0 <= offset < len l -> 0 < step ->
  let end_ := Z.min (offset + step) (len l) in
  slice_get l offset end_ = Some (take (Z.to_nat (end_ - offset)) (drop (Z.to_nat offset) l))
  /\ take (Z.to_nat (end_ - offset)) (drop (Z.to_nat offset) l) ++ drop (Z.to_nat end_) l
     = drop (Z.to_nat offset) l
  /\ offset < end_ <= len l.
Proof.
  intros Ho Hs end_. unfold slice_get. rewrite decide_True by lia. split; [done|]. split; [|lia].
  replace (Z.to_nat end_) with (Z.to_nat offset + Z.to_nat (end_ - offset))%nat by lia.
  by rewrite <-drop_drop, take_drop.
Qed.

Lemma script_bytes_app a b : script_bytes (a ++ b) = script_bytes a ++ script_bytes b.
Proof. unfold script_bytes. by rewrite map_app, concat_app. Qed.

Lemma write_paced_bytes fuel bytes p : forall offset,
  0 <= offset <= len bytes -> 0 < chunk_size p -> len bytes - offset < Z.of_nat fuel ->
  (write_paced_go fuel bytes p offset).2 = Ok tt
  /\ script_bytes (write_paced_go fuel bytes p offset).1 = drop (Z.to_nat offset) bytes.
Proof.
  induction fuel as [|fuel IH]; intros offset Ho Hp Hf; [lia|]. cbn [write_paced_go].
  destruct (Z.ltb_spec offset (len bytes)) as [Hlt|Hge].
  - destruct (slice_step bytes offset (chunk_size p)) as (-> & Happ & He); [lia|done|].
    destruct (IH (Z.min (offset + chunk_size p) (len bytes))) as [Hr Hb]; [lia|done|lia|].
    destruct (write_paced_go fuel bytes p _) as [acts r]. cbn [fst snd] in *. split; [done|].
    rewrite script_bytes_cons, script_bytes_app, Hb. unfold pause_between_chunks.
    by destruct (_ && _).
  - split; [done|]. cbn. by rewrite drop_ge by (unfold len in *; lia).
Qed.

(** Without a pause the paced writer is the chunked one. *)
Lemma write_chunked_paced fuel bytes step : forall offset,
  0 <= offset <= len bytes -> 0 < step ->
  write_chunked_go fuel bytes step offset = write_paced_go fuel bytes (mk_SlowIoPacing step 0) offset.
Proof.
  induction fuel as [|fuel IH]; intros offset Ho Hs; [done|].
  cbn [write_chunked_go write_paced_go chunk_size delay].
  destruct (Z.ltb_spec offset (len bytes)) as [Hlt|Hge]; [|done].
  destruct (slice_step bytes offset step) as (-> & _ & He); [lia|done|].
  rewrite IH by lia. destruct (write_paced_go _ _ _ _) as [acts r].
  unfold pause_between_chunks. by rewrite andb_false_r.
Qed.

Definition pacing_positive (p : option SlowIoPacing) : Prop :=
  match p with Some p => 0 < chunk_size p | None => True end.

Lemma optional_pacing_bytes bytes pacing :
  pacing_positive pacing ->
  (write_with_optional_pacing bytes pacing).2 = Ok tt
  /\ script_bytes (write_with_optional_pacing bytes pacing).1 = bytes.
Proof.
  destruct pacing as [p|]; cbn [write_with_optional_pacing pacing_positive]; intros Hp.
  - apply (write_paced_bytes (S (length bytes)) bytes p 0); [|done|]; unfold len; lia.
  - split; [done|]. cbn. by rewrite app_nil_r.
Qed.

Lemma chunked_bytes bytes step :
  0 < step ->
  (write_chunked bytes step).2 = Ok tt /\ script_bytes (write_chunked bytes step).1 = bytes.
Proof.
  intros Hs. unfold write_chunked. rewrite write_chunked_paced by (unfold len; lia).
  apply (optional_pacing_bytes bytes (Some (mk_SlowIoPacing step 0))). done.
Qed.

Lemma frames_bytes frames : script_bytes (write_frames frames).1 = concat frames.
Proof. unfold script_bytes, write_frames. cbn [fst]. by rewrite map_map, map_id. Qed.

(** A handler that does not return before the end of its input. *)
Class ReadsToEnd (H : Handler) : Prop := reads_to_end input : ~ returns_early input.

Section Outcomes.
Context {H : Handler} {HL : HandlerLaws H} {HE : ReadsToEnd H}.

Lemma drive_internal_answer frames cap r :
  0 < cap -> drive_internal frames cap r <-> r = answer (concat frames).
Proof. intros Hc. by apply drives_answer; [| | |apply frames_bytes|apply reads_to_end]. Qed.

Lemma drive_chunked_answer bytes step cap r :
  0 < cap -> 0 < step -> drive_chunked_internal bytes step cap r <-> r = answer bytes.
Proof. intros Hc Hs. destruct (chunked_bytes bytes step Hs). by apply drives_answer; [..|apply reads_to_end]. Qed.

Lemma validate_same config c : validate config = Ok c -> c = config /\ capacity config <> 0.
Proof.
  unfold validate. destruct (Z.eqb_spec (capacity config) 0); [done|]. case_match; [done|].
  repeat (case_match; simplify_eq; try done); intros; by simplify_eq.
Qed.

Lemma drive_slow_answer bytes config r :
  0 <= capacity config -> pacing_positive (writer_pacing config) ->
  pacing_positive (reader_pacing config) ->
  drive_slow_internal bytes config r
  <-> r = match validate config with Ok _ => answer bytes | Err e => Err e end.
Proof.
  intros Hc Hw Hr. unfold drive_slow_internal. destruct (validate config) as [c|e] eqn:Ev; [|done].
  apply validate_same in Ev as [-> Hne]. destruct (optional_pacing_bytes bytes _ Hw).
  apply drives_answer; [lia| |done|done|apply reads_to_end]. by destruct (reader_pacing config).
Qed.
End Outcomes.

(** A handler that sends back what it reads, and panics on a byte. *)
#[export] Instance echo_handler : Handler := {|
  handler_state := unit;
  handler_start := Ok (Some tt, []);
  serve st bs :=
    if existsb (Z.eqb 255) bs then Err (Panicked (StaticStr "boom")) else Ok (Some st, bs);
  at_end _ := Ok []
|}.
#[export] Instance echo_handler_laws : HandlerLaws echo_handler.
Proof.
  split; [done|]. intros st a b. cbn [serve echo_handler]. rewrite existsb_app.
  by destruct (existsb (Z.eqb 255) a), (existsb (Z.eqb 255) b).
Qed.
#[export] Instance echo_handler_reads : ReadsToEnd echo_handler.
Proof.
  intros input (a & b & o & _ & _ & Hh). unfold handle in Hh. cbn in Hh.
  by destruct (existsb (Z.eqb 255) a).
Qed.

(** A handler that greets, and returns without reading. *)
Definition greeting_handler : Handler := {|
  handler_state := unit;
  handler_start := Ok (None, [1; 2]);
  serve st bs := Ok (Some st, []);
  at_end _ := Ok []
|}.
Lemma greeting_handler_laws : HandlerLaws greeting_handler.
Proof. by split. Qed.



(** All the drivers agree on a handler that reads to the end: pre-framed, chunked and slow drives return the
    same thing, the handler's answer to the frames laid end to end, and a slow
    drive that does not start because of its configuration says so with an
    error. *)
Theorem drivers_agree {H : Handler} {HL : HandlerLaws H} {HE : ReadsToEnd H} frames step cap config r :
  0 < cap -> 0 < step -> 0 <= capacity config ->
  pacing_positive (writer_pacing config) -> pacing_positive (reader_pacing config) ->
  (drive_internal frames cap r <-> r = answer (concat frames))
  /\ (drive_chunked_internal (concat frames) step cap r <-> drive_internal frames cap r)
  /\ (drive_slow_internal (concat frames) config r
      <-> match validate config with Ok _ => drive_internal frames cap r | Err e => r = Err e end)
  /\ (forall e, validate config = Err e -> kind e = InvalidInput).
Proof.
  intros Hc Hs Hcap Hw Hr. rewrite drive_chunked_answer, drive_slow_answer, drive_internal_answer by done.
  split; [done|]. split; [done|].
  split; [destruct (validate config); by rewrite ?drive_internal_answer|].
  unfold validate, validate_pacing_chunk_size. intros e He. repeat (case_match; simplify_eq; try done).
Qed.

Lemma drivers_agree_witness :
  let config := mk_SlowIoConfig (Some (mk_SlowIoPacing 3 5)) (Some (mk_SlowIoPacing 2 7)) 3 in
  (drive_internal [[1; 2]; [3; 4]] 4 (Ok [1; 2; 3; 4]) <-> Ok [1; 2; 3; 4] = answer [1; 2; 3; 4])
  /\ (drive_chunked_internal [1; 2; 3; 4] 3 4 (Ok [1; 2; 3; 4]) <-> drive_internal [[1; 2]; [3; 4]] 4 (Ok [1; 2; 3; 4]))
  /\ (drive_slow_internal [1; 2; 3; 4] config (Ok [1; 2; 3; 4])
      <-> match validate config with
          | Ok _ => drive_internal [[1; 2]; [3; 4]] 4 (Ok [1; 2; 3; 4])
          | Err e => Ok [1; 2; 3; 4] = Err e
          end)
  /\ (forall e, validate config = Err e -> kind e = InvalidInput).
Proof.
  intros config. apply (drivers_agree [[1; 2]; [3; 4]] 3 4 config (Ok [1; 2; 3; 4]));
    cbn; lia.
Defined.

(** The error side, evaluated: a panic comes back as an error, and a chunk
    larger than the pipe is refused. *)
Example panic_is_reported :
  answer [1; 255; 2] = Err (mk_io_error ErrorKindOther "server task failed: boom").
Proof. reflexivity. Qed.

Example oversized_chunk_is_refused :
  validate (mk_SlowIoConfig None (Some (mk_SlowIoPacing 9 1)) 8)
  = Err (mk_io_error InvalidInput "reader chunk size 9 must not exceed capacity 8").
Proof. vm_compute. reflexivity. Qed.
