(* ===== verification/TestCodec.v ===== *)
(** * Codec-aware test drivers

    Models the codec helpers of [testkit/support.rs] and the drivers of
    [testkit/slow_io.rs], [testkit/partial_frame.rs] and
    [testkit/fragment_drive.rs] that encode payloads, drive a handler with the
    bytes and decode what it answers.  The application under test is the
    handler of [TestKit]; what a driver returns is, as there, a relation. *)

From S2P Require Import Prelude.
From S2P Require Import Fragment.
From S2P Require Import Envelope.
From S2P Require Import Fragmenter.
From S2P Require Import ByteOrder.
From S2P Require Import FragmentPayload.
From S2P Require Import FrameCodec.
From S2P Require Import LengthDelimited.
From S2P Require Import Serializer.
From S2P Require Import TestKit.
From stdpp Require Import pretty.

Local Open Scope Z_scope.

(** [Decoder::decode_eof], and what a decoder between frames does at the end. *)
Class EofCodec (F : FrameCodec) : Type := {
  decode_eof : Codec -> Decoder -> list Z -> Decoder * list Z * result (option Frame) io_error
}.
Class EofCodecLaws (F : FrameCodec) (E : EofCodec F) (L : StreamCodec F) : Prop := {
  eof_idle c st buf :
    unread c st buf [] -> exists st', decode_eof c st buf = (st', [], Ok None)
}.

#[export] Instance length_eof {T : TokioLengthDelimited} : EofCodec length_codec := {|
  decode_eof := length_decode_eof
|}.
#[export] Instance length_eof_laws {T : TokioLengthDelimited} {TL : TokioLengthDelimitedLaws T} :
  EofCodecLaws length_codec length_eof length_stream.
Proof.
  split. intros c [|n] buf Hu; cbn in Hu.
  - subst buf. by exists Head.
  - by destruct Hu as [_ [=]].
Qed.

Section CodecHelpers.
Context {F : FrameCodec} {E : EofCodec F}.

Definition encode_payload (codec : Codec) (payload : list Z) : result (list Z) io_error :=
  match encode codec (wrap_payload codec payload) [] with
  | (buf, Ok _) => Ok buf
  | (_, Err e) => Err (mk_io_error InvalidData ("codec encode failed: " +:+ message e))
  end.
Fixpoint encode_payloads_with_codec (codec : Codec) (payloads : list (list Z))
    : result (list (list Z)) io_error :=
  match payloads with
  | [] => Ok []
  | payload :: payloads =>
      match encode_payload codec payload with
      | Err e => Err e
      | Ok buf =>
          match encode_payloads_with_codec codec payloads with
          | Err e => Err e
          | Ok bufs => Ok (buf :: bufs)
          end
      end
  end.

(** [while let Some(frame) = decode(&mut buf)?]; a frame takes at least one
    byte of the buffer, so one round more than it has bytes is enough. *)
Fixpoint decode_while (dec : Decoder -> list Z -> Decoder * list Z * result (option Frame) io_error)
    (fuel : nat) (st : Decoder) (buf : list Z) : Decoder * list Z * result (list Frame) io_error :=
  match fuel with
  | O => (st, buf, Err (other "out of fuel"))
  | S fuel =>
      match dec st buf with
      | (st, buf, Err e) => (st, buf, Err e)
      | (st, buf, Ok None) => (st, buf, Ok [])
      | (st, buf, Ok (Some f)) =>
          match decode_while dec fuel st buf with
          | (st, buf, Ok fs) => (st, buf, Ok (f :: fs))
          | (st, buf, Err e) => (st, buf, Err e)
          end
      end
  end.

Definition decode_frames_with_codec (codec : Codec) (bytes : list Z) : result (list Frame) io_error :=
  let rounds := S (length bytes) in
  match decode_while (decode codec) rounds (decoder codec) bytes with
  | (_, _, Err e) => Err e
  | (st, buf, Ok frames) =>
      match decode_while (decode_eof codec) rounds st buf with
      | (_, _, Err e) => Err e
      | (st, buf, Ok more) =>
          if bool_decide (buf = []) then Ok (frames ++ more)
          else Err (mk_io_error InvalidData
                 ("trailing " +:+ pretty (len buf)
                  +:+ " byte(s) after decoding - possible truncated frame"))
      end
  end.

Definition extract_payloads (frames : list Frame) : list (list Z) := map frame_payload frames.

(** A drive, by what it may return for the bytes it is given. *)
Definition Drive : Type := list Z -> result (list Z) io_error -> Prop.

Definition drive_codec_roundtrip (codec : Codec) (payloads : list (list Z)) (drive : Drive)
    (r : result (list Frame) io_error) : Prop :=
  match encode_payloads_with_codec codec payloads with
  | Err e => r = Err e
  | Ok encoded =>
      exists raw, drive (concat encoded) raw /\
        r = match raw with Err e => Err e | Ok raw => decode_frames_with_codec codec raw end
  end.

Definition map_ok {A B X} (f : A -> B) (r : result A X) : result B X :=
  match r with Ok a => Ok (f a) | Err e => Err e end.

Context {H : Handler}.

(** ** Partial frames *)

Definition drive_with_partial_codec_frames (codec : Codec) (payloads : list (list Z))
    (chunk_size : Z) (r : result (list Frame) io_error) : Prop :=
  drive_codec_roundtrip codec payloads
    (fun wire_bytes => drive_chunked_internal wire_bytes chunk_size DEFAULT_CAPACITY) r.

Definition drive_with_partial_frames_with_capacity (codec : Codec) (payloads : list (list Z))
    (chunk_size cap : Z) (r : result (list (list Z)) io_error) : Prop :=
  exists frames,
    drive_codec_roundtrip codec payloads
      (fun wire_bytes => drive_chunked_internal wire_bytes chunk_size cap) frames
    /\ r = map_ok extract_payloads frames.

Definition drive_with_partial_frames (codec : Codec) (payloads : list (list Z)) (chunk_size : Z)
    (r : result (list (list Z)) io_error) : Prop :=
  drive_with_partial_frames_with_capacity codec payloads chunk_size DEFAULT_CAPACITY r.

(** ** Slow I/O *)

Definition drive_with_slow_frames (frames : list (list Z)) (config : SlowIoConfig)
    (r : result (list Z) io_error) : Prop :=
  drive_slow_internal (concat frames) config r.

Definition drive_with_slow_codec_frames (codec : Codec) (payloads : list (list Z))
    (config : SlowIoConfig) (r : result (list Frame) io_error) : Prop :=
  match encode_payloads_with_codec codec payloads with
  | Err e => r = Err e
  | Ok encoded =>
      exists raw, drive_slow_internal (concat encoded) config raw /\
        r = match raw with Err e => Err e | Ok raw => decode_frames_with_codec codec raw end
  end.

Definition drive_with_slow_codec_payloads (codec : Codec) (payloads : list (list Z))
    (config : SlowIoConfig) (r : result (list (list Z)) io_error) : Prop :=
  exists frames, drive_with_slow_codec_frames codec payloads config frames
    /\ r = map_ok extract_payloads frames.
End CodecHelpers.

Section SlowPayloads.
Context {T : TokioLengthDelimited} {H : Handler}.

Definition encode_length_delimited_payloads (payloads : list (list Z)) : result (list Z) io_error :=
  map_ok (@concat Z)
    (encode_payloads_with_codec (F := length_codec) (ld_new DEFAULT_CAPACITY) payloads).

Definition drive_with_slow_payloads (payloads : list (list Z)) (config : SlowIoConfig)
    (r : result (list Z) io_error) : Prop :=
  match encode_length_delimited_payloads payloads with
  | Err e => r = Err e
  | Ok wire_bytes => drive_slow_internal wire_bytes config r
  end.
End SlowPayloads.

(** ** Fragments *)

(** [display_encode] is the text of a bincode error. *)
Definition display_fragmentation (display_encode : EncodeError -> string) (e : FragmentationError)
    : string :=
  match e with
  | Encode e => "failed to encode message: " +:+ display_encode e
  | FragmentationIndexOverflow last => "fragment index overflow after " +:+ pretty last
  | SliceBounds offset end_ total =>
      "fragment slice out of bounds: offset=" +:+ pretty offset +:+ ", end=" +:+ pretty end_
      +:+ ", total=" +:+ pretty total
  end.

Definition DEFAULT_FRAGMENT_ROUTE_ID : Z := 1.

Section Fragments.
Context {BC : BytesCrate} {C : Bincode} {BM : BincodeMessage Envelope}.
Variable display_encode : EncodeError -> string.

Definition invalid_data (msg : string) : io_error := mk_io_error InvalidData msg.

Definition fragment_envelope (route_id : Z) (frame : FragmentFrame) : result (list Z) io_error :=
  match encode_fragment_payload (frame_header frame) (Fragmenter.frame_payload frame) with
  | Err e => Err (invalid_data ("fragment encoding failed: " +:+ display_encode e))
  | Ok frag_bytes =>
      match serialize Bincode_ (Envelope_new route_id None frag_bytes) with
      | Err e => Err (invalid_data ("envelope serialization failed: " +:+ e))
      | Ok bytes => Ok bytes
      end
  end.

Fixpoint fragment_envelopes (route_id : Z) (frames : list FragmentFrame)
    : result (list (list Z)) io_error :=
  match frames with
  | [] => Ok []
  | frame :: frames =>
      match fragment_envelope route_id frame with
      | Err e => Err e
      | Ok bytes =>
          match fragment_envelopes route_id frames with
          | Err e => Err e
          | Ok more => Ok (bytes :: more)
          end
      end
  end.

(** [None] is the panic of an exhausted message counter; the fragmenter comes
    back with its counter advanced. *)
Definition fragment_and_encode (fragmenter : Fragmenter) (payload : list Z) (route_id : Z)
    : option (result (list (list Z)) io_error * Fragmenter) :=
  match fragment_bytes fragmenter payload with
  | None => None
  | Some (Err e, fragmenter) =>
      Some (Err (invalid_data ("fragmentation failed: " +:+ display_fragmentation display_encode e)),
            fragmenter)
  | Some (Ok batch, fragmenter) =>
      Some (fragment_envelopes route_id (batch_fragments batch), fragmenter)
  end.

Context {F : FrameCodec} {E : EofCodec F} {H : Handler}.

(** The envelopes of the payload's fragments, driven. *)
Definition drive_fragments (codec : Codec) (fragmenter : Fragmenter) (payload : list Z) (drive : Drive)
    (r : result (list Frame) io_error) : Prop :=
  match fragment_and_encode fragmenter payload DEFAULT_FRAGMENT_ROUTE_ID with
  | None => False
  | Some (Err e, _) => r = Err e
  | Some (Ok envelopes, _) => drive_codec_roundtrip codec envelopes drive r
  end.

Definition drive_with_fragments_with_capacity (codec : Codec) (fragmenter : Fragmenter)
    (payload : list Z) (cap : Z) (r : result (list (list Z)) io_error) : Prop :=
  exists frames,
    drive_fragments codec fragmenter payload
      (fun wire_bytes => drive_internal [wire_bytes] cap) frames
    /\ r = map_ok extract_payloads frames.

Definition drive_with_fragments (codec : Codec) (fragmenter : Fragmenter) (payload : list Z)
    (r : result (list (list Z)) io_error) : Prop :=
  drive_with_fragments_with_capacity codec fragmenter payload DEFAULT_CAPACITY r.

Definition drive_with_fragment_frames (codec : Codec) (fragmenter : Fragmenter) (payload : list Z)
    (r : result (list Frame) io_error) : Prop :=
  drive_fragments codec fragmenter payload
    (fun wire_bytes => drive_internal [wire_bytes] DEFAULT_CAPACITY) r.

Definition drive_with_partial_fragments (codec : Codec) (fragmenter : Fragmenter)
    (payload : list Z) (chunk_size : Z) (r : result (list (list Z)) io_error) : Prop :=
  exists frames,
    drive_fragments codec fragmenter payload
      (fun wire_bytes => drive_chunked_internal wire_bytes chunk_size DEFAULT_CAPACITY) frames
    /\ r = map_ok extract_payloads frames.
End Fragments.

(** ** What a test sees *)

Section RoundTrip.
Context {F : FrameCodec} {L : StreamCodec F} {E : EofCodec F} {EL : EofCodecLaws F E L}.

Lemma encode_payloads_wire codec payloads :
  Forall (fun p => carries codec (wrap_payload codec p)) payloads ->
  encode_payloads_with_codec codec payloads
  = Ok (map (fun p => wire codec (wrap_payload codec p)) payloads).
Proof.
  induction 1 as [|p payloads Hp _ IH]; [done|]. cbn [encode_payloads_with_codec map].
  unfold encode_payload. by rewrite encode_appends, IH by done.
Qed.

Lemma decode_while_frames codec fs : forall fuel st buf,
  Forall (carries codec) fs -> unread codec st buf (concat (map (wire codec) fs)) ->
  (length fs < fuel)%nat -> len (concat (map (wire codec) fs)) <= isize_max ->
  exists st' buf', decode_while (decode codec) fuel st buf = (st', buf', Ok fs)
    /\ unread codec st' buf' [].
Proof.
  induction fs as [|f fs IH]; intros fuel st buf Hc Hu Hf Hl;
    (destruct fuel as [|fuel]; [lia|]); cbn [decode_while].
  - destruct (decode_idle codec st buf Hu) as (st' & buf' & -> & Hu'). by exists st', buf'.
  - apply Forall_cons in Hc as [Hcf Hc]. cbn [map concat] in Hu, Hl.
    destruct (decode_whole codec st buf f _ Hcf Hu Hl) as (st1 & buf1 & -> & Hu1).
    destruct (IH fuel st1 buf1 Hc Hu1) as (st' & buf' & -> & Hu'); [cbn in Hf; lia| |by exists st', buf'].
    rewrite len_app in Hl. pose proof (len_nonneg (wire codec f)). lia.
Qed.

Lemma wires_length codec (fs : list Frame) : (length fs <= length (concat (map (wire codec) fs)))%nat.
Proof.
  induction fs as [|f fs IH]; cbn; [lia|]. rewrite length_app.
  destruct (wire codec f) eqn:Ew; [by apply wire_nonempty in Ew|]. cbn. lia.
Qed.

Lemma decode_frames_wire codec fs :
  Forall (carries codec) fs -> len (concat (map (wire codec) fs)) <= isize_max ->
  decode_frames_with_codec codec (concat (map (wire codec) fs)) = Ok fs.
Proof.
  intros Hc Hl. unfold decode_frames_with_codec. pose proof (wires_length codec fs).
  destruct (decode_while_frames codec fs (S (length (concat (map (wire codec) fs)))) (decoder codec)
    _ Hc (unread_fresh _ _)) as (st & buf & -> & Hu); [lia|done|].
  cbn [decode_while]. destruct (eof_idle codec st buf Hu) as [st' ->].
  by rewrite bool_decide_eq_true_2, app_nil_r.
Qed.

Lemma roundtrip_frames codec payloads (drive : Drive) fs r :
  Forall (fun p => carries codec (wrap_payload codec p)) payloads ->
  Forall (carries codec) fs -> len (concat (map (wire codec) fs)) <= isize_max ->
  (forall raw, drive (concat (map (fun p => wire codec (wrap_payload codec p)) payloads)) raw
     <-> raw = Ok (concat (map (wire codec) fs))) ->
  drive_codec_roundtrip codec payloads drive r <-> r = Ok fs.
Proof.
  intros Hp Hc Hl Hd. unfold drive_codec_roundtrip. rewrite encode_payloads_wire by done. split.
  - intros (raw & ->%Hd & ->). by apply decode_frames_wire.
  - intros ->. exists (Ok (concat (map (wire codec) fs))). split; [by apply Hd|].
    by rewrite decode_frames_wire.
Qed.
End RoundTrip.

(** A codec-aware test sees exactly the frames the application sent.  When
    the payloads and the frames [fs] of the application's answer are ones the
    codec carries, driving the payloads in chunks of any size, or paced in any
    valid way, through a pipe of any capacity, yields the payloads of [fs], or
    [fs] themselves, and nothing else; an invalid pacing is reported. *)
Theorem tests_see_sent_frames {F : FrameCodec} {L : StreamCodec F} {E : EofCodec F}
    {EL : EofCodecLaws F E L} {H : Handler} {HL : HandlerLaws H} {HE : ReadsToEnd H}
    codec payloads fs step cap config r rf :
  Forall (fun p => carries codec (wrap_payload codec p)) payloads ->
  Forall (carries codec) fs -> len (concat (map (wire codec) fs)) <= isize_max ->
  answer (concat (map (fun p => wire codec (wrap_payload codec p)) payloads))
  = Ok (concat (map (wire codec) fs)) ->
  0 < cap -> 0 < step -> 0 <= capacity config ->
  pacing_positive (writer_pacing config) -> pacing_positive (reader_pacing config) ->
  (drive_with_partial_frames_with_capacity codec payloads step cap r <-> r = Ok (map frame_payload fs))
  /\ (drive_with_slow_codec_frames codec payloads config rf
      <-> rf = match validate config with Ok _ => Ok fs | Err e => Err e end).
Proof.
  intros Hp Hc Hl Ha Hcap Hs Hcc Hw Hr. split.
  - assert (Hf : forall frames, drive_codec_roundtrip codec payloads
      (fun wire_bytes => drive_chunked_internal wire_bytes step cap) frames <-> frames = Ok fs).
    { intros frames. apply roundtrip_frames; try done. intros raw.
      rewrite drive_chunked_answer by done. by rewrite Ha. }
    unfold drive_with_partial_frames_with_capacity. split.
    + by intros (frames & ->%Hf & ->).
    + intros ->. exists (Ok fs). by rewrite Hf.
  - unfold drive_with_slow_codec_frames. rewrite encode_payloads_wire by done. split.
    + intros (raw & Hd & ->). apply drive_slow_answer in Hd as ->; try done. rewrite Ha.
      destruct (validate config); [by apply decode_frames_wire|done].
    + intros ->. eexists. rewrite drive_slow_answer by done. split; [done|].
      rewrite Ha. destruct (validate config); [by rewrite decode_frames_wire|done].
Qed.

Lemma tests_see_sent_frames_witness :
  let config := mk_SlowIoConfig (Some (mk_SlowIoPacing 3 5)) (Some (mk_SlowIoPacing 2 7)) 3 in
  let out : result (list (list Z)) io_error := Ok [[1; 2]; []; [3]] in
  (drive_with_partial_frames_with_capacity (F := length_codec (T := reference_length_delimited))
     (ld_new 128) [[1; 2]; []; [3]] 2 5 out <-> out = Ok [[1; 2]; []; [3]])
  /\ (drive_with_slow_codec_frames (F := length_codec (T := reference_length_delimited))
        (ld_new 128) [[1; 2]; []; [3]] config out
      <-> out = match validate config with Ok _ => Ok [[1; 2]; []; [3]] | Err e => Err e end).
Proof.
  intros config out.
  apply (tests_see_sent_frames (F := length_codec (T := reference_length_delimited))
    (L := length_stream (T := reference_length_delimited)) (H := echo_handler)
    (ld_new 128) [[1; 2]; []; [3]] [[1; 2]; []; [3]] 2 5 config out out).
  1,2: repeat constructor; vm_compute; discriminate.
  - vm_compute. discriminate.
  - reflexivity.
  - lia.
  - lia.
  - cbn. lia.
  - cbn. lia.
  - cbn. lia.
Defined.
