(* ===== verification/TestAssert.v ===== *)
(** * Assertions on reassembly

    Models [testkit/reassembly/]: the snapshots a test takes of a reassembler
    or a message assembler, and the assertions it makes about them.  An
    assertion that fails returns the message of the error it builds.  The
    derived [Debug] texts are parameters. *)

From S2P Require Import Prelude.
From S2P Require Import Fragment.
From S2P Require Import Reassembler.
From S2P Require Import MessageSeries.
From S2P Require Import MessageAssembly.
From stdpp Require Import pretty.

Local Open Scope Z_scope.

Definition TestResult : Type := result unit string.

(** ** [assert_helpers.rs] *)

Definition assert_usize_field (actual expected : Z) (field_name : string) : TestResult :=
  if actual =? expected then Ok tt
  else Err ("expected " +:+ field_name +:+ "=" +:+ pretty expected +:+ ", got " +:+ pretty actual).

Definition assert_body_eq (debug_bytes : list Z -> string) (actual expected : list Z)
    (context : string) : TestResult :=
  if bool_decide (actual = expected) then Ok tt
  else Err (context +:+ " mismatch: expected " +:+ debug_bytes expected +:+ ", got "
            +:+ debug_bytes actual).

(** ** [fragment.rs] *)

Module FragmentAssert.

Record FragmentReassemblySnapshot : Type := mk_FragmentReassemblySnapshot {
  last_reassembled : option ReassembledMessage;
  last_error : option ReassemblyError;
  evicted_ids : list Z;
  buffered_messages : Z
}.

Inductive FragmentReassemblyErrorExpectation : Type :=
  | MessageTooLarge (message_id : Z)
  | MessageTooLargeAny
  | TooManyConcurrentPartials
  | AggregateBufferCapExceeded
  | IndexMismatch
  | MessageMismatch
  | SeriesComplete
  | IndexOverflow.

Definition matches_message_size_error (err : ReassemblyError)
    (expected : FragmentReassemblyErrorExpectation) : bool :=
  match expected with
  | MessageTooLarge message_id =>
      match err with Fragment.MessageTooLarge actual_id _ _ => actual_id =? message_id | _ => false end
  | MessageTooLargeAny =>
      match err with Fragment.MessageTooLarge _ _ _ => true | _ => false end
  | _ => false
  end.

Definition matches_aggregate_limit_error (err : ReassemblyError)
    (expected : FragmentReassemblyErrorExpectation) : bool :=
  match expected with
  | TooManyConcurrentPartials =>
      match err with Fragment.TooManyConcurrentPartials _ _ => true | _ => false end
  | AggregateBufferCapExceeded =>
      match err with Fragment.AggregateBufferCapExceeded _ _ => true | _ => false end
  | _ => false
  end.

Definition matches_fragment_error (err : ReassemblyError)
    (expected : FragmentReassemblyErrorExpectation) : bool :=
  match expected with
  | MessageTooLarge _ | MessageTooLargeAny => matches_message_size_error err expected
  | TooManyConcurrentPartials | AggregateBufferCapExceeded =>
      matches_aggregate_limit_error err expected
  | IndexMismatch =>
      match err with Fragment.Fragment (Fragment.IndexMismatch _ _) => true | _ => false end
  | MessageMismatch =>
      match err with Fragment.Fragment (Fragment.MessageMismatch _ _) => true | _ => false end
  | SeriesComplete =>
      match err with Fragment.Fragment Fragment.SeriesComplete => true | _ => false end
  | IndexOverflow =>
      match err with Fragment.Fragment (Fragment.IndexOverflow _) => true | _ => false end
  end.

Section Assertions.
Variables (debug_bytes : list Z -> string) (debug_error : ReassemblyError -> string)
  (debug_expectation : FragmentReassemblyErrorExpectation -> string).

Definition assert_fragment_reassembly_absent (s : FragmentReassemblySnapshot) : TestResult :=
  match last_reassembled s with
  | None => Ok tt
  | Some _ => Err "unexpected reassembled message present"
  end.

Definition assert_fragment_reassembly_completed_len (s : FragmentReassemblySnapshot)
    (expected_len : Z) : TestResult :=
  match last_reassembled s with
  | None => Err "no message reassembled"
  | Some m => assert_usize_field (len (reassembled_payload m)) expected_len "payload length"
  end.

Definition assert_fragment_reassembly_completed_bytes (s : FragmentReassemblySnapshot)
    (expected : list Z) : TestResult :=
  match last_reassembled s with
  | None => Err "no message reassembled"
  | Some m => assert_body_eq debug_bytes (reassembled_payload m) expected "reassembled payload"
  end.

Definition assert_fragment_reassembly_error (s : FragmentReassemblySnapshot)
    (expected : FragmentReassemblyErrorExpectation) : TestResult :=
  match last_error s with
  | None => Err "no reassembly error captured"
  | Some err =>
      if matches_fragment_error err expected then Ok tt
      else Err ("expected " +:+ debug_expectation expected +:+ ", got " +:+ debug_error err)
  end.

Definition assert_fragment_reassembly_buffered_messages (s : FragmentReassemblySnapshot)
    (expected : Z) : TestResult :=
  assert_usize_field (buffered_messages s) expected "buffered messages".

Definition assert_fragment_reassembly_evicted (s : FragmentReassemblySnapshot) (message_id : Z)
    : TestResult :=
  if existsb (Z.eqb message_id) (evicted_ids s) then Ok tt
  else Err ("message " +:+ pretty message_id +:+ " was not evicted").
End Assertions.

End FragmentAssert.

(** ** [message_error.rs], [message.rs] *)

Module MessageAssert.

Inductive MessageAssemblyErrorExpectation : Type :=
  | SequenceMismatch (expected found : Z)
  | DuplicateFrame (key sequence : Z)
  | MissingFirstFrame (key : Z)
  | DuplicateFirstFrame (key : Z)
  | MessageTooLarge (key : Z)
  | ConnectionBudgetExceeded (key : Z)
  | InFlightBudgetExceeded (key : Z)
  | DeclaredTotalTooSmall (key : Z)
  | DeclaredTotalExceeded (key : Z)
  | DeclaredTotalMismatch (key : Z).

Definition matches_sequence_mismatch (err : MessageAssemblyError) (expected found : Z) : bool :=
  match err with
  | Series (MessageSeries.SequenceMismatch actual_expected actual_found) =>
      (actual_expected =? expected) && (actual_found =? found)
  | _ => false
  end.
Definition matches_duplicate_frame (err : MessageAssemblyError) (key sequence : Z) : bool :=
  match err with
  | Series (MessageSeries.DuplicateFrame actual_key actual_sequence) =>
      (actual_key =? key) && (actual_sequence =? sequence)
  | _ => false
  end.
Definition matches_missing_first_frame (err : MessageAssemblyError) (key : Z) : bool :=
  match err with
  | Series (MessageSeries.MissingFirstFrame actual_key) => actual_key =? key
  | _ => false
  end.
Definition matches_duplicate_first_frame (err : MessageAssemblyError) (key : Z) : bool :=
  match err with MessageSeries.DuplicateFirstFrame actual_key => actual_key =? key | _ => false end.
Definition matches_message_too_large (err : MessageAssemblyError) (key : Z) : bool :=
  match err with MessageSeries.MessageTooLarge actual_key _ _ => actual_key =? key | _ => false end.
Definition matches_connection_budget_exceeded (err : MessageAssemblyError) (key : Z) : bool :=
  match err with
  | MessageSeries.ConnectionBudgetExceeded actual_key _ _ => actual_key =? key
  | _ => false
  end.
Definition matches_in_flight_budget_exceeded (err : MessageAssemblyError) (key : Z) : bool :=
  match err with
  | MessageSeries.InFlightBudgetExceeded actual_key _ _ => actual_key =? key
  | _ => false
  end.
Definition matches_declared_total_too_small (err : MessageAssemblyError) (key : Z) : bool :=
  match err with
  | MessageSeries.DeclaredTotalTooSmall actual_key _ _ => actual_key =? key
  | _ => false
  end.
Definition matches_declared_total_exceeded (err : MessageAssemblyError) (key : Z) : bool :=
  match err with
  | MessageSeries.DeclaredTotalExceeded actual_key _ _ => actual_key =? key
  | _ => false
  end.
Definition matches_declared_total_mismatch (err : MessageAssemblyError) (key : Z) : bool :=
  match err with
  | MessageSeries.DeclaredTotalMismatch actual_key _ _ => actual_key =? key
  | _ => false
  end.

Definition matches_message_error (err : MessageAssemblyError)
    (expected : MessageAssemblyErrorExpectation) : bool :=
  match expected with
  | SequenceMismatch expected found => matches_sequence_mismatch err expected found
  | DuplicateFrame key sequence => matches_duplicate_frame err key sequence
  | MissingFirstFrame key => matches_missing_first_frame err key
  | DuplicateFirstFrame key => matches_duplicate_first_frame err key
  | MessageTooLarge key => matches_message_too_large err key
  | ConnectionBudgetExceeded key => matches_connection_budget_exceeded err key
  | InFlightBudgetExceeded key => matches_in_flight_budget_exceeded err key
  | DeclaredTotalTooSmall key => matches_declared_total_too_small err key
  | DeclaredTotalExceeded key => matches_declared_total_exceeded err key
  | DeclaredTotalMismatch key => matches_declared_total_mismatch err key
  end.

Record MessageAssemblySnapshot : Type := mk_MessageAssemblySnapshot {
  last_result : option (result (option AssembledMessage) MessageAssemblyError);
  completed_messages : list AssembledMessage;
  evicted_keys : list Z;
  buffered_count : Z;
  total_buffered_bytes : Z
}.

Definition last_completed (s : MessageAssemblySnapshot) : option AssembledMessage :=
  match last_result s with Some (Ok (Some message)) => Some message | _ => None end.

Definition completed_for_key (s : MessageAssemblySnapshot) (key : Z) : option AssembledMessage :=
  List.find (fun m => assembled_message_key m =? key) (rev (completed_messages s)).

Section Assertions.
Variables (debug_bytes : list Z -> string) (debug_error : MessageAssemblyError -> string)
  (debug_expectation : MessageAssemblyErrorExpectation -> string).

Definition describe_last_result
    (r : option (result (option AssembledMessage) MessageAssemblyError)) : string :=
  match r with
  | None => "no result recorded"
  | Some (Ok None) => "incomplete assembly"
  | Some (Ok (Some m)) => "completed assembly for key " +:+ pretty (assembled_message_key m)
  | Some (Err err) => "error " +:+ debug_error err
  end.

Definition assert_message_assembly_incomplete (s : MessageAssemblySnapshot) : TestResult :=
  match last_result s with
  | Some (Ok None) => Ok tt
  | r => Err ("expected incomplete message assembly, got " +:+ describe_last_result r)
  end.

Definition assert_message_assembly_completed (s : MessageAssemblySnapshot) (expected : list Z)
    : TestResult :=
  match last_completed s with
  | None => Err ("expected completed message assembly, got " +:+ describe_last_result (last_result s))
  | Some m => assert_body_eq debug_bytes (assembled_body m) expected "completed message body"
  end.

Definition assert_message_assembly_completed_for_key (s : MessageAssemblySnapshot) (key : Z)
    (expected : list Z) : TestResult :=
  match completed_for_key s key with
  | None =>
      Err ("expected completed message for key " +:+ pretty key +:+ ", but none was recorded")
  | Some m =>
      assert_body_eq debug_bytes (assembled_body m) expected
        ("completed message body for key " +:+ pretty key)
  end.

Definition assert_message_assembly_error (s : MessageAssemblySnapshot)
    (expected : MessageAssemblyErrorExpectation) : TestResult :=
  match last_result s with
  | Some (Err err) =>
      if matches_message_error err expected then Ok tt
      else Err ("expected " +:+ debug_expectation expected +:+ ", got " +:+ debug_error err)
  | r => Err ("expected message assembly error, got " +:+ describe_last_result r)
  end.

Definition assert_message_assembly_buffered_count (s : MessageAssemblySnapshot) (expected : Z)
    : TestResult :=
  assert_usize_field (buffered_count s) expected "buffered_count".
Definition assert_message_assembly_total_buffered_bytes (s : MessageAssemblySnapshot)
    (expected : Z) : TestResult :=
  assert_usize_field (total_buffered_bytes s) expected "total_buffered_bytes".

Definition assert_message_assembly_evicted (s : MessageAssemblySnapshot) (key : Z) : TestResult :=
  if existsb (Z.eqb key) (evicted_keys s) then Ok tt
  else Err ("expected key " +:+ pretty key +:+ " to be evicted").
End Assertions.

End MessageAssert.

(** ** What an assertion that passes says *)

(** The expectation an error meets, for the errors a test can expect. *)
Definition expectation_of (err : MessageAssemblyError)
    : option MessageAssert.MessageAssemblyErrorExpectation :=
  match err with
  | Series (SequenceMismatch expected found) => Some (MessageAssert.SequenceMismatch expected found)
  | Series (DuplicateFrame key sequence) => Some (MessageAssert.DuplicateFrame key sequence)
  | Series (MissingFirstFrame key) => Some (MessageAssert.MissingFirstFrame key)
  | Series _ => None
  | DuplicateFirstFrame key => Some (MessageAssert.DuplicateFirstFrame key)
  | MessageTooLarge key _ _ => Some (MessageAssert.MessageTooLarge key)
  | ConnectionBudgetExceeded key _ _ => Some (MessageAssert.ConnectionBudgetExceeded key)
  | InFlightBudgetExceeded key _ _ => Some (MessageAssert.InFlightBudgetExceeded key)
  | DeclaredTotalTooSmall key _ _ => Some (MessageAssert.DeclaredTotalTooSmall key)
  | DeclaredTotalExceeded key _ _ => Some (MessageAssert.DeclaredTotalExceeded key)
  | DeclaredTotalMismatch key _ _ => Some (MessageAssert.DeclaredTotalMismatch key)
  end.

Lemma matches_message_error_exact err expected :
  MessageAssert.matches_message_error err expected = true <-> expectation_of err = Some expected.
Proof.
  destruct expected, err as [[]| | | | | | |]; cbn; try (split; discriminate);
    rewrite ?andb_true_iff, ?Z.eqb_eq; naive_solver.
Qed.

Lemma find_rev {A} (p : A -> bool) (l : list A) m :
  List.find p (rev l) = Some m ->
  exists before after, l = before ++ m :: after /\ p m = true /\ Forall (fun x => p x = false) after.
Proof.
  induction l as [|x l IH] using rev_ind; [done|]. rewrite rev_unit. cbn [List.find].
  destruct (p x) eqn:Ep.
  - intros [= <-]. by exists l, [].
  - intros (before & after & -> & Hm & Ha)%IH. exists before, (after ++ [x]).
    rewrite <-app_assoc. repeat split; [done|]. apply Forall_app. by repeat constructor.
Qed.

(** An assertion about message assembly passes only when what it says
    happened: the expected error and no other is the last result, the body is
    that of the last completed message, or of the latest one with the key, the
    counts are the recorded ones and the key was evicted. *)
Theorem message_assertions_exact db de dx (s : MessageAssert.MessageAssemblySnapshot) expected body key n :
  (MessageAssert.assert_message_assembly_error de dx s expected = Ok tt
   <-> exists err, MessageAssert.last_result s = Some (Err err) /\ expectation_of err = Some expected)
  /\ (MessageAssert.assert_message_assembly_completed db de s body = Ok tt
      <-> exists m, MessageAssert.last_result s = Some (Ok (Some m)) /\ assembled_body m = body)
  /\ (MessageAssert.assert_message_assembly_incomplete de s = Ok tt
      <-> MessageAssert.last_result s = Some (Ok None))
  /\ (MessageAssert.assert_message_assembly_completed_for_key db s key body = Ok tt ->
      exists before m after, MessageAssert.completed_messages s = before ++ m :: after
        /\ assembled_message_key m = key /\ assembled_body m = body
        /\ Forall (fun m => assembled_message_key m <> key) after)
  /\ (MessageAssert.assert_message_assembly_buffered_count s n = Ok tt
      <-> MessageAssert.buffered_count s = n)
  /\ (MessageAssert.assert_message_assembly_evicted s key = Ok tt
      <-> In key (MessageAssert.evicted_keys s)).
Proof.
  unfold MessageAssert.assert_message_assembly_error, MessageAssert.assert_message_assembly_completed,
    MessageAssert.assert_message_assembly_incomplete, MessageAssert.assert_message_assembly_completed_for_key,
    MessageAssert.assert_message_assembly_buffered_count, MessageAssert.assert_message_assembly_evicted,
    MessageAssert.last_completed, assert_body_eq, assert_usize_field.
  repeat split.
  - destruct (MessageAssert.last_result s) as [[[m|]|err]|]; try discriminate.
    destruct (MessageAssert.matches_message_error err expected) eqn:E; [|discriminate].
    intros _. exists err. by rewrite <-matches_message_error_exact.
  - intros (err & -> & E). apply matches_message_error_exact in E. by rewrite E.
  - destruct (MessageAssert.last_result s) as [[[m|]|err]|]; try discriminate.
    case_bool_decide; [|discriminate]. intros _. by exists m.
  - intros (m & -> & ->). by rewrite bool_decide_eq_true_2.
  - by destruct (MessageAssert.last_result s) as [[[m|]|err]|].
  - by intros ->.
  - destruct (MessageAssert.completed_for_key s key) as [m|] eqn:E; [|discriminate].
    apply find_rev in E as (before & after & E & Hm & Ha). case_bool_decide; [|discriminate].
    intros _. exists before, m, after. apply Z.eqb_eq in Hm. repeat split; try done.
    eapply Forall_impl; [exact Ha|]. intros x Hx. by apply Z.eqb_neq in Hx.
  - destruct (Z.eqb_spec (MessageAssert.buffered_count s) n); [done|discriminate].
  - intros ->. by rewrite Z.eqb_refl.
  - destruct (existsb _ _) eqn:E; [|discriminate]. intros _.
    apply existsb_exists in E as (x & Hx & E). apply Z.eqb_eq in E. by subst.
  - intros Hin. rewrite (proj2 (existsb_exists _ _)); [done|]. exists key. by rewrite Z.eqb_refl.
Qed.

(** Every reassembly error meets an expectation, and [MessageTooLargeAny] is
    the only one that two of them share with a narrower one. *)
Lemma matches_fragment_error_exact err expected :
  FragmentAssert.matches_fragment_error err expected = true <->
  match err, expected with
  | Fragment.MessageTooLarge id _ _, FragmentAssert.MessageTooLarge id' => id = id'
  | Fragment.MessageTooLarge _ _ _, FragmentAssert.MessageTooLargeAny
  | Fragment.TooManyConcurrentPartials _ _, FragmentAssert.TooManyConcurrentPartials
  | Fragment.AggregateBufferCapExceeded _ _, FragmentAssert.AggregateBufferCapExceeded
  | Fragment.Fragment (Fragment.IndexMismatch _ _), FragmentAssert.IndexMismatch
  | Fragment.Fragment (Fragment.MessageMismatch _ _), FragmentAssert.MessageMismatch
  | Fragment.Fragment Fragment.SeriesComplete, FragmentAssert.SeriesComplete
  | Fragment.Fragment (Fragment.IndexOverflow _), FragmentAssert.IndexOverflow => True
  | _, _ => False
  end.
Proof. destruct expected, err as [[]| | |]; cbn; rewrite ?Z.eqb_eq; naive_solver. Qed.
