(* ===== verification/Benchmarks.v ===== *)
(** * Benchmark support

    Models the measuring half of [wireframe_testing]'s benchmark support: the
    pool workloads ([workload.rs]), the latency distribution
    ([distribution/mod.rs]), the loops of the pool harness that fill it
    ([harness.rs], [phase.rs], [measurement/mod.rs]) and the allocation window
    ([benchmark_alloc_support/]).

    What a measured phase observes (a burst's outcome, its duration, the
    readings of the task gauge) is an argument; durations are in nanoseconds,
    and of unbounded width but for their sum. *)

From stdpp Require Import pretty sorting.
From S2P Require Import Prelude.
From S2P Require Import PoolScheduler.

Local Open Scope Z_scope.

(** ** [workload.rs] *)

Definition POOL_SIZES : list Z := [1; 4; 16].
Definition DEFAULT_ACQUISITIONS : Z := 256.
Definition DEFAULT_CONTENDERS : Z := 16.
Definition CONTENDED_ROUNDS_PER_CONTENDER : Z := 8.

Inductive AcquisitionMode : Type :=
  | Uncontended
  | ContendedFifo
  | ContendedRoundRobin.

Definition mode_label (m : AcquisitionMode) : string :=
  match m with
  | Uncontended => "uncontended"
  | ContendedFifo => "contended_fifo"
  | ContendedRoundRobin => "contended_round_robin"
  end.
Definition is_contended (m : AcquisitionMode) : bool :=
  match m with Uncontended => false | _ => true end.
Definition mode_policy (m : AcquisitionMode) : option PoolFairnessPolicy :=
  match m with
  | Uncontended => None
  | ContendedFifo => Some Fifo
  | ContendedRoundRobin => Some RoundRobin
  end.
Definition mode_contenders (m : AcquisitionMode) (requested : Z) : Z :=
  match m with
  | Uncontended => 1
  | ContendedFifo | ContendedRoundRobin => if requested <? 2 then 2 else requested
  end.

Record PoolWorkload : Type := mk_PoolWorkload {
  wl_pool_size : Z;
  wl_mode : AcquisitionMode;
  wl_acquisitions : Z;
  wl_contenders : Z
}.

Definition workload_default : PoolWorkload :=
  mk_PoolWorkload 4 Uncontended DEFAULT_ACQUISITIONS DEFAULT_CONTENDERS.

Definition workload_label (w : PoolWorkload) : string :=
  let contenders := mode_contenders (wl_mode w) (wl_contenders w) in
  if is_contended (wl_mode w)
  then mode_label (wl_mode w) +:+ "_pool_" +:+ pretty (wl_pool_size w) +:+ "_contenders_"
         +:+ pretty contenders +:+ "_rounds_" +:+ pretty CONTENDED_ROUNDS_PER_CONTENDER
  else mode_label (wl_mode w) +:+ "_pool_" +:+ pretty (wl_pool_size w) +:+ "_acquisitions_"
         +:+ pretty (wl_acquisitions w) +:+ "_contenders_" +:+ pretty contenders.

Definition workload_validate (w : PoolWorkload) : result unit string :=
  if wl_pool_size w =? 0 then Err "pool_size must be at least 1"
  else if is_contended (wl_mode w)
          && (mode_contenders (wl_mode w) (wl_contenders w) <=? wl_pool_size w)
  then Err ("mode " +:+ mode_label (wl_mode w)
         +:+ " needs more contenders than pool slots to contend: " +:+ pretty (wl_contenders w)
         +:+ " contenders, pool_size " +:+ pretty (wl_pool_size w))
  else Ok tt.

Definition contended_fifo_pool_workloads : list PoolWorkload :=
  map (fun pool_size =>
    mk_PoolWorkload pool_size ContendedFifo DEFAULT_ACQUISITIONS
      (Z.max DEFAULT_CONTENDERS (saturating_add usize_max pool_size 1))) POOL_SIZES.

Record PoolMeasurement : Type := mk_PoolMeasurement {
  pm_acquisitions : Z;
  pm_elapsed : Z;
  pm_construction : Z;
  pm_scheduler_spawns : Z;
  pm_capacity_waits : Z;
  pm_alive_tasks_before : Z;
  pm_alive_tasks_after : Z
}.

Definition alive_task_delta (m : PoolMeasurement) : Z :=
  pm_alive_tasks_after m - pm_alive_tasks_before m.
Definition contended (m : PoolMeasurement) : bool := 0 <? pm_capacity_waits m.

(** ** [distribution/mod.rs] *)

Definition RETAINED_FAILURES : Z := 8.
Definition CONTENDED_LATENCY_SAMPLES : Z := 20.

(** [Duration::MAX], in nanoseconds. *)
Definition duration_max : Z := (2 ^ 64 - 1) * 1000000000 + 999999999.

Record ContendedLatency : Type := mk_ContendedLatency {
  samples : list Z;
  failure_count : Z;
  failures : list string;
  run_churn : PoolTaskChurn
}.

Definition latency_default : ContendedLatency := mk_ContendedLatency [] 0 [] (mk_PoolTaskChurn 0 0).

(** [partition_point] on a list that is sorted. *)
Fixpoint partition_point (p : Z -> bool) (l : list Z) : nat :=
  match l with
  | [] => O
  | x :: l => if p x then S (partition_point p l) else O
  end.

Definition push_sample (elapsed : Z) (c : ContendedLatency) : ContendedLatency :=
  let position := partition_point (fun existing => existing <=? elapsed) (samples c) in
  mk_ContendedLatency (take position (samples c) ++ elapsed :: drop position (samples c))
    (failure_count c) (failures c) (run_churn c).

Definition push_failure (message : string) (c : ContendedLatency) : ContendedLatency :=
  mk_ContendedLatency (samples c) (saturating_add usize_max (failure_count c) 1)
    (if len (failures c) <? RETAINED_FAILURES then failures c ++ [message] else failures c)
    (run_churn c).

Definition push_churn (d : PoolTaskChurn) (c : ContendedLatency) : ContendedLatency :=
  mk_ContendedLatency (samples c) (failure_count c) (failures c)
    (churn_saturating_add (run_churn c) d).

Definition successes (c : ContendedLatency) : Z := len (samples c).
Definition latency_min (c : ContendedLatency) : option Z := head (samples c).
Definition latency_max (c : ContendedLatency) : option Z := last (samples c).

Definition percentile (numerator denominator : Z) (c : ContendedLatency) : option Z :=
  match samples c with
  | [] => None
  | _ =>
      let n := len (samples c) in
      let product := Z.min (n * numerator) usize_max in
      let rank := (product + denominator - 1) / denominator in
      let index := Z.min (saturating_sub rank 1) (saturating_sub n 1) in
      samples c !! Z.to_nat index
  end.

Definition median : ContendedLatency -> option Z := percentile 1 2.
Definition p90 : ContendedLatency -> option Z := percentile 9 10.

Definition mean (c : ContendedLatency) : option Z :=
  let total := fold_left (saturating_add duration_max) (samples c) 0 in
  match try_into u32_max (len (samples c)) with
  | Some n => if n =? 0 then None else Some (total / n)
  | None => None
  end.

(** ** [measurement/mod.rs], [phase.rs], [harness.rs] *)

Definition STABLE_POLLS : Z := 4.
Definition SETTLE_ATTEMPTS : nat := 256.

(** [readings] are what the gauge reads at successive polls; the loop stops at
    the attempts it allows itself, or when the readings are over. *)
Fixpoint settle_loop (attempts : nat) (readings : list Z) (previous current stable : Z)
    : result Z string :=
  match attempts, readings with
  | S attempts, reading :: readings =>
      let stable := if reading =? previous then stable + 1 else 0 in
      if STABLE_POLLS <=? stable then Ok reading
      else settle_loop attempts readings reading reading stable
  | _, _ =>
      Err ("live task gauge did not hold steady for " +:+ pretty STABLE_POLLS +:+ " polls within "
           +:+ pretty (Z.of_nat SETTLE_ATTEMPTS) +:+ " yields; it last read " +:+ pretty current
           +:+ ", so the settled delta cannot be reported")
  end.
Definition settled_alive_tasks (first : Z) (readings : list Z) : result Z string :=
  settle_loop SETTLE_ATTEMPTS readings first first 0.

Record PhaseOutcome : Type := mk_PhaseOutcome {
  granted : Z;
  ph_churn : PoolTaskChurn;
  alive_before : Z;
  alive_after : Z
}.
Definition accumulate (self running : PhaseOutcome) : PhaseOutcome :=
  mk_PhaseOutcome (granted self) (churn_saturating_add (ph_churn running) (ph_churn self))
    (alive_before running) (alive_after self).
Definition seed (granted : Z) (churn : PoolTaskChurn) (alive : Z) : PhaseOutcome :=
  mk_PhaseOutcome granted churn alive alive.
Definition finish (o : PhaseOutcome) (elapsed construction : Z) : PoolMeasurement :=
  mk_PoolMeasurement (granted o) elapsed construction (scheduler_spawns (ph_churn o))
    (capacity_waits (ph_churn o)) (alive_before o) (alive_after o).

(** [phases] is what each iteration's [acquisition_phase] returns. *)
Fixpoint measure_loop (phases : list (result PhaseOutcome string)) (totals : PhaseOutcome)
    : result PhaseOutcome string :=
  match phases with
  | [] => Ok totals
  | Ok phase :: phases => measure_loop phases (accumulate phase totals)
  | Err e :: _ => Err e
  end.
Definition measure (phases : list (result PhaseOutcome string)) (alive elapsed construction : Z)
    : result PoolMeasurement string :=
  match measure_loop phases (seed 0 (mk_PoolTaskChurn 0 0) alive) with
  | Ok totals => Ok (finish totals elapsed construction)
  | Err e => Err e
  end.

(** A burst as the sampler sees it: its result, its duration, the pool's
    counters around it, and whether the gauge settled afterwards. *)
Record Burst : Type := mk_Burst {
  b_outcome : result Z string;
  b_elapsed : Z;
  b_before : PoolTaskChurn;
  b_after : PoolTaskChurn;
  b_settled : result Z string
}.

Definition record_burst (b : Burst) (latency : ContendedLatency) : ContendedLatency :=
  let latency := push_churn (churn_since (b_after b) (b_before b)) latency in
  match b_outcome b with
  | Ok _ => push_sample (b_elapsed b) latency
  | Err e => push_failure e latency
  end.

Fixpoint sample_bursts (bursts : list Burst) (latency : ContendedLatency)
    : result ContendedLatency string :=
  match bursts with
  | [] => Ok latency
  | b :: bursts =>
      let latency := record_burst b latency in
      match b_settled b with
      | Err e => Err e
      | Ok _ => sample_bursts bursts latency
      end
  end.

(** The pool a workload asks for, and how many leases empty it. *)
Definition mode_configure (m : AcquisitionMode) (config : ClientPoolConfig) : ClientPoolConfig :=
  match mode_policy m with Some policy => set_fairness_policy policy config | None => config end.
Definition pool_config (w : PoolWorkload) : ClientPoolConfig :=
  mode_configure (wl_mode w) (set_pool_size (wl_pool_size w) config_default).
Definition exhaustive_holdings (w : PoolWorkload) : Z :=
  let config := pool_config w in
  Z.min (cfg_pool_size config * cfg_max_in_flight_per_socket config) usize_max.

(** ** [benchmark_alloc_support/] *)

Record WindowState : Type := mk_WindowState {
  accumulated : Z;
  baseline : Z;
  is_open : bool
}.
Definition opened_at (total : Z) : WindowState := mk_WindowState 0 total true.
Definition reset_at (w : WindowState) (total : Z) : WindowState := mk_WindowState 0 total (is_open w).
Definition delta (baseline total : Z) : Z := saturating_sub total baseline.
Definition count_at (w : WindowState) (total : Z) : Z :=
  if is_open w then saturating_add usize_max (accumulated w) (delta (baseline w) total)
  else accumulated w.
Definition closed_at (w : WindowState) (total : Z) : WindowState :=
  mk_WindowState (count_at w total) total false.

(** The three statics are one window. *)
Definition accumulate_window_at (w : WindowState) (total : Z) : WindowState :=
  mk_WindowState (wrapping_add usize_max (accumulated w) (delta (baseline w) total)) total (is_open w).
Definition reset_allocation_count (w : WindowState) (total : Z) : WindowState := reset_at w total.
Definition allocation_count (w : WindowState) (total : Z) : Z := count_at w total.
Definition is_allocation_counting_enabled (w : WindowState) : bool := is_open w.

(** [before] and [after] are the allocator's totals around the operation. *)
Definition count_allocations (before after : Z) (outcome : result unit string) (_ : WindowState)
    : WindowState * result Z string :=
  let w := opened_at before in
  let w := mk_WindowState (accumulated w) (baseline w) false in
  let w := accumulate_window_at w after in
  (w, match outcome with Ok _ => Ok (accumulated w) | Err e => Err e end).
(** [None] is the panic. *)
Definition count_allocations_or_panic (before after : Z) (outcome : result unit string)
    (w : WindowState) : WindowState * option Z :=
  let '(w, r) := count_allocations before after outcome w in
  (w, match r with Ok n => Some n | Err _ => None end).

(** ** Properties *)

Lemma partition_point_split x l :
  StronglySorted Z.le l ->
  Forall (fun y => y <= x) (take (partition_point (fun e => e <=? x) l) l)
  /\ Forall (fun y => x < y) (drop (partition_point (fun e => e <=? x) l) l).
Proof.
  induction 1 as [|y l Hs IH Hy]; [done|]. cbn [partition_point].
  destruct (Z.leb_spec y x) as [Hle|Hgt]; cbn [take drop].
  - destruct IH as [H1 H2]. by split; [constructor|].
  - split; [constructor|]. constructor; [done|].
    eapply Forall_impl; [exact Hy|]. intros z. cbn. lia.
Qed.

(** A sample goes to its place. *)
Lemma push_sample_sorted x c :
  StronglySorted Z.le (samples c) ->
  StronglySorted Z.le (samples (push_sample x c)) /\ samples (push_sample x c) ≡ₚ x :: samples c.
Proof.
  intros Hs. destruct (partition_point_split x (samples c) Hs) as [Hlo Hhi].
  unfold push_sample. cbn [samples]. set (n := partition_point _ _) in *.
  rewrite <-(take_drop n (samples c)) in Hs. apply StronglySorted_app in Hs as (Hcross & H1 & H2). split.
  - apply StronglySorted_app. split; [|split; [done|]].
    + intros a b Ha Hb. rewrite Forall_forall in Hlo. apply elem_of_cons in Hb as [->|Hb]; [by apply Hlo|].
      by apply Hcross.
    + apply StronglySorted_cons. split; [|done]. eapply Forall_impl; [exact Hhi|]. cbn. lia.
  - rewrite <-Permutation_middle. by rewrite take_drop.
Qed.

(** ** What the statistics are *)

Lemma filter_everything (P : Z -> Prop) `{forall x, Decision (P x)} l : Forall P l -> filter P l = l.
Proof. induction 1; [done|]. by rewrite filter_cons_True, IHForall. Qed.
Lemma filter_nothing (P : Z -> Prop) `{forall x, Decision (P x)} l :
  Forall (fun x => ~ P x) l -> filter P l = [].
Proof. induction 1; [done|]. by rewrite filter_cons_False. Qed.

Definition at_most (x : Z) (l : list Z) : nat := length (filter (fun y => y <= x) l).
Definition below (x : Z) (l : list Z) : nat := length (filter (fun y => y < x) l).

(** In a sorted list the element at an index has at least as many elements
    below or at it as its rank, and fewer strictly below. *)
Lemma sorted_rank l (i : nat) (x : Z) :
  StronglySorted Z.le l -> l !! i = Some x -> (i < at_most x l)%nat /\ (below x l <= i)%nat.
Proof.
  unfold at_most, below. intros Hs Hi. pose proof (lookup_lt_Some _ _ _ Hi).
  rewrite <-(take_drop_middle l i x Hi) in Hs |- *.
  apply StronglySorted_app in Hs as (Hcross & _ & H2). apply StronglySorted_cons in H2 as [Hx _].
  rewrite !filter_app, !length_app, !filter_cons. split.
  - rewrite decide_True by lia. rewrite (filter_everything _ (take i l)); [cbn; rewrite length_take; lia|].
    apply Forall_forall. intros y Hy. apply Hcross; [done|]. by apply elem_of_cons; left.
  - rewrite decide_False by lia. rewrite (filter_nothing _ (drop (S i) l)).
    + pose proof (length_filter (fun y => y < x) (take i l)). rewrite length_take in *. cbn. lia.
    + eapply Forall_impl; [exact Hx|]. cbn. lia.
Qed.

(** The nearest rank is within the list. *)
Lemma percentile_rank c num den :
  samples c <> [] -> 0 < num <= den -> len (samples c) * num <= usize_max ->
  let rank := (len (samples c) * num + den - 1) / den in
  1 <= rank <= len (samples c) /\ percentile num den c = samples c !! Z.to_nat (rank - 1).
Proof.
  intros Hne Hnum Hfit rank. assert (Hn : 1 <= len (samples c)).
  { destruct (samples c); [done|]. unfold len. cbn. lia. }
  assert (Hr : 1 <= rank <= len (samples c)).
  { unfold rank. split; [apply Z.div_le_lower_bound; nia|].
    apply Z.lt_succ_r. apply Z.div_lt_upper_bound; nia. }
  split; [done|]. unfold percentile.
  assert (Hm : forall X : option Z, match samples c with [] => None | _ :: _ => X end = X)
    by (intros; by destruct (samples c)).
  rewrite Hm, (Z.min_l (len (samples c) * num)) by done. fold rank. unfold saturating_sub. f_equal. lia.
Qed.

(** The durations of the bursts that succeeded, and the messages of the rest. *)
Definition succeeded (b : Burst) : list Z := match b_outcome b with Ok _ => [b_elapsed b] | Err _ => [] end.
Definition failed_with (b : Burst) : list string := match b_outcome b with Ok _ => [] | Err e => [e] end.

Record latency_ok (bursts : list Burst) (c : ContendedLatency) : Prop := {
  lat_sorted : StronglySorted Z.le (samples c);
  lat_samples : samples c ≡ₚ concat (map succeeded bursts);
  lat_count : failure_count c = Z.min (len (concat (map failed_with bursts))) usize_max;
  lat_failures : failures c = take (Z.to_nat RETAINED_FAILURES) (concat (map failed_with bursts))
}.

Lemma record_burst_ok bursts b c : latency_ok bursts c -> latency_ok (bursts ++ [b]) (record_burst b c).
Proof.
  intros [Hs Hp Hc Hf]. unfold record_burst.
  assert (Hmap : forall {A} (f : Burst -> list A), concat (map f (bursts ++ [b])) = concat (map f bursts) ++ f b).
  { intros A f. rewrite map_app, concat_app. cbn. by rewrite app_nil_r. }
  split; rewrite ?Hmap; unfold succeeded, failed_with in *; destruct (b_outcome b) as [n|e] eqn:Eo;
    rewrite ?app_nil_r.
  - by apply (push_sample_sorted (b_elapsed b)).
  - done.
  - destruct (push_sample_sorted (b_elapsed b) (push_churn (churn_since (b_after b) (b_before b)) c) Hs) as [_ ->].
    cbn [samples push_churn]. rewrite Hp. by rewrite <-Permutation_cons_append.
  - done.
  - done.
  - cbn [failure_count push_failure push_churn]. rewrite Hc, len_app.
    change (len [e]) with 1. unfold saturating_add. lia.
  - done.
  - cbn [failures push_failure push_churn]. rewrite Hf. clear.
    set (l := concat _). unfold RETAINED_FAILURES. change (Z.to_nat 8) with 8%nat.
    rewrite take_app. destruct (Z.ltb_spec (len (take 8 l)) 8) as [Hlt|Hge]; unfold len in *;
      rewrite length_take in *.
    + rewrite (take_ge l) by lia. rewrite (take_ge [e]) by (cbn; lia). done.
    + replace (8 - length l)%nat with 0%nat by lia. by rewrite take_0, app_nil_r.
Qed.

Lemma sample_bursts_ok bursts : forall done_ c c',
  latency_ok done_ c -> sample_bursts bursts c = Ok c' -> latency_ok (done_ ++ bursts) c'.
Proof.
  induction bursts as [|b bursts IH]; intros done_ c c' Hc; cbn [sample_bursts].
  - intros [= <-]. by rewrite app_nil_r.
  - destruct (b_settled b); [|done]. intros Hr.
    rewrite (cons_middle b done_ bursts), app_assoc. eapply IH; [|exact Hr]. by apply record_burst_ok.
Qed.

(** The reported distribution is the one that was measured.  A sampling run
    that completes reports every successful burst's duration exactly once, in
    ascending order, counts every failed burst (up to the width of the counter)
    and retains the first eight messages; and the percentiles are nearest-rank:
    for [k] the rounded-up share of the samples, at least [k] samples are at
    most the reported one, and fewer than [k] are below it. *)
Theorem latency_distribution_exact bursts c num den :
  sample_bursts bursts latency_default = Ok c ->
  latency_ok bursts c
  /\ (concat (map succeeded bursts) = [] -> percentile num den c = None)
  /\ (concat (map succeeded bursts) <> [] -> 0 < num <= den -> successes c * num <= usize_max ->
      exists x, percentile num den c = Some x
        /\ (successes c * num + den - 1) / den <= Z.of_nat (at_most x (samples c))
        /\ Z.of_nat (below x (samples c)) < (successes c * num + den - 1) / den).
Proof.
  intros Hr.
  assert (Hok : latency_ok bursts c).
  { eapply (sample_bursts_ok bursts [] latency_default); [|done]. split; try done. constructor. }
  split; [done|]. destruct Hok as [Hs Hp _ _]. split.
  - intros E. rewrite E in Hp. symmetry in Hp. apply Permutation_nil in Hp. unfold percentile. by rewrite Hp.
  - intros Hne Hnum Hfit. assert (Hns : samples c <> []).
    { intros E. rewrite E in Hp. by apply Permutation_nil in Hp. }
    unfold successes in *. destruct (percentile_rank c num den Hns Hnum Hfit) as [Hrank ->].
    set (rank := (len (samples c) * num + den - 1) / den) in *.
    destruct (lookup_lt_is_Some_2 (samples c) (Z.to_nat (rank - 1))) as [x Hx]; [unfold len in *; lia|].
    exists x. split; [done|]. destruct (sorted_rank _ _ _ Hs Hx) as [H1 H2]. lia.
Qed.

Lemma latency_distribution_exact_witness :
  let z := mk_PoolTaskChurn 0 0 in
  let b o e := mk_Burst o e z z (Ok 1) in
  let bursts := [b (Ok 1) 30; b (Ok 1) 10; b (Err "stalled") 99; b (Ok 1) 20; b (Ok 1) 20] in
  let c := mk_ContendedLatency [10; 20; 20; 30] 1 ["stalled"] z in
  median c = Some 20 /\ p90 c = Some 30 /\ mean c = Some 20
  /\ latency_ok bursts c
  /\ (concat (map succeeded bursts) = [] -> percentile 9 10 c = None)
  /\ (concat (map succeeded bursts) <> [] -> 0 < 9 <= 10 -> successes c * 9 <= usize_max ->
      exists x, percentile 9 10 c = Some x
        /\ (successes c * 9 + 10 - 1) / 10 <= Z.of_nat (at_most x (samples c))
        /\ Z.of_nat (below x (samples c)) < (successes c * 9 + 10 - 1) / 10).
Proof.
  intros z b bursts c. split; [reflexivity|]. split; [reflexivity|]. split; [reflexivity|].
  apply (latency_distribution_exact bursts c 9 10). vm_compute. reflexivity.
Defined.

(** A counting window reports what was allocated while it was open, whatever
    the statics held before, and is closed again on every path. *)
Lemma count_allocations_exact before after outcome w :
  0 <= before <= after -> after <= usize_max ->
  let '(w', r) := count_allocations before after outcome w in
  is_allocation_counting_enabled w' = false
  /\ r = match outcome with Ok _ => Ok (after - before) | Err e => Err e end
  /\ forall later, allocation_count w' later = after - before.
Proof.
  intros Hb Ha. cbn. unfold delta, saturating_sub, wrapping_add, allocation_count, count_at. cbn.
  rewrite Z.max_r, Z.mod_small by lia. by destruct outcome.
Qed.

(** A contended workload that passes validation has more contenders than slots,
    so some contender must wait. *)
Lemma valid_contended_workload w :
  workload_validate w = Ok tt -> is_contended (wl_mode w) = true ->
  wl_pool_size w < mode_contenders (wl_mode w) (wl_contenders w).
Proof.
  unfold workload_validate. destruct (wl_pool_size w =? 0); [done|]. intros Hv Hc. rewrite Hc in Hv.
  cbn [andb] in Hv.
  destruct (Z.leb_spec (mode_contenders (wl_mode w) (wl_contenders w)) (wl_pool_size w)); [done|lia].
Qed.
