(* ===== verification/CodecStreams.v ===== *)
(** * Streams of frames over the repository's codecs

    The class [StreamCodec] of [FrameCodec] put to use: a stream of frames
    through the default codec ([codec/mod.rs]), the client's codec
    ([client/codec_config.rs]), the Hotline and MySQL codecs
    ([codec/examples.rs]) and the RESP codec ([examples/resp_codec_impl/]),
    each with the frames it carries written out. *)

From S2P Require Import Prelude.
From S2P Require Import LengthPrefix.
From S2P Require Import FrameCodec.
From S2P Require Import ExampleCodecs.
From S2P Require Import LengthDelimited.
From S2P Require Import RespCodec.
From S2P Require Import RespCorrectness.
From S2P Require Import RespStream.
From S2P Require Import Client.

Local Open Scope Z_scope.

(** ** [ClientCodecConfig::build_codec]

    [LengthDelimitedCodec::builder()], and then its three setters. *)
Definition build_codec (c : ClientCodecConfig) : Builder :=
  let builder := default_builder (8 * 1024 * 1024) in
  let builder := mk_Builder (bytes (cc_length_format c)) (length_field_order builder)
                   (builder_max_frame_length builder) in
  let builder :=
    match endianness (cc_length_format c) with
    | Big => mk_Builder (length_field_length builder) Big (builder_max_frame_length builder)
    | Little => mk_Builder (length_field_length builder) Little (builder_max_frame_length builder)
    end in
  mk_Builder (length_field_length builder) (length_field_order builder) (cc_max_frame_length c).

Lemma build_codec_settings c :
  build_codec c
  = mk_Builder (bytes (cc_length_format c)) (endianness (cc_length_format c)) (cc_max_frame_length c).
Proof. unfold build_codec. by destruct (endianness _). Qed.

(** The default format gives the settings the server's codec has. *)
Lemma build_codec_default n :
  build_codec (mk_ClientCodecConfig (mk_LengthFormat 4 Big) n) = default_builder n.
Proof. reflexivity. Qed.

(** ** What a stream keeps *)

(** The frames that [ok] describes can be encoded one after the other, and
    however their bytes are cut into reads, with a decode loop after every
    read, they come out whole, in order and once; then the buffer is empty and
    the decoder is as it started. *)
Definition survives_chunking {F : FrameCodec} (c : FrameCodec.Codec) (ok : FrameCodec.Frame -> Prop) : Prop :=
  forall fs, Forall ok fs ->
  exists dst, encode_all c fs [] = (dst, Ok tt)
    /\ forall chunks, concat chunks = dst -> len dst <= isize_max ->
       exists outs read, run (feed c) (0%nat, FrameCodec.decoder c, []) chunks
         = ((read, FrameCodec.decoder c, []), outs)
         /\ concat outs = fs.

Lemma stream_survives {F : FrameCodec} {L : StreamCodec F} c (ok : FrameCodec.Frame -> Prop) :
  (forall f, ok f -> FrameCodec.carries c f) ->
  (forall st buf, FrameCodec.unread c st buf [] -> st = FrameCodec.decoder c /\ buf = []) ->
  survives_chunking c ok.
Proof.
  intros Hok Hend fs Hfs. assert (Hc : Forall (FrameCodec.carries c) fs) by (by eapply Forall_impl).
  eexists. split; [by rewrite (encode_all_appends c (L := L))|]. cbn [app].
  intros chunks Hch Hlen.
  destruct (feed_spec c fs chunks 0 (FrameCodec.decoder c) [] []) as (outs & s & Hrun & Ho & Hu);
    [done|apply unread_fresh|done|by rewrite Hch| |by rewrite Hch|].
  - intros ->. destruct fs as [|f fs]; [done|]. cbn in Hch. symmetry in Hch.
    apply app_nil in Hch as [Hw _]. by apply FrameCodec.wire_nonempty in Hw.
  - destruct s as [[read st] buf]. cbn in Hu. destruct (Hend st buf Hu) as [-> ->]. by exists outs, read.
Qed.

Lemma builder_unread_end b st buf :
  0 < length_field_length b -> builder_unread b st buf [] -> st = Head /\ buf = [].
Proof.
  intros Hb. destruct st as [|n]; cbn; [done|]. intros [_ Hu]. exfalso.
  apply (f_equal len) in Hu. rewrite len_app, field_bytes_len in Hu by done.
  pose proof (len_nonneg buf). change (len (@nil Z)) with 0 in Hu. lia.
Qed.

(** C24: a stream of frames survives any cutting into reads.  Encode frames
    one after the other, deliver the bytes in any chunks, and decode after
    every read: nothing is refused, the frames come out whole, in order, each
    once, no byte is left over and the decoder is as it started.  So it is for
    the default codec with frames within its limit and [u32]; for the client's
    codec in every length format, with frames within its limit that the
    prefix can count; for the Hotline codec with payloads within its limit and
    the header's numbers, for the MySQL codec with payloads within its limit
    and three bytes; and for the RESP codec with frames a decoder can give,
    of at most its depth and length.  (The stream is shorter than a buffer can
    be, [isize::MAX].) *)
Theorem frames_survive_any_chunking {T : TokioLengthDelimited} {TL : TokioLengthDelimitedLaws T}
    {I : Itoa} {IL : ItoaLaws I} :
  (forall c, survives_chunking (F := length_codec) c (fun f => len f <= ld_max c /\ len f <= u32_max))
  /\ (forall config, 1 <= bytes (cc_length_format config) <= 8 ->
      survives_chunking (F := builder_codec (build_codec config)) tt
        (fun f => len f <= cc_max_frame_length config /\ len f < 256 ^ bytes (cc_length_format config)))
  /\ (forall c, survives_chunking (F := Hotline.hotline_codec) c
        (fun f => 0 <= Hotline.transaction_id f <= u32_max /\ len (Hotline.payload f) <= Hotline.limit c
                  /\ len (Hotline.payload f) + 20 <= u32_max))
  /\ (forall c, survives_chunking (F := Mysql.mysql_codec) c
        (fun f => len (Mysql.payload f) <= Mysql.limit c /\ len (Mysql.payload f) <= 0xffffff))
  /\ (forall c, survives_chunking (F := resp_codec) c
        (fun f => RespStream.carries (RespCodec.encoder c) f /\ len (RespCorrectness.wire f) <= isize_max)).
Proof.
  split_and!.
  - intros c. apply (stream_survives (L := length_stream)); [done|].
    intros st buf Hu%(length_unread_default (ld_max c)). by apply builder_unread_end in Hu.
  - intros config Hb. assert (Hw : 0 < length_field_length (build_codec config))
      by (rewrite build_codec_settings; cbn; lia).
    apply (stream_survives (L := builder_stream _ Hw)); cbn.
    + intros f. by rewrite build_codec_settings.
    + intros st buf. by apply builder_unread_end.
  - intros c. apply (stream_survives (L := Hotline.hotline_stream)); [done|]. by intros [].
  - intros c. apply (stream_survives (L := Mysql.mysql_stream)); [done|]. by intros [].
  - intros c. apply (stream_survives (L := resp_stream)); [done|]. by intros [].
Qed.

(** Three frames of a client that counts in two little-endian bytes. *)
Lemma frames_survive_any_chunking_witness :
  let config := mk_ClientCodecConfig (mk_LengthFormat 2 Little) 64 in
  let fs := [[7; 8; 9]; []; [1]] in
  let chunks := [[3]; [0; 7; 8]; [9; 0; 0; 1]; []; [0; 1]] in
  exists outs read,
    run (feed (F := builder_codec (T := reference_length_delimited) (build_codec config)) tt)
      (0%nat, Head, []) chunks = ((read, Head, []), outs)
    /\ concat outs = fs.
Proof.
  intros config fs chunks.
  destruct (frames_survive_any_chunking (T := reference_length_delimited) (I := reference_itoa))
    as (_ & H & _).
  destruct (H config ltac:(cbn; lia) fs) as (dst & He & Hrun).
  - repeat constructor; vm_compute; congruence.
  - apply (Hrun chunks); (vm_compute in He; injection He as <-); [reflexivity|vm_compute; congruence].
Defined.
