(* ===== verification/EndToEnd.v ===== *)
(** * A client and a server, end to end

    No source file of its own: the composition of [Client] (a connected
    client), [CodecStreams] and [LengthDelimited] (the codecs of the two ends),
    [Serializer] (bincode at both ends) and [Inbound] (the server's read loop),
    over a network that cuts the bytes of each direction anywhere.

    [remote_call] is one correlated call through all of them.  The
    specification is [local_call], the handler applied on the spot; the theorem
    is that a session of remote calls returns what the local ones return. *)

From S2P Require Import Prelude.
From S2P Require Import ByteOrder.
From S2P Require Import Envelope.
From S2P Require Import FragmentPayload.
From S2P Require Import Budgets.
From S2P Require Import LengthPrefix.
From S2P Require Import ClientError.
From S2P Require Import Client.
From S2P Require Import Inbound.
From S2P Require Import AsyncIo.
From S2P Require Import Preamble.
From S2P Require Import FrameCodec.
From S2P Require Import ExampleCodecs.
From S2P Require Import LengthDelimited.
From S2P Require Import CodecStreams.
From S2P Require Import Metrics.
From S2P Require Import Serializer.

Local Open Scope Z_scope.

Section EndToEnd.
Context {T : TokioLengthDelimited} {E : BincodeMessage Envelope}.
Context {B : BytesCrate} {BC : Bincode}.
(** The application's state, and the server's codec. *)
Context {A : Type}.
Context (codec : LengthDelimitedFrameCodec).

(** ** The two ends *)

(** The client's serializer is the default one. *)
Definition client_bincode : Client.Serializable Envelope := {|
  Client.serialize m := to_bytes m;
  Client.deserialize bytes := map_err failure_text (from_bytes bytes).1
|}.
#[local] Existing Instance client_bincode.

(** The server's world: the application's state and the bytes written to the
    socket. *)
Record ServerWorld : Type := mk_ServerWorld {
  app_state : A;
  written : list Z
}.

Definition write_frame (w : ServerWorld) (frame : list Z) : ServerWorld * result unit io_error :=
  match length_encode codec frame (written w) with
  | (bytes, r) => (mk_ServerWorld (app_state w) bytes, r)
  end.

(** The default codec and serializer, no protocol hook, no message assembler. *)
#[local] Instance server : Externals := {|
  Inbound.Frame := list Z;
  Inbound.World := ServerWorld;
  Inbound.SerializerError := DecodeFailure + string;
  Inbound.parse bytes := map_err inl (bincode_parse Bincode_ bytes).1;
  Inbound.should_deserialize_after_parse := should_deserialize_after_parse (M := Envelope) Bincode_;
  Inbound.deserialize_with_context bytes context :=
    map_err inr (deserialize_with_context (M := Envelope) Bincode_ bytes context).1;
  Inbound.deserialize bytes := map_err inr (deserialize (M := Envelope) Bincode_ bytes).1;
  Inbound.is_bincode_limit_exceeded e :=
    match e with inl LimitExceededFailure => true | _ => false end;
  Inbound.serialize e := map_err inr (serialize Bincode_ e);
  Inbound.frame_payload_of f := frame_payload (FrameCodec := length_codec) f;
  Inbound.frame_correlation_id f := correlation_id (FrameCodec := length_codec) f;
  Inbound.wrap_payload w p := (w, wrap_payload (FrameCodec := length_codec) codec p);
  Inbound.before_send w f := (w, f);
  Inbound.send := write_frame;
  Inbound.parse_frame_header _ := Err (mk_io_error ErrorKindOther "no message assembler")
|}.

(** A handler of the application, as a service of the connection. *)
Definition Handler : Type := A -> ServiceRequest -> A * result ServiceResponse io_error.
Definition lift (h : Handler) : Service := fun w request =>
  let '(a, r) := h (app_state w) request in (mk_ServerWorld a (written w), r).

(** ** A session *)

Record Session : Type := mk_Session {
  client : WireframeClient unit;
  connection : Connection;
  (* what each end has read and not yet decoded *)
  server_side : nat * DecodeState * list Z;
  client_side : nat * DecodeState * list Z
}.

(** The network delivers the bytes of each direction in pieces of any size. *)
Record Cuts : Type := mk_Cuts {
  cut_up : list Z -> list (list Z);
  cut_down : list Z -> list (list Z)
}.
Definition cuts_ok (k : Cuts) : Prop :=
  (forall bytes, concat (cut_up k bytes) = bytes) /\ (forall bytes, concat (cut_down k bytes) = bytes).

(** The client's transport frames with [ClientCodecConfig::build_codec]. *)
Definition client_codec (c : WireframeClient unit) : FrameCodec :=
  builder_codec (build_codec (codec_config c)).

(** One call: the bytes the client writes reach the server in pieces, it reads
    and handles the frames in them, and what it writes reaches the client in
    pieces, whose frames are the answers of the client's transport. *)
Definition remote_call (handlers : gmap Z Handler) (budgets : MemoryBudgets)
    (s : Session) (input : Envelope * (Cuts * Readings))
    : Session * option (result Envelope ClientError) :=
  let '(request, (cuts, clock)) := input in
  let outgoing :=
    drop (length (Client.sent (Client.framed (client s))))
      (Client.sent (Client.framed (Client.send_envelope request (client s)).1)) in
  let '(up, _) := encode_all (F := client_codec (client s)) tt outgoing [] in
  let '(server_side, frames) :=
    run (feed (F := length_codec) codec) (server_side s) (cut_up cuts up) in
  match process_loop (lift <$> handlers) budgets (connection s)
          (map (fun frame => (ReadFrame frame, clock)) (concat frames)) with
  | Some (conn, None) =>
      let down := drop (length (written (world (connection s)))) (written (world conn)) in
      let '(client_side, frames) :=
        run (feed (F := client_codec (client s)) tt) (client_side s) (cut_down cuts down) in
      let '(client, answer) :=
        call_correlated request
          (set_framed (set_incoming (map Client.Frame (concat frames)) (Client.framed (client s))) (client s)) in
      (mk_Session client conn server_side client_side, Some answer)
  | _ => (s, None)
  end.

(** ** The specification: a local call

    The request is stamped and handed to the handler on the spot.  [None] when
    no handler answers or a message does not fit the limits. *)

Definition fits (limit : Z) (e : Envelope) : bool :=
  match bincode_encode e with
  | Ok bytes => (len bytes <=? Z.min limit u32_max) && (claimed e <=? MAX_FRAME_LENGTH)
  | Err _ => false
  end.

Definition stamp (counter : Z) (request : Envelope) : Z * Envelope :=
  match envelope_correlation_id request with
  | Some _ => (counter, request)
  | None =>
      (wrapping_add u64_max counter 1,
       mk_Envelope (envelope_id request) (Some counter) (envelope_payload request))
  end.

Definition local_call (handlers : gmap Z Handler) (limit : Z) (x : A * Z) (request : Envelope)
    : option ((A * Z) * Envelope) :=
  let '(a, counter) := x in
  let '(counter, request) := stamp counter request in
  handler ← handlers !! envelope_id request;
  match handler a (mk_ServiceRequest (envelope_payload request) (envelope_correlation_id request)) with
  | (a, Ok response) =>
      let answer := mk_Envelope (envelope_id request) (envelope_correlation_id request)
                      (response_frame response) in
      if fits limit request && fits limit answer then Some ((a, counter), answer) else None
  | (_, Err _) => None
  end.

Fixpoint local_calls (handlers : gmap Z Handler) (limit : Z) (x : A * Z) (requests : list Envelope)
    : option ((A * Z) * list Envelope) :=
  match requests with
  | [] => Some (x, [])
  | request :: requests =>
      '(x, answer) ← local_call handlers limit x request;
      '(x, answers) ← local_calls handlers limit x requests;
      Some (x, answer :: answers)
  end.

(** ** Between two calls *)

(** Nothing is in flight, the client counts in the default format, which is the
    server's, and the server neither fragments nor assembles. *)
Definition quiet (limit : Z) (x : A * Z) (s : Session) : Prop :=
  limit = Z.min (ld_max codec) (cc_max_frame_length (codec_config (client s)))
  /\ LengthFormat_default = Some (cc_length_format (codec_config (client s)))
  /\ app_state (world (connection s)) = x.1 /\ correlation_counter (client s) = x.2
  /\ incoming (Client.framed (client s)) = [] /\ outcomes (Client.framed (client s)) = []
  /\ Client.before_send (request_hooks (client s)) = [] /\ after_receive (request_hooks (client s)) = []
  /\ message_assembly (connection s) = None
  /\ pipeline (connection s) = mk_FramePipeline None []
  /\ length_unread (server_side s).1.2 (server_side s).2 []
  /\ length_unread (client_side s).1.2 (client_side s).2 [].


(** ** Each end in turn *)

Context {TL : TokioLengthDelimitedLaws T} {EL : BincodeMessageLaws Envelope}.

Lemma fits_inv limit e :
  fits limit e = true -> exists bytes, bincode_encode e = Ok bytes
    /\ len bytes <= limit /\ claimed e <= MAX_FRAME_LENGTH /\ len bytes <= u32_max.
Proof.
  unfold fits. destruct (bincode_encode e) as [bytes|]; [|done].
  intros [H%Z.leb_le Hc%Z.leb_le]%andb_prop. exists bytes. split; [done|lia].
Qed.

Lemma from_bytes_exact e bytes :
  bincode_encode e = Ok bytes -> claimed e <= MAX_FRAME_LENGTH ->
  from_bytes bytes = (Ok (e, len bytes), []).
Proof.
  intros He Hl. unfold from_bytes, bounded_bincode_config.
  rewrite <-(app_nil_r bytes) at 1 2. by rewrite (decode_encoded e).
Qed.

(** A frame that is written arrives, whatever the pieces. *)
Lemma frame_arrives {F : FrameCodec} {L : StreamCodec F} c read st buf frame pieces :
  carries c frame -> unread c st buf [] -> len (wire c frame) <= isize_max ->
  concat pieces = wire c frame ->
  exists side outs, run (feed c) (read, st, buf) pieces = (side, outs)
    /\ concat outs = [frame] /\ unread c side.1.2 side.2 [].
Proof.
  intros Hc Hu Hlen Hp.
  destruct (feed_spec c [frame] pieces read st buf []) as (outs & s & Hrun & Ho & Hend).
  - by repeat constructor.
  - done.
  - simpl. lia.
  - simpl. by rewrite Hp, app_nil_r.
  - intros ->. simpl in Hp. symmetry in Hp. exfalso. by apply (wire_nonempty c frame).
  - simpl. by rewrite Hp.
  - by exists s, outs.
Qed.

Lemma length_wire_fits frame : len frame <= u32_max -> len (length_wire frame) <= isize_max.
Proof. intros H. unfold length_wire. rewrite len_app, put_u32_len. unfold isize_max, u32_max in *. lia. Qed.

Lemma frame_reaches_server side frame pieces :
  length_carries codec frame -> length_unread side.1.2 side.2 [] -> concat pieces = length_wire frame ->
  exists side' outs, run (feed (F := length_codec) codec) side pieces = (side', outs)
    /\ concat outs = [frame] /\ length_unread side'.1.2 side'.2 [].
Proof.
  intros Hc Hu Hp. destruct side as [[read st] buf].
  apply (frame_arrives (L := length_stream) codec read st buf frame pieces); [done|done| |done]. apply length_wire_fits, Hc.
Qed.

(** The client's transport in the default format. *)
Definition default_client (c : WireframeClient unit) : Prop :=
  LengthFormat_default = Some (cc_length_format (codec_config c)).

Lemma client_codec_default_format c :
  default_client c ->
  build_codec (codec_config c) = default_builder (cc_max_frame_length (codec_config c)).
Proof.
  unfold default_client. destruct (codec_config c) as [f m]. cbn. by intros [= <-].
Qed.

Lemma frame_reaches_client c side frame pieces :
  default_client c -> len frame <= cc_max_frame_length (codec_config c) -> len frame <= u32_max ->
  length_unread side.1.2 side.2 [] -> concat pieces = length_wire frame ->
  exists side' outs, run (feed (F := client_codec c) tt) side pieces = (side', outs)
    /\ concat outs = [frame] /\ length_unread side'.1.2 side'.2 [].
Proof.
  intros Hd Hm Hl Hu Hp. unfold client_codec. rewrite (client_codec_default_format c Hd). destruct side as [[read st] buf].
  set (b := default_builder (cc_max_frame_length (codec_config c))).
  destruct (frame_arrives (L := builder_stream b eq_refl) tt read st buf frame pieces)
    as (side' & outs & Hrun & Ho & Hend).
  - cbn. unfold builder_carries, u32_max in *. cbn. lia.
  - by apply (length_unread_default (cc_max_frame_length (codec_config c))).
  - by apply length_wire_fits.
  - exact Hp.
  - exists side', outs. split; [exact Hrun|]. split; [exact Ho|].
    by apply (length_unread_default (cc_max_frame_length (codec_config c))).
Qed.

Lemma client_encodes_one c frame :
  default_client c -> len frame <= cc_max_frame_length (codec_config c) -> len frame <= u32_max ->
  encode_all (F := client_codec c) tt [frame] [] = (length_wire frame, Ok tt).
Proof.
  intros Hd Hm Hl. unfold client_codec. rewrite (client_codec_default_format c Hd).
  set (b := default_builder (cc_max_frame_length (codec_config c))).
  rewrite (encode_all_appends (F := builder_codec b) (L := builder_stream b eq_refl) tt [frame] []).
  - cbn. by rewrite app_nil_r.
  - repeat constructor; [done|]. unfold u32_max in Hl. cbn. lia.
Qed.

Lemma encode_one c frame dst :
  length_carries c frame -> length_encode c frame dst = (dst ++ length_wire frame, Ok tt).
Proof. apply (encode_appends (StreamCodec := length_stream) c frame dst). Qed.

(** The client's half of a call: the stamped request goes out as one frame. *)
Lemma client_sends (c : WireframeClient unit) request bytes :
  outcomes (Client.framed c) = [] -> Client.before_send (request_hooks c) = [] ->
  bincode_encode (stamp (correlation_counter c) request).2 = Ok bytes ->
  exists c' id, Client.send_envelope request c = (c', Ok id)
    /\ envelope_correlation_id (stamp (correlation_counter c) request).2 = Some id
    /\ Client.sent (Client.framed c') = Client.sent (Client.framed c) ++ [bytes]
    /\ c' = set_framed (mk_Framed (incoming (Client.framed c)) [] (Client.sent (Client.framed c) ++ [bytes])
                          (write_closed (Client.framed c)))
              (set_counter (stamp (correlation_counter c) request).1 c).
Proof.
  intros Ho Hh Henc. unfold Client.send_envelope, stamp_correlation, stamp in *.
  cbn [Envelope.correlation_id Envelope_packet Packet_correlatable Envelope_correlatable] in *.
  destruct (envelope_correlation_id request) as [id|] eqn:Eid; cbn [snd fst] in *.
  - unfold serialize_and_send. cbn [Client.serialize client_bincode]. unfold to_bytes. rewrite Henc.
    unfold invoke_before_send_hooks. rewrite Hh. cbn [dispatch_before_send fold_left].
    unfold framed_send. rewrite Ho. do 2 eexists. split; [done|]. split; [done|]. split; [done|].
    by destruct c.
  - cbn [next_correlation_id Envelope.set_correlation_id Packet_correlatable Envelope_packet
         Envelope_correlatable]. unfold serialize_and_send.
    cbn [Client.serialize client_bincode]. unfold to_bytes. rewrite Henc.
    unfold invoke_before_send_hooks. cbn [request_hooks set_counter]. rewrite Hh.
    change (Client.framed (set_counter _ c)) with (Client.framed c).
    unfold dispatch_before_send, framed_send. cbn [fold_left]. rewrite Ho.
    do 2 eexists. split; [done|]. by split.
Qed.

(** The server's half: a frame that holds a request is dispatched. *)
Lemma server_decodes conn request bytes clock :
  message_assembly conn = None -> pipeline conn = mk_FramePipeline None [] ->
  is_Some (envelope_correlation_id request) ->
  bincode_encode request = Ok bytes -> claimed request <= MAX_FRAME_LENGTH ->
  build_dispatchable_envelope conn bytes (t_reassembly clock) (t_assembly clock)
  = (mk_Connection 0 None (mk_FramePipeline None []) (world conn), Ok (Some request)).
Proof.
  intros Hm Hp [id Hid] Henc Hlen. unfold build_dispatchable_envelope, parse_envelope.
  cbn [Inbound.frame_payload_of server frame_payload length_codec Inbound.parse].
  unfold bincode_parse. rewrite (from_bytes_exact request) by done.
  cbn [fst map_err Inbound.should_deserialize_after_parse server should_deserialize_after_parse
       BincodeSerializer_serializer].
  rewrite decide_False by congruence. unfold decode_envelope. rewrite Hid.
  cbn [pipeline message_assembly Inbound.deser_failures]. unfold reassemble_if_needed.
  rewrite Hp. cbn [Inbound.fragmentation]. by rewrite Hm.
Qed.

(** The answer of its handler is written as one frame. *)
Lemma server_forwards w request (handler : Handler) a' response answer_bytes :
  handler (app_state w)
    (mk_ServiceRequest (envelope_payload request) (envelope_correlation_id request)) = (a', Ok response) ->
  is_Some (envelope_correlation_id request) ->
  bincode_encode (mk_Envelope (envelope_id request) (envelope_correlation_id request)
                    (response_frame response)) = Ok answer_bytes ->
  length_carries codec answer_bytes ->
  forward_response w (mk_FramePipeline None []) request (lift handler)
  = Some (mk_ServerWorld a' (written w ++ length_wire answer_bytes), mk_FramePipeline None [], Ok tt).
Proof.
  intros Hrun [id Hid] Hans Hc. unfold forward_response, lift. rewrite Hrun, inherit_correlation_spec, Hid in *.
  cbn [process fragment_envelope Inbound.fragmentation mbind option_bind parts_id parts_payload out
       foldl push_frame app flush_pipeline_output drain_output send_all].
  unfold Inbound.send_envelope, Inbound.encode_message_frame.
  cbn [Inbound.serialize server serialize BincodeSerializer_serializer encode_with message_encodes].
  unfold message_encode_with, to_bytes, Envelope_from_parts, Envelope_new.
  cbn [parts_id parts_correlation_id parts_payload]. rewrite Hans.
  cbn [map_err Inbound.wrap_payload Inbound.before_send Inbound.send server wrap_payload length_codec].
  unfold write_frame. by rewrite encode_one by done.
Qed.

Lemma server_answers handlers budgets conn request bytes a' response clock (handler : Handler) answer_bytes :
  0 <= active_aggregate_limit_bytes budgets ->
  message_assembly conn = None -> pipeline conn = mk_FramePipeline None [] ->
  is_Some (envelope_correlation_id request) ->
  bincode_encode request = Ok bytes -> claimed request <= MAX_FRAME_LENGTH ->
  handlers !! envelope_id request = Some handler ->
  handler (app_state (world conn))
    (mk_ServiceRequest (envelope_payload request) (envelope_correlation_id request)) = (a', Ok response) ->
  bincode_encode (mk_Envelope (envelope_id request) (envelope_correlation_id request)
                    (response_frame response)) = Ok answer_bytes ->
  length_carries codec answer_bytes ->
  process_loop (lift <$> handlers) budgets conn [(ReadFrame bytes, clock)]
  = Some (mk_Connection 0 None (mk_FramePipeline None [])
            (mk_ServerWorld a' (written (world conn) ++ length_wire answer_bytes)), None).
Proof.
  intros Hb Hm Hp Hid Henc Hlen Hh Hrun Hans Hc.
  cbn [process_loop]. unfold process_step, fragmentation_buffered_bytes. rewrite Hm, Hp.
  cbn [Inbound.fragmentation].
  assert (Hpress : apply_memory_pressure (evaluate_memory_pressure None (Some budgets) 0)
      (fun conn => purge_expired conn (t_purge_fragments clock) (t_purge_assemblies clock)) conn
      = (conn, Ok tt)).
  { unfold evaluate_memory_pressure, has_hard_cap_been_breached, pressure_bytes, saturating_add.
    rewrite bool_decide_false by (unfold usize_max; lia).
    destruct (should_pause_inbound_reads _ _ _); [|done].
    unfold apply_memory_pressure, purge_expired. rewrite Hm, Hp. by destruct conn; simplify_eq/=. }
  rewrite Hpress. unfold handle_frame. rewrite (server_decodes conn request) by done.
  rewrite lookup_fmap, Hh. cbn [fmap option_fmap option_map]. cbn [world pipeline].
  by rewrite (server_forwards _ _ _ a' response answer_bytes) by done.
Qed.

(** The client's other half: the answer's frame ends the call. *)
Lemma client_receives (c : WireframeClient unit) request id answer bytes :
  outcomes (Client.framed c) = [] -> Client.before_send (request_hooks c) = [] ->
  after_receive (request_hooks c) = [] ->
  (exists bs, bincode_encode (stamp (correlation_counter c) request).2 = Ok bs) ->
  envelope_correlation_id (stamp (correlation_counter c) request).2 = Some id ->
  envelope_correlation_id answer = Some id ->
  bincode_encode answer = Ok bytes -> claimed answer <= MAX_FRAME_LENGTH ->
  incoming (Client.framed c) = [Client.Frame bytes] ->
  exists c', call_correlated request c = (c', Ok answer)
    /\ correlation_counter c' = (stamp (correlation_counter c) request).1
    /\ incoming (Client.framed c') = [] /\ outcomes (Client.framed c') = []
    /\ request_hooks c' = request_hooks c /\ codec_config c' = codec_config c.
Proof.
  intros Ho Hb Ha [bs Hreq] Hid Hans Henc Hlen Hin.
  destruct (client_sends c request bs Ho Hb Hreq) as (c1 & id1 & Hsend & Hid1 & _ & Hc1).
  rewrite Hid in Hid1. injection Hid1 as <-.
  unfold call_correlated. rewrite Hsend. unfold receive_envelope, receive_frame, framed_next.
  rewrite Hc1. cbn [Client.framed set_framed incoming]. rewrite Hin. cbn [next_event].
  unfold invoke_after_receive_hooks. cbn [request_hooks set_framed set_counter]. rewrite Ha.
  cbn [fold_left Client.deserialize client_bincode]. rewrite (from_bytes_exact answer) by done.
  cbn [fst map_err Envelope.correlation_id Envelope_packet Packet_correlatable Envelope_correlatable].
  rewrite decide_True by done. eexists. split; [done|]. by split_and!.
Qed.

Lemma remote_call_is_local handlers budgets limit x s request cuts clock x' answer :
  0 <= active_aggregate_limit_bytes budgets -> cuts_ok cuts -> quiet limit x s ->
  local_call handlers limit x request = Some (x', answer) ->
  exists s', remote_call handlers budgets s (request, (cuts, clock)) = (s', Some (Ok answer))
    /\ quiet limit x' s'.
Proof.
  intros Hb [Hup Hdown] (Hlim & Hfmt & Ha & Hcnt & Hin & Hout & Hbs & Har & Hm & Hp & Hss & Hcs) Hlocal.
  destruct x as [a counter]. cbn [fst snd] in *. subst a counter.
  unfold local_call in Hlocal. destruct (stamp (correlation_counter (client s)) request) as [k req] eqn:Est.
  destruct (handlers !! envelope_id req) as [handler|] eqn:Eh; [|done].
  cbn [mbind option_bind] in Hlocal.
  destruct (handler _ _) as [a' [response|]] eqn:Ehandler; [|done].
  set (ans := mk_Envelope _ _ _) in Hlocal.
  destruct (fits limit req) eqn:Ereq; [|done]. destruct (fits limit ans) eqn:Eans; [|done].
  cbn [andb] in Hlocal. injection Hlocal as <- <-.
  apply fits_inv in Ereq as (rb & Hrb & Hr1 & Hr2 & Hr3).
  apply fits_inv in Eans as (ab & Hab & Ha1 & Ha2 & Ha3).
  destruct (client_sends (client s) request rb Hout Hbs) as (c1 & id & Hsend & Hid & Hsent & Hc1);
    [by rewrite Est|]. rewrite Est in Hid. cbn [snd] in Hid.
  unfold remote_call. rewrite Hsend. cbn [fst]. rewrite Hsent, drop_app_length.
  rewrite client_encodes_one by (try done; lia).
  destruct (frame_reaches_server (server_side s) rb (cut_up cuts (length_wire rb)))
    as (ss & outs & -> & -> & Hss'); [split; lia|done|apply Hup|]. cbn [map].
  rewrite (server_answers handlers budgets (connection s) req rb a' response clock handler ab)
    by (first [done|by rewrite Hid|split; lia]).
  cbn [world written]. rewrite drop_app_length.
  destruct (frame_reaches_client (client s) (client_side s) ab (cut_down cuts (length_wire ab)))
    as (cs & outs' & -> & -> & Hcs'); [done|lia|lia|done|apply Hdown|].
  cbn [map].
  destruct (client_receives
    (set_framed (set_incoming [Client.Frame ab] (Client.framed (client s))) (client s))
    request id ans ab) as (c' & -> & Hk & Hi' & Ho' & Hh' & Hcc'); try done.
  - exists rb. cbn. by rewrite Est.
  - cbn. by rewrite Est.
  - eexists. split; [done|]. cbn in Hk. rewrite Est in Hk. unfold quiet.
    cbn [client connection server_side client_side world app_state message_assembly pipeline fst snd].
    rewrite Hh', Hcc', Hk, Hi', Ho'. by split_and!.
Qed.

Lemma remote_calls_refine handlers budgets limit : forall inputs x s x' answers,
  0 <= active_aggregate_limit_bytes budgets -> Forall (fun i => cuts_ok i.2.1) inputs ->
  quiet limit x s ->
  local_calls handlers limit x (map fst inputs) = Some (x', answers) ->
  exists s', run (remote_call handlers budgets) s inputs = (s', map (fun e => Some (Ok e)) answers)
    /\ quiet limit x' s'.
Proof.
  induction inputs as [|[request [cuts clock]] inputs IH]; intros x s x' answers Hb Hcuts Hq Hlocal.
  { injection Hlocal as <- <-. by exists s. }
  cbn [map fst local_calls] in Hlocal. apply Forall_cons in Hcuts as [Hc Hcuts].
  destruct (local_call handlers limit x request) as [[x1 answer]|] eqn:E1; [|done].
  cbn [mbind option_bind] in Hlocal.
  destruct (local_calls handlers limit x1 (map fst inputs)) as [[x2 rest]|] eqn:E2; [|done].
  cbn [mbind option_bind] in Hlocal. injection Hlocal as <- <-.
  destruct (remote_call_is_local handlers budgets limit x s request cuts clock x1 answer)
    as (s1 & H1 & Hq1); try done.
  destruct (IH x1 s1 x2 rest) as (s2 & H2 & Hq2); try done.
  exists s2. split; [|done]. cbn [run map]. by rewrite H1, H2.
Qed.

(** A client that has just connected ([ClientBuildParts::connect]) to a
    connection that has just started. *)
Definition connected (config : ClientCodecConfig) (handlers : gmap Z Handler)
    (budgets : option MemoryBudgets) (a : A) : option Session :=
  conn ← connection_start
    (mk_StreamProcessingContext (lift <$> handlers) (ld_max codec) false None budgets)
    (mk_ServerWorld a []);
  Some (mk_Session
    (mk_WireframeClient (mk_Framed [] [] [] false) config None false false (mk_RequestHooks [] []) 1 [] [])
    conn (0%nat, decoder (FrameCodec := length_codec) codec, [])
    (0%nat, decoder (FrameCodec := length_codec) codec, [])).

Lemma connected_quiet config handlers budgets a :
  LengthFormat_default = Some (cc_length_format config) ->
  exists s, connected config handlers budgets a = Some s
    /\ quiet (Z.min (ld_max codec) (cc_max_frame_length config)) (a, 1) s.
Proof. intros Hf. eexists. split; [reflexivity|]. by split_and!. Qed.
End EndToEnd.

(** C2: remote calls are local calls.  Let a client that counts frames in the
    default length format (four bytes, big-endian; the maximum is free) connect
    to a server with the default codec and serializer, both without hooks, and
    make any number of correlated calls.
    However the network cuts the bytes of each direction, when the handlers,
    applied on the spot one after the other, answer every request within the
    frame limits, and every request and answer encodes and keeps the decoding
    limit of bincode, then every remote call returns the handler's answer under
    the request's identifier and correlation identifier, the application ends
    in the state of the local run, and nothing is left in either direction. *)
Theorem remote_calls_are_local_calls {T : TokioLengthDelimited} {TL : TokioLengthDelimitedLaws T}
    {E : BincodeMessage Envelope} {EL : BincodeMessageLaws Envelope} {B : BytesCrate} {BC : Bincode}
    {A : Type} codec config (handlers : gmap Z (Handler (A := A))) budgets a calls x' answers :
  let limit := Z.min (ld_max codec) (cc_max_frame_length config) in
  let effective := resolve_effective_budgets budgets (ld_max codec) in
  LengthFormat_default = Some (cc_length_format config) ->
  0 <= active_aggregate_limit_bytes effective -> Forall (fun i => cuts_ok i.2.1) calls ->
  local_calls handlers limit (a, 1) (map fst calls) = Some (x', answers) ->
  exists s s', connected codec config handlers budgets a = Some s
    /\ run (remote_call codec handlers effective) s calls = (s', map (fun e => Some (Ok e)) answers)
    /\ quiet codec limit x' s'.
Proof.
  cbv zeta. intros Hf Hb Hcuts Hlocal.
  destruct (connected_quiet codec config handlers budgets a Hf) as (s & Hs & Hq).
  destruct (remote_calls_refine codec handlers (resolve_effective_budgets budgets (ld_max codec))
    _ calls _ s _ _ Hb Hcuts Hq Hlocal) as (s' & Hrun & Hq').
  by exists s, s'.
Qed.

(** ** A serializer of envelopes that satisfies the laws

    Only an instance of the class, to show that its laws can hold, and for
    concrete runs; bincode itself stays a parameter.  It writes the fields one
    after the other, integers of variable length, a tag byte before an option, a
    length before bytes, and counts what it read against the limit. *)

Definition envelope_in_range (e : Envelope) : bool :=
  (0 <=? envelope_id e) && (envelope_id e <=? u32_max)
  && match envelope_correlation_id e with Some c => (0 <=? c) && (c <=? u64_max) | None => true end
  && (len (envelope_payload e) <=? u64_max).

Definition envelope_bytes (e : Envelope) : list Z :=
  varint (envelope_id e)
  ++ match envelope_correlation_id e with Some c => 1 :: varint c | None => [0] end
  ++ varint (len (envelope_payload e)) ++ envelope_payload e.

Definition read_option (bytes : list Z) : option (option Z * list Z) :=
  match bytes with
  | 0 :: rest => Some (None, rest)
  | 1 :: rest => '(c, rest) ← read_varint rest; Some (Some c, rest)
  | _ => None
  end.

Definition read_envelope (bytes : list Z) : option (Envelope * list Z) :=
  '(id, rest) ← read_varint bytes;
  '(c, rest) ← read_option rest;
  '(n, rest) ← read_varint rest;
  if (n <=? len rest) && (id <=? u32_max)
  then Some (mk_Envelope id c (take (Z.to_nat n) rest), drop (Z.to_nat n) rest) else None.

Definition varint_envelope : BincodeMessage Envelope := {|
  bincode_encode e :=
    if envelope_in_range e then Ok (envelope_bytes e) else Err "number out of range";
  bincode_decode limit bytes :=
    match read_envelope bytes with
    | None => Err (OtherFailure "UnexpectedEnd")
    | Some (e, rest) =>
        let consumed := len bytes - len rest in
        match limit with
        | Some n => if n <? consumed then Err LimitExceededFailure else Ok (e, consumed)
        | None => Ok (e, consumed)
        end
    end;
  claimed e := len (envelope_bytes e)
|}.

Lemma read_envelope_bytes e more :
  envelope_in_range e = true -> read_envelope (envelope_bytes e ++ more) = Some (e, more).
Proof.
  destruct e as [id c p]. unfold envelope_in_range, envelope_bytes.
  cbn [envelope_id envelope_correlation_id envelope_payload].
  rewrite !andb_true_iff, !Z.leb_le. intros [[[H1 H2] Hc] Hp]. pose proof (len_nonneg p).
  unfold read_envelope. rewrite <-!app_assoc, read_varint_app by (unfold u32_max, u64_max in *; lia).
  cbn [mbind option_bind].
  assert (Hopt : forall rest, read_option (match c with Some c => 1 :: varint c | None => [0] end ++ rest)
            = Some (c, rest)).
  { intros rest. destruct c as [c|]; [|done]. cbn [app read_option].
    rewrite andb_true_iff, !Z.leb_le in Hc. by rewrite read_varint_app. }
  rewrite Hopt. cbn [mbind option_bind]. rewrite read_varint_app by lia. cbn [mbind option_bind].
  rewrite !(proj2 (Z.leb_le _ _)) by (rewrite ?len_app; pose proof (len_nonneg more); lia).
  unfold len. cbn [andb]. by rewrite Nat2Z.id, take_app_length, drop_app_length.
Qed.

#[export] Instance varint_envelope_laws : BincodeMessageLaws Envelope (B := varint_envelope).
Proof.
  split; intros e bs more limit; cbn [bincode_encode bincode_decode claimed varint_envelope];
    (destruct (envelope_in_range e) eqn:Er; [|done]); intros [= <-] Hl;
    rewrite read_envelope_bytes, len_app by done.
  - destruct limit as [n|]; [rewrite (proj2 (Z.ltb_ge _ _)) by lia|]; do 2 f_equal; lia.
  - by rewrite (proj2 (Z.ltb_lt _ _)) by lia.
Qed.

(** ** A counter served over a network that delivers single bytes *)

Definition counter : Handler (A := Z) := fun total request =>
  let total := total + hd 0 (request_frame request) in (total, Ok (mk_ServiceResponse [total] None)).
Definition bytewise : Cuts := mk_Cuts (map (fun b => [b])) (map (fun b => [b])).

Lemma remote_calls_are_local_calls_witness :
  let codec := ld_new 128 in
  let config := mk_ClientCodecConfig (mk_LengthFormat 4 Big) 1024 in
  let calls := [(mk_Envelope 7 None [5], (bytewise, mk_Readings 0 0 0 0));
                (mk_Envelope 7 (Some 90) [6], (mk_Cuts (fun b => [b]) (fun b => [[]; b]), mk_Readings 1 1 1 1));
                (mk_Envelope 7 None [8], (bytewise, mk_Readings 2 2 2 2))] in
  exists s s',
    connected (T := reference_length_delimited) (E := varint_envelope) (BC := varint_bincode) codec config {[7 := counter]} None 10
    = Some s
    /\ run (remote_call (T := reference_length_delimited) (E := varint_envelope) (B := reference_bytes)
             (BC := varint_bincode) codec {[7 := counter]} (resolve_effective_budgets None 128)) s calls
       = (s', [Some (Ok (mk_Envelope 7 (Some 1) [15])); Some (Ok (mk_Envelope 7 (Some 90) [21]));
               Some (Ok (mk_Envelope 7 (Some 2) [29]))]).
Proof.
  cbv zeta.
  destruct (@remote_calls_are_local_calls reference_length_delimited reference_length_delimited_laws
    varint_envelope varint_envelope_laws reference_bytes varint_bincode Z (ld_new 128)
    (mk_ClientCodecConfig (mk_LengthFormat 4 Big) 1024) {[7 := counter]} None 10
    [(mk_Envelope 7 None [5], (bytewise, mk_Readings 0 0 0 0));
     (mk_Envelope 7 (Some 90) [6], (mk_Cuts (fun b => [b]) (fun b => [[]; b]), mk_Readings 1 1 1 1));
     (mk_Envelope 7 None [8], (bytewise, mk_Readings 2 2 2 2))]
    (29, 3) [mk_Envelope 7 (Some 1) [15]; mk_Envelope 7 (Some 90) [21]; mk_Envelope 7 (Some 2) [29]])
    as (s & s' & Hs & Hrun & _).
  - reflexivity.
  - vm_compute. discriminate.
  - assert (Hb : forall l : list Z, concat (map (fun b => [b]) l) = l)
      by (induction l as [|b l IH]; [done|cbn; by rewrite IH]).
    repeat constructor; intros l; cbn; rewrite ?app_nil_r; done.
  - vm_compute. reflexivity.
  - exists s, s'. split; [exact Hs|exact Hrun].
Defined.
