(* ===== verification/TestingDrive.v ===== *)
(** * The drivers of the testing crate

    Models [wireframe_testing/src/helpers/]: [drive.rs], [runtime.rs],
    [codec.rs], [codec_drive.rs], [codec_ext.rs] and [payloads.rs].

    Unlike the drivers of [testkit/] ([TestKit]), these have one client future
    that writes everything and only then reads.  A drive is the transition
    system of [TestKit] with the reader held back until the writer is done. *)

From S2P Require Import Prelude.
From S2P Require Import FrameCodec.
From S2P Require Import LengthDelimited.
From S2P Require Import Metrics.
From S2P Require Import Serializer.
From S2P Require Import TestKit.
From S2P Require Import TestCodec.
From stdpp Require Import pretty.

Local Open Scope Z_scope.

(** ** [drive.rs] *)

Section SequentialDrive.
Context {H : Handler}.
Variable cap : Z.

Definition client_step (a : Action) (w : World) : option World :=
  match a with
  | ReaderWakes | ReaderReads _ | ReaderSeesEnd =>
      if up_closed w then drive_step cap ReadToEnd a w else None
  | _ => drive_step cap ReadToEnd a w
  end.

Definition client_rel (w w' : World) : Prop := exists a, client_step a w = Some w'.

Definition drive_sequential (frames : list (list Z)) (r : result (list Z) io_error) : Prop :=
  exists w, rtc client_rel (drive_start (write_frames frames)) w /\ drive_result w = Some r.
End SequentialDrive.

Section Drivers.
Context {H : Handler}.

Definition drive_with_frames_with_capacity (frames : list (list Z)) (capacity : Z)
    (r : result (list Z) io_error) : Prop := drive_sequential capacity frames r.
Definition drive_with_frames (frames : list (list Z)) (r : result (list Z) io_error) : Prop :=
  drive_with_frames_with_capacity frames DEFAULT_CAPACITY r.
Definition drive_with_frame_with_capacity (frame : list Z) (capacity : Z)
    (r : result (list Z) io_error) : Prop :=
  drive_with_frames_with_capacity [frame] capacity r.
Definition drive_with_frame (frame : list Z) (r : result (list Z) io_error) : Prop :=
  drive_with_frame_with_capacity frame DEFAULT_CAPACITY r.

(** The handler of a prepared application is the application's. *)
Definition drive_prepared_with_frames (frames : list (list Z)) (r : result (list Z) io_error) : Prop :=
  drive_sequential DEFAULT_CAPACITY frames r.
(** [prepared] is what [prepare] returned. *)
Definition prepare_and_drive_with_frames (prepared : result unit string) (frames : list (list Z))
    (r : result (list Z) io_error) : Prop :=
  match prepared with
  | Err e => r = Err (other e)
  | Ok _ => drive_prepared_with_frames frames r
  end.

(** The [_mut] drivers borrow the application instead of taking it. *)
Definition drive_with_frames_with_capacity_mut (frames : list (list Z)) (capacity : Z)
    (r : result (list Z) io_error) : Prop := drive_sequential capacity frames r.
Definition drive_with_frames_mut (frames : list (list Z)) (r : result (list Z) io_error) : Prop :=
  drive_with_frames_with_capacity_mut frames DEFAULT_CAPACITY r.
Definition drive_with_frame_with_capacity_mut (frame : list Z) (capacity : Z)
    (r : result (list Z) io_error) : Prop :=
  drive_with_frames_with_capacity_mut [frame] capacity r.
Definition drive_with_frame_mut (frame : list Z) (r : result (list Z) io_error) : Prop :=
  drive_with_frame_with_capacity_mut frame DEFAULT_CAPACITY r.

(** ** [runtime.rs] *)

Definition run_app (frames : list (list Z)) (capacity : option Z) (r : result (list Z) io_error) : Prop :=
  let resolved_capacity := default DEFAULT_CAPACITY capacity in
  if resolved_capacity =? 0
  then r = Err (invalid_input "capacity must be greater than zero")
  else if MAX_SLOW_IO_CAPACITY <? resolved_capacity
  then r = Err (invalid_input ("capacity must not exceed " +:+ pretty MAX_SLOW_IO_CAPACITY +:+ " bytes"))
  else drive_sequential resolved_capacity frames r.
End Drivers.

(** ** [codec.rs] *)

Section TestCodecs.
Context {T : TokioLengthDelimited}.

Definition TEST_MAX_FRAME : Z := DEFAULT_CAPACITY.

(** [LengthDelimitedCodec] with a maximum; a fresh one has read no header. *)
Record LdCodec : Type := mk_LdCodec { ld_limit : Z; ld_state : DecodeState }.
Definition new_test_codec (max_len : Z) : LdCodec := mk_LdCodec max_len Head.

Definition invalid_data (msg : string) : io_error := mk_io_error InvalidData msg.

Fixpoint decode_frames_go (fuel : nat) (max_len : Z) (st : DecodeState) (buf : list Z)
    : list Z * result (list (list Z)) io_error :=
  match fuel with
  | O => (buf, Err (other "out of fuel"))
  | S fuel =>
      match ld_decode max_len st buf with
      | (_, buf, Err error) => (buf, Err (invalid_data ("decode failed: " +:+ message error)))
      | (_, buf, Ok None) => (buf, Ok [])
      | (st, buf, Ok (Some frame)) =>
          match decode_frames_go fuel max_len st buf with
          | (buf, Ok frames) => (buf, Ok (frame :: frames))
          | (buf, Err e) => (buf, Err e)
          end
      end
  end.

Definition decode_frames_with_max (bytes : list Z) (max_len : Z) : result (list (list Z)) io_error :=
  let codec := new_test_codec max_len in
  match decode_frames_go (S (length bytes)) (ld_limit codec) (ld_state codec) bytes with
  | (_, Err e) => Err e
  | (buf, Ok frames) =>
      if bool_decide (buf = []) then Ok frames
      else Err (invalid_data ("unexpected trailing bytes after decode: " +:+ pretty (len buf)))
  end.
Definition decode_frames (bytes : list Z) : result (list (list Z)) io_error :=
  decode_frames_with_max bytes TEST_MAX_FRAME.

Definition encode_frame (codec : LdCodec) (bytes : list Z) : result (list Z) io_error :=
  match ld_encode (ld_limit codec) bytes [] with
  | (_, Err error) => Err (invalid_data ("encode failed: " +:+ message error))
  | (buf, Ok _) => Ok buf
  end.

(** ** [payloads.rs] *)

Fixpoint encode_payloads (payloads : list (list Z)) (codec : LdCodec)
    : result (list (list Z)) io_error :=
  match payloads with
  | [] => Ok []
  | payload :: payloads =>
      match ld_encode (ld_limit codec) payload [] with
      | (_, Err err) => Err (invalid_data ("frame encode failed: " +:+ message err))
      | (buf, Ok _) =>
          match encode_payloads payloads codec with
          | Err e => Err e
          | Ok bufs => Ok (buf :: bufs)
          end
      end
  end.

Context {H : Handler}.

Definition drive_with_payloads_with_capacity (payloads : list (list Z)) (capacity : Z)
    (r : result (list Z) io_error) : Prop :=
  let codec := new_test_codec DEFAULT_CAPACITY in
  match encode_payloads payloads codec with
  | Err e => r = Err e
  | Ok frames => drive_with_frames_with_capacity frames capacity r
  end.
Definition drive_with_payloads (payloads : list (list Z)) (r : result (list Z) io_error) : Prop :=
  drive_with_payloads_with_capacity payloads DEFAULT_CAPACITY r.

Definition drive_with_payloads_with_capacity_mut (payloads : list (list Z)) (capacity : Z)
    (r : result (list Z) io_error) : Prop :=
  let codec := new_test_codec DEFAULT_CAPACITY in
  match encode_payloads payloads codec with
  | Err e => r = Err e
  | Ok frames => drive_with_frames_with_capacity_mut frames capacity r
  end.
Definition drive_with_payloads_mut (payloads : list (list Z)) (r : result (list Z) io_error) : Prop :=
  drive_with_payloads_with_capacity_mut payloads DEFAULT_CAPACITY r.

(** The probe of the prefix only sizes a buffer, but its encoding can fail. *)
Definition drive_with_bincode {M} `{BincodeMessage M} (msg : M) (r : result (list Z) io_error) : Prop :=
  match bincode_encode msg with
  | Err error => r = Err (invalid_data ("bincode encode failed: " +:+ error))
  | Ok bytes =>
      let codec := new_test_codec DEFAULT_CAPACITY in
      match ld_encode (ld_limit codec) [] [] with
      | (_, Err e) => r = Err e
      | (_, Ok _) =>
          match ld_encode (ld_limit codec) bytes [] with
          | (_, Err e) => r = Err e
          | (framed, Ok _) => drive_with_frame framed r
          end
      end
  end.
End TestCodecs.

(** ** [codec_drive.rs] *)

Section CodecDrive.
Context {F : FrameCodec} {E : EofCodec F} {H : Handler}.

(** [decode_frames_with_codec] of [codec_ext.rs], which differs from the test
    kit's in its text. *)
Definition ext_decode_frames_with_codec (codec : Codec) (bytes : list Z)
    : result (list Frame) io_error :=
  let rounds := S (length bytes) in
  match decode_while (decode codec) rounds (decoder codec) bytes with
  | (_, _, Err e) => Err e
  | (st, buf, Ok frames) =>
      match decode_while (decode_eof codec) rounds st buf with
      | (_, _, Err e) => Err e
      | (st, buf, Ok more) =>
          if bool_decide (buf = []) then Ok (frames ++ more)
          else Err (mk_io_error InvalidData
                 ("trailing " +:+ pretty (len buf)
                  +:+ " byte(s) after decoding — possible truncated frame"))
      end
  end.

Definition drive_codec_frames_internal (codec : Codec) (payloads : list (list Z)) (capacity : Z)
    (r : result (list Frame) io_error) : Prop :=
  match encode_payloads_with_codec codec payloads with
  | Err e => r = Err e
  | Ok encoded =>
      exists raw, drive_sequential capacity encoded raw /\
        r = match raw with Err e => Err e | Ok raw => ext_decode_frames_with_codec codec raw end
  end.

Definition drive_with_codec_frames_with_capacity (codec : Codec) (payloads : list (list Z))
    (capacity : Z) (r : result (list Frame) io_error) : Prop :=
  drive_codec_frames_internal codec payloads capacity r.
Definition drive_with_codec_frames (codec : Codec) (payloads : list (list Z))
    (r : result (list Frame) io_error) : Prop :=
  drive_with_codec_frames_with_capacity codec payloads DEFAULT_CAPACITY r.
Definition drive_with_codec_payloads_with_capacity (codec : Codec) (payloads : list (list Z))
    (capacity : Z) (r : result (list (list Z)) io_error) : Prop :=
  exists frames, drive_with_codec_frames_with_capacity codec payloads capacity frames
    /\ r = map_ok extract_payloads frames.
Definition drive_with_codec_payloads (codec : Codec) (payloads : list (list Z))
    (r : result (list (list Z)) io_error) : Prop :=
  drive_with_codec_payloads_with_capacity codec payloads DEFAULT_CAPACITY r.
Definition drive_with_codec_payloads_with_capacity_mut (codec : Codec) (payloads : list (list Z))
    (capacity : Z) (r : result (list (list Z)) io_error) : Prop :=
  exists frames, drive_codec_frames_internal codec payloads capacity frames
    /\ r = map_ok extract_payloads frames.
Definition drive_with_codec_payloads_mut (codec : Codec) (payloads : list (list Z))
    (r : result (list (list Z)) io_error) : Prop :=
  drive_with_codec_payloads_with_capacity_mut codec payloads DEFAULT_CAPACITY r.
End CodecDrive.

(** ** The test codec *)

Section TestCodecRoundTrip.
Context {T : TokioLengthDelimited} {TL : TokioLengthDelimitedLaws T}.

Lemma test_decode_wire max payloads : forall fuel,
  Forall (length_carries (mk_LengthDelimitedFrameCodec max)) payloads ->
  (length payloads < fuel)%nat ->
  decode_frames_go fuel max Head (concat (map length_wire payloads)) = ([], Ok payloads).
Proof.
  induction payloads as [|p payloads IH]; intros fuel Hp Hf; (destruct fuel as [|fuel]; [cbn in Hf; lia|]);
    cbn [decode_frames_go map concat].
  - by rewrite ld_head_waits.
  - apply Forall_cons in Hp as [Hc Hp].
    pose proof (length_decode_data (mk_LengthDelimitedFrameCodec max) Head
      (length_wire p ++ concat (map length_wire payloads)) p (p ++ concat (map length_wire payloads)) Hc) as E.
    unfold length_decode in E. cbn [ld_max] in E. rewrite E by (unfold length_unread, length_wire; by rewrite <-app_assoc).
    rewrite ld_data_ready by (rewrite len_app; pose proof (len_nonneg p);
      pose proof (len_nonneg (concat (map length_wire payloads))); lia).
    unfold len. rewrite Nat2Z.id, drop_app_length, take_app_length.
    rewrite IH by (first [done|cbn in Hf; lia]). done.
Qed.

Lemma drive_payloads_wire codec payloads :
  Forall (length_carries (mk_LengthDelimitedFrameCodec (ld_limit codec))) payloads ->
  encode_payloads payloads codec = Ok (map length_wire payloads).
Proof.
  induction 1 as [|p payloads [Hl Hu] _ IH]; [done|]. cbn [encode_payloads].
  rewrite ld_encode_appends by done. by rewrite IH.
Qed.
End TestCodecRoundTrip.

(** What the test helpers encode they decode: payloads up to the codec's
    maximum come back. *)
Theorem test_frames_round_trip {T : TokioLengthDelimited} {TL : TokioLengthDelimitedLaws T} max payloads :
  Forall (fun p => len p <= max /\ len p <= u32_max) payloads ->
  exists frames, encode_payloads payloads (new_test_codec max) = Ok frames
    /\ decode_frames_with_max (concat frames) max = Ok payloads.
Proof.
  intros Hp. exists (map length_wire payloads). split; [by apply drive_payloads_wire|].
  unfold decode_frames_with_max. cbn [ld_limit ld_state new_test_codec].
  rewrite test_decode_wire; [done|done|].
  apply Nat.lt_succ_r. induction payloads as [|p payloads IH]; [done|]. cbn [map concat].
  apply Forall_cons in Hp as [_ Hp]. specialize (IH Hp). rewrite length_app.
  assert (1 <= length (length_wire p))%nat; [|cbn; lia].
  pose proof (put_u32_len (len p)). unfold length_wire. rewrite length_app. unfold len in *. lia.
Qed.

(** ** Every run of a drive *)

Section SequentialRuns.
Context {H : Handler} {HL : HandlerLaws H}.
Variables (cap : Z) (input : list Z).
Hypothesis cap_positive : 0 < cap.

Lemma client_drive w w' : client_rel cap w w' -> drive_rel cap ReadToEnd w w'.
Proof.
  intros [a Ha]. exists a. unfold client_step in Ha.
  destruct a; try done; by destruct (up_closed w).
Qed.

(** Nothing is received before everything is written. *)
Definition client_inv (w : World) : Prop :=
  drive_inv input w /\ (up_closed w = false -> received w = [] /\ pausing w = false /\ reader_done w = false).

Lemma client_inv_step w w' : client_inv w -> client_rel cap w w' -> client_inv w'.
Proof.
  intros [Hd Hr] Hw. split; [by eapply drive_inv_step, client_drive|].
  destruct Hw as [a Ha]. intros Hc. destruct Hd as [_ Hcl _ _ _].
  destruct w as [acts ends u uc sv un dn dc rcv ps rd fl].
  unfold client_step, drive_step in Ha. cbn [up_closed failed script] in *.
  destruct fl; [by destruct a, uc|].
  destruct uc; [rewrite (Hcl eq_refl) in Ha|destruct (Hr eq_refl) as (H1 & H2 & H3)];
    destruct a; unfold writer_step, server_step, reader_step in Ha; cbn [script up_closed serving] in Ha;
    try done; repeat (case_match; simplify_eq; try done).
Qed.

Lemma client_inv_runs w w' : client_inv w -> rtc (client_rel cap) w w' -> client_inv w'.
Proof. intros Hw Hr. induction Hr; eauto using client_inv_step. Qed.

(** The condition under which nobody waits for ever: the whole input fits into
    the pipe, or what the handler answers before its end does. *)
Definition room_enough : Prop :=
  len input <= cap \/
  forall a b sv o, input = a ++ b -> handle a = Ok (sv, o) -> len o <= cap.

Lemma client_progress w :
  room_enough -> client_inv w -> drive_result w = None -> exists w', client_rel cap w w'.
Proof.
  intros Hroom [Hd Hr] Hres.
  destruct (up_closed w) eqn:Eu.
  { destruct (drive_progress cap ReadToEnd input cap_positive I w Hd Hres) as (w' & a & Ha).
    exists w', a. unfold client_step. rewrite Eu. by destruct a. }
  destruct (Hr eq_refl) as (Hrec & _ & _). destruct Hd as [He Hc Hdn Hrd Hu].
  unfold drive_result in Hres. destruct (failed w) eqn:Ef; [done|].
  destruct Hu as (consumed & Hi & Hs).
  assert (Hstep : forall a w', drive_step cap ReadToEnd a w = Some w' ->
      match a with ReaderWakes | ReaderReads _ | ReaderSeesEnd => False | _ => True end ->
      exists w', client_rel cap w w') by (intros a w' E Ha; exists w', a; by destruct a).
  destruct (decide (down_closed w = true \/ up w = [])) as [Hw|Hw].
  { destruct (writer_progress cap ReadToEnd cap_positive w) as (a & w' & Ha & Hk); auto. by eapply Hstep. }
  assert (Hdc : down_closed w = false) by (destruct (down_closed w); [|done]; destruct Hw; by left).
  assert (Hup : up w <> []) by (intros E; destruct Hw; by right).
  destruct (decide (unsent w = [])) as [Eun|Eun].
  { destruct (serving w) as [st|] eqn:Es.
    - destruct (serve st (take (Z.to_nat 1) (up w))) as [[sv o]|p] eqn:Ev;
        (eapply (Hstep (ServerReads 1)); [|done]); unfold drive_step, server_step;
        rewrite Ef, Es, (bool_decide_eq_true_2 (unsent w = [])),
          (proj2 (Z.leb_le 1 (len (up w)))), Ev by (done || by apply len_pos); done.
    - eapply (Hstep ServerReturns); [|done]. unfold drive_step, server_step.
      by rewrite Ef, Es, Hdc, bool_decide_eq_true_2. }
  destruct (script w) as [|[[|b bs]|ms] acts] eqn:Esc.
  - eapply (Hstep WriterEnds); [|done]. unfold drive_step, writer_step. by rewrite Ef, Esc, Eu, He.
  - eapply (Hstep WriterGoesOn); [|done]. unfold drive_step, writer_step. by rewrite Ef, Esc.
  - destruct (Z.leb_spec (len (up w) + 1) cap) as [Hle|Hgt].
    { eapply (Hstep (WriterWrites 1)); [|done]. unfold drive_step, writer_step. rewrite Ef, Esc, Hdc.
      rewrite (proj2 (Z.leb_le 1 _)), (proj2 (Z.leb_le _ cap)) by (done || by apply len_pos). done. }
    destruct Hroom as [Hin|Hout].
    { exfalso. rewrite Hi, script_bytes_cons in Hin. cbn [act_bytes] in Hin.
      rewrite !len_app, Serializer.len_cons in Hin.
      pose proof (len_nonneg consumed). pose proof (len_nonneg bs).
      pose proof (len_nonneg (script_bytes acts)). lia. }
    assert (Hfit : len (down w) + len (unsent w) <= cap).
    { rewrite <-len_app. destruct (serving w) as [st|].
      - destruct Hs as [_ Hs]. rewrite Hrec in Hs. by apply (Hout _ _ _ _ Hi Hs).
      - destruct Hs as [Hans [?|[o Ho]]]; [congruence|].
        rewrite Hi, (returned_answer _ _ _ Ho), Hrec in Hans. injection Hans as ->.
        by apply (Hout _ _ _ _ Hi Ho). }
    pose proof (len_pos _ Eun). destruct (serving w) as [st|] eqn:Es;
      (eapply (Hstep (ServerWrites 1)); [|done]); unfold drive_step, server_step; rewrite Ef, Es;
      by rewrite (proj2 (Z.leb_le 1 (len (unsent w)))), (proj2 (Z.leb_le _ cap)) by lia.
  - eapply (Hstep WriterGoesOn); [|done]. unfold drive_step, writer_step. by rewrite Ef, Esc.
Qed.

Lemma client_finishes w :
  room_enough -> client_inv w ->
  exists w' r, rtc (client_rel cap) w w' /\ drive_result w' = Some r.
Proof.
  intros Hroom. induction (nearer_wf w) as [w _ IH]. intros Hw.
  destruct (drive_result w) as [r|] eqn:Hr; [by exists w, r|].
  destruct (client_progress w Hroom Hw Hr) as [w1 H1].
  destruct (IH w1) as (w' & r & Hrun & Hres);
    [by eapply drive_rel_nearer, client_drive|by eapply client_inv_step|].
  exists w', r. split; [by eapply rtc_l|done].
Qed.
End SequentialRuns.

(** C13: a sequential drive is right when it returns, and returns when there is
    room.  Take a handler that reads whenever it has nothing to write, to which
    it does not matter how its input is cut into reads, and which may write
    first, fail and return before the end of its input.  No run of it and of
    the client that writes and then reads is infinite.  A run that returns has
    the handler's answer to the frames laid end to end, or the handler's error;
    only if the handler returns before it has read them all it may also be the
    broken pipe of the client's write.  When the frames fit into the pipe, or
    what the handler answers before their end does, every run can be carried
    on until it returns. *)
Theorem sequential_drive_ends {H : Handler} {HL : HandlerLaws H} cap frames w :
  0 < cap -> rtc (client_rel cap) (drive_start (write_frames frames)) w ->
  let input := concat frames in
  Acc (flip (client_rel cap)) w
  /\ (forall r, drive_result w = Some r ->
        r = answer input \/ (r = Err broken_pipe /\ returns_early input))
  /\ (room_enough cap input ->
      exists w' r, rtc (client_rel cap) w w' /\ drive_result w' = Some r).
Proof.
  intros Hc Hrun input.
  assert (Hinv : client_inv (concat frames) w).
  { eapply client_inv_runs; [|exact Hrun]. split; [apply drive_inv_start; [done|apply frames_bytes]|].
    unfold drive_start. destruct handler_start as [[sv o]|p]; by intros _. }
  split; [|split; [intros r; apply drive_result_exact, Hinv|intros; by apply (client_finishes cap input)]].
  clear Hrun Hinv. induction (nearer_wf w) as [w _ IH]. constructor. intros w' Hw'.
  by apply IH, (drive_rel_nearer cap ReadToEnd), client_drive.
Qed.

Lemma sequential_drive_ends_witness :
  let w := drive_start (write_frames [[1; 2]; [3]]) in
  Acc (flip (client_rel 3)) w
  /\ (forall r, drive_result w = Some r ->
        r = Ok [1; 2; 3] \/ (r = Err broken_pipe /\ returns_early [1; 2; 3]))
  /\ (room_enough 3 [1; 2; 3] ->
      exists w' r, rtc (client_rel 3) w w' /\ drive_result w' = Some r).
Proof.
  exact (sequential_drive_ends (H := echo_handler) 3 [[1; 2]; [3]] (drive_start (write_frames [[1; 2]; [3]]))
    eq_refl (rtc_refl _ _)).
Defined.

(** ** A handler that does not read

    A schedule carried out, and the two ends of the example in the
    documentation of [drive_internal]: a handler that writes two bytes and
    returns, and a client with a byte to write. *)

Fixpoint carry_out {H : Handler} (cap : Z) (schedule : list Action) (w : World) : option World :=
  match schedule with
  | [] => Some w
  | a :: schedule => w ← client_step cap a w; carry_out cap schedule w
  end.

Lemma carry_out_runs {H : Handler} cap schedule : forall w w',
  carry_out cap schedule w = Some w' -> rtc (client_rel cap) w w'.
Proof.
  induction schedule as [|a schedule IH]; intros w w'; cbn; [by intros [= ->]|].
  destruct (client_step cap a w) as [w1|] eqn:E; [|done]. cbn. intros Hrun.
  eapply rtc_l; [by exists a|by apply IH].
Qed.

(** The client's byte is written before the handler is gone, or it is not. *)
Theorem unread_frame_may_break_drive :
  drive_sequential (H := greeting_handler) 64 [[0]] (Ok [1; 2])
  /\ drive_sequential (H := greeting_handler) 64 [[0]] (Err broken_pipe).
Proof.
  split.
  - eexists. split; [apply (carry_out_runs _ [WriterWrites 1; WriterGoesOn; WriterEnds; ServerWrites 2;
      ServerReturns; ReaderReads 2; ReaderSeesEnd]); vm_compute; reflexivity|vm_compute; reflexivity].
  - eexists. split; [apply (carry_out_runs _ [ServerWrites 2; ServerReturns; WriterBreaks]);
      vm_compute; reflexivity|vm_compute; reflexivity].
Qed.

(** ** Where it gets stuck *)

(** An application that answers every request with as many bytes. *)
Definition plain_echo : Handler := {|
  handler_state := unit;
  handler_start := Ok (Some tt, []);
  serve st bs := Ok (Some st, bs);
  at_end _ := Ok []
|}.

Lemma stuck_parts cap (bytes : list Z) :
  0 < cap -> 2 * cap + 2 <= len bytes ->
  exists b1 z b2 x y b3, bytes = b1 ++ (z :: b2) ++ x :: y :: b3 /\ len b1 = cap /\ len b2 = cap - 1.
Proof.
  intros Hc Hlen. set (n := Z.to_nat cap).
  assert (Hl1 : len (take n bytes) = cap) by (unfold n, len in *; rewrite length_take; lia).
  assert (Hl2 : len (take n (drop n bytes)) = cap)
    by (unfold n, len in *; rewrite length_take, length_drop; lia).
  assert (Hl3 : 2 <= len (drop n (drop n bytes))) by (unfold n, len in *; rewrite !length_drop; lia).
  pose proof (take_drop n bytes) as E1. pose proof (take_drop n (drop n bytes)) as E2.
  destruct (take n (drop n bytes)) as [|z b2]; [change (len []) with 0 in Hl2; lia|].
  destruct (drop n (drop n bytes)) as [|x [|y b3]];
    [change (len []) with 0 in Hl3; lia|unfold len in Hl3; cbn in Hl3; lia|].
  exists (take n bytes), z, b2, x, y, b3. rewrite Serializer.len_cons in Hl2.
  split_and!; [|done|lia]. by rewrite E2.
Qed.

(** The writer's and the handler's slices, as runs of the drive. *)
Section Slices.
Variable cap : Z.
Definition world (script : list WriteAct) (up : list Z) (serving : option (handler_state (Handler := plain_echo)))
    (unsent down : list Z) : World (H := plain_echo) :=
  mk_World script (Ok tt) up false serving unsent down false [] false false None.

Lemma taken {A} (a b : list A) n :
  n = len a -> take (Z.to_nat n) (a ++ b) = a /\ drop (Z.to_nat n) (a ++ b) = b.
Proof. intros ->. unfold len. by rewrite Nat2Z.id, take_app_length, drop_app_length. Qed.

Lemma slice_writes a b u sv un dn :
  0 < len a -> len u + len a <= cap ->
  client_rel cap (world [WriteAll (a ++ b)] u sv un dn) (world [WriteAll b] (u ++ a) sv un dn).
Proof.
  intros Ha Hu. exists (WriterWrites (len a)).
  unfold client_step, drive_step, writer_step. cbn [failed script up world].
  destruct (taken a b (len a) eq_refl) as [-> ->]. pose proof (len_nonneg b).
  by rewrite (proj2 (Z.ltb_lt _ _)), !(proj2 (Z.leb_le _ _)) by (rewrite ?len_app; lia).
Qed.
Lemma slice_reads a b sc dn :
  0 < len a -> client_rel cap (world sc (a ++ b) (Some tt) [] dn) (world sc b (Some tt) a dn).
Proof.
  intros Ha. exists (ServerReads (len a)).
  unfold client_step, drive_step, server_step. cbn [failed serving up unsent world].
  destruct (taken a b (len a) eq_refl) as [-> ->]. pose proof (len_nonneg b).
  by rewrite (proj2 (Z.ltb_lt _ _)), (proj2 (Z.leb_le _ _)) by (rewrite ?len_app; lia).
Qed.
Lemma slice_reads_all a sc dn :
  0 < len a -> client_rel cap (world sc a (Some tt) [] dn) (world sc [] (Some tt) a dn).
Proof. rewrite <-(app_nil_r a) at 2. apply slice_reads. Qed.
Lemma slice_answers a sc u dn :
  0 < len a -> len dn + len a <= cap ->
  client_rel cap (world sc u (Some tt) a dn) (world sc u (Some tt) [] (dn ++ a)).
Proof.
  intros Ha Hd. exists (ServerWrites (len a)).
  unfold client_step, drive_step, server_step. cbn [failed serving up unsent down world].
  destruct (taken a [] (len a) eq_refl) as [E1 E2]. rewrite app_nil_r in E1, E2. rewrite E1, E2.
  by rewrite (proj2 (Z.ltb_lt _ _)), !(proj2 (Z.leb_le _ _)) by lia.
Qed.
End Slices.

(** A sequential drive of an echoing application hangs: with more than twice
    the pipe's capacity to write there is a run after which the client waits
    for room in one direction and the handler for room in the other, for
    ever. *)
Theorem sequential_drive_deadlocks cap bytes :
  0 < cap -> 2 * cap + 2 <= len bytes ->
  exists w, rtc (client_rel (H := plain_echo) cap) (drive_start (write_frames [bytes])) w
    /\ drive_result w = None /\ forall a, client_step cap a w = None.
Proof.
  intros Hc Hlen. destruct (stuck_parts cap bytes Hc Hlen) as (b1 & z & b2 & x & y & b3 & -> & Hl1 & Hl2).
  exists (world [WriteAll (y :: b3)] (b2 ++ [x]) (Some tt) [z] b1).
  assert (Hz : len (z :: b2) = cap) by (rewrite Serializer.len_cons; lia).
  split; [|split; [done|]].
  - change (drive_start _) with (world [WriteAll (b1 ++ (z :: b2) ++ x :: y :: b3)] [] (Some tt) [] []).
    eapply rtc_l; [apply slice_writes; [lia|change (len []) with 0; lia]|]. cbn [app].
    eapply rtc_l; [apply (slice_reads_all cap b1); lia|].
    eapply rtc_l; [apply slice_answers; [lia|change (len []) with 0; lia]|]. cbn [app].
    eapply rtc_l; [apply (slice_writes cap (z :: b2)); [lia|change (len []) with 0; lia]|]. cbn [app].
    eapply rtc_l; [apply (slice_reads cap [z] b2); done|].
    eapply rtc_l; [apply (slice_writes cap [x] (y :: b3)); [done|change (len [x]) with 1; lia]|].
    apply rtc_refl.
  - assert (Hup : len (b2 ++ [x]) = cap) by (rewrite len_app; change (len [x]) with 1; lia).
    intros a. destruct a as [n| | | |n| |n| | |n|]; try done;
      unfold client_step, drive_step, writer_step, server_step;
      cbn [failed script up serving unsent down up_closed world].
    + destruct (Z.ltb_spec 0 n); [|done]. rewrite (proj2 (Z.leb_gt _ cap)) by lia. by rewrite andb_false_r.
    + by rewrite andb_false_r.
    + destruct (b2 ++ [x]) eqn:E; [by destruct b2|done].
    + destruct (Z.ltb_spec 0 n); [|done]. rewrite (proj2 (Z.leb_gt _ cap)) by lia. by rewrite andb_false_r.
Qed.

Lemma sequential_drive_deadlocks_witness :
  exists w, rtc (client_rel (H := plain_echo) 2) (drive_start (write_frames [[1; 2; 3; 4; 5; 6]])) w
    /\ drive_result w = None /\ forall a, client_step 2 a w = None.
Proof. apply (sequential_drive_deadlocks 2 [1; 2; 3; 4; 5; 6]); vm_compute; congruence. Defined.
