(* ===== verification/CodecFixtures.v ===== *)
(** * Wire fixtures for the Hotline codec

    Models [wireframe_testing/src/helpers/codec_fixtures.rs]: byte strings that
    tests feed to a decoder, valid ones, malformed ones and truncated ones,
    built without the encoder.  The theorem is that each does to the Hotline
    codec ([ExampleCodecs]) what it is for. *)

From S2P Require Import Prelude.
From S2P Require Import FrameCodec.
From S2P Require Import ExampleCodecs.
From S2P Require Import TestCodec.
From S2P Require Import TestingDrive.

Local Open Scope Z_scope.

(** ** Building a frame by hand *)

Definition FIXTURE_HEADER_LEN : Z := 20.

Definition u32_from_usize (value : Z) : Z := default u32_max (try_into u32_max value).

Record HotlineHeader : Type := mk_HotlineHeader {
  header_data_size : Z;
  header_total_size : Z;
  header_transaction_id : Z
}.

Inductive TotalSizePolicy : Type := Matching | OffByOne.

Definition policy_total_size (self : TotalSizePolicy) (data_size : Z) : Z :=
  let base_total := saturating_add usize_max data_size FIXTURE_HEADER_LEN in
  let declared_total :=
    match self with
    | Matching => base_total
    | OffByOne => saturating_add usize_max base_total 1
    end in
  u32_from_usize declared_total.

Record HotlineWireFixture : Type := mk_HotlineWireFixture {
  fixture_payload : list Z;
  fixture_transaction_id : Z;
  fixture_data_size : Z;
  fixture_total_size_policy : TotalSizePolicy
}.

Definition fixture_header (self : HotlineWireFixture) : HotlineHeader :=
  mk_HotlineHeader (u32_from_usize (fixture_data_size self))
    (policy_total_size (fixture_total_size_policy self) (fixture_data_size self))
    (fixture_transaction_id self).

Definition append_hotline_header (buf : list Z) (header : HotlineHeader) : list Z :=
  buf ++ be_bytes 4 (header_data_size header) ++ be_bytes 4 (header_total_size header)
    ++ be_bytes 4 (header_transaction_id header) ++ replicate 8 0.

Definition build_hotline_wire (fixture : HotlineWireFixture) : list Z :=
  append_hotline_header [] (fixture_header fixture) ++ fixture_payload fixture.

(** ** The fixtures *)

Definition valid_hotline_wire (payload : list Z) (transaction_id : Z) : list Z :=
  build_hotline_wire (mk_HotlineWireFixture payload transaction_id (len payload) Matching).

Definition valid_hotline_frame (payload : list Z) (transaction_id : Z) : Hotline.HotlineFrame :=
  let frame := Hotline.hotline_wrap_payload payload in
  Hotline.mk_HotlineFrame transaction_id (Hotline.payload frame).

Definition oversized_hotline_wire (max_frame_length : Z) : list Z :=
  let oversized_len := saturating_add usize_max max_frame_length 1 in
  build_hotline_wire
    (mk_HotlineWireFixture (replicate (Z.to_nat oversized_len) 0xab) 0 oversized_len Matching).

Definition mismatched_total_size_wire (payload : list Z) : list Z :=
  build_hotline_wire (mk_HotlineWireFixture payload 0 (len payload) OffByOne).

Definition truncated_hotline_header : list Z := replicate 10 0.

Definition truncated_hotline_payload (payload_len : Z) : list Z :=
  let declared_len := Z.max payload_len 1 in
  let header := mk_HotlineHeader (u32_from_usize declared_len)
    (u32_from_usize (saturating_add usize_max declared_len FIXTURE_HEADER_LEN)) 0 in
  let half_payload := Z.shiftr declared_len 1 in
  append_hotline_header [] header ++ replicate (Z.to_nat half_payload) 0xcc.

Definition correlated_hotline_wire (transaction_id : Z) (payloads : list (list Z)) : list Z :=
  foldl (fun buf payload => buf ++ valid_hotline_wire payload transaction_id) [] payloads.

(** [i as u32] truncates. *)
Definition sequential_hotline_wire (base_transaction_id : Z) (payloads : list (list Z)) : list Z :=
  foldl (fun buf '(i, payload) =>
      let tid := wrapping_add u32_max base_transaction_id (Z.of_nat i mod (u32_max + 1)) in
      buf ++ valid_hotline_wire payload tid)
    [] (imap pair payloads).

(** ** The codec at the end of a stream

    The adapter inherits [decode_eof]. *)

#[export] Instance hotline_eof : EofCodec Hotline.hotline_codec := {|
  decode_eof c st src :=
    match decode (FrameCodec := Hotline.hotline_codec) c st src with
    | (st, src, Ok None) =>
        if bool_decide (src = []) then (st, src, Ok None)
        else (st, src, Err (mk_io_error ErrorKindOther "bytes remaining on stream"))
    | r => r
    end
|}.
#[export] Instance hotline_eof_laws :
  EofCodecLaws Hotline.hotline_codec hotline_eof Hotline.hotline_stream.
Proof. split. intros c [] buf ->. by exists tt. Qed.

Lemma map_lookup {A B} (f : A -> B) l i : map f l !! i = f <$> l !! i.
Proof. apply list_lookup_fmap. Qed.

Lemma u32_from_usize_small v : 0 <= v <= u32_max -> u32_from_usize v = v.
Proof. intros Hv. unfold u32_from_usize. by rewrite (proj2 (try_into_Some u32_max v v)). Qed.

Section Fixtures.
Variable c : Hotline.HotlineFrameCodec.

(** A fixture that matches is the wire of a frame. *)
Lemma valid_wire_is_wire payload t :
  len payload + 20 <= u32_max ->
  valid_hotline_wire payload t = Hotline.hotline_wire (valid_hotline_frame payload t).
Proof.
  intros Hl. pose proof (len_nonneg payload).
  unfold valid_hotline_wire, build_hotline_wire, fixture_header, policy_total_size, append_hotline_header,
    saturating_add, FIXTURE_HEADER_LEN, Hotline.hotline_wire, Hotline.hotline_header, put_u32.
  cbn [fixture_data_size fixture_total_size_policy fixture_payload fixture_transaction_id header_data_size
       header_total_size header_transaction_id app].
  rewrite Z.min_r by (unfold u32_max, usize_max, u64_max in *; lia).
  rewrite !u32_from_usize_small by lia. reflexivity.
Qed.

Lemma valid_frame_carried payload t :
  0 <= t <= u32_max -> len payload <= Hotline.limit c -> len payload + 20 <= u32_max ->
  Hotline.hotline_carries c (valid_hotline_frame payload t).
Proof.
  intros Ht Hl Hu. unfold Hotline.hotline_carries, Hotline.HEADER_LEN.
  cbn [Hotline.payload Hotline.transaction_id valid_hotline_frame Hotline.hotline_wrap_payload]. lia.
Qed.

(** The header a decoder sees in front of a fixture. *)
Lemma header_fields h rest :
  0 <= header_data_size h <= u32_max -> 0 <= header_total_size h <= u32_max ->
  let src := append_hotline_header [] h ++ rest in
  len src = 20 + len rest /\ get_u32 src = header_data_size h /\ get_u32 (drop 4 src) = header_total_size h.
Proof.
  intros Hd Ht src. unfold src, append_hotline_header. cbn [app].
  split; [unfold len; rewrite !length_app, !length_be_bytes; cbn; lia|].
  rewrite <-!app_assoc. fold (put_u32 (header_data_size h)). fold (put_u32 (header_total_size h)).
  by rewrite drop_put_u32, !get_put_u32.
Qed.

(** A test that decodes a buffer sees the decoder's first error. *)
Lemma ext_decode_error bytes e :
  Hotline.hotline_decode c bytes = (bytes, Err e) ->
  ext_decode_frames_with_codec (F := Hotline.hotline_codec) c bytes = Err e.
Proof. intros E. unfold ext_decode_frames_with_codec. cbn [decode_while decode Hotline.hotline_codec]. by rewrite E. Qed.

Lemma ext_decode_truncated bytes :
  bytes <> [] -> Hotline.hotline_decode c bytes = (bytes, Ok None) ->
  ext_decode_frames_with_codec (F := Hotline.hotline_codec) c bytes
  = Err (mk_io_error ErrorKindOther "bytes remaining on stream").
Proof.
  intros Hne E. unfold ext_decode_frames_with_codec.
  cbn [decode_while decode decode_eof hotline_eof Hotline.hotline_codec].
  rewrite E. cbn [decode_while decode_eof hotline_eof decode Hotline.hotline_codec]. rewrite E.
  by rewrite bool_decide_eq_false_2.
Qed.

Lemma ext_decode_frames fs :
  Forall (Hotline.hotline_carries c) fs -> len (concat (map Hotline.hotline_wire fs)) <= isize_max ->
  ext_decode_frames_with_codec (F := Hotline.hotline_codec) c (concat (map Hotline.hotline_wire fs)) = Ok fs.
Proof.
  intros Hc Hl. unfold ext_decode_frames_with_codec.
  pose proof (wires_length (F := Hotline.hotline_codec) (L := Hotline.hotline_stream) c fs) as Hw.
  destruct (decode_while_frames (F := Hotline.hotline_codec) (L := Hotline.hotline_stream) c fs
    (S (length (concat (map Hotline.hotline_wire fs)))) tt _ Hc eq_refl) as ([] & buf & E & Hu);
    [cbn in Hw |- *; lia|done|].
  change (decode_while (decode (FrameCodec := Hotline.hotline_codec) c)
    (S (length (concat (map Hotline.hotline_wire fs)))) tt (concat (map Hotline.hotline_wire fs))
    = (tt, buf, Ok fs)) in E.
  cbn [decoder Hotline.hotline_codec]. rewrite E. cbn in Hu. subst buf.
  cbn [decode_while decode_eof hotline_eof decode Hotline.hotline_codec].
  change (Hotline.hotline_decode c []) with (@nil Z, @Ok (option Hotline.HotlineFrame) io_error None).
  cbn. by rewrite app_nil_r.
Qed.

Lemma correlated_concat t payloads :
  correlated_hotline_wire t payloads = concat (map (fun p => valid_hotline_wire p t) payloads).
Proof.
  unfold correlated_hotline_wire. change (concat _) with ([] ++ concat (map (fun p => valid_hotline_wire p t) payloads)).
  generalize (@nil Z). induction payloads as [|p payloads IH]; intros buf; cbn; [by rewrite app_nil_r|].
  by rewrite IH, <-app_assoc.
Qed.

Definition nth_transaction (base : Z) (i : nat) : Z :=
  wrapping_add u32_max base (Z.of_nat i mod (u32_max + 1)).

Lemma sequential_concat base payloads :
  sequential_hotline_wire base payloads
  = concat (map (fun '(i, p) => valid_hotline_wire p (nth_transaction base i)) (imap pair payloads)).
Proof.
  unfold sequential_hotline_wire. generalize (imap pair payloads). intros l.
  change (concat _) with ([] ++ concat (map (fun '(i, p) => valid_hotline_wire p (nth_transaction base i)) l)).
  generalize (@nil Z). induction l as [|[i p] l IH]; intros buf; cbn; [by rewrite app_nil_r|].
  by rewrite IH, <-app_assoc.
Qed.

Lemma nth_transaction_mod base i :
  nth_transaction base i = (base + Z.of_nat i) mod 2 ^ 32.
Proof.
  unfold nth_transaction, wrapping_add, u32_max. replace (2 ^ 32 - 1 + 1) with (2 ^ 32) by lia.
  by rewrite Zplus_mod_idemp_r.
Qed.

Lemma sequential_frames base payloads :
  Forall (fun p => len p + 20 <= u32_max) payloads ->
  sequential_hotline_wire base payloads
  = concat (map Hotline.hotline_wire
      (imap (fun i p => valid_hotline_frame p ((base + Z.of_nat i) mod 2 ^ 32)) payloads)).
Proof.
  intros Hp. rewrite sequential_concat. f_equal.
  apply list_eq. intros i. rewrite !map_lookup, !list_lookup_imap.
  destruct (payloads !! i) as [p|] eqn:Ep; [|done]. cbn [fmap option_fmap option_map]. eapply Forall_lookup_1 in Hp; [|done].
  by rewrite valid_wire_is_wire, nth_transaction_mod.
Qed.

Lemma frames_carried t payloads :
  Forall (fun p => len p <= Hotline.limit c /\ len p + 20 <= u32_max) payloads ->
  Forall (Hotline.hotline_carries c)
    (imap (fun i p => valid_hotline_frame p ((t + Z.of_nat i) mod 2 ^ 32)) payloads).
Proof.
  intros Hp. apply Forall_lookup_2. intros i f Hf. rewrite list_lookup_imap in Hf.
  destruct (payloads !! i) as [p|] eqn:E; [|done]. cbn in Hf. injection Hf as <-.
  eapply Forall_lookup_1 in Hp as [Hl Hu]; [|done]. apply valid_frame_carried; [|done|done].
  pose proof (Z.mod_pos_bound (t + Z.of_nat i) (2 ^ 32)). unfold u32_max. lia.
Qed.

(** The length of a wire does not depend on the transaction identifier. *)
Lemma wires_len (fs gs : list Hotline.HotlineFrame) :
  map Hotline.payload fs = map Hotline.payload gs ->
  len (concat (map Hotline.hotline_wire fs)) = len (concat (map Hotline.hotline_wire gs)).
Proof.
  revert gs. induction fs as [|f fs IH]; intros [|g gs]; intros E; try done.
  injection E as Ef Efs. cbn [map concat]. rewrite !len_app, (IH gs Efs). unfold Hotline.hotline_wire.
  by rewrite !len_app, !Hotline.hotline_header_len, Ef.
Qed.

Lemma oversized_refused :
  0 <= Hotline.limit c < u32_max ->
  Hotline.hotline_decode c (oversized_hotline_wire (Hotline.limit c))
  = (oversized_hotline_wire (Hotline.limit c), Err (mk_io_error InvalidData "payload too large")).
Proof.
  intros Hm. unfold oversized_hotline_wire, build_hotline_wire.
  set (f := mk_HotlineWireFixture _ _ _ _).
  assert (Hd : header_data_size (fixture_header f) = Hotline.limit c + 1).
  { unfold f, saturating_add. cbn. rewrite Z.min_r by (unfold u32_max, usize_max, u64_max in *; lia).
    apply u32_from_usize_small. lia. }
  assert (Ht : 0 <= header_total_size (fixture_header f) <= u32_max).
  { cbn. unfold policy_total_size, u32_from_usize. destruct (try_into _ _) as [t|] eqn:E; cbn; [|done].
    apply try_into_Some in E as [-> ?]. done. }
  destruct (header_fields (fixture_header f) (fixture_payload f)) as (H1 & H2 & H3); [lia|done|].
  unfold Hotline.hotline_decode. rewrite H1, H2, H3, Hd.
  pose proof (len_nonneg (fixture_payload f)).
  rewrite (proj2 (Z.ltb_ge _ _)) by (unfold Hotline.HEADER_LEN; lia).
  by rewrite (proj2 (Z.ltb_lt _ _)) by lia.
Qed.

Lemma mismatched_refused payload :
  len payload <= Hotline.limit c -> len payload + 21 <= u32_max ->
  Hotline.hotline_decode c (mismatched_total_size_wire payload)
  = (mismatched_total_size_wire payload, Err (mk_io_error InvalidData "invalid total size")).
Proof.
  intros Hl Hu. pose proof (len_nonneg payload). unfold mismatched_total_size_wire, build_hotline_wire.
  set (f := mk_HotlineWireFixture _ _ _ _).
  assert (Hd : header_data_size (fixture_header f) = len payload)
    by (apply u32_from_usize_small; lia).
  assert (Ht : header_total_size (fixture_header f) = len payload + 21).
  { cbn. unfold policy_total_size, saturating_add, FIXTURE_HEADER_LEN.
    rewrite !Z.min_r by (unfold u32_max, usize_max, u64_max in *; lia).
    rewrite u32_from_usize_small; lia. }
  destruct (header_fields (fixture_header f) (fixture_payload f)) as (H1 & H2 & H3); [lia|lia|].
  unfold Hotline.hotline_decode. rewrite H1, H2, H3, Hd, Ht. cbn [fixture_payload f].
  rewrite (proj2 (Z.ltb_ge (20 + _) _)), (proj2 (Z.ltb_ge _ _)) by (unfold Hotline.HEADER_LEN; lia).
  by rewrite (proj2 (Z.eqb_neq _ _)) by (unfold Hotline.HEADER_LEN; lia).
Qed.

Lemma truncated_waits n :
  let declared := Z.max n 1 in
  declared <= Hotline.limit c -> declared + 20 <= u32_max ->
  Hotline.hotline_decode c (truncated_hotline_payload n) = (truncated_hotline_payload n, Ok None).
Proof.
  intros declared Hl Hu. set (half := replicate (Z.to_nat (Z.shiftr declared 1)) 0xcc).
  set (frame := Hotline.mk_HotlineFrame 0 (replicate (Z.to_nat declared) 0)).
  assert (Hp : len (Hotline.payload frame) = declared)
    by (unfold len; cbn; rewrite length_replicate; lia).
  assert (E : truncated_hotline_payload n = Hotline.hotline_header frame ++ half).
  { unfold truncated_hotline_payload, append_hotline_header, Hotline.hotline_header, saturating_add,
      FIXTURE_HEADER_LEN. fold declared. cbn [header_data_size header_total_size header_transaction_id app].
    rewrite Z.min_r by (unfold u32_max, usize_max, u64_max in *; lia).
    rewrite !u32_from_usize_small, Hp by lia. reflexivity. }
  rewrite E, Hotline.hotline_decode_header.
  - rewrite (proj2 (Z.ltb_lt _ _)); [done|]. rewrite Hp. unfold half, len. rewrite length_replicate.
    rewrite Z.shiftr_div_pow2 by lia. change (2 ^ 1) with 2.
    pose proof (Z.div_lt declared 2). lia.
  - repeat split; rewrite ?Hp; cbn; unfold Hotline.HEADER_LEN, u32_max in *; lia.
Qed.
End Fixtures.

(** C30: the fixtures do what they are for.  To a codec whose limit they keep,
    the valid ones decode to the frame asked for, one after the other with the
    common transaction identifier, or with consecutive ones that wrap at 32
    bits; a frame one byte over the limit is refused as too large, one with a
    wrong total as having an invalid total size; and a header or a payload that
    is cut short is reported as bytes remaining. *)
Theorem hotline_fixtures_behave c payload payloads t n :
  0 <= t <= u32_max -> 0 <= Hotline.limit c < u32_max ->
  len payload <= Hotline.limit c -> len payload + 21 <= u32_max ->
  Forall (fun p => len p <= Hotline.limit c /\ len p + 20 <= u32_max) payloads ->
  len (concat (map (fun p => valid_hotline_wire p t) payloads)) <= isize_max ->
  Z.max n 1 <= Hotline.limit c -> Z.max n 1 + 20 <= u32_max ->
  let decode := ext_decode_frames_with_codec (F := Hotline.hotline_codec) c in
  decode (valid_hotline_wire payload t) = Ok [valid_hotline_frame payload t]
  /\ decode (correlated_hotline_wire t payloads) = Ok (map (fun p => valid_hotline_frame p t) payloads)
  /\ decode (sequential_hotline_wire t payloads)
     = Ok (imap (fun i p => valid_hotline_frame p ((t + Z.of_nat i) mod 2 ^ 32)) payloads)
  /\ decode (oversized_hotline_wire (Hotline.limit c)) = Err (mk_io_error InvalidData "payload too large")
  /\ decode (mismatched_total_size_wire payload) = Err (mk_io_error InvalidData "invalid total size")
  /\ decode truncated_hotline_header = Err (mk_io_error ErrorKindOther "bytes remaining on stream")
  /\ decode (truncated_hotline_payload n) = Err (mk_io_error ErrorKindOther "bytes remaining on stream").
Proof.
  intros Ht Hlim Hl Hu Hps Hlen Hn1 Hn2 decode. unfold decode.
  assert (Hps' : Forall (fun p => len p + 20 <= u32_max) payloads) by (eapply Forall_impl; [exact Hps|by intros ? []]).
  assert (Hcorr : correlated_hotline_wire t payloads
            = concat (map Hotline.hotline_wire (map (fun p => valid_hotline_frame p t) payloads))).
  { rewrite correlated_concat, map_map. f_equal. apply map_ext_Forall.
    eapply Forall_impl; [done|]. intros p Hp. by apply valid_wire_is_wire. }
  rewrite <-correlated_concat, Hcorr in Hlen.
  split_and!.
  - rewrite valid_wire_is_wire by lia. rewrite <-(app_nil_r (Hotline.hotline_wire _)).
    apply (ext_decode_frames c [valid_hotline_frame payload t]).
    + constructor; [apply valid_frame_carried; lia|constructor].
    + cbn [map concat]. rewrite app_nil_r. unfold Hotline.hotline_wire.
      rewrite len_app, Hotline.hotline_header_len. cbn [Hotline.payload valid_hotline_frame Hotline.hotline_wrap_payload].
      unfold Hotline.HEADER_LEN, isize_max, u32_max in *. lia.
  - rewrite Hcorr. apply ext_decode_frames; [|done]. apply Forall_map.
    eapply Forall_impl; [exact Hps|]. intros p [H1 H2]. by apply valid_frame_carried.
  - rewrite sequential_frames by done. apply ext_decode_frames; [by apply frames_carried|].
    erewrite wires_len; [exact Hlen|]. rewrite map_map. cbn.
    apply list_eq. intros i. rewrite !map_lookup, list_lookup_imap.
    by destruct (payloads !! i).
  - by apply ext_decode_error, oversized_refused.
  - by apply ext_decode_error, mismatched_refused.
  - by apply ext_decode_truncated.
  - apply ext_decode_truncated; [|by apply truncated_waits].
    unfold truncated_hotline_payload, append_hotline_header. intros E%(f_equal length).
    rewrite !length_app, length_be_bytes in E. cbn in E. lia.
Qed.

Lemma hotline_fixtures_behave_witness :
  let c := Hotline.mk_HotlineFrameCodec 64 in
  let decode := ext_decode_frames_with_codec (F := Hotline.hotline_codec) c in
  decode (valid_hotline_wire [1; 2] 4294967295) = Ok [valid_hotline_frame [1; 2] 4294967295]
  /\ decode (correlated_hotline_wire 4294967295 [[3]; []])
     = Ok (map (fun p => valid_hotline_frame p 4294967295) [[3]; []])
  /\ decode (sequential_hotline_wire 4294967295 [[3]; []])
     = Ok [Hotline.mk_HotlineFrame 4294967295 [3]; Hotline.mk_HotlineFrame 0 []]
  /\ decode (oversized_hotline_wire 64) = Err (mk_io_error InvalidData "payload too large")
  /\ decode (mismatched_total_size_wire [1; 2]) = Err (mk_io_error InvalidData "invalid total size")
  /\ decode truncated_hotline_header = Err (mk_io_error ErrorKindOther "bytes remaining on stream")
  /\ decode (truncated_hotline_payload 50) = Err (mk_io_error ErrorKindOther "bytes remaining on stream").
Proof.
  destruct (hotline_fixtures_behave (Hotline.mk_HotlineFrameCodec 64) [1; 2] [[3]; []] 4294967295 50)
    as (H1 & H2 & H3 & H4 & H5 & H6 & H7).
  - vm_compute. split; discriminate.
  - vm_compute. split; [discriminate|reflexivity].
  - vm_compute. discriminate.
  - vm_compute. discriminate.
  - repeat constructor; vm_compute; discriminate.
  - vm_compute. discriminate.
  - vm_compute. discriminate.
  - vm_compute. discriminate.
  - intros c decode. split; [exact H1|]. split; [exact H2|]. split; [|by split_and!].
    unfold decode, c. rewrite H3. reflexivity.
Defined.
