(* ===== verification/ExamplePrograms.v ===== *)
(** * The example programs

    Models the protocols of [examples/]: [echo.rs], [ping_pong.rs],
    [packet_enum.rs], [metadata_routing.rs], [multi_packet.rs] and
    [client_echo_login.rs] with [support/echo_login_contract.rs].  Each is a
    Section or a Module; their [main] functions, which start a runtime and a
    server, are left out.

    What they log is a list of entries, in the order of the calls.  What
    bincode does to their messages is a parameter, as in [Serializer]; the
    [Debug] texts of its errors are arguments. *)

From S2P Require Import Prelude.
From S2P Require Import ByteOrder.
From S2P Require Import Envelope.
From S2P Require Import FragmentPayload.
From S2P Require Import Budgets.
From S2P Require Import ClientError.
From S2P Require Import Client.
From S2P Require Import Inbound.
From S2P Require Import Mpsc.
From S2P Require Import FrameCodec.
From S2P Require Import Metrics.
From S2P Require Import Hooks.
From S2P Require Import Routing.
From S2P Require Import Serializer.
From S2P Require Import EndToEnd.
From stdpp Require Import pretty.

Local Open Scope Z_scope.

(** The applications of the examples have no connection state, protocol,
    assembler or dead-letter queue, and their services cannot fail. *)
Definition ExampleApp (Log : Type) : Type :=
  Routing.WireframeApp (list Log) Empty_set Envelope unit unit unit unit unit.
(** [App::new]: the default codec's frame length. *)
Definition app_new {Log : Type} : ExampleApp Log := app_default 1024.

(** ** [ping_pong.rs] *)

Module PingPong.

Record Ping : Type := mk_Ping { ping_value : Z }.
Record Pong : Type := mk_Pong { pong_value : Z }.
Record ErrorMsg : Type := mk_ErrorMsg { error_text : string }.

Inductive LogEntry : Type :=
  | LoggedError (msg : string)
  | LoggedRequest (frame : list Z)
  | LoggedResponse (frame : list Z).

Definition PING_ID : Z := 1.

Section PingPong.
Context {B1 : BincodeMessage Ping} {B2 : BincodeMessage Pong} {B3 : BincodeMessage ErrorMsg}.
Variable debug : DecodeFailure -> string.

Definition Log : Type := list LogEntry.
Definition PingService : Type := Routing.Service Log Empty_set.

Definition encode_error (msg : string) (w : Log) : Log * list Z :=
  match to_bytes (mk_ErrorMsg msg) with
  | Ok bytes => (w, bytes)
  | Err _ => (w ++ [LoggedError "failed to encode error"], [])
  end.

Definition ping_handler : Routing.Handler Log Envelope := fun _ w => w.

(** [PongService::call] *)
Definition pong_call (req : Routing.ServiceRequest) (inner : PingService) (w : Log)
    : Log * result Routing.ServiceResponse Empty_set :=
  let cid := req_correlation_id req in
  match (from_bytes (req_frame req)).1 with
  | Err e =>
      let '(w, bytes) :=
        encode_error ("decode error: " +:+ debug e) (w ++ [LoggedError "failed to decode ping"]) in
      (w, Ok (Routing.mk_ServiceResponse bytes cid))
  | Ok (ping_req, _) =>
      match inner req w with
      | (w, Err e) => (w, Err e)
      | (w, Ok response) =>
          match checked_add u32_max (ping_value ping_req) 1 with
          | None =>
              let '(w, bytes) := encode_error "overflow" (w ++ [LoggedError "ping overflowed"]) in
              (w, Ok (Routing.mk_ServiceResponse bytes cid))
          | Some v =>
              match to_bytes (mk_Pong v) with
              | Ok bytes => (w, Ok (Routing.mk_ServiceResponse bytes (resp_correlation_id response)))
              | Err e =>
                  let '(w, bytes) :=
                    encode_error ("encode error: " +:+ e) (w ++ [LoggedError "failed to encode pong"]) in
                  (w, Ok (Routing.mk_ServiceResponse bytes cid))
              end
          end
      end
  end.
Definition PongMiddleware : Middleware Log Empty_set := Routing.lift pong_call.

(** [LoggingService::call] *)
Definition logging_call (req : Routing.ServiceRequest) (inner : PingService) (w : Log)
    : Log * result Routing.ServiceResponse Empty_set :=
  match inner req (w ++ [LoggedRequest (req_frame req)]) with
  | (w, Err e) => (w, Err e)
  | (w, Ok resp) => (w ++ [LoggedResponse (resp_frame resp)], Ok resp)
  end.
Definition Logging : Middleware Log Empty_set := Routing.lift logging_call.

Definition build_app : result (ExampleApp LogEntry) RouteError :=
  match route PING_ID ping_handler app_new with
  | Err e => Err e
  | Ok app =>
      match wrap PongMiddleware app with
      | Err e => Err e
      | Ok app => wrap Logging app
      end
  end.

(** ** What it answers *)

(** The specification: the answer to a frame. *)
Definition pong_answer (frame : list Z) : result (list Z) string :=
  match (from_bytes (M := Ping) frame).1 with
  | Err e => to_bytes (mk_ErrorMsg ("decode error: " +:+ debug e))
  | Ok (p, _) =>
      if ping_value p =? u32_max then to_bytes (mk_ErrorMsg "overflow")
      else to_bytes (mk_Pong (ping_value p + 1))
  end.

(** The specification: what it logs on the way. *)
Definition pong_log (frame : list Z) : Log :=
  match (from_bytes (M := Ping) frame).1 with
  | Err _ => [LoggedError "failed to decode ping"]
  | Ok (p, _) =>
      [LoggedRequest frame; LoggedResponse frame]
      ++ (if ping_value p =? u32_max then [LoggedError "ping overflowed"] else [])
  end.

Lemma build_app_routes :
  exists app, build_app = Ok app /\ forall w0, exists p, build_prepared [PING_ID] app w0 = (w0, p)
    /\ (forall id, id <> PING_ID -> routes p !! id = None)
    /\ exists s, routes p !! PING_ID = Some s
         /\ svc s = from_fn pong_call (from_fn logging_call (RouteService PING_ID ping_handler)).
Proof.
  eexists. split; [reflexivity|]. intros w0. eexists. split; [reflexivity|]. split.
  - intros id Hid. cbn [routes]. by rewrite lookup_insert_ne.
  - eexists. split; [reflexivity|]. reflexivity.
Qed.
End PingPong.
End PingPong.

(** C31: the ping-pong server answers every request on its route, and keeps no
    other.  A ping is answered with the pong of the next number under the
    request's correlation identifier, the largest number with the overflow
    error, and anything else with a decode error (if the answer can be encoded).
    The logging middleware is the inner one and does not log each request and
    response: of a request that decodes it logs the frame, and then the same
    frame as the response, since the pong is made outside of it; of a request
    that does not decode it logs nothing. *)
Theorem ping_pong_answers {B1 : BincodeMessage PingPong.Ping} {B2 : BincodeMessage PingPong.Pong}
    {B3 : BincodeMessage PingPong.ErrorMsg} debug frame cid w0 w answer :
  (forall p n, (from_bytes frame).1 = Ok (p, n) -> 0 <= PingPong.ping_value p <= u32_max) ->
  PingPong.pong_answer debug frame = Ok answer ->
  exists app p s, PingPong.build_app debug = Ok app
    /\ build_prepared [PingPong.PING_ID] app w0 = (w0, p)
    /\ routes p !! PingPong.PING_ID = Some s
    /\ (forall id, id <> PingPong.PING_ID -> routes p !! id = None)
    /\ svc s (Routing.mk_ServiceRequest frame cid) w
       = (w ++ PingPong.pong_log frame, Ok (Routing.mk_ServiceResponse answer cid)).
Proof.
  intros Hrange Hans. destruct (PingPong.build_app_routes debug) as (app & Happ & Hprep).
  destruct (Hprep w0) as (p & Hp & Hno & s & Hs & Hsvc).
  exists app, p, s. split; [done|]. split; [done|]. split; [done|]. split; [done|].
  refine (eq_trans (f_equal (fun f => f (Routing.mk_ServiceRequest frame cid) w) Hsvc) _).
  clear Hsvc Hs Hno Hp Hprep Happ p. unfold from_fn at 1. unfold PingPong.pong_call, PingPong.pong_answer, PingPong.pong_log in *.
  cbn [req_frame req_correlation_id] in *.
  destruct (from_bytes (M := PingPong.Ping) frame) as [[[p n]|e] samples]; cbn [fst] in *.
  - specialize (Hrange p n eq_refl).
    unfold from_fn, Next_call, PingPong.logging_call, RouteService, PingPong.ping_handler.
    cbn [req_frame resp_frame resp_correlation_id req_correlation_id into_parts from_parts Envelope_packet
         PacketParts_from_envelope Envelope_from_parts Envelope_new parts_payload parts_correlation_id
         parts_id envelope_payload envelope_correlation_id envelope_id].
    destruct (Z.eqb_spec (PingPong.ping_value p) u32_max) as [E|E].
    + rewrite (proj2 (checked_add_None _ _ _)) by lia. unfold PingPong.encode_error. rewrite Hans.
      by rewrite <-!app_assoc.
    + rewrite (proj2 (checked_add_Some _ _ _ _)) by (split; [reflexivity|lia]).
      rewrite Hans. by rewrite <-!app_assoc, app_nil_r.
  - unfold PingPong.encode_error. by rewrite Hans.
Qed.

(** Two instances for concrete runs: a number of variable length, and a text
    as its length and its characters. *)
Definition varint_number {M} (make : Z -> M) (value : M -> Z) : BincodeMessage M := {|
  bincode_encode m := Ok (varint (value m));
  bincode_decode _ bytes :=
    match read_varint bytes with
    | Some (v, rest) =>
        if v <=? u32_max then Ok (make v, len bytes - len rest) else Err (OtherFailure "InvalidIntegerType")
    | None => Err (OtherFailure "UnexpectedEnd")
    end;
  claimed m := len (varint (value m))
|}.
Definition text_message {M} (make : string -> M) (text : M -> string) : BincodeMessage M := {|
  bincode_encode m :=
    Ok (varint (Z.of_nat (String.length (text m)))
        ++ map (fun c => Z.of_nat (Ascii.nat_of_ascii c)) (String.list_ascii_of_string (text m)));
  bincode_decode _ bytes :=
    match read_varint bytes with
    | Some (n, rest) =>
        if n <=? len rest
        then Ok (make (String.string_of_list_ascii
                         (map (fun b => Ascii.ascii_of_nat (Z.to_nat b)) (take (Z.to_nat n) rest))),
                 len bytes - len rest + n)
        else Err (OtherFailure "UnexpectedEnd")
    | None => Err (OtherFailure "UnexpectedEnd")
    end;
  claimed m := Z.of_nat (String.length (text m))
|}.

Lemma ping_pong_answers_witness :
  let B1 := varint_number PingPong.mk_Ping PingPong.ping_value in
  let B2 := varint_number PingPong.mk_Pong PingPong.pong_value in
  let B3 := text_message PingPong.mk_ErrorMsg PingPong.error_text in
  exists app p s, PingPong.build_app failure_text = Ok app
    /\ build_prepared [1] app [] = ([], p)
    /\ routes p !! 1 = Some s
    /\ (forall id, id <> 1 -> routes p !! id = None)
    /\ svc s (Routing.mk_ServiceRequest [41] (Some 7)) []
       = ([] ++ PingPong.pong_log [41],
          Ok (Routing.mk_ServiceResponse [42] (Some 7))).
Proof.
  intros B1 B2 B3.
  refine (ping_pong_answers (B1 := B1) (B2 := B2) (B3 := B3) failure_text [41] (Some 7) [] [] [42] _ eq_refl).
  intros p n H. vm_compute in H. injection H as <- <-. vm_compute. split; discriminate.
Defined.

(** ** [echo.rs] *)

Module Echo.
Definition echo_handler : Routing.Handler (list string) Envelope :=
  fun _ w => w ++ ["echo request received"].
Definition echo_build_app (handler : Routing.Handler (list string) Envelope)
    : result (ExampleApp string) RouteError := route 1 handler app_new.

(** The envelope comes back as it was. *)
Lemma echo_answers frame cid w :
  exists app p s, echo_build_app echo_handler = Ok app /\ build_prepared [1] app w = (w, p)
    /\ routes p !! 1 = Some s
    /\ svc s (Routing.mk_ServiceRequest frame cid) w
       = (w ++ ["echo request received"], Ok (Routing.mk_ServiceResponse frame cid)).
Proof. eexists _, _, _. split; [reflexivity|]. split; [reflexivity|]. split; reflexivity. Qed.
End Echo.

(** ** [packet_enum.rs] *)

Module PacketEnum.

Inductive ExamplePacket : Type :=
  | Ping
  | Chat (user msg : string)
  | Stats (values : list Z).
Record PacketFrame : Type := mk_Frame { headers : gmap string string; packet : ExamplePacket }.

Inductive PacketLogEntry : Type :=
  | PingSeen (headers : gmap string string)
  | ChatSeen (user msg : string)
  | StatsSeen (values : list Z)
  | DecodeFailed (e : DecodeFailure)
  | PacketReceived.

Section PacketEnum.
Context {B : BincodeMessage PacketFrame}.

Definition inspect (frame : list Z) : PacketLogEntry :=
  match (from_bytes (M := PacketFrame) frame).1 with
  | Ok (f, _) =>
      match packet f with
      | Ping => PingSeen (headers f)
      | Chat user msg => ChatSeen user msg
      | Stats values => StatsSeen values
      end
  | Err e => DecodeFailed e
  end.

(** [DecodeService::call] *)
Definition decode_call (req : Routing.ServiceRequest) (inner : Routing.Service (list PacketLogEntry) Empty_set)
    (w : list PacketLogEntry) : list PacketLogEntry * result Routing.ServiceResponse Empty_set :=
  inner req (w ++ [inspect (req_frame req)]).
Definition DecodeMiddleware : Middleware (list PacketLogEntry) Empty_set := Routing.lift decode_call.

Definition handle_packet : Routing.Handler (list PacketLogEntry) Envelope := fun _ w => w ++ [PacketReceived].

Definition packet_build_app : result (ExampleApp PacketLogEntry) RouteError :=
  match wrap DecodeMiddleware app_new with
  | Err e => Err e
  | Ok app => route 1 handle_packet app
  end.

(** The environment variable, or the default; parsing is the standard
    library's. *)
Definition DEFAULT_ADDR : string := "127.0.0.1:7879".
Definition parse_server_addr {Addr VarError} (parse : string -> result Addr string)
    (addr : result string VarError) : result Addr io_error :=
  let addr_str := match addr with Ok s => s | Err _ => DEFAULT_ADDR end in
  map_err (fun error => mk_io_error InvalidInput
             ("SERVER_ADDR must be a valid socket address: " +:+ error)) (parse addr_str).

(** The middleware looks and does not touch: whether or not a frame decodes,
    the handler runs and the frame is echoed. *)
Lemma decode_middleware_is_transparent frame cid w :
  exists app p s, packet_build_app = Ok app /\ build_prepared [1] app w = (w, p)
    /\ routes p !! 1 = Some s
    /\ svc s (Routing.mk_ServiceRequest frame cid) w
       = (w ++ [inspect frame; PacketReceived], Ok (Routing.mk_ServiceResponse frame cid)).
Proof.
  eexists _, _, _. split; [reflexivity|]. split; [reflexivity|]. split; [reflexivity|].
  change (((w ++ [inspect frame]) ++ [PacketReceived],
    @Ok Routing.ServiceResponse Empty_set (Routing.mk_ServiceResponse frame cid))
    = (w ++ [inspect frame; PacketReceived], Ok (Routing.mk_ServiceResponse frame cid))).
  by rewrite <-app_assoc.
Qed.
End PacketEnum.
End PacketEnum.

(** ** [metadata_routing.rs] *)

Module MetadataRouting.

Definition MAX_FRAME : Z := 64 * 1024.

Inductive HeaderSerializer : Type := Header.
#[export] Instance header_compatible : MessageCompatibilitySerializer HeaderSerializer := {}.
(** It defines [serialize] and [deserialize] and inherits the rest. *)
#[export] Instance HeaderSerializer_serializer {M} `{EncodeWith HeaderSerializer M}
    `{DecodeWith HeaderSerializer M} : Serializer HeaderSerializer M := {|
  serialize s m := encode_with m s;
  deserialize s bytes := decode_with s bytes context_empty;
  deserialize_with_context :=
    default_deserialize_with_context (fun s bytes => decode_with s bytes context_empty);
  should_deserialize_after_parse := default_should_deserialize_after_parse
|}.

Section MetadataRouting.
Context {B : BytesCrate} {BE : BincodeMessage Envelope}.

(** A slice of two bytes is an array of two bytes: the conversion cannot fail. *)
Definition header_parse (src : list Z) : result (Envelope * Z) io_error :=
  match slice_get src 0 2 with
  | None => Err (mk_io_error UnexpectedEof "header")
  | Some id_bytes =>
      match src !! 2%nat with
      | None => Err (mk_io_error UnexpectedEof "header flags")
      | Some _flags => Ok (Envelope_new (read_network_u16 id_bytes) None [], 3)
      end
  end.

(** The application's world: what its two handlers log. *)
Definition handler_log (msg : string) : Routing.Handler (list string) Envelope :=
  fun _ w => w ++ [msg].

(** The serializer as the pipeline sees it. *)
#[local] Instance header_externals : Externals := {|
  Inbound.Frame := list Z;
  Inbound.World := list string;
  Inbound.SerializerError := io_error + string;
  Inbound.parse bytes := map_err inl (header_parse bytes);
  Inbound.should_deserialize_after_parse := should_deserialize_after_parse (M := Envelope) Header;
  Inbound.deserialize_with_context bytes context :=
    map_err inr (deserialize_with_context (M := Envelope) Header bytes context).1;
  Inbound.deserialize bytes := map_err inr (deserialize (M := Envelope) Header bytes).1;
  Inbound.is_bincode_limit_exceeded _ := false;
  Inbound.serialize e := map_err inr (serialize Header e);
  Inbound.frame_payload_of f := f;
  Inbound.frame_correlation_id _ := None;
  Inbound.wrap_payload w p := (w, p);
  Inbound.before_send w f := (w, f);
  Inbound.send w f := (w, Ok tt);
  Inbound.parse_frame_header _ := Err (mk_io_error ErrorKindOther "no message assembler")
|}.

(** The two routes, without middleware, as the pipeline calls them. *)
Definition logging_route (id : Z) (msg : string) : Inbound.Service := fun w r =>
  let '(w, res) := RouteService (X := Empty_set) id (handler_log msg)
    (Routing.mk_ServiceRequest (request_frame r) (request_correlation_id r)) w in
  (w, match res with
      | Ok r => Ok (Inbound.mk_ServiceResponse (resp_frame r) (resp_correlation_id r))
      | Err e => match e with end
      end).
Definition example_routes : gmap Z Inbound.Service :=
  {[1 := logging_route 1 "received ping message"; 2 := logging_route 2 "received pong message"]}.

(** The frame the example sends: the identifier, the flags and the payload,
    which is empty for a unit struct. *)
Definition ping_frame (payload : list Z) : list Z := write_network_u16 1 ++ [0] ++ payload.

(** The header is read as written. *)
Lemma header_parse_exact {BL : BytesCrateLaws B} id flags rest :
  0 <= id <= u16_max ->
  header_parse (write_network_u16 id ++ flags :: rest) = Ok (mk_Envelope id None [], 3).
Proof.
  intros Hid. unfold header_parse.
  pose proof (write_network_u16_bytes id Hid) as Hw.
  assert (Hl : len (write_network_u16 id) = 2) by (rewrite Hw; len_solve).
  rewrite <-Hl, slice_get_prefix, lookup_app_r by (unfold len in Hl; lia).
  replace (2 - length (write_network_u16 id))%nat with 0%nat by (unfold len in Hl; lia).
  cbn [lookup list_lookup]. by rewrite network_u16_round_trip.
Qed.

(** What the pipeline makes of a frame. *)
Lemma parse_ignores_header frame :
  parse_envelope frame =
  match (from_bytes (M := Envelope) frame).1 with
  | Ok (e, n) => if decide (n <> len frame) then Err ParseTrailingBytes else Ok (e, n)
  | Err f => Err (ParseSerializer (inr (failure_text f)))
  end.
Proof.
  unfold parse_envelope. cbn [Inbound.parse header_externals Inbound.should_deserialize_after_parse
    should_deserialize_after_parse HeaderSerializer_serializer default_should_deserialize_after_parse
    Inbound.deserialize_with_context Inbound.deserialize Inbound.is_bincode_limit_exceeded].
  unfold default_deserialize_with_context. cbn [deserialize_with_context HeaderSerializer_serializer
    deserialize decode_with message_decodes]. unfold default_deserialize_with_context.
  cbn [decode_with message_decodes]. unfold message_decode_with.
  destruct (from_bytes (M := Envelope) frame) as [[[e n]|f] samples];
    by destruct (header_parse frame) as [[? ?]|?].
Qed.

Context {BC : Bincode}.

Lemma read_frame_dispatched routes (conn : Connection) e frame t :
  (from_bytes (M := Envelope) frame).1 = Ok (e, len frame) ->
  message_assembly conn = None -> pipeline conn = mk_FramePipeline None [] ->
  handle_frame routes conn frame t t
  = match routes !! envelope_id e with
    | None => Some (mk_Connection 0 None (mk_FramePipeline None []) (world conn), Ok tt)
    | Some handler =>
        '(w, p, r) ← forward_response (world conn) (mk_FramePipeline None []) e handler;
        Some (mk_Connection 0 None p w, r)
    end.
Proof.
  intros He Hm Hp. unfold handle_frame, build_dispatchable_envelope.
  cbn [Inbound.frame_payload_of header_externals]. rewrite parse_ignores_header, He, decide_False by congruence.
  cbn [decode_envelope pipeline message_assembly deser_failures Inbound.frame_correlation_id header_externals].
  replace (match envelope_correlation_id e with None => set_correlation_id e None | Some _ => e end) with e
    by (by destruct e as [? [?|] ?]).
  unfold reassemble_if_needed. rewrite Hp. cbn [Inbound.fragmentation]. by rewrite Hm.
Qed.

Lemma unread_frame_refused routes (conn : Connection) frame t :
  (forall e, (from_bytes (M := Envelope) frame).1 <> Ok (e, len frame)) ->
  deser_failures conn + 1 < MAX_DESER_FAILURES ->
  handle_frame routes conn frame t t
  = Some (mk_Connection (deser_failures conn + 1) (message_assembly conn) (pipeline conn) (world conn), Ok tt).
Proof.
  intros Hn Hf.
  assert (Hrec : record_none (deser_failures conn) MAX_DESER_FAILURES = (deser_failures conn + 1, Ok (@None Envelope))).
  { unfold record_none, record, saturating_add.
    replace (u32_max `min` (deser_failures conn + 1)) with (deser_failures conn + 1)
      by (unfold u32_max; unfold MAX_DESER_FAILURES in Hf; lia).
    by rewrite decide_False by lia. }
  unfold handle_frame, build_dispatchable_envelope.
  cbn [Inbound.frame_payload_of header_externals]. rewrite parse_ignores_header.
  destruct (from_bytes (M := Envelope) frame).1 as [[e n]|f] eqn:E; cbn [decode_envelope].
  - rewrite decide_True by (intros ->; by apply (Hn e)). cbn [decode_envelope]. by rewrite Hrec.
  - by rewrite Hrec.
Qed.
End MetadataRouting.
End MetadataRouting.

#[local] Existing Instance MetadataRouting.header_externals.

(** C37: the metadata example does not route by its header.  Its serializer
    inherits the second pass over a frame, so, whatever bincode makes of a
    frame, what the pipeline dispatches is what bincode reads from the whole
    frame, header included; the identifier in the header has no effect.  A frame
    that bincode reads to its end as an envelope goes to the route of that
    envelope, on a connection without fragmentation and message assembler, as
    the example's are; any other frame is refused: the failure is counted (the
    connection closes when the failures reach their maximum) and no handler
    runs, although the header of the frame that the example sends parses and
    names its route 1. *)
Theorem metadata_header_is_ignored {B : BytesCrate} {BL : BytesCrateLaws B} {BE : BincodeMessage Envelope}
    {BC : Bincode} frame routes conn t :
  MetadataRouting.header_parse (MetadataRouting.ping_frame []) = Ok (mk_Envelope 1 None [], 3)
  /\ parse_envelope frame =
     match (from_bytes (M := Envelope) frame).1 with
     | Ok (e, n) => if decide (n <> len frame) then Err ParseTrailingBytes else Ok (e, n)
     | Err f => Err (ParseSerializer (inr (failure_text f)))
     end
  /\ (forall e, (from_bytes (M := Envelope) frame).1 = Ok (e, len frame) ->
      message_assembly conn = None -> pipeline conn = mk_FramePipeline None [] ->
      handle_frame routes conn frame t t
      = match routes !! envelope_id e with
        | None => Some (mk_Connection 0 None (mk_FramePipeline None []) (world conn), Ok tt)
        | Some handler =>
            '(w, p, r) ← forward_response (world conn) (mk_FramePipeline None []) e handler;
            Some (mk_Connection 0 None p w, r)
        end)
  /\ ((forall e, (from_bytes (M := Envelope) frame).1 <> Ok (e, len frame)) ->
      deser_failures conn + 1 < MAX_DESER_FAILURES ->
      handle_frame routes conn frame t t
      = Some (mk_Connection (deser_failures conn + 1) (message_assembly conn) (pipeline conn) (world conn), Ok tt)).
Proof.
  split; [by apply MetadataRouting.header_parse_exact|].
  split; [apply MetadataRouting.parse_ignores_header|]. split.
  - intros e He Hm Hp. by apply MetadataRouting.read_frame_dispatched.
  - intros Hn Hf. by apply MetadataRouting.unread_frame_refused.
Qed.

(** The frame of the example is not read to its end. *)
Lemma metadata_header_is_ignored_witness :
  let B := reference_bytes in
  MetadataRouting.header_parse (B := B) (MetadataRouting.ping_frame (B := B) []) = Ok (mk_Envelope 1 None [], 3)
  /\ let X := MetadataRouting.header_externals (B := B) (BE := varint_envelope) in
     let conn := mk_Connection (X := X) 0 None (mk_FramePipeline None []) [] in
     handle_frame (B := B) (C := varint_bincode) (X := X)
       MetadataRouting.example_routes conn
       (MetadataRouting.ping_frame (B := B) []) 0 0
     = Some (mk_Connection (X := X) 1 None (mk_FramePipeline None []) [], Ok tt).
Proof.
  cbv zeta.
  destruct (metadata_header_is_ignored (B := reference_bytes) (BL := reference_bytes_laws)
    (BE := varint_envelope) (BC := varint_bincode) (MetadataRouting.ping_frame (B := reference_bytes) [])
    MetadataRouting.example_routes
    (mk_Connection (X := MetadataRouting.header_externals (B := reference_bytes) (BE := varint_envelope))
       0 None (mk_FramePipeline None []) []) 0) as (H1 & _ & _ & H2).
  split; [exact H1|]. apply H2; [|vm_compute; reflexivity]. intros e He. vm_compute in He. discriminate He.
Defined.

(** ** [client_echo_login.rs] *)

Module EchoLogin.

Definition LOGIN_ROUTE_ID : Z := 1.
Record LoginRequest : Type := mk_LoginRequest { request_username : string }.
Record LoginAck : Type := mk_LoginAck { ack_username : string }.

Inductive LoginError : Type :=
  | NotEncoded (e : string)
  | CallFailed (e : ClientError)
  | NotDecoded (e : DecodeFailure)
  | Mismatch (e : io_error).

Section EchoLogin.
Context {B1 : BincodeMessage LoginRequest} {B2 : BincodeMessage LoginAck} {BE : BincodeMessage Envelope}.
#[local] Existing Instance client_bincode.

Definition default_login : LoginRequest := mk_LoginRequest "guest".

Definition validate_acknowledgement (login : LoginRequest) (ack : LoginAck) : result unit LoginError :=
  if String.eqb (ack_username ack) (request_username login) then Ok tt
  else Err (Mismatch (mk_io_error ErrorKindOther
         ("login acknowledgement mismatch: sent '" +:+ request_username login
          +:+ "', received '" +:+ ack_username ack +:+ "'"))).

Definition request_acknowledgement (c : WireframeClient unit) (login : LoginRequest)
    : WireframeClient unit * result (Envelope * LoginAck) LoginError :=
  match to_bytes login with
  | Err e => (c, Err (NotEncoded e))
  | Ok payload =>
      let request := Envelope_new LOGIN_ROUTE_ID None payload in
      match call_correlated request c with
      | (c, Err e) => (c, Err (CallFailed e))
      | (c, Ok response) =>
          match (from_bytes (envelope_payload response)).1 with
          | Err e => (c, Err (NotDecoded e))
          | Ok (ack, _) => (c, Ok (response, ack))
          end
      end
  end.

(** [run], from the connected client on. *)
Definition login_run (c : WireframeClient unit) (login : LoginRequest)
    : WireframeClient unit * result unit LoginError :=
  match request_acknowledgement c login with
  | (c, Err e) => (c, Err e)
  | (c, Ok (_, ack)) => (c, validate_acknowledgement login ack)
  end.

(** A login and its acknowledgement have the same representation. *)
Class LoginContract : Prop := {
  ack_of_login (login : LoginRequest) bytes :
    bincode_encode login = Ok bytes ->
    bincode_decode bounded_bincode_config bytes = Ok (mk_LoginAck (request_username login), len bytes)
}.

(** An answer that echoes the login is accepted, and any other name is not. *)
Lemma login_needs_its_echo {LC : LoginContract} {EL : BincodeMessageLaws Envelope}
    (c : WireframeClient unit) login payload name echo bytes :
  outcomes (Client.framed c) = [] -> Client.before_send (request_hooks c) = [] ->
  after_receive (request_hooks c) = [] ->
  bincode_encode login = Ok payload ->
  (exists bs, bincode_encode (mk_Envelope LOGIN_ROUTE_ID (Some (correlation_counter c)) payload) = Ok bs) ->
  bincode_encode (mk_LoginRequest name) = Ok echo ->
  bincode_encode (mk_Envelope LOGIN_ROUTE_ID (Some (correlation_counter c)) echo) = Ok bytes ->
  claimed (mk_Envelope LOGIN_ROUTE_ID (Some (correlation_counter c)) echo) <= MAX_FRAME_LENGTH ->
  incoming (Client.framed c) = [Client.Frame bytes] ->
  (login_run c login).2 = Ok tt <-> name = request_username login.
Proof.
  intros Ho Hb Ha Hp Hreq He Hans Hlen Hin.
  destruct (client_receives c (Envelope_new LOGIN_ROUTE_ID None payload) (correlation_counter c)
    (mk_Envelope LOGIN_ROUTE_ID (Some (correlation_counter c)) echo) bytes) as (c' & Hcall & _); try done.
  unfold login_run, request_acknowledgement, to_bytes. rewrite Hp, Hcall. cbn [envelope_payload].
  unfold from_bytes. rewrite (ack_of_login _ _ He). cbn [fst snd].
  unfold validate_acknowledgement. cbn [ack_username request_username].
  destruct (String.eqb_spec name (request_username login)); split; done.
Qed.
End EchoLogin.
End EchoLogin.

(** ** [multi_packet.rs] *)

Module MultiPacketExample.

Definition TRANSCRIPT : list string :=
  ["Client: HELLO"; "Server: HELLO-ACK"; "Client: BEGIN"; "Server: PREPARED"].

Inductive FrameKind : Type :=
  | Chunk (index : Z)
  | Summary.
Record Frame : Type := mk_Frame { kind_ : FrameKind; data : string }.

Definition chunk (index : Z) (data : string) : Frame := mk_Frame (Chunk index) data.
Definition summary (total_chunks : Z) : Frame :=
  mk_Frame Summary (pretty total_chunks +:+ " transcript entries sent").
Definition display (f : Frame) : string :=
  match kind_ f with
  | Chunk index => "Chunk " +:+ pretty index +:+ ": " +:+ data f
  | Summary => "Summary: " +:+ data f
  end.

(** What the two tasks send, one after the other: the summary's task first
    waits for the chunks' task. *)
Definition to_send : list Frame :=
  imap (fun i line => chunk (Z.of_nat i) line) TRANSCRIPT ++ [summary (len TRANSCRIPT)].

Section Run.
Context {Q : Mpsc}.

(** The world between two awaits: the channel, what is left to send, and what
    the consumer has logged. *)
Record Run : Type := mk_Run { channel_ : Chan Frame; left : list Frame; logged : list string }.

Definition multi_packet_response : option Run :=
  match with_channel (F := Frame) (S := unit) 2 with
  | None => None
  | Some (c, _) => Some (mk_Run c to_send [])
  end.

Inductive Turn : Type := Produces | Consumes.

(** A producer whose [send] finds no room stays where it is; when nothing is
    left both senders are gone. *)
Definition turn (r : Run) (t : Turn) : Run :=
  match t with
  | Produces =>
      match left r with
      | [] => mk_Run (close (channel_ r)) [] (logged r)
      | f :: fs =>
          match try_send (channel_ r) f with
          | (c, Ok _) => mk_Run c fs (logged r)
          | (c, Err _) => mk_Run c (left r) (logged r)
          end
      end
  | Consumes =>
      match recv (channel_ r) with
      | Some (c, Some f) => mk_Run c (left r) (logged r ++ [display f])
      | Some (c, None) => mk_Run c (left r) (logged r)
      | None => r
      end
  end.

Definition play (r : Run) (ts : list Turn) : Run := fold_left turn ts r.

Context {QL : MpscLaws Q}.

(** What has been logged, what is in the channel and what is left make up
    everything, at any moment. *)
Definition transcript_ok (r : Run) : Prop :=
  capacity (channel_ r) = 2 /\ len (queued (channel_ r)) <= 2
  /\ (closed (channel_ r) = true -> left r = [])
  /\ logged r ++ map display (queued (channel_ r) ++ left r) = map display to_send.

Lemma transcript_turn r t : transcript_ok r -> transcript_ok (turn r t).
Proof.
  intros (Hk & Hl & Hc & Hall). destruct r as [c fs log]. cbn [channel_ left logged] in *.
  destruct t; cbn [turn channel_ left logged].
  - destruct fs as [|f fs].
    { destruct (close_law Frame c) as (Hq & Hk' & Hcl). unfold transcript_ok.
      cbn [channel_ left logged]. by rewrite Hq, Hk'. }
    destruct (closed c) eqn:Ec; [by specialize (Hc eq_refl)|].
    destruct (decide (capacity c <= len (queued c))) as [Hfull|Hroom].
    + rewrite try_send_full by done. unfold transcript_ok. cbn [channel_ left logged]. by rewrite Ec.
    + destruct (try_send_ok Frame c f) as (c' & -> & Hq & Hk' & Hcl); [done|lia|].
      unfold transcript_ok. cbn [channel_ left logged]. rewrite Hq, Hk', <-app_assoc.
      split; [done|]. split; [rewrite len_app; change (len [f]) with 1; lia|]. split; [|done].
      by rewrite Hcl.
  - destruct (queued c) as [|f q] eqn:Eq.
    + destruct (closed c) eqn:Ec; [rewrite recv_closed by done|rewrite recv_pending by done];
        unfold transcript_ok; cbn [channel_ left logged]; by rewrite ?Eq, ?Ec.
    + destruct (recv_frame Frame c f q Eq) as (c' & -> & Hq & Hk' & Hcl).
      unfold transcript_ok. cbn [channel_ left logged]. rewrite Hq, Hk', Hcl.
      split; [done|]. split; [unfold len in *; cbn in Hl; lia|]. split; [done|].
      rewrite <-app_assoc. done.
Qed.

Lemma transcript_play ts : forall r, transcript_ok r -> transcript_ok (play r ts).
Proof. induction ts as [|t ts IH]; intros r Hr; [done|]. by apply IH, transcript_turn. Qed.

(** It can always be carried to its end. *)
Lemma transcript_finishes n : forall r,
  transcript_ok r -> (2 * length (left r) + length (queued (channel_ r)) <= n)%nat ->
  exists ts, logged (play r ts) = map display to_send.
Proof.
  induction n as [n IH] using lt_wf_ind. intros r Hr Hn.
  destruct (queued (channel_ r)) as [|f q] eqn:Eq.
  - destruct (left r) as [|f fs] eqn:El.
    + exists []. destruct Hr as (_ & _ & _ & Hall). rewrite Eq, El, app_nil_r in Hall. done.
    + destruct Hr as (Hk & Hl & Hc & Hall).
      assert (Ec : closed (channel_ r) = false)
        by (destruct (closed (channel_ r)); [by rewrite Hc in El|done]).
      destruct (try_send_ok Frame (channel_ r) f) as (c' & Es & Hq & _ & _); [done|rewrite Eq, Hk; done|].
      assert (Et : turn r Produces = mk_Run c' fs (logged r)) by (cbn; by rewrite El, Es).
      destruct (IH (2 * length fs + 1)%nat) with (r := turn r Produces) as [ts Hts].
      * cbn in Hn. lia.
      * by apply transcript_turn.
      * rewrite Et. cbn [left channel_]. rewrite Hq, Eq. done.
      * by exists (Produces :: ts).
  - destruct (recv_frame Frame (channel_ r) f q Eq) as (c' & Es & Hq & _ & _).
    assert (Et : turn r Consumes = mk_Run c' (left r) (logged r ++ [display f])) by (cbn; by rewrite Es).
    destruct (IH (2 * length (left r) + length q)%nat) with (r := turn r Consumes) as [ts Hts].
    + cbn in Hn. lia.
    + by apply transcript_turn.
    + rewrite Et. cbn [left channel_]. by rewrite Hq.
    + by exists (Consumes :: ts).
Qed.
End Run.
End MultiPacketExample.

(** However the producing tasks and the consumer of the multi-packet
    example take their turns, the lines logged are at any moment the first of
    these five, in order and with none twice, and the run can be carried on
    until all five are. *)
Theorem multi_packet_logs_transcript {Q : Mpsc} {QL : MpscLaws Q} ts :
  let lines := ["Chunk 0: Client: HELLO"; "Chunk 1: Server: HELLO-ACK"; "Chunk 2: Client: BEGIN";
                "Chunk 3: Server: PREPARED"; "Summary: 4 transcript entries sent"] in
  exists r, MultiPacketExample.multi_packet_response = Some r
    /\ MultiPacketExample.logged (MultiPacketExample.play r ts) `prefix_of` lines
    /\ exists more, MultiPacketExample.logged
         (MultiPacketExample.play (MultiPacketExample.play r ts) more) = lines.
Proof.
  intros lines. change lines with (map MultiPacketExample.display MultiPacketExample.to_send).
  eexists. split; [reflexivity|].
  assert (H0 : MultiPacketExample.transcript_ok
    (MultiPacketExample.mk_Run (channel MultiPacketExample.Frame 2) MultiPacketExample.to_send [])).
  { destruct (channel_law MultiPacketExample.Frame 2) as (Hq & Hk & Hc); [done|].
    unfold MultiPacketExample.transcript_ok. cbn [MultiPacketExample.channel_ MultiPacketExample.left
      MultiPacketExample.logged]. rewrite Hq, Hk, Hc. done. }
  pose proof (MultiPacketExample.transcript_play ts _ H0) as Hts. split.
  - destruct Hts as (_ & _ & _ & Hall). rewrite <-Hall. by eexists.
  - by eapply MultiPacketExample.transcript_finishes.
Qed.

Lemma multi_packet_logs_transcript_witness :
  exists r, MultiPacketExample.multi_packet_response (Q := list_mpsc) = Some r
    /\ MultiPacketExample.logged (MultiPacketExample.play (Q := list_mpsc) r
         [MultiPacketExample.Produces; MultiPacketExample.Consumes])
       `prefix_of` ["Chunk 0: Client: HELLO"; "Chunk 1: Server: HELLO-ACK"; "Chunk 2: Client: BEGIN";
                    "Chunk 3: Server: PREPARED"; "Summary: 4 transcript entries sent"].
Proof.
  destruct (multi_packet_logs_transcript (Q := list_mpsc) (QL := list_mpsc_laws)
    [MultiPacketExample.Produces; MultiPacketExample.Consumes]) as (r & H1 & H2 & _).
  exists r. by split.
Defined.
