(* ===== verification/Observability.v ===== *)
(** * Observing metrics and logs in tests

    Models [wireframe_testing/src/observability/] and
    [wireframe_testing/src/logging.rs]: a handle on a recorder of metrics and a
    logger, and the assertions tests make about what they captured.

    The recorder of [metrics-util] is the class [DebuggingRecorder]: it takes
    the samples of [Metrics], and a snapshot has one entry per key with what
    was recorded since the snapshot before it.  Counters are 64-bit there and a
    sum of them is taken to be exact: past the width the code panics.  The logger of [logtest] is the
    list of its records. *)

From S2P Require Import Prelude.
From S2P Require Import Metrics.
From stdpp Require Import pretty.

Local Open Scope Z_scope.

(** ** [labels.rs] *)

Definition Labels : Type := list (string * string).
Definition labels_new : Labels := [].
Definition labels_with (key value : string) (self : Labels) : Labels := self ++ [(key, value)].
Definition labels_from (pairs : list (string * string)) : Labels := map (fun '(k, v) => (k, v)) pairs.
Definition as_str_pairs (self : Labels) : list (string * string) := map (fun '(k, v) => (k, v)) self.

(** ** The recorder *)

Inductive DebugValue : Type :=
  | DebugCounter (c : Z)
  | DebugGauge (g : Z)
  | DebugHistogram (samples : list Z).
Definition SnapshotEntry : Type := Key * DebugValue.

Class DebuggingRecorder : Type := {
  Recorder : Type;
  recorder_new : Recorder;
  emit : Sample -> Recorder -> Recorder;
  take_snapshot : Recorder -> Recorder * list SnapshotEntry
}.

Definition counter_entry (e : SnapshotEntry) : option (Key * Z) :=
  match e with (k, DebugCounter c) => Some (k, c) | _ => None end.
Definition histogram_entry (e : SnapshotEntry) : option (Key * list Z) :=
  match e with (k, DebugHistogram s) => Some (k, s) | _ => None end.
Definition key_of (s : Sample) : Key :=
  match s with
  | CounterIncrement k _ | GaugeIncrement k _ | GaugeDecrement k _ | HistogramRecord k _ => k
  end.
Definition durations (k : Key) (log : list Sample) : list Z :=
  omap (fun s => match s with HistogramRecord k' d => if decide (k' = k) then Some d else None | _ => None end) log.

(** [since r] are the samples since the last snapshot, [known r] the keys that
    were ever used. *)
Class DebuggingRecorderLaws (R : DebuggingRecorder) : Type := {
  since : Recorder -> list Sample;
  known : Recorder -> list Key;
  new_recorder : since recorder_new = [] /\ known recorder_new = [];
  emit_since s r : since (emit s r) = since r ++ [s];
  emit_known s r k : In k (known (emit s r)) <-> In k (known r) \/ k = key_of s;
  snapshot_resets r : since (take_snapshot r).1 = [] /\ known (take_snapshot r).1 = known r;
  snapshot_counters r : NoDup (map fst (omap counter_entry (take_snapshot r).2))
    /\ forall k c, In (k, c) (omap counter_entry (take_snapshot r).2) ->
         0 <= counted k (since r) <= u64_max -> c = counted k (since r);
  snapshot_has_counters r k n : In (CounterIncrement k n) (since r) ->
    In k (map fst (omap counter_entry (take_snapshot r).2));
  snapshot_histograms r k s : In (k, s) (omap histogram_entry (take_snapshot r).2) ->
    s = durations k (since r);
  snapshot_has_histograms r k : durations k (since r) <> [] ->
    In k (map fst (omap histogram_entry (take_snapshot r).2));
  snapshot_keys r e : In e (take_snapshot r).2 -> In e.1 (known r);
  snapshot_samples r s : In s (since r) -> In (key_of s) (map fst (take_snapshot r).2)
}.

(** ** The handle *)

Inductive Level : Type := LevelError | LevelWarn | LevelInfo | LevelDebug | LevelTrace.
#[export] Instance Level_eq_dec : EqDecision Level.
Proof. solve_decision. Defined.
Definition level_str (l : Level) : string :=
  match l with
  | LevelError => "ERROR" | LevelWarn => "WARN" | LevelInfo => "INFO"
  | LevelDebug => "DEBUG" | LevelTrace => "TRACE"
  end.
Record LogRecord : Type := mk_LogRecord { record_level : Level; record_args : string }.

(** [logging.rs]: a poisoned lock is recovered with its records drained. *)
Definition logger_new (poisoned : bool) (records : list LogRecord) : list LogRecord :=
  if poisoned then [] else records.
Definition logger_clear (records : list LogRecord) : list LogRecord := [].

Section Observability.
Context {R : DebuggingRecorder}.

Record ObservabilityHandle : Type := mk_ObservabilityHandle {
  logger : list LogRecord;
  recorder : Recorder;
  captured : list SnapshotEntry
}.

Definition handle_new (poisoned : bool) (records : list LogRecord) : ObservabilityHandle :=
  mk_ObservabilityHandle (logger_new poisoned records) recorder_new [].
Definition handle_snapshot (self : ObservabilityHandle) : ObservabilityHandle :=
  let '(r, entries) := take_snapshot (recorder self) in mk_ObservabilityHandle (logger self) r entries.
Definition handle_clear (self : ObservabilityHandle) : ObservabilityHandle :=
  let '(r, _) := take_snapshot (recorder self) in
  mk_ObservabilityHandle (logger_clear (logger self)) r [].
(** The code under test, between two calls of the handle. *)
Definition observe (samples : list Sample) (records : list LogRecord) (self : ObservabilityHandle)
    : ObservabilityHandle :=
  mk_ObservabilityHandle (logger self ++ records) (fold_left (fun r s => emit s r) samples (recorder self))
    (captured self).

(** Every label asked for is among the key's. *)
Definition key_matches (name : string) (labels : list (string * string)) (k : Key) : bool :=
  bool_decide (key_name k = name)
  && forallb (fun '(l, v) => existsb (fun '(l', v') => bool_decide (l' = l) && bool_decide (v' = v)) (key_labels k))
       labels.

Definition find_counter (snapshot : list SnapshotEntry) (name : string) (labels : list (string * string)) : Z :=
  zsum snd (omap counter_entry (base.filter (fun e => key_matches name labels e.1 = true) snapshot)).

Definition counter (self : ObservabilityHandle) (name : string) (labels : Labels) : Z :=
  find_counter (captured self) name (as_str_pairs labels).
Definition counter_without_labels (self : ObservabilityHandle) (name : string) : Z :=
  counter self name labels_new.
Definition codec_error_counter (self : ObservabilityHandle) (error_type recovery_policy : string) : Z :=
  counter self CODEC_ERRORS
    (labels_from [("error_type", error_type); ("recovery_policy", recovery_policy)]).

(** ** [assertions.rs]; [debug] is the [Debug] text of labels and of strings. *)

Variable debug_labels : Labels -> string.
Variable debug_str : string -> string.
Variable debug_strs : list string -> string.

Definition assert_counter (self : ObservabilityHandle) (name : string) (labels : Labels) (expected : Z)
    : result unit string :=
  let actual := find_counter (captured self) name (as_str_pairs labels) in
  if actual =? expected then Ok tt
  else Err ("counter " +:+ name +:+ " with labels " +:+ debug_labels labels +:+ ": expected "
            +:+ pretty expected +:+ ", got " +:+ pretty actual).

Definition assert_histogram_recorded (self : ObservabilityHandle) (name : string) (labels : Labels)
    : result unit string :=
  let recorded := existsb (fun '(_, s) => negb (bool_decide (s = [])))
    (omap histogram_entry
       (base.filter (fun e => key_matches name (as_str_pairs labels) e.1 = true) (captured self))) in
  if recorded then Ok tt
  else Err ("histogram " +:+ name +:+ " with labels " +:+ debug_labels labels +:+ " did not record a value").

Definition assert_no_metric (self : ObservabilityHandle) (name : string) : result unit string :=
  if existsb (fun e => bool_decide (key_name e.1 = name)) (captured self)
  then Err ("expected no metric named " +:+ name +:+ ", but found one") else Ok tt.

Definition assert_codec_error_counter (self : ObservabilityHandle) (error_type recovery_policy : string)
    (expected : Z) : result unit string :=
  let actual := codec_error_counter self error_type recovery_policy in
  if actual =? expected then Ok tt
  else Err ("codec error counter (error_type=" +:+ error_type +:+ ", recovery_policy="
            +:+ recovery_policy +:+ "): expected " +:+ pretty expected +:+ ", got " +:+ pretty actual).

(** [while let Some(record) = self.logger.pop()]: every record is taken. *)
Fixpoint drain_log (predicate : LogRecord -> bool) (format_record : LogRecord -> string)
    (log : list LogRecord) (matched : bool) (records : list string) : bool * list string :=
  match log with
  | [] => (matched, records)
  | record :: log =>
      if negb matched && predicate record then drain_log predicate format_record log true records
      else drain_log predicate format_record log matched (records ++ [format_record record])
  end.
Definition assert_log_matches (self : ObservabilityHandle) (predicate : LogRecord -> bool)
    (format_record : LogRecord -> string) (error_msg : list string -> string)
    : ObservabilityHandle * result unit string :=
  let '(matched, records) := drain_log predicate format_record (logger self) false [] in
  (mk_ObservabilityHandle [] (recorder self) (captured self),
   if matched then Ok tt else Err (error_msg records)).

(** [str::contains] *)
Fixpoint contains (s sub : string) : bool :=
  String.prefix sub s || match s with EmptyString => false | String _ s => contains s sub end.

Definition assert_log_contains (self : ObservabilityHandle) (substring : string)
    : ObservabilityHandle * result unit string :=
  assert_log_matches self (fun r => contains (record_args r) substring) record_args
    (fun records => "no log record containing " +:+ debug_str substring +:+ "; captured: "
                    +:+ debug_strs records).
Definition assert_log_at_level (self : ObservabilityHandle) (level : Level) (substring : string)
    : ObservabilityHandle * result unit string :=
  assert_log_matches self
    (fun r => bool_decide (record_level r = level) && contains (record_args r) substring)
    (fun r => "[" +:+ level_str (record_level r) +:+ "] " +:+ record_args r)
    (fun records => "no " +:+ level_str level +:+ " log containing " +:+ debug_str substring
                    +:+ "; captured: " +:+ debug_strs records).
End Observability.

(** ** Counting by key and by sample *)

Definition increment_of (P : Key -> bool) (s : Sample) : Z :=
  match s with CounterIncrement k n => if P k then n else 0 | _ => 0 end.
(** What the samples add to the counters whose key satisfies [P]. *)
Definition counted_where (P : Key -> bool) (log : list Sample) : Z := zsum (increment_of P) log.

Lemma zsum_ext {A} (g h : A -> Z) l : (forall x, In x l -> g x = h x) -> zsum g l = zsum h l.
Proof.
  induction l as [|x l IH]; intros H; [done|]. cbn. rewrite (H x) by by left.
  f_equal. apply IH. intros y Hy. apply H. by right.
Qed.
Lemma zsum_plus {A} (g h : A -> Z) l : zsum (fun x => g x + h x) l = zsum g l + zsum h l.
Proof. unfold zsum. induction l as [|x l IH]; cbn in *; lia. Qed.
Lemma zsum_zero {A} (g : A -> Z) l : (forall x, In x l -> g x = 0) -> zsum g l = 0.
Proof. intros H. rewrite (zsum_ext g (fun _ => 0)) by done. induction l as [|x l IH]; [done|]. apply IH. intros y Hy. apply H. by right. Qed.
Lemma zsum_map {A B} (g : B -> Z) (f : A -> B) l : zsum g (map f l) = zsum (fun x => g (f x)) l.
Proof. unfold zsum. induction l as [|x l IH]; cbn in *; [done|]. by rewrite IH. Qed.

(** Adding up, over keys without repetition, what was counted for each of them
    counts every increment of such a key once. *)
Lemma counted_over (keys : list Key) (log : list Sample) :
  NoDup keys -> zsum (fun k => counted k log) keys = counted_where (fun k => bool_decide (k ∈ keys)) log.
Proof.
  intros Hk. induction log as [|s log IH].
  { by apply zsum_zero. }
  unfold counted_where in *. cbn [zsum foldr]. fold (zsum (increment_of (fun k => bool_decide (k ∈ keys))) log).
  rewrite <- IH. unfold counted at 1. cbn [zsum foldr].
  rewrite (zsum_plus _ (fun k => counted k log)). f_equal. clear IH.
  destruct s as [k n|k n|k n|k d]; cbn [increment_of]; [|by apply zsum_zero..].
  induction Hk as [|k0 keys Hn Hk IH]; [done|]. cbn [zsum foldr]. fold (zsum (fun k1 => if decide (k = k1) then n else 0) keys).
  rewrite IH. destruct (decide (k = k0)) as [->|Hne].
  - rewrite (bool_decide_eq_true_2 (k0 ∈ k0 :: keys)) by by left.
    rewrite bool_decide_eq_false_2 by done. lia.
  - rewrite (bool_decide_ext (k ∈ k0 :: keys) (k ∈ keys)); [lia|]. rewrite elem_of_cons. tauto.
Qed.

Lemma counters_cons e l :
  omap counter_entry (e :: l) = match counter_entry e with Some c => c :: omap counter_entry l | None => omap counter_entry l end.
Proof. by destruct e as [k [c|g|h]]. Qed.
Lemma filter_counters (P : Key -> bool) (l : list SnapshotEntry) :
  omap counter_entry (base.filter (fun e => P e.1 = true) l)
  = base.filter (fun e => P e.1 = true) (omap counter_entry l).
Proof.
  induction l as [|[k v] l IH]; [done|]. rewrite filter_cons, counters_cons. cbn [fst].
  destruct v as [c|g|h]; cbn [counter_entry]; rewrite ?filter_cons; cbn [fst];
    destruct (decide (P k = true)); rewrite ?counters_cons;
    first [exact IH | exact (f_equal (cons (k, c)) IH)].
Qed.

Section Observed.
Context {R : DebuggingRecorder} {RL : DebuggingRecorderLaws R}.
Implicit Types self : ObservabilityHandle.

Lemma observed_since samples records self :
  since (recorder (observe samples records self)) = since (recorder self) ++ samples.
Proof.
  unfold observe. cbn [recorder]. generalize (recorder self) as r.
  induction samples as [|s samples IH]; intros r; cbn [fold_left]; [by rewrite app_nil_r|].
  by rewrite IH, emit_since, <- app_assoc.
Qed.
Lemma observed_known samples records self k :
  In k (known (recorder (observe samples records self)))
  <-> In k (known (recorder self)) \/ In k (map key_of samples).
Proof.
  unfold observe. cbn [recorder]. generalize (recorder self) as r.
  induction samples as [|s samples IH]; intros r; cbn [fold_left map In]; [tauto|].
  rewrite IH, emit_known. intuition congruence.
Qed.
Lemma captured_snapshot self : captured (handle_snapshot self) = (take_snapshot (recorder self)).2.
Proof. unfold handle_snapshot. by destruct (take_snapshot _). Qed.

(** The increments of one key are at most those of all the keys. *)
Lemma counted_bounded k (P : Key -> bool) log :
  Forall (fun s => 0 <= increment_of (fun _ => true) s) log ->
  P k = true -> 0 <= counted k log <= counted_where P log.
Proof.
  intros Hs HP. induction Hs as [|s log Hs _ IH]; [done|].
  unfold counted, counted_where, zsum in *. cbn [foldr].
  destruct s as [k' n|k' n|k' n|k' d]; cbn [increment_of] in *; [|lia..].
  destruct (decide (k' = k)) as [->|_]; [rewrite HP; lia|]. destruct (P k'); lia.
Qed.

Lemma snapshot_counts r name labels :
  Forall (fun s => 0 <= increment_of (fun _ => true) s) (since r) ->
  counted_where (key_matches name labels) (since r) <= u64_max ->
  find_counter (take_snapshot r).2 name labels = counted_where (key_matches name labels) (since r).
Proof.
  intros Hpos Hmax. unfold find_counter. rewrite (filter_counters (key_matches name labels)).
  destruct (snapshot_counters r) as [Hnd Hval]. pose proof (snapshot_has_counters r) as Hhas.
  set (P := key_matches name labels) in *. set (L := omap counter_entry (take_snapshot r).2) in *.
  set (M := base.filter (fun e => P e.1 = true) L).
  rewrite (zsum_ext _ (fun e => counted e.1 (since r))).
  2:{ intros [k c] Hin. cbn [fst snd]. apply list_elem_of_In, list_elem_of_filter in Hin as [HP Hin].
      apply list_elem_of_In in Hin. apply (Hval k c Hin). cbn [fst] in HP.
      pose proof (counted_bounded k P (since r) Hpos HP). lia. }
  rewrite <- (zsum_map (fun k => counted k (since r)) fst M), counted_over.
  2:{ apply (sublist_NoDup _ (map fst L)); [done|]. apply fmap_sublist, sublist_filter. }
  apply zsum_ext. intros [k n|k n|k n|k d] Hin; cbn [increment_of]; try done.
  destruct (P k) eqn:HP; case_bool_decide as Hk; try done; exfalso.
  - apply Hk, list_elem_of_In, in_map_iff.
    apply Hhas, in_map_iff in Hin as ([k' c] & <- & HL). exists (k', c). split; [done|].
    apply list_elem_of_In, list_elem_of_filter. split; [done|]. by apply list_elem_of_In.
  - apply list_elem_of_In, in_map_iff in Hk as ([k' c] & <- & HM).
    apply list_elem_of_In, list_elem_of_filter in HM as [HP' _]. cbn [fst] in *. congruence.
Qed.

Lemma in_histograms l k h : In (k, h) (omap histogram_entry l) <-> In (k, DebugHistogram h) l.
Proof.
  rewrite <- !list_elem_of_In, list_elem_of_omap. split.
  - intros ([k' [c|g|h']] & Hin & He); cbn in He; try done. by injection He as -> ->.
  - intros Hin. by exists (k, DebugHistogram h).
Qed.
Lemma durations_nonempty k log : durations k log <> [] <-> exists d, In (HistogramRecord k d) log.
Proof.
  assert (Hin : forall d, In d (durations k log) <-> In (HistogramRecord k d) log).
  { intros d. unfold durations. rewrite <- !list_elem_of_In, list_elem_of_omap. split.
    - intros ([k' n|k' n|k' n|k' d'] & Hs & He); try done. destruct (decide (k' = k)) as [->|]; [|done].
      by injection He as ->.
    - intros Hs. exists (HistogramRecord k d). split; [done|]. by rewrite decide_True. }
  split.
  - destruct (durations k log) as [|d l]; [done|]. intros _. exists d. apply Hin. by left.
  - intros [d Hd] Hnil. apply Hin in Hd. by rewrite Hnil in Hd.
Qed.

Lemma snapshot_histogram_recorded r name labels :
  existsb (fun '(_, s) => negb (bool_decide (s = [])))
    (omap histogram_entry (base.filter (fun e => key_matches name labels e.1 = true) (take_snapshot r).2)) = true
  <-> exists k d, In (HistogramRecord k d) (since r) /\ key_matches name labels k = true.
Proof.
  rewrite existsb_exists. split.
  - intros ([k h] & Hin & Hne). apply in_histograms, list_elem_of_In, list_elem_of_filter in Hin as [Hm Hin].
    apply list_elem_of_In, in_histograms, snapshot_histograms in Hin. subst h.
    apply negb_true_iff, bool_decide_eq_false, durations_nonempty in Hne as [d Hd]. by exists k, d.
  - intros (k & d & Hin & Hm).
    assert (Hd : durations k (since r) <> []) by (apply durations_nonempty; by exists d).
    pose proof (snapshot_has_histograms r k Hd) as Hk. apply in_map_iff in Hk as ([k' h] & Hk' & Hh).
    cbn in Hk'. subst k'. pose proof (snapshot_histograms r k h Hh) as ->.
    exists (k, durations k (since r)). split; [|by apply negb_true_iff, bool_decide_eq_false].
    apply in_histograms, list_elem_of_In, list_elem_of_filter. split; [done|].
    by apply list_elem_of_In, in_histograms.
Qed.

Lemma drain_log_matches predicate format log matched records :
  (drain_log predicate format log matched records).1 = matched || existsb predicate log.
Proof.
  revert matched records. induction log as [|r log IH]; intros matched records; cbn [drain_log existsb].
  { by destruct matched. }
  destruct matched, (predicate r) eqn:Hp; cbn [negb andb]; rewrite IH; reflexivity || by rewrite Hp.
Qed.
(** The records a failed search reports are all of them, in order. *)
Lemma drain_log_reports predicate format log records :
  existsb predicate log = false ->
  drain_log predicate format log false records = (false, records ++ map format log).
Proof.
  revert records. induction log as [|r log IH]; intros records; cbn [drain_log existsb map].
  { by rewrite app_nil_r. }
  intros [Hr Hl]%orb_false_iff. rewrite Hr. cbn [negb andb]. by rewrite IH, <- app_assoc.
Qed.

(** What the assertions of a handle promise about the samples and the records
    of the code that ran since its last snapshot. *)
Definition asserts_exactly (debug_labels : Labels -> string) (samples : list Sample)
    (records : list LogRecord) (before : list Key) (h : ObservabilityHandle) : Prop :=
  (forall name labels expected, counted_where (key_matches name labels) samples <= u64_max ->
     assert_counter debug_labels h name labels expected = Ok tt
     <-> counted_where (key_matches name labels) samples = expected)
  /\ (forall name labels, assert_histogram_recorded debug_labels h name labels = Ok tt
     <-> exists k d, In (HistogramRecord k d) samples /\ key_matches name labels k = true)
  /\ (forall name s, assert_no_metric h name = Ok tt -> In s samples -> key_name (key_of s) <> name)
  /\ (forall name, (forall k, In k before \/ In k (map key_of samples) -> key_name k <> name) ->
     assert_no_metric h name = Ok tt)
  /\ (forall predicate format_record error_msg,
     let '(h', r) := assert_log_matches h predicate format_record error_msg in
     r = (if existsb predicate records then Ok tt else Err (error_msg (map format_record records)))
     /\ logger h' = []).

Lemma as_str_pairs_id (labels : Labels) : as_str_pairs labels = labels.
Proof. unfold as_str_pairs. rewrite (map_ext _ id) by by intros [??]. apply map_id. Qed.

Lemma no_metric_iff h name :
  assert_no_metric h name = Ok tt <-> forall e, In e (captured h) -> key_name e.1 <> name.
Proof.
  unfold assert_no_metric.
  destruct (existsb (fun e => bool_decide (key_name e.1 = name)) (captured h)) eqn:He; split; try done.
  - apply existsb_exists in He as (e & Hin & Hn%bool_decide_eq_true). intros H. by apply H in Hin.
  - intros _ e Hin Hn. apply not_true_iff_false in He. apply He, existsb_exists. exists e.
    split; [done|]. by apply bool_decide_eq_true.
Qed.

Lemma log_assertion_exact h predicate format_record error_msg :
  let '(h', r) := assert_log_matches h predicate format_record error_msg in
  r = (if existsb predicate (logger h) then Ok tt else Err (error_msg (map format_record (logger h))))
  /\ logger h' = [].
Proof.
  unfold assert_log_matches. destruct (existsb predicate (logger h)) eqn:He.
  - pose proof (drain_log_matches predicate format_record (logger h) false []) as Hm.
    destruct (drain_log _ _ _ _ _) as [m rs]. cbn in Hm. rewrite Hm, He. done.
  - by rewrite drain_log_reports.
Qed.

(** C29: The assertions of an observability handle are exact.  Let code run
    under the handle from a state with nothing recorded since its last
    snapshot and no records in the log, and take a snapshot.  Then a counter
    assertion passes exactly for the sum of the increments whose key has the
    name and at least the labels asked for, the increments of the different
    keys each counted once; a histogram assertion passes exactly when a
    duration was recorded under such a key; an absence assertion never passes
    for a metric the code emitted, and passes for a name that was never used;
    a log assertion passes exactly when some record satisfies it, reports all
    the records otherwise, and empties the log.  Clearing the handle afterwards
    leaves it in such a state again. *)
Theorem observability_assertions_exact (debug_labels : Labels -> string) (samples : list Sample)
    (records : list LogRecord) (self : ObservabilityHandle)
    (Hfresh : since (recorder self) = []) (Hlog : logger self = [])
    (Hpos : Forall (fun s => 0 <= increment_of (fun _ => true) s) samples) :
  let h := handle_snapshot (observe samples records self) in
  asserts_exactly debug_labels samples records (known (recorder self)) h
  /\ since (recorder (handle_clear h)) = [] /\ logger (handle_clear h) = []
  /\ captured (handle_clear h) = [].
Proof.
  intros h. pose proof (observed_since samples records self) as Hs. rewrite Hfresh in Hs.
  cbn [app] in Hs.
  pose proof (captured_snapshot (observe samples records self)) as Hc. fold h in Hc.
  assert (Hl : logger h = records).
  { subst h. unfold handle_snapshot. destruct (take_snapshot _). cbn. by rewrite Hlog. }
  split; [|unfold handle_clear; pose proof (snapshot_resets (recorder h)) as [Hr _];
           destruct (take_snapshot (recorder h)); by repeat split].
  split; [|split; [|split; [|split]]].
  - intros name labels expected Hmax. unfold assert_counter. rewrite as_str_pairs_id, Hc.
    rewrite snapshot_counts; rewrite Hs; [|done..].
    destruct (Z.eqb_spec (counted_where (key_matches name labels) samples) expected); done.
  - intros name labels. unfold assert_histogram_recorded. rewrite as_str_pairs_id, Hc.
    pose proof (snapshot_histogram_recorded (recorder (observe samples records self)) name labels) as Hh.
    rewrite Hs in Hh. rewrite <- Hh.
    by destruct (existsb (fun '(_, s) => negb (bool_decide (s = []))) _).
  - intros name s Hn Hin. rewrite no_metric_iff, Hc in Hn.
    assert (Hk : In s (since (recorder (observe samples records self)))) by by rewrite Hs.
    apply snapshot_samples, in_map_iff in Hk as (e & He & Hin'). rewrite <- He. by apply Hn.
  - intros name Hn. apply no_metric_iff. rewrite Hc. intros e Hin. apply Hn.
    by apply (observed_known samples records self), snapshot_keys.
  - intros predicate format_record error_msg.
    pose proof (log_assertion_exact h predicate format_record error_msg) as H. by rewrite Hl in H.
Qed.
End Observed.

(** ** A recorder *)

(** It keeps the samples before and since its last snapshot. *)
Definition emitted_keys (f : Sample -> option Key) (log : list Sample) : list Key := remove_dups (omap f log).
Definition counter_key (s : Sample) : option Key := match s with CounterIncrement k _ => Some k | _ => None end.
Definition gauge_key (s : Sample) : option Key :=
  match s with GaugeIncrement k _ | GaugeDecrement k _ => Some k | _ => None end.
Definition histogram_key (s : Sample) : option Key := match s with HistogramRecord k _ => Some k | _ => None end.

Definition log_entries (past log : list Sample) : list SnapshotEntry :=
  map (fun k => (k, DebugCounter (counted k log))) (emitted_keys counter_key (past ++ log))
  ++ map (fun k => (k, DebugGauge (gauge_value k (past ++ log)))) (emitted_keys gauge_key (past ++ log))
  ++ map (fun k => (k, DebugHistogram (durations k log))) (emitted_keys histogram_key (past ++ log)).

#[export] Instance log_recorder : DebuggingRecorder := {|
  Recorder := list Sample * list Sample;
  recorder_new := ([], []);
  emit s r := (r.1, r.2 ++ [s]);
  take_snapshot r := ((r.1 ++ r.2, []), log_entries r.1 r.2)
|}.

Lemma in_emitted f log k : In k (emitted_keys f log) <-> exists s, In s log /\ f s = Some k.
Proof.
  unfold emitted_keys. rewrite <- list_elem_of_In, elem_of_remove_dups, list_elem_of_omap.
  split; intros (s & Hs & Hf); exists s; (split; [by apply list_elem_of_In|done]).
Qed.
Lemma log_counters past log :
  omap counter_entry (log_entries past log)
  = map (fun k => (k, counted k log)) (emitted_keys counter_key (past ++ log)).
Proof.
  unfold log_entries. rewrite !omap_app.
  assert (H0 : forall (g : Key -> DebugValue) l, (forall k, counter_entry (k, g k) = None) ->
    omap counter_entry (map (fun k => (k, g k)) l) = []).
  { intros g l Hg. induction l as [|k l IH]; [done|]. cbn [map]. by rewrite counters_cons, Hg. }
  rewrite (H0 (fun k => DebugGauge (gauge_value k (past ++ log)))),
    (H0 (fun k => DebugHistogram (durations k log))) by done. rewrite !app_nil_r.
  induction (emitted_keys _ _) as [|k l IH]; [done|]. cbn [map]. rewrite counters_cons. cbn. by f_equal.
Qed.
Lemma log_histograms past log k h :
  In (k, h) (omap histogram_entry (log_entries past log))
  <-> h = durations k log /\ In k (emitted_keys histogram_key (past ++ log)).
Proof.
  rewrite in_histograms. unfold log_entries. rewrite !in_app_iff, !in_map_iff. split.
  - intros [(k' & He & _)|[(k' & He & _)|(k' & He & Hin)]]; [done..|]. by injection He as -> <-.
  - intros [-> Hin]. right. right. by exists k.
Qed.
Lemma log_entry_key past log k :
  In k (map fst (log_entries past log)) <-> In k (map key_of (past ++ log)).
Proof.
  unfold log_entries. rewrite !map_app, !map_map, !in_app_iff. cbn [fst]. rewrite !map_id, !in_emitted.
  rewrite <- in_app_iff, <- map_app, in_map_iff. split.
  - intros [(s & Hin & Hs)|[(s & Hin & Hs)|(s & Hin & Hs)]]; exists s;
      destruct s; cbn in Hs; try done; by injection Hs as ->.
  - intros ([k' n|k' n|k' n|k' d] & <- & Hin); eauto 6.
Qed.

#[export] Instance log_recorder_laws : DebuggingRecorderLaws log_recorder.
Proof.
  refine {| since (r : @Recorder log_recorder) := r.2; known (r : @Recorder log_recorder) := map key_of (r.1 ++ r.2) |};
    cbn [recorder_new emit take_snapshot log_recorder fst snd].
  - done.
  - done.
  - intros s r k. rewrite app_assoc, map_app, in_app_iff. cbn. intuition congruence.
  - intros r. by rewrite app_nil_r.
  - intros r. rewrite log_counters, map_map. cbn [fst]. rewrite map_id. split.
    + apply NoDup_remove_dups.
    + intros k c Hin _. apply in_map_iff in Hin as (k' & He & _). by injection He as -> <-.
  - intros r k n Hin. rewrite log_counters, map_map. cbn [fst]. rewrite map_id. apply in_emitted.
    exists (CounterIncrement k n). split; [apply in_app_iff; by right|done].
  - intros r k h Hin. by apply log_histograms in Hin as [-> _].
  - intros r k Hk. apply durations_nonempty in Hk as [d Hd]. apply in_map_iff.
    exists (k, durations k r.2). split; [done|]. apply log_histograms. split; [done|]. apply in_emitted.
    exists (HistogramRecord k d). split; [apply in_app_iff; by right|done].
  - intros r e Hin. apply (in_map fst) in Hin. by apply log_entry_key in Hin.
  - intros r s Hin. apply log_entry_key, in_map, in_app_iff. by right.
Defined.

(** Two codec errors of different types, a connection panic and a warning. *)
Lemma observability_assertions_exact_witness :
  let samples := [CounterIncrement (mk_Key CODEC_ERRORS [("error_type", "framing"); ("recovery_policy", "drop")]) 1;
                  CounterIncrement (mk_Key CODEC_ERRORS [("error_type", "eof"); ("recovery_policy", "drop")]) 2;
                  CounterIncrement (mk_Key CONNECTION_PANICS []) 1] in
  let h := handle_snapshot (observe samples [mk_LogRecord LevelWarn "slow"] (handle_new false [])) in
  asserts_exactly (fun _ => EmptyString) samples [mk_LogRecord LevelWarn "slow"] [] h
  /\ counter_without_labels h CODEC_ERRORS = 3 /\ codec_error_counter h "eof" "drop" = 2
  /\ (assert_log_at_level id (String.concat EmptyString) h LevelWarn "low").2 = Ok tt
  /\ (assert_log_at_level id (String.concat EmptyString) h LevelError "low").2
     = Err ("no ERROR log containing low; captured: [WARN] slow").
Proof.
  intros samples h. split; [|by vm_compute].
  exact (proj1 (observability_assertions_exact (fun _ => EmptyString) samples
    [mk_LogRecord LevelWarn "slow"] (handle_new false []) eq_refl eq_refl
    ltac:(repeat (constructor; [cbn; lia|]); constructor))).
Defined.
