(* ===== verification/PushBench.v ===== *)
(** * The push benchmark

    Models [wireframe_testing/src/runtime_ownership_benchmarks/push_benchmark_support/]:
    the scenarios with their validation ([scenario.rs]), the overflow run
    ([measurement/overflow.rs]), the awaited runs ([measurement/awaited.rs]) and
    the measurement that adds up their rounds ([measurement/mod.rs]).

    The overflow run is one task, and a function.  An awaited run has up to
    three tasks, and is a step system over the queues of [Push]: the producer
    inside [send_all], the consumer inside its [recv] loop, and the task that
    starts them, watches the wait counters and joins them. *)

From S2P Require Import Prelude.
From S2P Require Import Mpsc.
From S2P Require Import Push.
From S2P Require Import PushCorrectness.
From stdpp Require Import pretty.
Open Scope rust_scope.
Local Open Scope Z_scope.

(** ** [scenario.rs] *)

Definition DEFAULT_QUEUE_CAPACITY : Z := 64.
Definition DEFAULT_SENDS : Z := 1024.

Inductive Lane : Type := LaneHigh | LaneLow.
Definition lane_priority (self : Lane) : PushPriority :=
  match self with LaneHigh => PriorityHigh | LaneLow => PriorityLow end.

Inductive PushScenario : Type :=
  | UncontendedHigh | UncontendedLow | DrainedHigh | DrainedLow | BackpressureHigh
  | OverflowReturnError | OverflowDrop | OverflowWarnAndDrop.

Definition scenario_label (self : PushScenario) : string :=
  match self with
  | UncontendedHigh => "uncontended_high"
  | UncontendedLow => "uncontended_low"
  | DrainedHigh => "drained_high"
  | DrainedLow => "drained_low"
  | BackpressureHigh => "backpressure_high"
  | OverflowReturnError => "overflow_return_error"
  | OverflowDrop => "overflow_drop"
  | OverflowWarnAndDrop => "overflow_warn_and_drop"
  end.
Definition is_overflow (self : PushScenario) : bool :=
  match self with OverflowReturnError | OverflowDrop | OverflowWarnAndDrop => true | _ => false end.
Definition is_backpressure (self : PushScenario) : bool :=
  match self with BackpressureHigh => true | _ => false end.
Definition is_uncontended (self : PushScenario) : bool :=
  match self with UncontendedHigh | UncontendedLow => true | _ => false end.
Definition is_drained (self : PushScenario) : bool :=
  is_uncontended self || match self with DrainedHigh | DrainedLow => true | _ => false end.
Definition policy (self : PushScenario) : option PushPolicy :=
  match self with
  | OverflowReturnError => Some ReturnErrorIfFull
  | OverflowDrop => Some DropIfFull
  | OverflowWarnAndDrop => Some WarnAndDropIfFull
  | _ => None
  end.
Definition lane (self : PushScenario) : Lane :=
  match self with UncontendedLow | DrainedLow => LaneLow | _ => LaneHigh end.
Definition scenario_priority (self : PushScenario) : string :=
  match lane self with LaneHigh => "high" | LaneLow => "low" end.
Definition overflow_policy (self : PushScenario) : result PushPolicy string :=
  match policy self with
  | Some p => Ok p
  | None => Err ("scenario " +:+ scenario_label self +:+ " is not an overflow scenario")
  end.

Record PushWorkload : Type := mk_PushWorkload {
  scenario : PushScenario;
  queue_capacity : Z;
  sends : Z
}.
Definition workload_default : PushWorkload :=
  mk_PushWorkload DrainedHigh DEFAULT_QUEUE_CAPACITY DEFAULT_SENDS.
Definition workload_label (self : PushWorkload) : string :=
  scenario_label (scenario self) +:+ "_capacity_" +:+ pretty (queue_capacity self) +:+ "_sends_"
  +:+ pretty (sends self).

Definition validate (self : PushWorkload) : result unit string :=
  if queue_capacity self =? 0 then Err "queue_capacity must be at least 1"
  else if sends self =? 0 then Err "sends must be at least 1"
  else if is_uncontended (scenario self) && (queue_capacity self <? sends self) then
    Err ("scenario " +:+ scenario_label (scenario self)
         +:+ " claims the uncontended regime but sends " +:+ pretty (sends self)
         +:+ " frames into a queue of capacity " +:+ pretty (queue_capacity self)
         +:+ ", so the producer can outrun any consumer and park; size the queue to hold the whole run, use "
         +:+ scenario_label DrainedHigh +:+ " to observe a consumer's throughput, or "
         +:+ scenario_label BackpressureHigh +:+ " to measure the parked path")
  else if is_backpressure (scenario self) && (sends self <=? queue_capacity self) then
    Err ("scenario " +:+ scenario_label (scenario self)
         +:+ " claims to measure awaited back-pressure but sends " +:+ pretty (sends self)
         +:+ " frames into a queue of capacity " +:+ pretty (queue_capacity self)
         +:+ ", so no send can ever park; send more than the queue holds")
  else Ok tt.

Record PushMeasurement : Type := mk_PushMeasurement {
  m_sends : Z;
  m_accepted : Z;
  m_drained : Z;
  m_dead_lettered : Z;
  m_reported_queue_full : bool;
  m_awaited_capacity_waits : Z;
  m_capacity_probes : Z;
  m_elapsed : Z
}.

(** ** [measurement/mod.rs] *)

Record SendOutcome : Type := mk_SendOutcome {
  accepted : Z;
  drained : Z;
  dead_lettered : Z;
  reported_queue_full : bool;
  waited : PushWaitCounters
}.
Definition outcome_default : SendOutcome := mk_SendOutcome 0 0 0 false PushWaitCounters_default.

Definition accumulate (self running : SendOutcome) : SendOutcome :=
  mk_SendOutcome (saturating_add usize_max (accepted running) (accepted self))
    (saturating_add usize_max (drained running) (drained self))
    (saturating_add usize_max (dead_lettered running) (dead_lettered self))
    (reported_queue_full running || reported_queue_full self)
    (mk_PushWaitCounters
       (saturating_add u64_max (awaited_capacity_waits (waited running))
          (awaited_capacity_waits (waited self)))
       (saturating_add u64_max (capacity_probes (waited running)) (capacity_probes (waited self)))).

Definition frame (index : Z) : Z := Z.land index 255.

Definition display_config_error (e : PushConfigError) : string :=
  match e with
  | InvalidRate r => "invalid rate " +:+ pretty r +:+ "; must be between 1 and " +:+ pretty MAX_PUSH_RATE
  | InvalidCapacity h l =>
      "invalid capacities; high=" +:+ pretty h +:+ ", low=" +:+ pretty l +:+ "; each must be >= 1"
  end.

Section Bench.
Context {Q : Mpsc} {L : RateLimiting}.
Abbreviation Queues := (@PushQueues Q L Z).
Abbreviation Future := (@PushFuture Z).

(** The receiver of the dead-letter queue is the sink's channel. *)
Definition build_queues (workload : PushWorkload) (now : Z) : result Queues string :=
  match build (with_dlq (unlimited (with_low_capacity (with_high_capacity PushQueuesBuilder_default
                (queue_capacity workload)) (queue_capacity workload)))
                (Some (channel Z (Z.max (sends workload) 1)))) now with
  | Ok queues => Ok queues
  | Err err => Err ("failed to build push queues: " +:+ display_config_error err)
  end.

Definition push_lane (l : Lane) (frame : Z) : Future :=
  match l with LaneHigh => push_high_priority frame | LaneLow => push_low_priority frame end.

(** ** [measurement/overflow.rs] *)

(** An awaited push with nobody else at work; [None] if it is not done within
    [fuel] steps, in which case it parks for good. *)
Fixpoint await_push (fuel : nat) (q : Queues) (p : Future) (now : Z)
    : option (Queues * result unit PushError) :=
  match p with
  | PushDone _ _ r _ => Some (q, r)
  | _ =>
      match fuel with
      | O => None
      | S fuel => match push_step q p now with Some (q, p) => await_push fuel q p now | None => None end
      end
  end.

Fixpoint fill_loop (n : nat) (index filled : Z) (l : Lane) (now : Z) (q : Queues)
    : option (Queues * result Z string) :=
  match n with
  | O => Some (q, Ok filled)
  | S n =>
      match await_push 4 q (push_lane l (frame index)) now with
      | None => None
      | Some (q, Ok _) => fill_loop n (index + 1) (filled + 1) l now q
      | Some (q, Err PushClosed) => Some (q, Err "queue closed while filling to capacity")
      | Some (q, Err _) => Some (q, Ok filled)
      end
  end.
Definition fill_to_capacity (workload : PushWorkload) (now : Z) (q : Queues)
    : option (Queues * result Z string) :=
  fill_loop (Z.to_nat (queue_capacity workload)) 0 0 (lane (scenario workload)) now q.

(** [clock index] are the two readings of the clock the dead-letter state may
    take. *)
Fixpoint overflow_loop (n : nat) (index : Z) (priority : PushPriority) (p : PushPolicy)
    (clock : Z -> Z * Z) (q : Queues) (outcome : SendOutcome) : Queues * result SendOutcome string :=
  match n with
  | O => (q, Ok outcome)
  | S n =>
      let '(q, r) := try_push q (frame index) priority p (clock index).1 (clock index).2 in
      match r with
      | Ok _ =>
          overflow_loop n (index + 1) priority p clock q
            (mk_SendOutcome (accepted outcome + 1) (drained outcome) (dead_lettered outcome)
               (reported_queue_full outcome) (waited outcome))
      | Err QueueFull =>
          overflow_loop n (index + 1) priority p clock q
            (mk_SendOutcome (accepted outcome) (drained outcome) (dead_lettered outcome) true
               (waited outcome))
      | Err PushClosed => (q, Err "queue closed during overflow sends")
      end
  end.

(** [while dlq_rx.try_recv().is_ok()] *)
Fixpoint drain_dlq (fuel : nat) (c : Chan Z) (count : Z) : Z :=
  match fuel with
  | O => count
  | S fuel => match try_recv c with (c, Ok _) => drain_dlq fuel c (count + 1) | (_, Err _) => count end
  end.
Definition count_dlq (q : Queues) : Z :=
  match sink (dead_letter q) with Some c => drain_dlq (S (length (queued c))) c 0 | None => 0 end.

Definition send_overflow (workload : PushWorkload) (now : Z) (clock : Z -> Z * Z)
    : option (result SendOutcome string) :=
  match overflow_policy (scenario workload) with
  | Err e => Some (Err e)
  | Ok p =>
      match build_queues workload now with
      | Err e => Some (Err e)
      | Ok queues =>
          match fill_to_capacity workload now queues with
          | None => None
          | Some (_, Err e) => Some (Err e)
          | Some (queues, Ok filled) =>
              if filled <? queue_capacity workload then
                Some (Err ("only " +:+ pretty filled +:+ " of " +:+ pretty (queue_capacity workload)
                           +:+ " frames fit, so the queue never reached capacity"))
              else
                let '(queues, r) :=
                  overflow_loop (Z.to_nat (sends workload)) 0 (lane_priority (lane (scenario workload)))
                    p clock queues outcome_default in
                match r with
                | Err e => Some (Err e)
                | Ok o =>
                    Some (Ok (mk_SendOutcome (accepted o) (drained o)
                                (dead_lettered o + count_dlq queues) (reported_queue_full o) (waited o)))
                end
          end
      end
  end.

(** ** [measurement/awaited.rs] *)

(** [send_all]: about to take the next index, inside the push of one, or
    done. *)
Inductive Producer : Type :=
  | SendNext (index : Z)
  | SendAwait (index : Z) (p : Future)
  | SendDone (r : result unit string).

(** [None] once it is done. *)
Definition send_all (workload : PushWorkload) (l : Lane) (now : Z) (q : Queues) (p : Producer)
    : option (Queues * Producer) :=
  match p with
  | SendNext index =>
      Some (q, if index <? sends workload then SendAwait index (push_lane l (frame index))
               else SendDone (Ok tt))
  | SendAwait index (PushDone _ _ sent _) =>
      Some (q, match sent with
               | Err PushClosed =>
                   SendDone (Err ("the queue closed after " +:+ pretty index +:+ " of "
                     +:+ pretty (sends workload) +:+ " sends, so the run is not a valid sample"))
               | _ => SendNext (index + 1)
               end)
  | SendAwait index p =>
      match push_step q p now with Some (q, p) => Some (q, SendAwait index p) | None => None end
  | SendDone _ => None
  end.

(** [while draining.recv().await.is_some()] *)
Inductive Consumer : Type :=
  | Receiving (received : Z) (fut : RecvFuture)
  | Received (received : Z).
Definition consume (q : Queues) (c : Consumer) : option (Queues * Consumer) :=
  match c with
  | Receiving received fut =>
      let '(q, r) := recv_poll 3 q fut in
      Some (q, match r with
               | RecvReady (Some _) => Receiving (received + 1) RecvFuture_new
               | RecvReady None => Received received
               | RecvPending fut => Receiving received fut
               | RecvOutOfFuel => c
               end)
  | Received _ => None
  end.

(** The task of the run: watching for a parked send (back-pressure only),
    waiting for the producer, which for [send_drained] runs inside it, waiting
    for the consumer, and done. *)
Inductive Main : Type :=
  | Observing
  | AwaitingSends (observed : option Z)
  | AwaitingDrain (observed : option Z) (w : PushWaitCounters)
  | Finished (r : result SendOutcome string).

Record Run : Type := mk_Run {
  queues : Queues;
  producer : Producer;
  consumer : option Consumer;
  main : Main
}.

Definition drained_start (q : Queues) : Run :=
  mk_Run q (SendNext 0) (Some (Receiving 0 RecvFuture_new)) (AwaitingSends None).
Definition backpressure_start (q : Queues) : Run := mk_Run q (SendNext 0) None Observing.

(** One look of [observe_parked_send]; [expired] says that the deadline has
    passed. *)
Definition observe_parked_send (q : Queues) (before : PushWaitCounters) (expired : bool) : option Z :=
  let w := since (wait_counters q) before in
  if 0 <? awaited_capacity_waits w then Some (awaited_capacity_waits w)
  else if expired then Some 0 else None.

Definition awaited_outcome (workload : PushWorkload) (received : Z) (w : PushWaitCounters) : SendOutcome :=
  mk_SendOutcome (sends workload) received 0 false w.

(** The checks at the end of [send_drained]. *)
Definition drained_result (workload : PushWorkload) (must_not_wait : bool) (w : PushWaitCounters)
    (received : Z) : result SendOutcome string :=
  if must_not_wait && negb (awaited_capacity_waits w =? 0) then
    Err ("scenario " +:+ scenario_label (scenario workload) +:+ " is the no-back-pressure control, but "
         +:+ pretty (awaited_capacity_waits w) +:+ " of " +:+ pretty (sends workload)
         +:+ " sends had to wait for capacity; the queue of capacity "
         +:+ pretty (queue_capacity workload) +:+ " did not hold the run")
  else if capacity_probes w =? 0 then
    Err ("no send reached the channel, so the measured wait count of "
         +:+ pretty (awaited_capacity_waits w) +:+ " rests on nothing; " +:+ pretty received
         +:+ " frames were drained")
  else if negb (received =? sends workload) then
    Err ("consumer drained " +:+ pretty received +:+ " of " +:+ pretty (sends workload)
         +:+ " frames, so frames were lost")
  else Ok (awaited_outcome workload received w).

(** The checks at the end of [send_backpressure]. *)
Definition backpressure_result (workload : PushWorkload) (observed : Z) (w : PushWaitCounters)
    (received : Z) : result SendOutcome string :=
  if observed =? 0 then
    Err ("no producer parked within 10s, so this run did not exercise awaited back-pressure; the queue of capacity "
         +:+ pretty (queue_capacity workload) +:+ " outran a " +:+ pretty (sends workload)
         +:+ "-send workload")
  else if negb (received =? sends workload) then
    Err ("the drain received " +:+ pretty received +:+ " of " +:+ pretty (sends workload)
         +:+ " frames, so frames were lost")
  else Ok (awaited_outcome workload received w).

(** The task goes on: it looks at the counters; sees the producer done, reads
    the counters and drops the last handle, which closes the queues; sees the
    consumer done.  [None] while what it waits for is not there. *)
Definition main_step (workload : PushWorkload) (before : PushWaitCounters) (expired : bool) (x : Run)
    : option Run :=
  match main x with
  | Observing =>
      match observe_parked_send (queues x) before expired with
      | Some n => Some (mk_Run (queues x) (producer x) (Some (Receiving 0 RecvFuture_new))
                          (AwaitingSends (Some n)))
      | None => None
      end
  | AwaitingSends observed =>
      match producer x with
      | SendDone (Err e) => Some (mk_Run (queues x) (producer x) (consumer x) (Finished (Err e)))
      | SendDone (Ok _) =>
          Some (mk_Run (close_queues (queues x)) (producer x) (consumer x)
                  (AwaitingDrain observed (since (wait_counters (queues x)) before)))
      | _ => None
      end
  | AwaitingDrain observed w =>
      match consumer x with
      | Some (Received received) =>
          Some (mk_Run (queues x) (producer x) (consumer x)
                  (Finished match observed with
                            | None => drained_result workload (is_uncontended (scenario workload)) w received
                            | Some n => backpressure_result workload n w received
                            end))
      | _ => None
      end
  | Finished _ => None
  end.

Inductive BenchEvent : Type :=
  | EvProducer (now : Z)
  | EvConsumer
  | EvMain (expired : bool).

Definition bench_step (workload : PushWorkload) (before : PushWaitCounters) (x : Run) (e : BenchEvent)
    : option Run :=
  match e with
  | EvProducer now =>
      match send_all workload (lane (scenario workload)) now (queues x) (producer x) with
      | Some (q, p) => Some (mk_Run q p (consumer x) (main x))
      | None => None
      end
  | EvConsumer =>
      match consumer x with
      | Some c => match consume (queues x) c with
                  | Some (q, c) => Some (mk_Run q (producer x) (Some c) (main x))
                  | None => None
                  end
      | None => None
      end
  | EvMain expired => main_step workload before expired x
  end.

(** A schedule; an event that cannot happen is left out. *)
Definition bench_play (workload : PushWorkload) (before : PushWaitCounters) (x : Run)
    (es : list BenchEvent) : Run :=
  foldl (fun x e => default x (bench_step workload before x e)) x es.

Definition awaited_start (workload : PushWorkload) (q : Queues) : Run :=
  if is_backpressure (scenario workload) then backpressure_start q else drained_start q.

(** [send_drained] and [send_backpressure]: what a run may return. *)
Definition send_awaited (workload : PushWorkload) (now : Z) (r : result SendOutcome string) : Prop :=
  match build_queues workload now with
  | Err e => r = Err e
  | Ok q =>
      exists es, main (bench_play workload (wait_counters q) (awaited_start workload q) es) = Finished r
  end.

(** ** [measurement/mod.rs] *)

Definition run_once (workload : PushWorkload) (now : Z) (clock : Z -> Z * Z)
    (r : result SendOutcome string) : Prop :=
  if is_overflow (scenario workload) then send_overflow workload now clock = Some r
  else send_awaited workload now r.

(** [Rounds n o r]: [n] more rounds after [o] may end with [r]. *)
Inductive Rounds (workload : PushWorkload) : nat -> SendOutcome -> result SendOutcome string -> Prop :=
  | rounds_end o : Rounds workload 0 o (Ok o)
  | rounds_fail n o now clock e :
      run_once workload now clock (Err e) -> Rounds workload (S n) o (Err e)
  | rounds_next n o now clock o' r :
      run_once workload now clock (Ok o') -> Rounds workload n (accumulate o o') r ->
      Rounds workload (S n) o r.

Definition measurement_of (workload : PushWorkload) (iterations elapsed : Z) (o : SendOutcome)
    : PushMeasurement :=
  mk_PushMeasurement
    (Z.min u64_max (Z.min usize_max (sends workload * Z.min usize_max iterations)))
    (accepted o) (drained o) (dead_lettered o) (reported_queue_full o)
    (awaited_capacity_waits (waited o)) (capacity_probes (waited o)) elapsed.

Definition measure_push (workload : PushWorkload) (iterations elapsed : Z)
    (r : result PushMeasurement string) : Prop :=
  match validate workload with
  | Err e => r = Err e
  | Ok _ =>
      if iterations =? 0 then r = Ok (mk_PushMeasurement 0 0 0 0 false 0 0 0)
      else exists o, Rounds workload (Z.to_nat iterations) outcome_default o
             /\ r = match o with
                    | Ok o => Ok (measurement_of workload iterations elapsed o)
                    | Err e => Err e
                    end
  end.
End Bench.

(** ** The overflow run *)

Section Overflow.
Context {Q : Mpsc} {QL : MpscLaws Q} {L : RateLimiting}.
Implicit Types (q : @PushQueues Q L Z) (c : Chan Z).

(** A channel that is open, with [n] frames of at most [cap]. *)
Definition open_chan (c : Chan Z) (n cap : Z) : Prop :=
  closed c = false /\ len (queued c) = n /\ capacity c = cap.

(** The queues of a benchmark: no limiter, [h] and [l] frames in queues of
    [cap], and nothing lost. *)
Record fixture (q : @PushQueues Q L Z) (h l d cap dcap : Z) : Prop := {
  fx_limiter : limiter q = None;
  fx_high : open_chan (high_prio q) h cap;
  fx_low : open_chan (low_prio q) l cap;
  fx_counters : counters_wf (dead_letter q);
  fx_losses : losses (dead_letter q) = 0;
  fx_sink : exists c, sink (dead_letter q) = Some c /\ open_chan c d dcap
}.

Lemma validate_ok w :
  validate w = Ok tt -> 0 <= queue_capacity w -> 0 <= sends w ->
  1 <= queue_capacity w /\ 1 <= sends w
  /\ (is_uncontended (scenario w) = true -> sends w <= queue_capacity w)
  /\ (is_backpressure (scenario w) = true -> queue_capacity w < sends w).
Proof.
  unfold validate. intros H Hq Hs.
  destruct (Z.eqb_spec (queue_capacity w) 0) as [|E1]; [done|].
  destruct (Z.eqb_spec (sends w) 0) as [|E2]; [done|].
  destruct (is_uncontended (scenario w) && (queue_capacity w <? sends w)) eqn:E3; [done|].
  destruct (is_backpressure (scenario w) && (sends w <=? queue_capacity w)) eqn:E4; [done|].
  split; [lia|]. split; [lia|]. apply andb_false_iff in E3, E4.
  split; intros Hb; rewrite Hb in *; [destruct E3; [done|]|destruct E4; [done|]]; lia.
Qed.

Lemma build_queues_fixture w now :
  1 <= queue_capacity w -> 1 <= sends w ->
  exists q, build_queues w now = Ok q /\ fixture q 0 0 0 (queue_capacity w) (sends w)
    /\ waits q = PushWaitCounters_default.
Proof.
  intros Hc Hs. unfold build_queues, build, build_with_config, unlimited, with_dlq, with_rate.
  cbn [rate invalid_rate high_capacity low_capacity with_high_capacity with_low_capacity].
  rewrite decide_False by lia. eexists. split; [done|]. split; [|done].
  destruct (channel_law Z (queue_capacity w) Hc) as (E1 & E2 & E3).
  destruct (channel_law Z (Z.max (sends w) 1)) as (E4 & E5 & E6); [lia|].
  split; cbn; try done; unfold open_chan; rewrite ?E1, ?E2, ?E3; try done.
  exists (channel Z (Z.max (sends w) 1)). rewrite E4, E5, E6. repeat split. lia.
Qed.

Lemma open_room c n cap : open_chan c n cap -> n < cap -> has_room c.
Proof. intros (H1 & H2 & H3) Hn. split; [done|]. lia. Qed.
Lemma open_full c n cap : open_chan c n cap -> cap <= n -> ~ has_room c.
Proof. intros (H1 & H2 & H3) Hn [_ Hr]. lia. Qed.
Lemma open_push c c' n cap (f : Z) :
  open_chan c n cap -> now_holds c c' (queued c ++ [f]) false -> open_chan c' (n + 1) cap.
Proof.
  intros (H1 & H2 & H3) (E1 & E2 & E3). split; [done|]. split; [|congruence].
  rewrite E1, len_app, H2. done.
Qed.
Lemma open_same c c' n cap : open_chan c n cap -> now_holds c c' (queued c ++ []) (closed c) -> open_chan c' n cap.
Proof.
  intros (H1 & H2 & H3) (E1 & E2 & E3). rewrite app_nil_r in E1.
  unfold open_chan. by rewrite E1, E2, E3.
Qed.

(** How many frames the lane's queue holds. *)
Definition in_lane (ln : Lane) (h l : Z) : Z := match ln with LaneHigh => h | LaneLow => l end.
Definition lane_fixture (q : @PushQueues Q L Z) (ln : Lane) (n d cap dcap : Z) : Prop :=
  fixture q (in_lane ln n 0) (in_lane ln 0 n) d cap dcap.

Lemma lane_chan q ln n d cap dcap :
  lane_fixture q ln n d cap dcap -> open_chan (queue_of q (lane_priority ln)) n cap.
Proof. intros H. destruct ln; [apply H|apply H]. Qed.

Lemma lane_set q ln n n' d cap dcap c :
  lane_fixture q ln n d cap dcap -> open_chan c n' cap ->
  lane_fixture (set_queue q (lane_priority ln) c) ln n' d cap dcap.
Proof. intros [H1 H2 H3 H4 H5 H6] Hc. by destruct ln; split. Qed.

Lemma set_waits_fixture q h l d cap dcap w : fixture q h l d cap dcap -> fixture (set_waits q w) h l d cap dcap.
Proof. by intros [H1 H2 H3 H4 H5 H6]; split. Qed.

Lemma push_lane_is ln f : push_lane ln f = PushPermit f (lane_priority ln).
Proof. by destruct ln. Qed.

(** An awaited push to a queue with room does not park. *)
Lemma await_push_room q ln n d cap dcap f now :
  lane_fixture q ln n d cap dcap -> n < cap ->
  exists q', await_push 4 q (push_lane ln f) now = Some (q', Ok tt) /\ lane_fixture q' ln (n + 1) d cap dcap.
Proof.
  intros H Hn. rewrite push_lane_is. cbn [await_push push_step].
  unfold wait_for_permit. rewrite (fx_limiter _ _ _ _ _ _ H).
  cbn [await_push push_step].
  set (q1 := set_waits q (record_capacity_probe (waits q))).
  assert (H1 : lane_fixture q1 ln n d cap dcap) by by apply set_waits_fixture.
  pose proof (lane_chan _ _ _ _ _ _ H1) as Hc.
  destruct (try_send_cases (queue_of q1 (lane_priority ln)) f) as [(_ & c' & -> & Hh)|(Hr & _)].
  - eexists. split; [reflexivity|]. apply (lane_set _ _ n); [done|]. by eapply open_push.
  - exfalso. eapply Hr, open_room; [exact Hc|done].
Qed.

Lemma fill_loop_fills ln now cap d dcap : forall (n : nat) q index filled,
  lane_fixture q ln index d cap dcap -> index + Z.of_nat n <= cap ->
  exists q', fill_loop n index filled ln now q = Some (q', Ok (filled + Z.of_nat n))
    /\ lane_fixture q' ln (index + Z.of_nat n) d cap dcap.
Proof.
  induction n as [|n IH]; intros q index filled H Hn; cbn [fill_loop].
  { exists q. by rewrite !Z.add_0_r. }
  destruct (await_push_room q ln index d cap dcap (frame index) now H) as (q1 & -> & H1); [lia|].
  destruct (IH q1 (index + 1) (filled + 1) H1) as (q' & -> & H'); [lia|].
  exists q'. replace (filled + Z.of_nat (S n)) with (filled + 1 + Z.of_nat n) by lia.
  replace (index + Z.of_nat (S n)) with (index + 1 + Z.of_nat n) by lia. done.
Qed.

(** A non-blocking push to the full lane. *)
Lemma try_push_full q ln d cap dcap f pol t1 t2 :
  lane_fixture q ln cap d cap dcap -> d < dcap ->
  exists q', try_push q f (lane_priority ln) pol t1 t2
      = (q', if decide (pol = ReturnErrorIfFull) then Err QueueFull else Ok tt)
    /\ lane_fixture q' ln cap (if decide (pol = ReturnErrorIfFull) then d else d + 1) cap dcap.
Proof.
  intros H Hd. pose proof (lane_chan _ _ _ _ _ _ H) as Hc. pose proof H as [H1 H2 H3 H4 H5 (c & Hs & Ho)].
  pose proof (try_push_fate q f (lane_priority ln) pol t1 t2 H4 ltac:(rewrite H5; done)) as Hp.
  destruct (try_push q f (lane_priority ln) pol t1 t2) as [q' r]. exists q'.
  assert (Hf : fate q (lane_priority ln) pol
    = if decide (pol = ReturnErrorIfFull) then Rejected QueueFull else DeadLettered).
  { unfold fate. rewrite (proj1 Hc), decide_False by (eapply open_full; [exact Hc|lia]).
    destruct (decide (pol = ReturnErrorIfFull)); [done|]. rewrite Hs, decide_True; [done|].
    by eapply open_room. }
  rewrite Hf in Hp. destruct Hp as ([Pq Po [Pl _] Pls Pw Ps] & -> & _). rewrite Hs in Ps.
  destruct (sink (dead_letter q')) as [c'|] eqn:Hs'; [|done].
  split; [by destruct (decide _)|].
  assert (Hq : open_chan (queue_of q' (lane_priority ln)) cap cap).
  { eapply open_same; [exact Hc|]. by destruct (decide _). }
  split; try done; try congruence.
  - destruct ln; [exact Hq|]. specialize (Po PriorityHigh ltac:(done)). cbn in Po. by rewrite Po.
  - destruct ln; [|exact Hq]. specialize (Po PriorityLow ltac:(done)). cbn in Po. by rewrite Po.
  - rewrite Pls, H5. by destruct (decide _).
  - exists c'. split; [done|]. destruct (decide _); [by eapply open_same|].
    rewrite (proj1 Ho) in Ps. by eapply open_push.
Qed.

Definition overflow_outcome (pol : PushPolicy) (n : Z) (o : SendOutcome) : SendOutcome :=
  if decide (pol = ReturnErrorIfFull)
  then mk_SendOutcome (accepted o) (drained o) (dead_lettered o) (reported_queue_full o || (0 <? n)) (waited o)
  else mk_SendOutcome (accepted o + n) (drained o) (dead_lettered o) (reported_queue_full o) (waited o).

Lemma overflow_loop_exact ln cap dcap pol clock : forall (n : nat) q index d o,
  lane_fixture q ln cap d cap dcap -> d + Z.of_nat n <= dcap ->
  exists q', overflow_loop n index (lane_priority ln) pol clock q o
      = (q', Ok (overflow_outcome pol (Z.of_nat n) o))
    /\ lane_fixture q' ln cap (if decide (pol = ReturnErrorIfFull) then d else d + Z.of_nat n) cap dcap.
Proof.
  induction n as [|n IH]; intros q index d o H Hd; cbn [overflow_loop].
  { exists q. rewrite Z.add_0_r. split; [|by destruct (decide _)]. do 2 f_equal. unfold overflow_outcome.
    cbn [Z.of_nat Z.ltb Z.compare]. rewrite orb_false_r, Z.add_0_r. by destruct o, (decide _). }
  destruct (try_push_full q ln d cap dcap (frame index) pol (clock index).1 (clock index).2 H)
    as (q1 & -> & H1); [lia|].
  unfold overflow_outcome in *. destruct (decide (pol = ReturnErrorIfFull)) as [E|E].
  - destruct (IH q1 (index + 1) d (mk_SendOutcome (accepted o) (drained o) (dead_lettered o) true (waited o)) H1)
      as (q' & -> & H'); [lia|]. exists q'. split; [|done]. do 3 f_equal. cbn.
    by rewrite orb_true_r.
  - destruct (IH q1 (index + 1) (d + 1)
      (mk_SendOutcome (accepted o + 1) (drained o) (dead_lettered o) (reported_queue_full o) (waited o)) H1)
      as (q' & -> & H'); [lia|]. exists q'.
    replace (d + Z.of_nat (S n)) with (d + 1 + Z.of_nat n) by lia. split; [|done]. do 3 f_equal. cbn [accepted]. lia.
Qed.

Lemma drain_dlq_counts : forall (l : list Z) c count fuel,
  queued c = l -> (length l < fuel)%nat -> drain_dlq fuel c count = count + len l.
Proof.
  induction l as [|f l IH]; intros c count fuel Hq Hf; (destruct fuel as [|fuel]; [cbn in Hf; lia|]);
    cbn [drain_dlq].
  - destruct (closed c) eqn:Hc; [rewrite try_recv_disconnected by done|rewrite try_recv_empty by done];
      unfold len; cbn; lia.
  - destruct (try_recv_frame _ c f l Hq) as (c' & -> & Hh & _).
    rewrite (IH c' (count + 1) fuel Hh) by (cbn in Hf; lia). unfold len. cbn [length]. lia.
Qed.

(** What an overflow run reports. *)
Definition overflow_report (w : PushWorkload) : SendOutcome :=
  match policy (scenario w) with
  | Some ReturnErrorIfFull => mk_SendOutcome 0 0 0 true PushWaitCounters_default
  | _ => mk_SendOutcome (sends w) 0 (sends w) false PushWaitCounters_default
  end.

Lemma send_overflow_exact w now clock :
  is_overflow (scenario w) = true -> 1 <= queue_capacity w -> 1 <= sends w ->
  send_overflow (L := L) w now clock = Some (Ok (overflow_report w)).
Proof.
  intros Hov Hc Hs. unfold send_overflow, overflow_report, overflow_policy.
  destruct (policy (scenario w)) as [pol|] eqn:Hp; [|by destruct (scenario w)].
  destruct (build_queues_fixture w now Hc Hs) as (q & -> & Hf & _).
  assert (H0 : lane_fixture q (lane (scenario w)) 0 0 (queue_capacity w) (sends w))
    by (unfold lane_fixture; by destruct (lane (scenario w))).
  unfold fill_to_capacity.
  destruct (fill_loop_fills (lane (scenario w)) now (queue_capacity w) 0 (sends w)
    (Z.to_nat (queue_capacity w)) q 0 0 H0) as (q1 & -> & H1); [lia|].
  rewrite Z2Nat.id, Z.add_0_l in * by lia. rewrite Z.ltb_irrefl.
  destruct (overflow_loop_exact (lane (scenario w)) (queue_capacity w) (sends w) pol clock
    (Z.to_nat (sends w)) q1 0 0 outcome_default H1) as (q2 & -> & H2); [lia|].
  rewrite Z2Nat.id, Z.add_0_l in * by lia.
  assert (Hd : count_dlq q2 = if decide (pol = ReturnErrorIfFull) then 0 else sends w).
  { destruct (fx_sink _ _ _ _ _ _ H2) as (c & Hsk & _ & Hl & _). unfold count_dlq. rewrite Hsk.
    rewrite (drain_dlq_counts (queued c)) by (done || lia). by rewrite Hl. }
  rewrite Hd. unfold overflow_outcome, outcome_default.
  destruct pol; cbn [decide accepted drained dead_lettered reported_queue_full waited];
    try rewrite decide_True by done; try rewrite !decide_False by done;
    cbn [accepted drained dead_lettered reported_queue_full waited orb]; do 3 f_equal.
  apply Z.ltb_lt. lia.
Qed.
End Overflow.

(** ** The awaited runs *)

Section Awaited.
Context {Q : Mpsc} {QL : MpscLaws Q} {L : RateLimiting}.
Implicit Types (q : @PushQueues Q L Z) (wc : PushWaitCounters).
Variable w : PushWorkload.
Hypothesis Hcap : 1 <= queue_capacity w.
Hypothesis Hsends : 1 <= sends w <= u64_max.

Definition prio : PushPriority := lane_priority (lane (scenario w)).
Definition other : PushPriority := match prio with PriorityHigh => PriorityLow | PriorityLow => PriorityHigh end.

(** [n] frames in the lane's queue and none in the other, both closed or open. *)
Record qstate (q : @PushQueues Q L Z) (n : Z) (b : bool) (wc : PushWaitCounters) : Prop := {
  qs_limiter : limiter q = None;
  qs_lane : capacity (queue_of q prio) = queue_capacity w /\ len (queued (queue_of q prio)) = n
            /\ closed (queue_of q prio) = b;
  qs_fits : n <= queue_capacity w;
  qs_other : queued (queue_of q other) = [] /\ closed (queue_of q other) = b;
  qs_waits : waits q = wc
}.

Lemma other_ne : other <> prio.
Proof. unfold other. by destruct prio. Qed.

Lemma qstate_push q n wc f :
  qstate q n false wc -> n < queue_capacity w ->
  exists c, try_send (queue_of q prio) f = (c, Ok tt) /\ qstate (set_queue q prio c) (n + 1) false wc.
Proof.
  intros [H1 (H2 & H3 & H4) H5 [H6 H7] H8] Hn.
  destruct (try_send_cases (queue_of q prio) f) as [(_ & c & E & (Eq & Ec & Eb))|(Hr & _)].
  - exists c. split; [done|].
    destruct (queue_set_rest q prio c) as (E1 & E2 & _).
    split; rewrite ?E1, ?E2, ?queue_set, ?(queue_set_other q prio c other other_ne); try done; [|lia].
    split; [congruence|]. split; [|done]. rewrite Eq, len_app, H3. done.
  - exfalso. apply Hr. split; [done|]. lia.
Qed.
Lemma qstate_full q n wc f :
  qstate q n false wc -> queue_capacity w <= n ->
  try_send (queue_of q prio) f = (queue_of q prio, Err SendFull).
Proof. intros [H1 (H2 & H3 & H4) H5 [H6 H7] H8] Hn. apply try_send_full; [done|lia]. Qed.
Lemma qstate_close q n b wc : qstate q n b wc -> qstate (close_queues q) n true wc.
Proof.
  intros [H1 (H2 & H3 & H4) H5 [H6 H7] H8].
  assert (E : forall p, now_holds (queue_of q p) (queue_of (close_queues q) p) (queued (queue_of q p)) true).
  { intros []; apply close_law. }
  destruct (E prio) as (E1 & E2 & E3). destruct (E other) as (E4 & _ & E5).
  split; rewrite ?E1, ?E2, ?E3, ?E4, ?E5; done.
Qed.
Lemma qstate_waits q n b wc wc' : qstate q n b wc -> qstate (set_waits q wc') n b wc'.
Proof. intros [H1 (H2 & H3 & H4) H5 [H6 H7] H8]. by split. Qed.

Lemma qstate_recv q n b wc :
  qstate q n b wc ->
  let '(q', r) := recv_poll 3 q RecvFuture_new in
  (0 < n /\ (exists f, r = RecvReady (Some (prio, f))) /\ qstate q' (n - 1) b wc)
  \/ (n = 0 /\ q' = q /\ r = if b then RecvReady None else RecvPending RecvFuture_new).
Proof.
  intros H. pose proof H as [H1 (H2 & H3 & H4) H5 [H6 H7] H8].
  pose proof (recv_poll_exact q RecvFuture_new ltac:(done)) as He.
  destruct (recv_poll 3 q RecvFuture_new) as [q' r]. destruct He as [-> Ht].
  assert (En : next_frame q = match queued (queue_of q prio) with
    | f :: _ => RecvReady (Some (prio, f))
    | [] => if b then RecvReady None else RecvPending RecvFuture_new end).
  { unfold next_frame. unfold other in *. destruct prio; cbn [queue_of] in *; rewrite H6, H4, H7.
    - destruct (queued (high_prio q)); [by destruct b|done].
    - destruct (queued (low_prio q)); [by destruct b|done]. }
  rewrite En in *. destruct (queued (queue_of q prio)) as [|f l] eqn:El.
  - right. split; [done|]. split; [by destruct b|done].
  - left. split; [rewrite <- H3; unfold len; cbn [length]; lia|]. split; [by exists f|].
    destruct Ht as (c & (Eq & Ec & Eb) & ->). rewrite El in Eq. cbn [tail] in Eq.
    destruct (queue_set_rest q prio c) as (E1 & E2 & _).
    split; rewrite ?E1, ?E2, ?queue_set, ?(queue_set_other q prio c other other_ne); try done; [|lia].
    split; [congruence|]. split; [|congruence]. rewrite Eq, <- H3. unfold len. cbn [length]. lia.
Qed.

(** *** The invariant *)

(** Whether a deadline may have expired. *)
Variable late : bool.

Definition counts (wc : PushWaitCounters) (probes most : Z) : Prop :=
  capacity_probes wc = probes /\ 0 <= awaited_capacity_waits wc <= most
  /\ (is_uncontended (scenario w) = true -> awaited_capacity_waits wc = 0).

Definition fut_lane (p : @PushFuture Z) : Prop :=
  match p with
  | PushPermit _ pr | PushProbe _ pr | PushReserve _ pr => pr = prio
  | PushSend _ pr _ => pr = prio /\ is_uncontended (scenario w) = false
  | PushDone _ pr r _ => pr = prio /\ r = Ok tt
  end.
Definition sent_by (p : @Producer) : Z :=
  match p with
  | SendNext i => i
  | SendAwait i (PushDone _ _ _ _) => i + 1
  | SendAwait i _ => i
  | SendDone _ => sends w
  end.
Definition producer_ok (wc : PushWaitCounters) (p : @Producer) : Prop :=
  match p with
  | SendNext i => 0 <= i <= sends w /\ counts wc i i
  | SendAwait i p =>
      0 <= i < sends w /\ fut_lane p /\ counts wc (i + probed p) (i + parked p)
      /\ parked p <= awaited_capacity_waits wc
  | SendDone r => r = Ok tt /\ counts wc (sends w) (sends w)
  end.

Definition shut (m : Main) : bool :=
  match m with AwaitingDrain _ _ | Finished _ => true | _ => false end.
Definition consumed (c : option Consumer) : Z :=
  match c with None => 0 | Some (Receiving n _) | Some (Received n) => n end.
Definition consumer_ok (n : Z) (m : Main) (c : option Consumer) : Prop :=
  match c with
  | None => m = Observing
  | Some (Receiving _ fut) => fut = RecvFuture_new /\ m <> Observing
  | Some (Received _) => n = 0 /\ shut m = true
  end.

Definition obs_ok (wc : PushWaitCounters) (o : option Z) : Prop :=
  match o with
  | None => is_backpressure (scenario w) = false
  | Some n => is_backpressure (scenario w) = true /\ 0 <= n <= awaited_capacity_waits wc
              /\ (n = 0 -> late = true)
  end.
(** What a run may return: the outcome its scenario claims, or, when the
    deadline for the park expired, that it did not see one. *)
Definition valid_outcome (r : result SendOutcome string) : Prop :=
  exists wc, counts wc (sends w) (sends w)
    /\ ((r = Ok (awaited_outcome w (sends w) wc)
         /\ (is_backpressure (scenario w) = true -> 1 <= awaited_capacity_waits wc))
        \/ (late = true /\ is_backpressure (scenario w) = true
            /\ r = backpressure_result w 0 wc (sends w))).
Definition main_ok (wc : PushWaitCounters) (x : @Run Q L) : Prop :=
  match main x with
  | Observing => is_backpressure (scenario w) = true
  | AwaitingSends o => obs_ok wc o
  | AwaitingDrain o wc' => obs_ok wc o /\ wc' = wc /\ producer x = SendDone (Ok tt)
  | Finished r => valid_outcome r /\ producer x = SendDone (Ok tt)
  end.

Definition bench_inv (x : @Run Q L) : Prop :=
  exists n wc, qstate (queues x) n (shut (main x)) wc
    /\ (0 <= consumed (consumer x) /\ consumed (consumer x) + n = sent_by (producer x))
    /\ producer_ok wc (producer x) /\ consumer_ok n (main x) (consumer x) /\ main_ok wc x.

Lemma running_open x wc i p :
  main_ok wc x -> producer x = SendNext i \/ producer x = SendAwait i p -> shut (main x) = false.
Proof.
  unfold main_ok. intros H Hp. destruct (main x) as [|o|o w'|r]; cbn; try done.
  - destruct H as (_ & _ & E). destruct Hp; congruence.
  - destruct H as (_ & E). destruct Hp; congruence.
Qed.

Lemma counts_probe wc i m :
  0 <= i < sends w -> counts wc i m -> counts (record_capacity_probe wc) (i + 1) m.
Proof.
  intros Hi (H1 & H2 & H3). split; [|done]. unfold record_capacity_probe, wrapping_add. cbn.
  rewrite H1. apply Z.mod_small. lia.
Qed.
Lemma counts_wait wc p m :
  0 <= m < sends w -> is_uncontended (scenario w) = false -> counts wc p m ->
  counts (record_capacity_wait wc) p (m + 1)
  /\ awaited_capacity_waits (record_capacity_wait wc) = awaited_capacity_waits wc + 1.
Proof.
  intros Hm Hu (H1 & H2 & H3).
  assert (E : awaited_capacity_waits (record_capacity_wait wc) = awaited_capacity_waits wc + 1).
  { unfold record_capacity_wait, wrapping_add. cbn. apply Z.mod_small. lia. }
  split; [|done]. split; [done|]. split; [lia|]. congruence.
Qed.
Lemma counts_weaken wc p m m' : m <= m' -> counts wc p m -> counts wc p m'.
Proof. intros Hm (H1 & H2 & H3). split; [done|]. split; [lia|done]. Qed.

(** The workload's validation: an uncontended run fits in the queue. *)
Hypothesis Hfit : is_uncontended (scenario w) = true -> sends w <= queue_capacity w.

(** The producer's next step, with the queues open: one more frame is queued,
    probed for, or waited for, as its state says. *)
Definition producer_advances (q : @PushQueues Q L Z) (n : Z) (wc : PushWaitCounters)
    (q' : @PushQueues Q L Z) (p p' : @Producer) : Prop :=
  exists n' wc', qstate q' n' false wc' /\ n' - n = sent_by p' - sent_by p /\ producer_ok wc' p'
    /\ awaited_capacity_waits wc <= awaited_capacity_waits wc'.

Lemma offer_advances q n wc i (f : Z) (b : bool) :
  qstate q n false wc -> n <= i -> 0 <= i < sends w -> counts wc (i + 1) (i + (if b then 1 else 0)) ->
  (if b then 1 else 0) <= awaited_capacity_waits wc ->
  (b = true -> is_uncontended (scenario w) = false) ->
  exists c (r : result unit TrySendError), try_send (queue_of q prio) f = (c, r)
    /\ match r with
       | Ok _ => producer_advances q n wc (set_queue q prio c) (SendAwait i (PushReserve f prio))
                   (SendAwait i (PushDone f prio (Ok tt) b))
       | Err SendFull => set_queue q prio c = q /\ is_uncontended (scenario w) = false
       | Err SendClosed => False
       end.
Proof.
  intros Hq Hn Hi Hc Hb Hu. destruct (decide (n < queue_capacity w)) as [Hlt|Hge].
  - destruct (qstate_push q n wc f Hq Hlt) as (c & -> & Hq'). exists c, (Ok tt). split; [done|].
    exists (n + 1), wc. split; [done|]. cbn [sent_by]. split; [lia|]. split; [|lia].
    cbn [producer_ok fut_lane probed parked]. split; [done|]. split; [done|].
    by destruct b.
  - exists (queue_of q prio), (Err SendFull). split; [apply (qstate_full q n wc f Hq); lia|].
    split; [apply set_queue_same|]. apply not_true_is_false. intros Hun. specialize (Hfit Hun). lia.
Qed.

Lemma producer_step_ok q n wc p now q' p' :
  qstate q n false wc -> 0 <= n <= sent_by p -> producer_ok wc p ->
  send_all w (lane (scenario w)) now q p = Some (q', p') ->
  producer_advances q n wc q' p p'.
Proof.
  intros Hq Hn Hp Hs. destruct p as [i|i p|r]; cbn [send_all] in Hs; [| |done].
  - destruct Hp as [Hi Hc]. injection Hs as <- <-. exists n, wc. split; [done|].
    destruct (Z.ltb_spec i (sends w)) as [Hlt|Hge].
    + rewrite push_lane_is. cbn [sent_by producer_ok fut_lane probed parked]. rewrite !Z.add_0_r.
      split; [lia|]. destruct Hc as (Hc1 & Hc2 & Hc3). repeat split; try done; lia.
    + cbn [sent_by producer_ok]. replace i with (sends w) in * by lia. split; [lia|]. split; [done|lia].
  - destruct Hp as (Hi & Hl & Hc & Hw).
    destruct p as [f pr|f pr|f pr|f pr b|f pr r b]; cbn [push_step] in Hs; cbn [fut_lane probed parked] in *.
    + subst pr. unfold wait_for_permit in Hs. rewrite (qs_limiter _ _ _ _ Hq) in Hs. injection Hs as <- <-.
      exists n, wc. cbn [sent_by producer_ok fut_lane probed parked]. split; [done|]. split; [lia|].
      split; [done|lia].
    + subst pr. injection Hs as <- <-. rewrite (qs_waits _ _ _ _ Hq). rewrite !Z.add_0_r in Hc.
      exists n, (record_capacity_probe wc). split; [by eapply qstate_waits|].
      cbn [sent_by producer_ok fut_lane probed parked]. split; [lia|]. split; [|done].
      split; [done|]. split; [done|]. split; [|done]. rewrite Z.add_0_r. by apply counts_probe.
    + subst pr. cbn [sent_by] in Hn.
      destruct (offer_advances q n wc i f false Hq ltac:(lia) Hi Hc ltac:(done) ltac:(done)) as (c & r & E & H).
      rewrite E in Hs. destruct r as [[]|[|]]; [|..|done]; injection Hs as <- <-; [exact H|].
      destruct H as [Eq Hu]. rewrite Eq. exists n, wc. split; [done|]. split; [cbn; lia|].
      cbn [producer_ok fut_lane probed parked]. split; [done|lia].
    + destruct Hl as [-> Hu]. cbn [sent_by] in Hn.
      assert (Hc' : counts wc (i + 1) (i + (if b then 1 else 0))) by by destruct b.
      destruct (offer_advances q n wc i f b Hq ltac:(lia) Hi Hc' ltac:(by destruct b) ltac:(done))
        as (c & r & E & H).
      rewrite E in Hs. destruct r as [[]|[|]]; [|..|done]; injection Hs as <- <-; [exact H|].
      destruct H as [-> _]. unfold record_first_pending. rewrite (qs_waits _ _ _ _ Hq).
      destruct b; cbn [negb].
      * exists n, wc. split; [by eapply qstate_waits|]. split; [cbn; lia|]. split; [done|lia].
      * rewrite Z.add_0_r in Hc'. destruct (counts_wait wc (i + 1) i) as [Hc1 Hc2]; [lia|done|done|].
        exists n, (record_capacity_wait wc). split; [by eapply qstate_waits|]. split; [cbn; lia|].
        destruct Hc' as (_ & Hc3 & _). cbn [producer_ok fut_lane probed parked]. split; [|lia].
        repeat split; try done; try lia; apply Hc1.
    + destruct Hl as [-> ->]. injection Hs as <- <-. exists n, wc. split; [done|].
      split; [cbn; lia|]. split; [|lia]. cbn [producer_ok]. split; [lia|].
      eapply counts_weaken; [|exact Hc]. destruct b; lia.
Qed.

Lemma obs_ok_mono wc wc' o :
  awaited_capacity_waits wc <= awaited_capacity_waits wc' -> obs_ok wc o -> obs_ok wc' o.
Proof. intros Hle. destruct o as [m|]; [|done]. intros (H1 & H2 & H3). split; [done|]. split; [lia|done]. Qed.

Lemma producer_inv x now q' p' :
  bench_inv x ->
  send_all w (lane (scenario w)) now (queues x) (producer x) = Some (q', p') ->
  bench_inv (mk_Run q' p' (consumer x) (main x)).
Proof.
  intros (n & wc & Hq & [H0 Hf] & Hp & Hc & Hm) Hs.
  assert (Hopen : shut (main x) = false).
  { destruct (producer x) as [i|i p|r] eqn:Ep; [| |done]; [apply (running_open x wc i (PushPermit 0 prio))|
      apply (running_open x wc i p)]; auto. }
  rewrite Hopen in Hq.
  assert (Hn : 0 <= n <= sent_by (producer x)).
  { destruct (qs_lane _ _ _ _ Hq) as (_ & El & _). unfold len in El. lia. }
  destruct (producer_step_ok _ _ _ _ _ _ _ Hq Hn Hp Hs) as (n' & wc' & Hq' & Hn' & Hp' & Hw).
  exists n', wc'. cbn [queues producer consumer main]. rewrite Hopen. split; [done|]. split; [lia|].
  split; [done|]. split.
  - destruct (consumer x) as [[m fut|m]|]; try done. destruct Hc as [_ Hc]. congruence.
  - unfold main_ok in *. cbn [main producer]. destruct (main x) as [|o|o v|r]; try done.
    by eapply obs_ok_mono.
Qed.

Lemma consumer_inv x q' c c' :
  bench_inv x -> consumer x = Some c -> consume (queues x) c = Some (q', c') ->
  bench_inv (mk_Run q' (producer x) (Some c') (main x)).
Proof.
  intros (n & wc & Hq & [H0 Hf] & Hp & Hc & Hm) Ec Hs. rewrite Ec in *. cbn [consumed] in H0.
  destruct c as [m fut|m]; cbn [consume] in Hs; [|done]. destruct Hc as [-> Hne].
  pose proof (qstate_recv _ _ _ _ Hq) as Hr. destruct (recv_poll 3 (queues x) RecvFuture_new) as [q1 r].
  injection Hs as <- <-. cbn [consumed] in Hf.
  destruct Hr as [(Hn & [f ->] & Hq1)|(Hn & -> & Hr)].
  - exists (n - 1), wc. cbn [queues producer consumer main consumed]. split; [done|]. split; [lia|].
    split; [done|]. by split.
  - exists n, wc. cbn [queues producer consumer main]. split; [done|]. subst r.
    destruct (shut (main x)) eqn:Es; cbn [consumed consumer_ok]; (split; [done|]); (split; [done|]); by split.
Qed.

(** The counters a run reads are those since it started. *)
Lemma since_default (q : @PushQueues Q L Z) wc p m :
  counts wc p m -> 0 <= p -> waits q = wc -> since (wait_counters q) PushWaitCounters_default = wc.
Proof.
  intros (H1 & H2 & _) Hp E. unfold since, wait_counters, snapshot, saturating_sub. cbn. rewrite E.
  destruct wc as [a b]. cbn in *. f_equal; lia.
Qed.

Lemma main_inv x expired x' :
  bench_inv x -> (expired = true -> late = true) ->
  main_step w PushWaitCounters_default expired x = Some x' -> bench_inv x'.
Proof.
  intros (n & wc & Hq & [H0 Hf] & Hp & Hc & Hm) He Hs. unfold main_step in Hs. unfold main_ok in Hm.
  destruct (main x) as [|o|o v|r] eqn:Em; [| | |done].
  - destruct (observe_parked_send _ _ _) as [m|] eqn:Eo; [|done]. injection Hs as <-.
    assert (Hcounts : exists p m, counts wc p m /\ 0 <= p).
    { destruct (producer x) as [i|i p|r]; cbn [producer_ok] in Hp.
      - exists i, i. split; [apply Hp|lia].
      - exists (i + probed p), (i + parked p). split; [apply Hp|]. pose proof (probed_bound p). lia.
      - exists (sends w), (sends w). split; [apply Hp|lia]. }
    destruct Hcounts as (p & m' & Hcs & Hp0). unfold observe_parked_send in Eo.
    rewrite (since_default _ wc p m' Hcs Hp0 (qs_waits _ _ _ _ Hq)) in Eo.
    exists n, wc. cbn [queues producer consumer main consumed]. split; [done|].
    assert (Hn : consumed (consumer x) = 0).
    { destruct (consumer x) as [[k f|k]|]; [by destruct Hc| |done]. by destruct Hc. }
    split; [lia|]. split; [done|]. split; [done|]. unfold main_ok, obs_ok. cbn [main].
    destruct Hcs as (_ & Hw & _). split; [done|].
    destruct (Z.ltb_spec 0 (awaited_capacity_waits wc)).
    + injection Eo as <-. split; [lia|]. lia.
    + destruct expired; [|done]. injection Eo as <-. split; [lia|]. auto.
  - destruct (producer x) as [|i p|r] eqn:Ep; try done. cbn [producer_ok] in Hp. destruct Hp as [-> Hcs].
    injection Hs as <-. exists n, wc. cbn [queues producer consumer main]. split; [by eapply qstate_close|].
    split; [done|]. split; [done|]. split.
    + destruct (consumer x) as [[k f|k]|]; [|by destruct Hc|done]. by destruct Hc.
    + unfold main_ok. cbn [main producer]. split; [done|]. split; [|done].
      apply (since_default _ wc (sends w) (sends w) Hcs); [lia|]. apply (qs_waits _ _ _ _ Hq).
  - destruct (consumer x) as [[k f|k]|] eqn:Ec; try done. injection Hs as <-.
    destruct Hm as (Ho & -> & Ep). rewrite Ep in *. destruct Hp as [_ Hcs]. destruct Hc as [-> _].
    exists 0, wc. cbn [queues producer consumer main]. split; [done|]. split; [done|]. split; [done|].
    split; [done|]. unfold main_ok. cbn [main producer]. split; [|done]. exists wc. split; [done|].
    cbn [consumed sent_by] in Hf. replace k with (sends w) by lia. pose proof Hcs as (Hc1 & Hc2 & Hc3).
    destruct o as [m|]; cbn [obs_ok] in Ho.
    + destruct Ho as (Hb & Hm & Hl). destruct (Z.eq_dec m 0) as [->|Hm0]; [right; by auto|].
      left. split; [|lia]. unfold backpressure_result.
      destruct (Z.eqb_spec m 0); [done|]. by rewrite Z.eqb_refl.
    + left. split; [|by rewrite Ho]. unfold drained_result.
      destruct (is_uncontended (scenario w)) eqn:Eu; cbn [andb].
      * rewrite (Hc3 eq_refl), Hc1. cbn [negb Z.eqb]. rewrite Z.eqb_refl.
        destruct (Z.eqb_spec (sends w) 0); [lia|done].
      * rewrite Hc1, Z.eqb_refl. destruct (Z.eqb_spec (sends w) 0); [lia|done].
Qed.

Definition expires (e : BenchEvent) : bool := match e with EvMain b => b | _ => false end.

Lemma bench_step_inv x e x' :
  bench_inv x -> (expires e = true -> late = true) ->
  bench_step w PushWaitCounters_default x e = Some x' -> bench_inv x'.
Proof.
  intros Hi He Hs. destruct e as [now| |b]; cbn [bench_step] in Hs.
  - destruct (send_all _ _ _ _ _) as [[q p]|] eqn:Ep; [|done]. injection Hs as <-. by eapply producer_inv.
  - destruct (consumer x) as [c|] eqn:Ec; [|done]. destruct (consume _ _) as [[q c']|] eqn:Es; [|done].
    injection Hs as <-. by eapply consumer_inv.
  - by eapply main_inv.
Qed.
Lemma bench_play_inv es : forall x,
  bench_inv x -> (existsb expires es = true -> late = true) ->
  bench_inv (bench_play w PushWaitCounters_default x es).
Proof.
  unfold bench_play. induction es as [|e es IH]; intros x Hi He; cbn [foldl]; [done|].
  cbn [existsb] in He. apply IH; [|intros H; apply He; by rewrite H, orb_true_r].
  destruct (bench_step w PushWaitCounters_default x e) as [x'|] eqn:Es; [|done].
  eapply bench_step_inv; [exact Hi| |exact Es]. intros H. apply He. by rewrite H.
Qed.

Lemma awaited_start_inv q : qstate q 0 false PushWaitCounters_default -> bench_inv (awaited_start w q).
Proof.
  intros Hq. exists 0, PushWaitCounters_default. unfold awaited_start.
  assert (Hc : counts PushWaitCounters_default 0 0) by by repeat split.
  destruct (is_backpressure (scenario w)) eqn:Eb; cbn; (split; [done|]); (split; [done|]);
    (split; [split; [lia|done]|]); by split.
Qed.

(** *** Progress *)

Definition producer_left (p : @Producer) : Z :=
  match p with
  | SendNext i => 8 * (sends w - i) + 7
  | SendAwait i p =>
      8 * (sends w - i)
      + match p with
        | PushPermit _ _ => 6 | PushProbe _ _ => 5 | PushReserve _ _ => 4
        | PushSend _ _ false => 3 | PushSend _ _ true => 2 | PushDone _ _ _ _ => 1
        end
  | SendDone _ => 0
  end.
Definition consumer_left (c : option Consumer) : Z :=
  match c with
  | None => 2 * sends w + 3
  | Some (Receiving n _) => 2 * (sends w - n) + 1
  | Some (Received _) => 0
  end.
Definition main_left (m : Main) : Z :=
  match m with Observing => 3 | AwaitingSends _ => 2 | AwaitingDrain _ _ => 1 | Finished _ => 0 end.
Definition run_left (x : @Run Q L) : Z :=
  producer_left (producer x) + consumer_left (consumer x) + main_left (main x).

Lemma run_left_nonneg x : bench_inv x -> 0 <= run_left x.
Proof.
  intros (n & wc & Hq & [H0 Hf] & Hp & Hc & Hm). unfold run_left.
  destruct (qs_lane _ _ _ _ Hq) as (_ & El & _). unfold len in El.
  assert (sent_by (producer x) <= sends w).
  { destruct (producer x) as [i|i p|r]; cbn [producer_ok sent_by] in *; [lia| |lia]. destruct p; lia. }
  assert (0 <= producer_left (producer x)).
  { destruct (producer x) as [i|i p|r]; cbn [producer_ok producer_left] in *; [lia| |lia].
    destruct p as [| | |? ? []|]; lia. }
  assert (0 <= consumer_left (consumer x)) by (destruct (consumer x) as [[m f|m]|]; cbn in *; lia).
  destruct (main x); cbn [main_left]; lia.
Qed.

(** A producer that is not done and not parked at a full queue can go on. *)
Lemma producer_progress q n wc p :
  qstate q n false wc -> producer_ok wc p -> (forall r, p <> SendDone r) ->
  (forall i f pr, p = SendAwait i (PushSend f pr true) -> n < queue_capacity w) ->
  exists q' p', send_all w (lane (scenario w)) 0 q p = Some (q', p') /\ producer_left p' < producer_left p.
Proof.
  intros Hq Hp Hd Hs. destruct p as [i|i p|r]; [| |by destruct (Hd r)].
  - cbn [send_all]. eexists _, _. split; [reflexivity|]. cbn [producer_ok] in Hp.
    destruct (Z.ltb_spec i (sends w)); rewrite ?push_lane_is; cbn [producer_left]; lia.
  - destruct Hp as (Hi & Hl & _).
    destruct p as [f pr|f pr|f pr|f pr b|f pr r b]; cbn [send_all push_step]; cbn [fut_lane] in Hl.
    + unfold wait_for_permit. rewrite (qs_limiter _ _ _ _ Hq). eexists _, _. split; [reflexivity|]. cbn. lia.
    + eexists _, _. split; [reflexivity|]. cbn. lia.
    + destruct (try_send (queue_of q pr) f) as [c [u|[|]]]; eexists _, _; (split; [reflexivity|]); cbn; lia.
    + destruct Hl as [-> _]. destruct (decide (n < queue_capacity w)) as [Hlt|Hge].
      * destruct (qstate_push q n wc f Hq Hlt) as (c & -> & _). eexists _, _. split; [reflexivity|].
        destruct b; cbn; lia.
      * destruct b; [exfalso; eapply Hge, Hs; reflexivity|].
        rewrite (qstate_full q n wc f Hq) by lia. eexists _, _. split; [reflexivity|]. cbn. lia.
    + destruct Hl as [-> ->]. eexists _, _. split; [reflexivity|]. cbn. lia.
Qed.

Lemma consumer_progress x n wc m fut :
  qstate (queues x) n (shut (main x)) wc -> consumer x = Some (Receiving m fut) -> fut = RecvFuture_new ->
  m < sends w \/ n = 0 -> 0 < n \/ shut (main x) = true -> m <= sends w ->
  exists x', bench_step w PushWaitCounters_default x EvConsumer = Some x' /\ run_left x' < run_left x.
Proof.
  intros Hq Ec -> Hm Hn Hle. cbn [bench_step]. rewrite Ec. cbn [consume].
  pose proof (qstate_recv _ _ _ _ Hq) as Hr. destruct (recv_poll 3 (queues x) RecvFuture_new) as [q1 r].
  eexists. split; [reflexivity|]. unfold run_left. cbn [producer consumer main]. rewrite Ec.
  destruct Hr as [(Hn0 & [f ->] & _)|(Hn0 & _ & ->)]; cbn [consumer_left]; [lia|].
  destruct Hn as [Hn| ->]; cbn [consumer_left]; lia.
Qed.

Lemma producer_event x q' p' :
  send_all w (lane (scenario w)) 0 (queues x) (producer x) = Some (q', p') ->
  producer_left p' < producer_left (producer x) ->
  exists x', bench_step w PushWaitCounters_default x (EvProducer 0) = Some x' /\ run_left x' < run_left x.
Proof.
  intros Hs Hl. cbn [bench_step]. rewrite Hs. eexists. split; [reflexivity|].
  unfold run_left. cbn [producer consumer main]. lia.
Qed.

(** The workload's validation: a back-pressure run does not fit. *)
Hypothesis Hback : is_backpressure (scenario w) = true -> queue_capacity w < sends w.

(** While the producer runs, it, the consumer, or the task watching it can go
    on. *)
Lemma sending_progress x n wc :
  qstate (queues x) n false wc -> 0 <= consumed (consumer x) -> consumed (consumer x) + n = sent_by (producer x) ->
  producer_ok wc (producer x) -> consumer_ok n (main x) (consumer x) -> shut (main x) = false ->
  (forall r, producer x <> SendDone r) ->
  exists e x', expires e = false /\ bench_step w PushWaitCounters_default x e = Some x' /\ run_left x' < run_left x.
Proof.
  intros Hq H0 Hf Hp Hc Hsh Hd. pose proof (qs_fits _ _ _ _ Hq) as Hfits.
  assert (Hstuck : (exists i f, producer x = SendAwait i (PushSend f prio true) /\ queue_capacity w <= n)
    \/ forall i f pr, producer x = SendAwait i (PushSend f pr true) -> n < queue_capacity w).
  { destruct (decide (n < queue_capacity w)); [by right|].
    destruct (producer x) as [i|i [f pr|f pr|f pr|f pr []|f pr r b]|r] eqn:Ep; try (right; congruence).
    left. destruct Hp as (_ & [-> _] & _). exists i, f. split; [done|lia]. }
  destruct Hstuck as [(i & f & Ep & Hn)|Hgo].
  - rewrite Ep in *. destruct Hp as (Hi & _ & Hcs & Hpk). cbn [probed parked sent_by] in *.
    destruct (consumer x) as [[m fut|m]|] eqn:Ec; cbn [consumer_ok consumed] in *.
    + destruct Hc as [-> Hne].
      destruct (consumer_progress x n wc m RecvFuture_new) as (x' & Hs & Hl); [by rewrite Hsh|done|done|lia..|].
      by exists EvConsumer, x'.
    + destruct Hc. congruence.
    + exists (EvMain false). cbn [bench_step]. unfold main_step. rewrite Hc. unfold observe_parked_send.
      rewrite (since_default _ wc (i + 1) (i + 1) Hcs ltac:(lia) (qs_waits _ _ _ _ Hq)).
      destruct (Z.ltb_spec 0 (awaited_capacity_waits wc)); [|lia]. eexists. split; [done|]. split; [reflexivity|].
      unfold run_left. cbn [producer consumer main consumer_left main_left]. rewrite Ec, Hc. cbn. lia.
  - destruct (producer_progress _ _ _ _ Hq Hp Hd Hgo) as (q' & p' & Hs & Hl).
    destruct (producer_event x q' p' Hs Hl) as (x' & Hx & Hlx). by exists (EvProducer 0), x'.
Qed.

Lemma bench_progress x :
  bench_inv x -> (forall r, main x <> Finished r) ->
  exists e x', expires e = false /\ bench_step w PushWaitCounters_default x e = Some x' /\ run_left x' < run_left x.
Proof.
  intros (n & wc & Hq & [H0 Hf] & Hp & Hc & Hm) Hfin. unfold main_ok in Hm.
  destruct (qs_lane _ _ _ _ Hq) as (_ & El & _). unfold len in El.
  destruct (main x) as [|o|o v|r] eqn:Em; [| | |by destruct (Hfin r)]; rewrite <- Em in Hq.
  - destruct (producer x) as [i|i p|r] eqn:Ep; [| |exfalso];
      try (apply (sending_progress x n wc); rewrite ?Ep, ?Em in *; done).
    pose proof (qs_fits _ _ _ _ Hq). specialize (Hback Hm). cbn [sent_by] in Hf.
    destruct (consumer x) as [[m f|m]|]; cbn in *; [by destruct Hc|by destruct Hc|lia].
  - destruct (producer x) as [i|i p|r] eqn:Ep;
      try (apply (sending_progress x n wc); rewrite ?Ep, ?Em in *; done).
    destruct Hp as [-> _]. exists (EvMain false). cbn [bench_step]. unfold main_step. rewrite Em, Ep.
    eexists. split; [done|]. split; [reflexivity|]. unfold run_left. cbn [producer consumer main]. rewrite Em, Ep.
    cbn [main_left]. lia.
  - destruct Hm as (_ & _ & Ep). rewrite Ep in Hf. cbn [sent_by] in Hf.
    destruct (consumer x) as [[m fut|m]|] eqn:Ec; [| |done].
    + cbn [consumed consumer_ok] in *. destruct Hc as [-> _].
      destruct (consumer_progress x n wc m RecvFuture_new) as (x' & Hs & Hl); [done|done|done|lia| |lia|].
      { right. by rewrite Em. }
      by exists EvConsumer, x'.
    + exists (EvMain false). cbn [bench_step]. unfold main_step. rewrite Em, Ec. eexists. split; [done|].
      split; [reflexivity|]. unfold run_left. cbn [producer consumer main]. rewrite Em, Ec. cbn [main_left]. lia.
Qed.

(** Every run can be brought to its end without the deadline expiring. *)
Lemma bench_completes : forall (k : nat) x, bench_inv x -> run_left x < Z.of_nat k ->
  exists es r, existsb expires es = false
    /\ main (bench_play w PushWaitCounters_default x es) = Finished r.
Proof.
  induction k as [|k IH]; intros x Hi Hk; [pose proof (run_left_nonneg x Hi); lia|].
  destruct (main x) as [|o|o v|r] eqn:Em.
  4: { by exists [], r. }
  all: (destruct (bench_progress x Hi) as (e & x' & He & Hs & Hl); [by rewrite Em|]);
    (destruct (IH x') as (es & r & Hes & Hr); [eapply bench_step_inv; [exact Hi|by rewrite He|exact Hs]|lia|]);
    (exists (e :: es), r); (split; [cbn; by rewrite He, Hes|]);
    unfold bench_play; cbn [foldl]; rewrite Hs; exact Hr.
Qed.
End Awaited.

(** ** What the benchmark reports *)

(** A run from fresh queues. *)
Lemma build_queues_start {Q : Mpsc} {QL : MpscLaws Q} {L : RateLimiting} w now :
  1 <= queue_capacity w -> 1 <= sends w ->
  exists q, build_queues (L := L) w now = Ok q /\ qstate w q 0 false PushWaitCounters_default
    /\ wait_counters q = PushWaitCounters_default.
Proof.
  intros Hc Hs. destruct (build_queues_fixture (L := L) w now Hc Hs) as (q & E & [H1 H2 H3 _ _ _] & Hw).
  exists q. split; [done|]. split; [|unfold wait_counters; by rewrite Hw].
  assert (Hq : forall p, open_chan (queue_of q p) 0 (queue_capacity w)) by (intros []; done).
  destruct (Hq (prio w)) as (A1 & A2 & A3). destruct (Hq (other w)) as (B1 & B2 & _).
  split; try done; [lia|]. split; [|done]. unfold len in B2. destruct (queued (queue_of q (other w))); [done|cbn in B2; lia].
Qed.

(** C18: The push benchmark measures what its scenarios claim.  For every
    workload its validation accepts: an overflow run returns, every send having
    met a full queue, and reports a full queue for each send under
    [ReturnErrorIfFull] and otherwise every send as accepted and dead-lettered.
    An awaited run, whatever the order its producer, its consumer and the task
    that watches them go on in, can always be brought to its end, and ends
    with every send accepted, probed for once and drained once; the
    uncontended runs without a single wait, and the back-pressure runs with at
    least one, or, only if the deadline for seeing it expired, with the error
    that says so. *)
Theorem push_benchmark_valid {Q : Mpsc} {QL : MpscLaws Q} {L : RateLimiting}
    (w : PushWorkload) (now : Z) (clock : Z -> Z * Z)
    (Hv : validate w = Ok tt) (Hc : 0 <= queue_capacity w) (Hs : 0 <= sends w <= u64_max) :
  if is_overflow (scenario w)
  then send_overflow (L := L) w now clock = Some (Ok (overflow_report w))
  else exists q, build_queues (L := L) w now = Ok q /\ forall es,
    let x := bench_play w (wait_counters q) (awaited_start w q) es in
    (forall r, main x = Finished r -> valid_outcome w (existsb expires es) r)
    /\ exists es' r, existsb expires es' = false
         /\ main (bench_play w (wait_counters q) x es') = Finished r.
Proof.
  destruct (validate_ok w Hv Hc (proj1 Hs)) as (H1 & H2 & Hu & Hb).
  destruct (is_overflow (scenario w)) eqn:Eo; [by apply send_overflow_exact|].
  destruct (build_queues_start (L := L) w now H1 H2) as (q & E & Hq & Ew). exists q. split; [done|].
  rewrite Ew. intros es x.
  assert (Hi : bench_inv w (existsb expires es) x).
  { apply (bench_play_inv w ltac:(lia) _ Hu); [|done]. apply awaited_start_inv; [lia|done]. }
  split.
  - intros r Hr. destruct Hi as (n & wc & _ & _ & _ & _ & Hm). unfold main_ok in Hm. rewrite Hr in Hm. apply Hm.
  - eapply (bench_completes w H1 ltac:(lia) _ Hu Hb (S (Z.to_nat (run_left w x)))); [exact Hi|].
    pose proof (run_left_nonneg w ltac:(lia) _ _ Hi). lia.
Qed.

(** *** Adding up the rounds *)

(** What each round of a workload reports, and how many waits it may have. *)
Definition returns_error (w : PushWorkload) : bool :=
  bool_decide (policy (scenario w) = Some ReturnErrorIfFull).
Definition per_round (b : bool) (w : PushWorkload) : Z := if b then sends w else 0.
Record rounds_total (w : PushWorkload) (n : Z) (o : SendOutcome) : Prop := {
  rt_accepted : accepted o = n * per_round (negb (returns_error w)) w;
  rt_drained : drained o = n * per_round (negb (is_overflow (scenario w))) w;
  rt_dead : dead_lettered o = n * per_round (is_overflow (scenario w) && negb (returns_error w)) w;
  rt_full : reported_queue_full o = (0 <? n) && returns_error w;
  rt_probes : capacity_probes (waited o) = n * per_round (negb (is_overflow (scenario w))) w;
  rt_most : 0 <= awaited_capacity_waits (waited o) <= n * per_round (is_drained (scenario w) && negb (is_uncontended (scenario w)) || is_backpressure (scenario w)) w;
  rt_least : is_backpressure (scenario w) = true -> n <= awaited_capacity_waits (waited o)
}.

Lemma returns_error_is w :
  returns_error w = match scenario w with OverflowReturnError => true | _ => false end.
Proof. unfold returns_error. by destruct (scenario w). Qed.
Lemma per_round_bound b w : 0 <= sends w -> 0 <= per_round b w <= sends w.
Proof. destruct b; cbn; lia. Qed.

Lemma round_totals {Q : Mpsc} {QL : MpscLaws Q} {L : RateLimiting} w now clock r :
  1 <= queue_capacity w -> 1 <= sends w <= u64_max ->
  (is_uncontended (scenario w) = true -> sends w <= queue_capacity w) ->
  run_once (L := L) w now clock r ->
  match r with
  | Ok o => rounds_total w 1 o
  | Err _ => is_backpressure (scenario w) = true
  end.
Proof.
  intros Hc Hs Hu Hr. unfold run_once in Hr. destruct (is_overflow (scenario w)) eqn:Eo.
  - rewrite send_overflow_exact in Hr by (done || lia). injection Hr as <-.
    unfold overflow_report.
    destruct (scenario w) eqn:Es; try done; split; rewrite ?returns_error_is, ?Es; cbn [policy is_overflow
      is_drained is_uncontended is_backpressure negb andb orb per_round accepted drained dead_lettered
      reported_queue_full waited PushWaitCounters_default capacity_probes awaited_capacity_waits]; (lia || done).
  - unfold send_awaited in Hr. destruct (build_queues_start (L := L) w now Hc ltac:(lia)) as (q & E & Hq & Ew).
    rewrite E in Hr. destruct Hr as [es Hr]. rewrite Ew in Hr.
    assert (Hi : bench_inv w true (bench_play w PushWaitCounters_default (awaited_start w q) es)).
    { apply (bench_play_inv w ltac:(lia) _ Hu); [|done]. apply awaited_start_inv; [lia|done]. }
    destruct Hi as (n & wc & _ & _ & _ & _ & Hm). unfold main_ok in Hm. rewrite Hr in Hm.
    destruct Hm as [(wc' & (C1 & C2 & C3) & [[-> Hb]|(_ & Hb & ->)]) _]; [|by rewrite Hb].
    destruct (scenario w) eqn:Es; try done; cbn in C3, Hb; split; rewrite ?returns_error_is, ?Es;
      cbn [awaited_outcome policy is_overflow is_drained is_uncontended is_backpressure negb andb orb per_round
        accepted drained dead_lettered reported_queue_full waited]; try done; try lia; rewrite C3 by done; lia.
Qed.

Lemma rounds_add w m o o' :
  0 <= m -> 0 <= sends w -> (m + 1) * sends w <= u64_max ->
  rounds_total w m o -> rounds_total w 1 o' -> rounds_total w (m + 1) (accumulate o o').
Proof.
  intros Hm Hs Hmax [A1 A2 A3 A4 A5 A6 A7] [B1 B2 B3 B4 B5 B6 B7].
  assert (Hadd : forall b x y, x = m * per_round b w -> y = 1 * per_round b w ->
    saturating_add usize_max y x = (m + 1) * per_round b w).
  { intros b x y -> ->. pose proof (per_round_bound b w Hs). rewrite saturating_add_exact; [lia|].
    unfold usize_max. nia. }
  assert (Hw : awaited_capacity_waits (waited o') + awaited_capacity_waits (waited o) <= u64_max).
  { pose proof (per_round_bound (is_drained (scenario w) && negb (is_uncontended (scenario w))
      || is_backpressure (scenario w)) w Hs). nia. }
  split; cbn [accumulate accepted drained dead_lettered reported_queue_full waited capacity_probes
    awaited_capacity_waits]; try by apply Hadd.
  - rewrite A4, B4. destruct (returns_error w); rewrite ?andb_false_r; [|done].
    rewrite !andb_true_r. symmetry. apply Z.ltb_lt. lia.
  - rewrite saturating_add_exact by done. lia.
  - intros Hb. rewrite saturating_add_exact by done. specialize (A7 Hb). specialize (B7 Hb). lia.
Qed.

Section Rounds.
Context {Q : Mpsc} {QL : MpscLaws Q} {L : RateLimiting}.
Variable w : PushWorkload.
Hypothesis Hc : 1 <= queue_capacity w.
Hypothesis Hs : 1 <= sends w <= u64_max.
Hypothesis Hu : is_uncontended (scenario w) = true -> sends w <= queue_capacity w.
Hypothesis Hb : is_backpressure (scenario w) = true -> queue_capacity w < sends w.

Lemma rounds_exact n o r :
  Rounds (L := L) w n o r -> forall m, 0 <= m -> rounds_total w m o -> (m + Z.of_nat n) * sends w <= u64_max ->
  match r with Ok o' => rounds_total w (m + Z.of_nat n) o' | Err _ => is_backpressure (scenario w) = true end.
Proof.
  induction 1 as [o|n o now clock e He|n o now clock o' r Hr _ IH]; intros m Hm Ho Hmax.
  - by rewrite Z.add_0_r.
  - exact (round_totals w now clock (Err e) Hc Hs Hu He).
  - pose proof (round_totals w now clock (Ok o') Hc Hs Hu Hr) as Ht. cbn in Ht.
    replace (m + Z.of_nat (S n)) with (m + 1 + Z.of_nat n) in * by lia.
    apply IH; [lia| |lia]. apply rounds_add; try done; [lia|]. nia.
Qed.

(** A round returns, and without an error unless its deadline expired. *)
Lemma round_returns now clock : exists o, run_once (L := L) w now clock (Ok o).
Proof.
  unfold run_once. destruct (is_overflow (scenario w)) eqn:Eo.
  - eexists. apply send_overflow_exact; [done|done|lia].
  - destruct (build_queues_start (L := L) w now Hc ltac:(lia)) as (q & E & Hq & Ew).
    unfold send_awaited. rewrite E, Ew.
    assert (Hi : bench_inv w false (awaited_start w q)) by (apply awaited_start_inv; [lia|done]).
    destruct (bench_completes w Hc Hs _ Hu Hb (S (Z.to_nat (run_left w (awaited_start w q)))) _ Hi)
      as (es & r & Hes & Hr).
    { pose proof (run_left_nonneg w Hs _ _ Hi). lia. }
    assert (Hi' : bench_inv w false (bench_play w PushWaitCounters_default (awaited_start w q) es)).
    { apply (bench_play_inv w Hs _ Hu); [done|]. by rewrite Hes. }
    destruct Hi' as (n & wc & _ & _ & _ & _ & Hm). unfold main_ok in Hm. rewrite Hr in Hm.
    destruct Hm as [(wc' & _ & [[-> _]|(Hf & _)]) _]; [|done]. eexists. by exists es.
Qed.
Lemma rounds_return n : forall o, exists o', Rounds (L := L) w n o (Ok o').
Proof.
  induction n as [|n IH]; intros o; [eexists; constructor|].
  destruct (round_returns 0 (fun _ => (0, 0))) as [o1 H1].
  destruct (IH (accumulate o o1)) as [o' H']. exists o'. by eapply rounds_next.
Qed.
End Rounds.

(** The totals a measurement must show. *)
Definition measures (w : PushWorkload) (iterations elapsed : Z) (m : PushMeasurement) : Prop :=
  exists o, rounds_total w iterations o
    /\ m = mk_PushMeasurement (sends w * iterations) (accepted o) (drained o) (dead_lettered o)
             (reported_queue_full o) (awaited_capacity_waits (waited o)) (capacity_probes (waited o)) elapsed.

(** A push measurement of an accepted workload has exactly the totals of
    its rounds: the sends times the rounds are what the awaited scenarios
    report as accepted, probed for and drained, and what the dropping overflow
    scenarios report as accepted and dead-lettered; the uncontended ones have
    no waits and the back-pressure one has at least one in every round.  Only
    the back-pressure scenario can fail, and every measurement can be brought
    to an end without a failure. *)
Theorem push_measurement_totals {Q : Mpsc} {QL : MpscLaws Q} {L : RateLimiting}
    (w : PushWorkload) (iterations elapsed : Z)
    (Hv : validate w = Ok tt) (Hc : 0 <= queue_capacity w) (Hs : 0 <= sends w)
    (Hi : 1 <= iterations) (Hmax : iterations * sends w <= u64_max) :
  (exists m, measure_push (L := L) w iterations elapsed (Ok m))
  /\ forall r, measure_push (L := L) w iterations elapsed r ->
     match r with
     | Ok m => measures w iterations elapsed m
     | Err _ => is_backpressure (scenario w) = true
     end.
Proof.
  destruct (validate_ok w Hv Hc Hs) as (H1 & H2 & Hu & Hb).
  assert (H3 : 1 <= sends w <= u64_max) by nia.
  unfold measure_push. rewrite Hv. destruct (Z.eqb_spec iterations 0) as [|_]; [lia|]. split.
  - destruct (rounds_return (L := L) w H1 H3 Hu Hb (Z.to_nat iterations) outcome_default) as [o Ho].
    exists (measurement_of w iterations elapsed o), (Ok o). by split.
  - intros r (o & Ho & ->).
    assert (Hz : rounds_total w 0 outcome_default).
    { split; cbn; try done. }
    pose proof (rounds_exact w H1 H3 Hu _ _ _ Ho 0 ltac:(lia) Hz ltac:(lia)) as Ht.
    rewrite Z.add_0_l, Z2Nat.id in Ht by lia. destruct o as [o|e]; [|done].
    exists o. split; [done|]. unfold measurement_of. f_equal. unfold usize_max.
    rewrite (Z.min_r u64_max iterations) by nia. lia.
Qed.

(** Back-pressure of two frames through a queue of one. *)
Lemma push_benchmark_valid_witness :
  let w := mk_PushWorkload BackpressureHigh 1 2 in
  exists q, build_queues (Q := list_mpsc) (L := stock_limiting) w 0 = Ok q /\ forall es,
    let x := bench_play w (wait_counters q) (awaited_start w q) es in
    (forall r, main x = Finished r -> valid_outcome w (existsb expires es) r)
    /\ exists es' r, existsb expires es' = false
         /\ main (bench_play w (wait_counters q) x es') = Finished r.
Proof.
  exact (push_benchmark_valid (QL := list_mpsc_laws) (L := stock_limiting)
    (mk_PushWorkload BackpressureHigh 1 2) 0 (fun _ => (0, 0)) eq_refl ltac:(by vm_compute) ltac:(by vm_compute)).
Defined.

(** Three rounds of four drops. *)
Lemma push_measurement_totals_witness :
  exists m, measure_push (Q := list_mpsc) (L := stock_limiting) (mk_PushWorkload OverflowDrop 2 4) 3 7 (Ok m)
    /\ measures (mk_PushWorkload OverflowDrop 2 4) 3 7 m /\ m_dead_lettered m = 12.
Proof.
  destruct (push_measurement_totals (QL := list_mpsc_laws) (L := stock_limiting)
    (mk_PushWorkload OverflowDrop 2 4) 3 7 eq_refl ltac:(by vm_compute) ltac:(by vm_compute) ltac:(by vm_compute) ltac:(by vm_compute))
    as [[m Hm] Ht].
  exists m. split; [exact Hm|]. specialize (Ht _ Hm). split; [exact Ht|].
  destruct Ht as (o & [_ _ Hd _ _ _ _] & ->). exact Hd.
Defined.
