(* ===== verification/TestHelpers.v ===== *)
(** * The test protocol and codec

    Models [src/src/test_helpers/mod.rs] (a message assembler for a small test
    protocol, and the functions that build its frames),
    [src/src/test_helpers/frame_codec.rs] (a codec with a tag byte), and
    [wireframe_testing/src/echo_server.rs].

    The assembler is an implementation of what [Inbound] takes as a parameter,
    so the pipeline can be run with it end to end. *)

From S2P Require Import Prelude.
From S2P Require Import Envelope.
From S2P Require Import MessageSeries.
From S2P Require Import MessageAssembly.
From S2P Require Import AssemblyCorrectness.
From S2P Require Import Inbound.
From S2P Require Import InboundCorrectness.
From S2P Require Import FrameCodec.
From S2P Require Import ExampleCodecs.
From S2P Require Import Budgets.
From S2P Require Import Metrics.
From S2P Require Import Serializer.

Open Scope rust_scope.
Local Open Scope Z_scope.

(** ** [mod.rs]: reading a header *)

Definition invalid_data (message : string) : io_error := mk_io_error InvalidData message.

Definition ensure_remaining (buf : list Z) (needed : Z) : result unit io_error :=
  if len buf <? needed then Err (invalid_data "header too short") else Ok tt.

(** The buffer is advanced past what is read. *)
Definition take_be (n : nat) (buf : list Z) : result (Z * list Z) io_error :=
  let? _ := ensure_remaining buf (Z.of_nat n) in Ok (be_value (take n buf), drop n buf).
Definition take_u8 (buf : list Z) : result (Z * list Z) io_error := take_be 1 buf.
Definition take_u16 (buf : list Z) : result (Z * list Z) io_error := take_be 2 buf.
Definition take_u32 (buf : list Z) : result (Z * list Z) io_error := take_be 4 buf.
Definition take_u64 (buf : list Z) : result (Z * list Z) io_error := take_be 8 buf.

Definition is_last (flags : Z) : bool := Z.land flags 1 =? 1.
Definition has_optional_field (flags : Z) : bool := Z.land flags 2 =? 2.

(** A [u32] fits a [usize]. *)
Definition take_usize_u32 (buf : list Z) (message : string) : result (Z * list Z) io_error :=
  let? '(v, buf) := take_u32 buf in
  match try_into usize_max v with Some v => Ok (v, buf) | None => Err (invalid_data message) end.
Definition take_optional_usize_u32 (buf : list Z) (flags : Z) (message : string)
    : result (option Z * list Z) io_error :=
  if negb (has_optional_field flags) then Ok (None, buf)
  else let? '(v, buf) := take_usize_u32 buf message in Ok (Some v, buf).
Definition take_optional_sequence (buf : list Z) (flags : Z) : result (option Z * list Z) io_error :=
  if negb (has_optional_field flags) then Ok (None, buf)
  else let? '(v, buf) := take_u32 buf in Ok (Some v, buf).

Definition parse_first_frame_header (buf : list Z) (flags message_key : Z)
    : result (FrameHeader * list Z) io_error :=
  let? '(metadata_len, buf) := take_u16 buf in
  let? '(body_len, buf) := take_usize_u32 buf "body length too large" in
  let? '(total_body_len, buf) := take_optional_usize_u32 buf flags "total length too large" in
  Ok (First (mk_FirstFrameHeader message_key metadata_len body_len total_body_len (is_last flags)), buf).

Definition parse_continuation_frame_header (buf : list Z) (flags message_key : Z)
    : result (FrameHeader * list Z) io_error :=
  let? '(body_len, buf) := take_usize_u32 buf "body length too large" in
  let? '(sequence, buf) := take_optional_sequence buf flags in
  Ok (Continuation (mk_ContinuationFrameHeader message_key sequence body_len (is_last flags)), buf).

Definition test_parse_frame_header (payload : list Z) : result ParsedFrameHeader io_error :=
  let? '(kind, buf) := take_u8 payload in
  let? '(flags, buf) := take_u8 buf in
  let? '(message_key, buf) := take_u64 buf in
  let? '(header, buf) :=
    (if kind =? 1 then parse_first_frame_header buf flags message_key
     else if kind =? 2 then parse_continuation_frame_header buf flags message_key
     else Err (invalid_data "unknown header kind")) in
  Ok (mk_ParsedFrameHeader header (len payload - len buf)).

(** [TestAssembler]: an application with this assembler. *)
Definition TestAssembler (X : Externals) : Externals := {|
  Inbound.Frame := @Inbound.Frame X;
  Inbound.World := @Inbound.World X;
  Inbound.SerializerError := @Inbound.SerializerError X;
  Inbound.parse := @Inbound.parse X;
  Inbound.should_deserialize_after_parse := @Inbound.should_deserialize_after_parse X;
  Inbound.deserialize_with_context := @Inbound.deserialize_with_context X;
  Inbound.deserialize := @Inbound.deserialize X;
  Inbound.is_bincode_limit_exceeded := @Inbound.is_bincode_limit_exceeded X;
  Inbound.serialize := @Inbound.serialize X;
  Inbound.frame_payload_of := @Inbound.frame_payload_of X;
  Inbound.frame_correlation_id := @Inbound.frame_correlation_id X;
  Inbound.wrap_payload := @Inbound.wrap_payload X;
  Inbound.before_send := @Inbound.before_send X;
  Inbound.send := @Inbound.send X;
  Inbound.parse_frame_header := test_parse_frame_header
|}.

(** ** Building frames *)

Definition body_len_of (body : list Z) : result Z io_error :=
  match try_into u32_max (len body) with
  | Some n => Ok n
  | None => Err (invalid_data "body length too large")
  end.

Definition first_frame_payload (key : Z) (body : list Z) (last : bool) (total : option Z)
    : result (list Z) io_error :=
  let flags := 0 in
  let flags := if last then Z.lor flags 1 else flags in
  let flags := match total with Some _ => Z.lor flags 2 | None => flags end in
  let? body_len := body_len_of body in
  Ok ([1] ++ [flags] ++ be_bytes 8 key ++ be_bytes 2 0 ++ be_bytes 4 body_len
      ++ (match total with Some total_body_len => be_bytes 4 total_body_len | None => [] end) ++ body).

Definition continuation_frame_payload (key sequence : Z) (body : list Z) (last : bool)
    : result (list Z) io_error :=
  let flags := 2 in
  let flags := if last then Z.lor flags 1 else flags in
  let? body_len := body_len_of body in
  Ok ([2] ++ [flags] ++ be_bytes 8 key ++ be_bytes 4 body_len ++ be_bytes 4 sequence ++ body).

(** ** Reading what was built *)

Lemma take_be_bytes n v rest :
  0 <= v < 256 ^ Z.of_nat n -> take_be n (be_bytes n v ++ rest) = Ok (v, rest).
Proof.
  intros Hv. unfold take_be, ensure_remaining.
  destruct (Z.ltb_spec (len (be_bytes n v ++ rest)) (Z.of_nat n)) as [H|_].
  { exfalso. revert H. len_solve. }
  rewrite take_app_length' by (by rewrite length_be_bytes).
  rewrite drop_app_length' by (by rewrite length_be_bytes). by rewrite be_value_bytes.
Qed.
Lemma take_u8_byte v rest : 0 <= v < 256 -> take_u8 ([v] ++ rest) = Ok (v, rest).
Proof.
  intros Hv. change [v] with ([] ++ [v]). rewrite <- (take_be_bytes 1 v rest) by (cbn; lia).
  unfold take_u8. do 2 f_equal. cbn. unfold be_bytes. cbn. f_equal. rewrite Z.mod_small by lia. done.
Qed.

(** A part of what was to be read: the number is there, or the buffer is too
    short. *)
Lemma take_be_part n v tl q r :
  0 <= v < 256 ^ Z.of_nat n -> be_bytes n v ++ tl = q ++ r ->
  take_be n q = Err (invalid_data "header too short")
  \/ exists q', q = be_bytes n v ++ q' /\ tl = q' ++ r /\ take_be n q = Ok (v, q').
Proof.
  intros Hv E. destruct (Z.ltb_spec (len q) (Z.of_nat n)) as [Hs|Hl].
  - left. unfold take_be, ensure_remaining. by rewrite (proj2 (Z.ltb_lt _ _)).
  - right. assert (Hq : q = be_bytes n v ++ drop n q).
    { rewrite <- (take_drop n q) at 1. f_equal.
      rewrite <- (take_app_le q r) by (unfold len in Hl; lia). rewrite <- E.
      by rewrite take_app_length' by (by rewrite length_be_bytes). }
    exists (drop n q). split; [done|]. split.
    + apply (app_inv_head (be_bytes n v)). by rewrite app_assoc, <- Hq.
    + rewrite Hq at 1. by apply take_be_bytes.
Qed.

Definition first_flags (last : bool) (total : option Z) : Z :=
  Z.lor (if last then 1 else 0) (match total with Some _ => 2 | None => 0 end).
Definition continuation_flags (last : bool) : Z := if last then 3 else 2.

Lemma first_flags_read last total :
  0 <= first_flags last total < 256 /\ is_last (first_flags last total) = last
  /\ has_optional_field (first_flags last total) = match total with Some _ => true | None => false end.
Proof. by destruct last, total. Qed.
Lemma continuation_flags_read last :
  0 <= continuation_flags last < 256 /\ is_last (continuation_flags last) = last
  /\ has_optional_field (continuation_flags last) = true.
Proof. by destruct last. Qed.

(** The header of a frame, as the builders write it. *)
Definition first_header_bytes (key n : Z) (last : bool) (total : option Z) : list Z :=
  be_bytes 1 1 ++ be_bytes 1 (first_flags last total) ++ be_bytes 8 key ++ be_bytes 2 0 ++ be_bytes 4 n
  ++ match total with Some t => be_bytes 4 t | None => [] end.
Definition continuation_header_bytes (key n sequence : Z) (last : bool) : list Z :=
  be_bytes 1 2 ++ be_bytes 1 (continuation_flags last) ++ be_bytes 8 key ++ be_bytes 4 n ++ be_bytes 4 sequence.

Lemma be_bytes_one v : 0 <= v < 256 -> be_bytes 1 v = [v].
Proof. intros Hv. unfold be_bytes. cbn. by rewrite Z.mod_small. Qed.
Lemma body_len_ok body : len body <= u32_max -> body_len_of body = Ok (len body).
Proof.
  intros Hb. unfold body_len_of. pose proof (len_nonneg body).
  by rewrite (proj2 (try_into_Some u32_max (len body) (len body))).
Qed.
Lemma take_usize_read v rest m : 0 <= v <= u32_max -> take_usize_u32 (be_bytes 4 v ++ rest) m = Ok (v, rest).
Proof.
  intros Hv. unfold take_usize_u32, take_u32. rewrite take_be_bytes by (unfold u32_max in Hv; cbn; lia).
  by rewrite (proj2 (try_into_Some usize_max v v)) by (unfold usize_max, u64_max, u32_max in *; lia).
Qed.

Lemma first_payload_bytes key body last total :
  len body <= u32_max ->
  first_frame_payload key body last total = Ok (first_header_bytes key (len body) last total ++ body).
Proof.
  intros Hb. unfold first_frame_payload. rewrite body_len_ok by done.
  unfold first_header_bytes. rewrite !be_bytes_one by (done || apply first_flags_read).
  f_equal. rewrite <- !app_assoc. by destruct last, total.
Qed.
Lemma continuation_payload_bytes key sequence body last :
  len body <= u32_max ->
  continuation_frame_payload key sequence body last
  = Ok (continuation_header_bytes key (len body) sequence last ++ body).
Proof.
  intros Hb. unfold continuation_frame_payload. rewrite body_len_ok by done.
  unfold continuation_header_bytes. rewrite !be_bytes_one by (done || apply continuation_flags_read).
  by destruct last.
Qed.

Definition u64 (v : Z) : Prop := 0 <= v <= u64_max.
Definition u32 (v : Z) : Prop := 0 <= v <= u32_max.
Definition opt_u32 (v : option Z) : Prop := match v with Some v => u32 v | None => True end.

Lemma first_header_parses key n last total body :
  u64 key -> u32 n -> opt_u32 total ->
  test_parse_frame_header (first_header_bytes key n last total ++ body)
  = Ok (mk_ParsedFrameHeader (First (mk_FirstFrameHeader key 0 n total last))
          (len (first_header_bytes key n last total))).
Proof.
  intros Hk Hn Ht. destruct (first_flags_read last total) as (Hf & Hl & Ho).
  unfold test_parse_frame_header, parse_first_frame_header, take_u8, take_u16, take_u64.
  set (payload := first_header_bytes key n last total ++ body).
  assert (Hp : payload = first_header_bytes key n last total ++ body) by done. clearbody payload.
  rewrite Hp at 1. unfold first_header_bytes at 1. rewrite <- !app_assoc.
  rewrite take_be_bytes by done. rewrite take_be_bytes by (cbn; lia).
  rewrite take_be_bytes by (unfold u64, u64_max in Hk; cbn; lia). cbn [Z.eqb Pos.eqb].
  rewrite take_be_bytes by (cbn; lia). rewrite take_usize_read by done.
  unfold take_optional_usize_u32. rewrite Ho, Hl. destruct total as [t|]; cbn [negb].
  - rewrite take_usize_read by done. do 2 f_equal. rewrite Hp, len_app. lia.
  - cbn [app]. do 2 f_equal. rewrite Hp, len_app. lia.
Qed.
Lemma continuation_header_parses key n sequence last body :
  u64 key -> u32 n -> u32 sequence ->
  test_parse_frame_header (continuation_header_bytes key n sequence last ++ body)
  = Ok (mk_ParsedFrameHeader (Continuation (mk_ContinuationFrameHeader key (Some sequence) n last))
          (len (continuation_header_bytes key n sequence last))).
Proof.
  intros Hk Hn Hs. destruct (continuation_flags_read last) as (Hf & Hl & Ho).
  unfold test_parse_frame_header, parse_continuation_frame_header, take_u8, take_u64.
  set (payload := continuation_header_bytes key n sequence last ++ body).
  assert (Hp : payload = continuation_header_bytes key n sequence last ++ body) by done. clearbody payload.
  rewrite Hp at 1. unfold continuation_header_bytes at 1. rewrite <- !app_assoc.
  rewrite take_be_bytes by done. rewrite take_be_bytes by (cbn; lia).
  rewrite take_be_bytes by (unfold u64, u64_max in Hk; cbn; lia). cbn [Z.eqb Pos.eqb].
  rewrite take_usize_read by done. unfold take_optional_sequence, take_u32. rewrite Ho, Hl. cbn [negb].
  rewrite take_be_bytes by (unfold u32, u32_max in Hs; cbn; lia).
  do 2 f_equal. rewrite Hp, len_app. lia.
Qed.

Lemma take_part n v tl q r :
  0 <= v < 256 ^ Z.of_nat n -> be_bytes n v ++ tl = q ++ r ->
  take_be n q = Err (invalid_data "header too short") \/ exists q', tl = q' ++ r /\ take_be n q = Ok (v, q').
Proof. intros Hv E. destruct (take_be_part n v tl q r Hv E) as [H|(q' & _ & H1 & H2)]; eauto. Qed.
Lemma take_usize_part v tl q r m :
  u32 v -> be_bytes 4 v ++ tl = q ++ r ->
  take_usize_u32 q m = Err (invalid_data "header too short")
  \/ exists q', tl = q' ++ r /\ take_usize_u32 q m = Ok (v, q').
Proof.
  intros Hv E. unfold take_usize_u32, take_u32.
  destruct (take_part 4 v tl q r) as [->|(q' & Hq & ->)]; [unfold u32, u32_max in Hv; cbn; lia|done|by left|].
  right. exists q'. split; [done|]. unfold u32 in Hv.
  by rewrite (proj2 (try_into_Some usize_max v v)) by (unfold usize_max, u64_max, u32_max in *; lia).
Qed.

Lemma first_header_cut key n last total q r :
  u64 key -> u32 n -> opt_u32 total -> first_header_bytes key n last total = q ++ r -> r <> [] ->
  test_parse_frame_header q = Err (invalid_data "header too short").
Proof.
  intros Hk Hn Ht E Hr. destruct (first_flags_read last total) as (Hf & Hl & Ho).
  unfold test_parse_frame_header, parse_first_frame_header, take_u8, take_u16, take_u64.
  unfold first_header_bytes in E.
  destruct (take_part 1 1 _ q r ltac:(done) E) as [->|(q1 & E1 & ->)]; [done|].
  destruct (take_part 1 (first_flags last total) _ q1 r Hf E1) as [->|(q2 & E2 & ->)]; [done|].
  destruct (take_part 8 key _ q2 r ltac:(unfold u64, u64_max in Hk; cbn; lia) E2) as [->|(q3 & E3 & ->)]; [done|].
  cbn [Z.eqb Pos.eqb].
  destruct (take_part 2 0 _ q3 r ltac:(cbn; lia) E3) as [->|(q4 & E4 & ->)]; [done|].
  destruct (take_usize_part n _ q4 r "body length too large" Hn E4) as [->|(q5 & E5 & ->)]; [done|].
  unfold take_optional_usize_u32. rewrite Ho. destruct total as [t|]; cbn [negb].
  - rewrite <- (app_nil_r (be_bytes 4 t)) in E5.
    destruct (take_usize_part t _ q5 r "total length too large" Ht E5) as [->|(q6 & E6 & ->)]; [done|].
    symmetry in E6. apply app_nil in E6 as [_ ->]. done.
  - symmetry in E5. apply app_nil in E5 as [_ ->]. done.
Qed.
Lemma continuation_header_cut key n sequence last q r :
  u64 key -> u32 n -> u32 sequence -> continuation_header_bytes key n sequence last = q ++ r -> r <> [] ->
  test_parse_frame_header q = Err (invalid_data "header too short").
Proof.
  intros Hk Hn Hs E Hr. destruct (continuation_flags_read last) as (Hf & Hl & Ho).
  unfold test_parse_frame_header, parse_continuation_frame_header, take_u8, take_u64.
  unfold continuation_header_bytes in E.
  destruct (take_part 1 2 _ q r ltac:(done) E) as [->|(q1 & E1 & ->)]; [done|].
  destruct (take_part 1 (continuation_flags last) _ q1 r Hf E1) as [->|(q2 & E2 & ->)]; [done|].
  destruct (take_part 8 key _ q2 r ltac:(unfold u64, u64_max in Hk; cbn; lia) E2) as [->|(q3 & E3 & ->)]; [done|].
  cbn [Z.eqb Pos.eqb].
  destruct (take_usize_part n _ q3 r "body length too large" Hn E3) as [->|(q4 & E4 & ->)]; [done|].
  unfold take_optional_sequence, take_u32. rewrite Ho. cbn [negb]. rewrite <- (app_nil_r (be_bytes 4 sequence)) in E4.
  destruct (take_part 4 sequence _ q4 r ltac:(unfold u32, u32_max in Hs; cbn; lia) E4) as [->|(q5 & E5 & ->)]; [done|].
  symmetry in E5. apply app_nil in E5 as [_ ->]. done.
Qed.

(** ** Messages through the pipeline *)

Section Pipeline.
Context {X : Externals}.

Definition wrapped (routing : EnvelopeRouting) (payload : list Z) : Envelope :=
  mk_Envelope (routing_envelope_id routing) (routing_correlation_id routing) payload.

(** A frame of the test protocol reaches the assembly state as the frame its
    builder meant. *)
Lemma assemble_first (s : MessageAssemblyState) (failures limit now key : Z) (routing : EnvelopeRouting)
    (body : list Z) (last : bool) (total : option Z) :
  u64 key -> len body <= u32_max -> opt_u32 total ->
  assemble_if_needed (X := TestAssembler X) (Some s) failures
    (wrapped routing (first_header_bytes key (len body) last total ++ body)) limit now
  = match accept_first_frame_at s
            (mk_FirstFrameInput (mk_FirstFrameHeader key 0 (len body) total last) routing [] body) now with
    | (s', Ok r) => (Some s', failures, Ok (Envelope_from_assembled <$> r))
    | (s', Err _) => let '(count, r) := record_none failures limit in
                     (Some s', count, let? assembled := r in Ok (Envelope_from_assembled <$> assembled))
    end.
Proof.
  intros Hk Hb Ht. pose proof (len_nonneg body) as Hb0.
  assert (Hp : Inbound.parse_frame_header (Externals := TestAssembler X)
      (envelope_payload (wrapped routing (first_header_bytes key (len body) last total ++ body)))
    = Ok (mk_ParsedFrameHeader (First (mk_FirstFrameHeader key 0 (len body) total last))
          (len (first_header_bytes key (len body) last total)))) by (by apply first_header_parses).
  unfold assemble_if_needed. rewrite Hp. cbn [header_len parsed_header envelope_payload wrapped].
  rewrite slice_from_drop by len_solve. rewrite drop_app_length' by len_solve.
  cbn [envelope_id envelope_correlation_id]. unfold process_first_frame. cbn [metadata_len ff_body_len].
  rewrite (proj2 (checked_add_Some usize_max 0 (len body) (len body)))
    by (unfold usize_max, u64_max, u32_max in *; lia).
  rewrite decide_False by lia. unfold split_at_checked. rewrite decide_True by lia.
  cbn [Z.to_nat take drop]. rewrite drop_0. unfold FirstFrameInput_new. cbn [metadata_len ff_body_len].
  rewrite !decide_False by (intros Hne; by apply Hne). destruct routing as [id cid].
  destruct (accept_first_frame_at s _ now) as [s' [r|e]]; [done|]. by destruct (record_none failures limit).
Qed.

Lemma assemble_continuation (s : MessageAssemblyState) (failures limit now key sequence : Z)
    (routing : EnvelopeRouting) (body : list Z) (last : bool) :
  u64 key -> len body <= u32_max -> u32 sequence ->
  assemble_if_needed (X := TestAssembler X) (Some s) failures
    (wrapped routing (continuation_header_bytes key (len body) sequence last ++ body)) limit now
  = match accept_continuation_frame_at s
            (mk_ContinuationFrameHeader key (Some sequence) (len body) last) body now with
    | (s', Ok r) => (Some s', failures, Ok (Envelope_from_assembled <$> r))
    | (s', Err _) => let '(count, r) := record_none failures limit in
                     (Some s', count, let? assembled := r in Ok (Envelope_from_assembled <$> assembled))
    end.
Proof.
  intros Hk Hb Hs. pose proof (len_nonneg body) as Hb0.
  assert (Hp : Inbound.parse_frame_header (Externals := TestAssembler X)
      (envelope_payload (wrapped routing (continuation_header_bytes key (len body) sequence last ++ body)))
    = Ok (mk_ParsedFrameHeader (Continuation (mk_ContinuationFrameHeader key (Some sequence) (len body) last))
          (len (continuation_header_bytes key (len body) sequence last)))) by (by apply continuation_header_parses).
  unfold assemble_if_needed. rewrite Hp. cbn [header_len parsed_header envelope_payload wrapped].
  rewrite slice_from_drop by len_solve. rewrite drop_app_length' by len_solve.
  unfold process_continuation_frame. cbn [cf_body_len]. rewrite decide_False by lia.
  destruct (accept_continuation_frame_at s _ body now) as [s' [r|e]]; [done|].
  by destruct (record_none failures limit).
Qed.

(** A message in pieces: the first frame announces the total, the continuation
    frames are numbered from 1 and the last one is marked. *)
Fixpoint continuations (key sequence : Z) (bodies : list (list Z)) : list (ContinuationFrameHeader * list Z) :=
  match bodies with
  | [] => []
  | body :: bodies =>
      (mk_ContinuationFrameHeader key (Some sequence) (len body) (bool_decide (bodies = [])), body)
      :: continuations key (sequence + 1) bodies
  end.
Definition continuation_frame (c : ContinuationFrameHeader * list Z) : result (list Z) io_error :=
  continuation_frame_payload (cf_message_key c.1) (default 0 (cf_sequence c.1)) c.2 (cf_is_last c.1).
(** One frame through the pipeline's assembly; the failure count is part of the
    state. *)
Definition assembly_step (routing : EnvelopeRouting) (limit : Z)
    (st : option MessageAssemblyState * Z) (frame : list Z * Z)
    : (option MessageAssemblyState * Z) * result (option Envelope) io_error :=
  let '(s, failures, r) :=
    assemble_if_needed (X := TestAssembler X) st.1 st.2 (wrapped routing frame.1) limit frame.2 in
  ((s, failures), r).

Lemma continuations_bodies key bodies : forall n, (continuations key n bodies).*2 = bodies.
Proof. induction bodies as [|b bodies IH]; intros n; [done|]. cbn. f_equal. apply IH. Qed.
Lemma length_continuations key bodies : forall n, length (continuations key n bodies) = length bodies.
Proof. induction bodies as [|b bodies IH]; intros n; [done|]. cbn. f_equal. apply IH. Qed.
Lemma continuations_numbered key bodies : forall n,
  cf_sequence <$> (continuations key n bodies).*1 = numbered 0 n (length bodies).
Proof.
  induction bodies as [|b bodies IH]; intros n; [done|]. cbn [continuations length].
  rewrite !fmap_cons, IH. unfold numbered. cbn [replicate app seq fst cf_sequence]. rewrite fmap_cons.
  f_equal; [f_equal; lia|]. rewrite <- fmap_S_seq, <- list_fmap_compose. apply list_fmap_ext.
  intros i x _. cbn. f_equal. lia.
Qed.
Lemma continuations_last key bodies : forall n, bodies <> [] ->
  cf_is_last <$> (continuations key n bodies).*1 = replicate (length bodies - 1) false ++ [true].
Proof.
  induction bodies as [|b bodies IH]; intros n Hne; [done|]. cbn [continuations].
  rewrite !fmap_cons. cbn [fst cf_is_last]. destruct bodies as [|b' bodies]; [done|].
  rewrite IH by done. rewrite bool_decide_false by done. cbn [length]. by rewrite !Nat.sub_succ, Nat.sub_0_r.
Qed.
Lemma continuations_sent key bodies n : bodies <> [] -> well_sent key (continuations key n bodies).
Proof.
  intros Hne. split.
  - clear Hne. revert n. induction bodies as [|b bodies IH]; intros n; constructor; [done|apply IH].
  - clear Hne. revert n. induction bodies as [|b bodies IH]; intros n; constructor; [done|apply IH].
  - rewrite length_continuations. by apply continuations_last.
Qed.

Definition frame_ok (c : ContinuationFrameHeader * list Z) : Prop :=
  u64 (cf_message_key c.1) /\ len c.2 <= u32_max /\ cf_body_len c.1 = len c.2
  /\ exists n, cf_sequence c.1 = Some n /\ u32 n.

Lemma continuations_ok key bodies : forall n,
  u64 key -> Forall (fun b => len b <= u32_max) bodies -> 0 <= n -> n + len bodies <= u32_max + 1 ->
  Forall frame_ok (continuations key n bodies).
Proof.
  induction bodies as [|b bodies IH]; intros n Hk Hb Hn Hm; [constructor|].
  inversion_clear Hb as [|?? Hb1 Hb2]. cbn [continuations].
  assert (len (b :: bodies) = 1 + len bodies) as El by (unfold len; cbn [length]; lia).
  pose proof (len_nonneg bodies). constructor; [|by apply IH; try lia].
  split; [done|]. split; [done|]. split; [done|]. exists n. split; [done|]. unfold u32. lia.
Qed.

Lemma continuation_frame_bytes c :
  frame_ok c -> exists n, cf_sequence c.1 = Some n /\ u32 n
    /\ continuation_frame c
       = Ok (continuation_header_bytes (cf_message_key c.1) (len c.2) n (cf_is_last c.1) ++ c.2).
Proof.
  intros (Hk & Hb & _ & n & Hn & Hu). exists n. split; [done|]. split; [done|].
  unfold continuation_frame. rewrite Hn. by apply continuation_payload_bytes.
Qed.

Lemma Ok_inj {A Er} (a b : A) : Ok (E := Er) a = Ok b -> a = b.
Proof. congruence. Qed.

(** Frames that the assembly state accepts pass through the pipeline. *)
Lemma run_frames routing limit failures conts : forall s frames ts,
  Forall frame_ok conts -> Forall2 (fun c f => continuation_frame c = Ok f) conts frames ->
  length ts = length conts -> Forall (fun r => is_ok r = true) (run feed_frame s (zip conts ts)).2 ->
  run (assembly_step routing limit) (Some s, failures) (zip frames ts)
  = ((Some (run feed_frame s (zip conts ts)).1, failures),
     map (fun r => match r with
                   | Ok a => Ok (Envelope_from_assembled <$> a)
                   | Err _ => Ok None
                   end) (run feed_frame s (zip conts ts)).2).
Proof.
  induction conts as [|c conts IH]; intros s frames ts Hok Hf Hl Hr.
  { by inversion Hf. }
  inversion Hf as [|? f ? frames' Hf1 Hf2]; subst. destruct ts as [|t ts]; [done|].
  inversion_clear Hok as [|?? Hc Hcs]. destruct (continuation_frame_bytes c Hc) as (n & Hn & Hu & Hb).
  rewrite Hb in Hf1. apply Ok_inj in Hf1. subst f. destruct Hc as (Hk & Hlen & Hbl & _).
  cbn [zip zip_with run] in *. unfold assembly_step at 1. cbn [fst snd] in *.
  rewrite assemble_continuation by done.
  assert (Hh : mk_ContinuationFrameHeader (cf_message_key c.1) (Some n) (len c.2) (cf_is_last c.1) = c.1).
  { rewrite <- Hn, <- Hbl. by destruct c as [[] ?]. }
  rewrite Hh. change (accept_continuation_frame_at s c.1 c.2 t) with (feed_frame s (c, t)).
  destruct (feed_frame s (c, t)) as [s1 r1].
  specialize (IH s1 frames' ts Hcs Hf2 ltac:(cbn in Hl; lia)).
  destruct (run feed_frame s1 (zip conts ts)) as [s2 outs]. cbn [fst snd] in *.
  inversion_clear Hr as [|?? Hr1 Hr2]. destruct r1 as [a|e]; [|done]. by rewrite (IH Hr2).
Qed.

Lemma frames_of conts : Forall frame_ok conts ->
  exists frames, Forall2 (fun c f => continuation_frame c = Ok f) conts frames.
Proof.
  induction 1 as [|c conts Hc _ [frames IH]]; [by exists []|].
  destruct (continuation_frame_bytes c Hc) as (n & _ & _ & Hb). eexists. by constructor.
Qed.

Lemma completion_map {A Bt Er Er'} (g : A -> Bt) n (a : A) :
  map (fun r : result (option A) Er => match r with Ok x => Ok (g <$> x) | Err _ => Ok None end) (completion n a)
  = completion (Er := Er') n (g a).
Proof. unfold completion. rewrite map_app. f_equal. induction (n - 1)%nat as [|k IH]; [done|]. cbn. by rewrite IH. Qed.
Lemma completion_ok {A Er} n (a : A) : Forall (fun r : result (option A) Er => is_ok r = true) (completion n a).
Proof. apply Forall_app. split; [by apply Forall_replicate|by repeat constructor]. Qed.

(** C15: A message sent in the frames of the test protocol comes out of the
    inbound pipeline whole.  For every cut of a body into a first and at least
    one further piece, within the protocol's widths and the receiver's limits,
    the builders make a first frame that announces the total and numbered
    continuation frames, and the pipeline's assembly, parsing each of them with
    the protocol's own parser, yields nothing until the last and then the
    envelope with the whole body, without counting a failure. *)
Theorem test_messages_assemble (s : MessageAssemblyState) (key failures limit t0 : Z)
    (routing : EnvelopeRouting) (body : list Z) (bodies : list (list Z)) (ts : list Z) :
  let total := len body + len (concat bodies) in
  st_wf s -> 0 < st_timeout s -> assemblies s !! key = None ->
  u64 key -> bodies <> [] -> len bodies <= u32_max -> total <= u32_max -> total <= st_max_message_size s ->
  budget_bound s (map_sum pa_buffered_bytes (assemblies s) + total) ->
  length ts = length bodies -> Forall (fun t => t - t0 < st_timeout s) ts ->
  exists first frames,
    first_frame_payload key body false (Some total) = Ok first
    /\ Forall2 (fun c f => continuation_frame c = Ok f) (continuations key 1 bodies) frames
    /\ let '(st, outs) := run (assembly_step routing limit) (Some s, failures) ((first, t0) :: zip frames ts) in
       st.2 = failures
       /\ outs = Ok None :: completion (length bodies) (wrapped routing (body ++ concat bodies)).
Proof.
  intros total Hwf Htm Hk Hu Hne Hm Ht Hsz Hbud Hl Hts.
  pose proof (len_nonneg body) as Hb0. pose proof (len_nonneg (concat bodies)) as Hc0.
  assert (Hbs : Forall (fun b => len b <= u32_max) bodies).
  { apply Forall_forall. intros b Hin. apply list_elem_of_split in Hin as (l1 & l2 & ->).
    pose proof (len_nonneg (concat l1)). pose proof (len_nonneg (concat l2)).
    unfold total in *. rewrite concat_app in *. cbn [concat] in *. rewrite !len_app in *. lia. }
  pose proof (continuations_ok key bodies 1 Hu Hbs ltac:(lia) ltac:(lia)) as Hok.
  destruct (frames_of _ Hok) as [frames Hf].
  exists (first_header_bytes key (len body) false (Some total) ++ body), frames.
  split; [apply first_payload_bytes; unfold total in *; lia|]. split; [done|]. cbn [run].
  unfold assembly_step at 1. cbn [fst snd].
  rewrite assemble_first by (done || (unfold opt_u32, u32, total in *; lia)).
  set (input := mk_FirstFrameInput (mk_FirstFrameHeader key 0 (len body) (Some total) false) routing [] body).
  pose proof (well_sent_delivers s input (continuations key 1 bodies) 0 (length bodies) 1 t0 ts) as Hd.
  cbv zeta in Hd. cbn [input input_header ff_message_key ff_is_last total_body_len input_body input_metadata
    input_routing] in Hd. fold input in Hd. rewrite continuations_bodies, length_continuations in Hd.
  specialize (Hd Hwf Htm Hk eq_refl (continuations_sent key bodies 1 Hne) (continuations_numbered key bodies 1)
    ltac:(unfold len in Hm; lia) ltac:(intros d [= <-]; done)
    ltac:(unfold len at 3; cbn [length Z.of_nat]; unfold total in *; lia)
    ltac:(rewrite Z.add_0_l; exact Hbud) Hl Hts).
  destruct (accept_first_frame_at s input t0) as [s1 r1]. destruct Hd as [-> Hd]. cbn [fmap option_fmap option_map].
  rewrite (run_frames routing limit failures (continuations key 1 bodies)) by
    (done || (by rewrite length_continuations) || (rewrite Hd; apply completion_ok)).
  cbn [fst snd]. split; [done|]. rewrite Hd, completion_map. by destruct routing.
Qed.
End Pipeline.

(** [1; 2; 3; 4; 5] in three frames. *)
Lemma test_messages_assemble_witness :
  exists first frames,
    first_frame_payload 7 [1; 2] false (Some 5) = Ok first
    /\ Forall2 (fun c f => continuation_frame c = Ok f) (continuations 7 1 [[3]; [4; 5]]) frames
    /\ let '(st, outs) :=
         run (assembly_step (X := demo) (mk_EnvelopeRouting 4 None) 10) (Some (with_budgets 16 100 (Some 8) None), 0)
           ((first, 0) :: zip frames [5; 6]) in
       st.2 = 0
       /\ outs = [Ok None; Ok None; Ok (Some (mk_Envelope 4 None [1; 2; 3; 4; 5]))].
Proof.
  apply (test_messages_assemble (X := demo) (with_budgets 16 100 (Some 8) None) 7 0 10 0
    (mk_EnvelopeRouting 4 None) [1; 2] [[3]; [4; 5]] [5; 6]); try reflexivity; try (vm_compute; congruence).
  - apply with_budgets_wf. split_and!; [done|done|intros l [= <-]; done|done].
  - split; vm_compute; congruence.
  - split; [|done]. intros l [= <-]. vm_compute. congruence.
  - repeat constructor.
Defined.

(** ** Headers alone *)

(** A builder makes a header and the body; the parser reads the header back
    whatever follows it, and refuses every proper part of it as too short. *)
Theorem test_headers_round_trip (key : Z) (body rest : list Z) (last : bool) (total : option Z) (sequence : Z) :
  u64 key -> len body <= u32_max -> opt_u32 total -> u32 sequence ->
  (exists hdr, first_frame_payload key body last total = Ok (hdr ++ body)
     /\ test_parse_frame_header (hdr ++ rest)
        = Ok (mk_ParsedFrameHeader (First (mk_FirstFrameHeader key 0 (len body) total last)) (len hdr))
     /\ forall q r, hdr = q ++ r -> r <> [] ->
        test_parse_frame_header q = Err (invalid_data "header too short"))
  /\ (exists hdr, continuation_frame_payload key sequence body last = Ok (hdr ++ body)
     /\ test_parse_frame_header (hdr ++ rest)
        = Ok (mk_ParsedFrameHeader (Continuation (mk_ContinuationFrameHeader key (Some sequence) (len body) last))
                (len hdr))
     /\ forall q r, hdr = q ++ r -> r <> [] ->
        test_parse_frame_header q = Err (invalid_data "header too short")).
Proof.
  intros Hk Hb Ht Hs. pose proof (len_nonneg body). split.
  - exists (first_header_bytes key (len body) last total). split; [by apply first_payload_bytes|].
    split; [by apply first_header_parses|]. intros q r. by apply first_header_cut.
  - exists (continuation_header_bytes key (len body) sequence last). split; [by apply continuation_payload_bytes|].
    split; [by apply continuation_header_parses|]. intros q r. by apply continuation_header_cut.
Qed.

(** ** [frame_codec.rs] *)

Record TestFrame : Type := mk_TestFrame { tag : Z; test_payload : list Z }.
(** The counter is shared by the clones of the codec. *)
Record TestCodec : Type := mk_TestCodec { test_limit : Z; wraps : Z }.
Definition TestCodec_new (max_frame_length : Z) : TestCodec := mk_TestCodec max_frame_length 0.

Definition TEST_HEADER_LEN : Z := 2.
Definition test_decode (self : TestCodec) (src : list Z) : list Z * result (option TestFrame) io_error :=
  match src with
  | tag :: payload_len :: _ =>
      if test_limit self <? payload_len then (src, Err (mk_io_error InvalidData "payload too large"))
      else if len src <? TEST_HEADER_LEN + payload_len then (src, Ok None)
      else
        let frame_bytes := take (Z.to_nat (TEST_HEADER_LEN + payload_len)) src in
        (drop (Z.to_nat (TEST_HEADER_LEN + payload_len)) src,
         Ok (Some (mk_TestFrame tag (drop (Z.to_nat TEST_HEADER_LEN) frame_bytes))))
  | _ => (src, Ok None)
  end.
Definition test_encode (self : TestCodec) (item : TestFrame) (dst : list Z) : list Z * result unit io_error :=
  if test_limit self <? len (test_payload item)
  then (dst, Err (mk_io_error InvalidInput "payload too large"))
  else match try_into u8_max (len (test_payload item)) with
       | None => (dst, Err (mk_io_error InvalidInput "payload too long"))
       | Some payload_len => (dst ++ [tag item; payload_len] ++ test_payload item, Ok tt)
       end.
Definition test_wrap_payload (self : TestCodec) (payload : list Z) : TestCodec * TestFrame :=
  (mk_TestCodec (test_limit self) (wrapping_add usize_max (wraps self) 1), mk_TestFrame 66 payload).

#[export] Instance test_codec : FrameCodec := {|
  FrameCodec.Codec := TestCodec;
  FrameCodec.Frame := TestFrame;
  FrameCodec.Decoder := unit;
  FrameCodec.decoder _ := tt;
  FrameCodec.decode c _ src := let '(src, r) := test_decode c src in (tt, src, r);
  FrameCodec.encode := test_encode;
  FrameCodec.frame_payload := test_payload;
  FrameCodec.wrap_payload c p := (test_wrap_payload c p).2;
  FrameCodec.correlation_id f := Some (tag f);
  FrameCodec.max_frame_length := test_limit
|}.

Definition test_carries (c : TestCodec) (f : TestFrame) : Prop :=
  len (test_payload f) <= test_limit c /\ len (test_payload f) <= u8_max.
Definition test_header (f : TestFrame) : list Z := [tag f; len (test_payload f)].

Lemma test_decode_header c f rest :
  test_carries c f ->
  test_decode c (test_header f ++ rest)
  = if len rest <? len (test_payload f) then (test_header f ++ rest, Ok None)
    else (drop (length (test_payload f)) rest,
          Ok (Some (mk_TestFrame (tag f) (take (length (test_payload f)) rest)))).
Proof.
  intros [Hl Hu]. pose proof (len_nonneg (test_payload f)). pose proof (len_nonneg rest).
  unfold test_decode, test_header. cbn [app].
  rewrite (proj2 (Z.ltb_ge (test_limit c) _)) by lia.
  assert (El : len (tag f :: len (test_payload f) :: rest) = TEST_HEADER_LEN + len rest)
    by (unfold len, TEST_HEADER_LEN; cbn [length]; lia).
  rewrite El. unfold TEST_HEADER_LEN in *.
  destruct (Z.ltb_spec (len rest) (len (test_payload f))), (Z.ltb_spec (2 + len rest) (2 + len (test_payload f)));
    try lia; [done|].
  replace (Z.to_nat (2 + len (test_payload f))) with (S (S (length (test_payload f)))) by (unfold len; lia).
  done.
Qed.

#[export] Instance test_stream : StreamCodec test_codec.
Proof.
  refine {| carries := test_carries : Codec -> FrameCodec.Frame -> Prop;
            wire _ f := test_header f ++ test_payload f;
            unread _ _ buf p := buf = p |}.
  - done.
  - intros c f dst [Hl Hu]. pose proof (len_nonneg (test_payload f)). cbn [FrameCodec.encode test_codec].
    unfold test_encode. rewrite (proj2 (Z.ltb_ge _ _)) by lia.
    by rewrite (proj2 (try_into_Some u8_max (len (test_payload f)) (len (test_payload f)))).
  - done.
  - by intros ???? ? ->.
  - intros c [] buf ->. cbn. eauto.
  - intros c [] buf f rest Hc -> _. exists tt, rest. cbn [FrameCodec.decode test_codec].
    rewrite (reads_whole (test_decode c) (test_header f) (test_payload f) (mk_TestFrame (tag f)));
      [by destruct f|]. intros. by apply test_decode_header.
  - intros c [] buf f p q Hc Hw Hq -> _. exists tt, p. cbn [FrameCodec.decode test_codec].
    rewrite (waits_on_part (test_decode c) (test_header f) (test_payload f) (mk_TestFrame (tag f))) with (q := q);
      [done| |intros; by apply test_decode_header|done|done].
    intros p0 Hp. unfold len in Hp. destruct p0 as [|a [|b p0]]; cbn in Hp; try done. lia.
Defined.

(** ** [echo_server.rs] *)

Inductive ServerMode : Type := ModeEcho | ModeMismatch.

Section EchoServer.
Context {B : BincodeMessage Envelope}.

Definition process_frame (mode : ServerMode) (bytes : list Z) : option (list Z) :=
  match (from_bytes bytes).1 with
  | Err _ => None
  | Ok (envelope, _) =>
      let response :=
        match mode with
        | ModeEcho => envelope
        | ModeMismatch =>
            let wrong_id := (fun id => wrapping_add u64_max id 999) <$> envelope_correlation_id envelope in
            mk_Envelope (envelope_id envelope) wrong_id (envelope_payload envelope)
        end in
      match to_bytes response with Ok bytes => Some bytes | Err _ => None end
  end.

(** Echoing gives the same bytes back.  The mismatch mode answers an envelope
    that has an id with another id, so that no correlated call accepts it. *)
Lemma echo_server_modes {BL : BincodeMessageLaws Envelope} (e : Envelope) (bs : list Z) :
  bincode_encode e = Ok bs -> claimed e <= MAX_FRAME_LENGTH ->
  process_frame ModeEcho bs = Some bs
  /\ forall id wrong, envelope_correlation_id e = Some id -> u64 id ->
     process_frame ModeMismatch bs = Some wrong ->
     claimed (mk_Envelope (envelope_id e) (Some (wrapping_add u64_max id 999)) (envelope_payload e))
       <= MAX_FRAME_LENGTH ->
     exists e' n, (from_bytes wrong).1 = Ok (e', n) /\ envelope_correlation_id e' <> Some id
       /\ envelope_id e' = envelope_id e /\ envelope_payload e' = envelope_payload e.
Proof.
  intros He Hl. unfold process_frame, from_bytes, to_bytes. cbn [fst].
  pose proof (decode_encoded e bs [] bounded_bincode_config He Hl) as Hd. rewrite app_nil_r in Hd. rewrite Hd.
  rewrite He. split; [done|]. intros id wrong Hid Hu Hw Hlw. rewrite Hid in Hw. cbn [fmap option_fmap option_map] in Hw.
  destruct (bincode_encode _) as [w|] eqn:Ew in Hw; [|done]. injection Hw as <-.
  pose proof (decode_encoded _ w [] bounded_bincode_config Ew Hlw) as Hd'. rewrite app_nil_r in Hd'.
  eexists _, _. split; [exact Hd'|]. cbn [envelope_correlation_id envelope_id envelope_payload].
  split; [|done]. intros [= E]. unfold wrapping_add, u64, u64_max in *.
  destruct (Z_lt_ge_dec (id + 999) (2 ^ 64)) as [Hlt|Hge].
  - rewrite Z.mod_small in E by lia. lia.
  - replace (id + 999) with (id + 999 - 2 ^ 64 + 1 * 2 ^ 64) in E by lia.
    rewrite Z.mod_add, Z.mod_small in E by lia. lia.
Qed.
End EchoServer.
